(** * ObjectMonitor: the contended monitor core of HotSpot (loom branch)

    A shallow embedding of [src/hotspot/share/runtime/objectMonitor.cpp]
    and the properties of it that the specification states.

    The embedding follows the product build of the file: [assert] and the
    code under [#ifdef ASSERT] are compiled out, [guarantee] stays and stops
    the VM when it fails.  Tracing that never feeds back into the monitor
    (JFR events, DTrace probes, PerfData counters, JVMTI posts, the OSThread
    and JavaThread status wrappers) is left out; what the file reads from
    collaborators that are not part of it (the thread's interrupt flag, the
    result of freezing a continuation, the JVMTI switches) is state or
    configuration of the model. *)

From Stdlib Require Import ZArith Lia List Bool String.
From stdpp Require Import base option gmap list.

Local Open Scope Z_scope.

(** ** Machine integers

    [int] is 32 bits and [intx] 64 bits; the atomic adds of the file wrap. *)

Definition INT_MIN : Z := - 2 ^ 31.
Definition INT_MAX : Z := 2 ^ 31 - 1.

Definition wrap (bits : Z) (z : Z) : Z :=
  (z + 2 ^ (bits - 1)) mod 2 ^ bits - 2 ^ (bits - 1).

Definition int_add (a b : Z) : Z := wrap 32 (a + b).
Definition int_sub (a b : Z) : Z := wrap 32 (a - b).
Definition int_mul (a b : Z) : Z := wrap 32 (a * b).
Definition intx_add (a b : Z) : Z := wrap 64 (a + b).

Definition in_int (z : Z) : Prop := INT_MIN <= z <= INT_MAX.

(** ** Adaptive spinning: the knobs and the two updates *)

(** The file-level tunables.  [Knob_SpinLimit], [Knob_PreSpin] and
    [Knob_FixedSpin] are rewritten by [ObjectMonitor::Initialize] on a
    uniprocessor, so they are a value the functions take, not constants. *)
Record Knobs := {
  Knob_SpinLimit : Z;
  Knob_Bonus : Z;
  Knob_Penalty : Z;
  Knob_Poverty : Z;
  Knob_FixedSpin : Z;
  Knob_PreSpin : Z
}.

Definition default_knobs : Knobs := {|
  Knob_SpinLimit := 5000;
  Knob_Bonus := 100;
  Knob_Penalty := 200;
  Knob_Poverty := 1000;
  Knob_FixedSpin := 0;
  Knob_PreSpin := 10
|}.

(** [ObjectMonitor::Initialize] when [os::is_MP()] is false. *)
Definition uniprocessor_knobs : Knobs := {|
  Knob_SpinLimit := 0;
  Knob_Bonus := 100;
  Knob_Penalty := 200;
  Knob_Poverty := 1000;
  Knob_FixedSpin := -1;
  Knob_PreSpin := 0
|}.

(** [adjust_up], lines 2225-2235. *)
Definition adjust_up (k : Knobs) (spin_duration : Z) : Z :=
  let x := spin_duration in
  if x <? Knob_SpinLimit k then
    let x := if x <? Knob_Poverty k then Knob_Poverty k else x in
    int_add x (Knob_Bonus k)
  else spin_duration.

(** [adjust_down], lines 2237-2250. *)
Definition adjust_down (k : Knobs) (spin_duration : Z) : Z :=
  let x := spin_duration in
  if 0 <? x then
    let x := int_sub x (Knob_Penalty k) in
    if x <? 0 then 0 else x
  else spin_duration.

(** A history of spin outcomes, applied to [_SpinDuration] in order. *)
Inductive SpinOutcome := SpinSuccess | SpinFailure.

Definition spin_update (k : Knobs) (d : Z) (o : SpinOutcome) : Z :=
  match o with
  | SpinSuccess => adjust_up k d
  | SpinFailure => adjust_down k d
  end.

Definition spin_updates (k : Knobs) (d : Z) (os : list SpinOutcome) : Z :=
  fold_left (spin_update k) os d.

(** The update the specification describes: raise to [Knob_Poverty], add
    [Knob_Bonus], clamp at [Knob_SpinLimit]. *)
Definition adjust_up_clamped (k : Knobs) (spin_duration : Z) : Z :=
  Z.min (Z.max spin_duration (Knob_Poverty k) + Knob_Bonus k) (Knob_SpinLimit k).

(** ** The data model *)

(** [ObjectWaiter::TStates], the states the file uses. *)
Inductive TStates := TS_RUN | TS_WAIT | TS_ENTER | TS_CXQ.

(** Modelled from the spec: the owner slot, whose declaration
    ([objectMonitor.hpp]) is not part of the sources.  The specification has
    it as a sum type [None | Thread(id) | StackLock(addr) | Deflater]. *)
Inductive Owner :=
| NoOwner
| OwnerThread (t : Z)
| StackLock (addr : Z)
| DEFLATER_MARKER.

(** Modelled from the spec: [owner_for], the identity a thread stores into
    the owner slot. *)
Definition owner_for (current : Z) : Owner := OwnerThread current.

Inductive Exception :=
| IllegalMonitorStateException
| InterruptedException
| OtherException (id : Z).

(** [ObjectMonitor::TryLockResult]. *)
Inductive TryLockResult := Success | HasOwner | Interference.

(** What [Continuation::try_preempt] answers. *)
Inductive freeze_result := freeze_ok | freeze_pinned_native | freeze_other.

(** The states of [java_lang_VirtualThread] the file names. *)
Inductive VThreadState :=
| RUNNING | BLOCKING | BLOCKED | WAITING | TIMED_WAITING | WAITED | TIMED_WAITED.

#[global] Instance TStates_eq_dec : EqDecision TStates.
Proof. solve_decision. Defined.
#[global] Instance Owner_eq_dec : EqDecision Owner.
Proof. solve_decision. Defined.
#[global] Instance Exception_eq_dec : EqDecision Exception.
Proof. solve_decision. Defined.
#[global] Instance TryLockResult_eq_dec : EqDecision TryLockResult.
Proof. solve_decision. Defined.
#[global] Instance freeze_result_eq_dec : EqDecision freeze_result.
Proof. solve_decision. Defined.
#[global] Instance VThreadState_eq_dec : EqDecision VThreadState.
Proof. solve_decision. Defined.

(** Pointers are addresses; [nullptr] is 0.  [0xBAD] is the poison the file
    stores into [_prev] of a node on the cxq. *)
Definition nullptr : Z := 0.
Definition BAD : Z := 2989.

(** [ObjectWaiter]: one record per blocked thread.  [_vthread] is the handle
    of the virtual thread, null for a platform thread ([is_vthread()]). *)
Record ObjectWaiter := {
  _next : Z;
  _prev : Z;
  _thread : Z;
  _vthread : Z;
  _notifier_tid : Z;
  w_recursions : Z;
  TState : TStates;
  _notified : bool;
  _is_wait : bool;
  _at_reenter : bool;
  _interrupted : bool;
  _active : bool
}.

Definition is_vthread (n : ObjectWaiter) : bool := negb (_vthread n =? nullptr).

(** The constructor of [ObjectWaiter] for a platform thread, lines 2409-2422. *)
Definition ObjectWaiter_new (current : Z) : ObjectWaiter := {|
  _next := nullptr; _prev := nullptr; _thread := current; _vthread := nullptr;
  _notifier_tid := 0; w_recursions := 0; TState := TS_RUN; _notified := false;
  _is_wait := false; _at_reenter := false; _interrupted := false;
  _active := false
|}.

(** The constructor of [ObjectWaiter] for a virtual thread, lines 2424-2428. *)
Definition ObjectWaiter_new_vthread (vt : Z) : ObjectWaiter := {|
  _next := nullptr; _prev := nullptr; _thread := nullptr; _vthread := vt;
  _notifier_tid := 0; w_recursions := 0; TState := TS_RUN; _notified := false;
  _is_wait := false; _at_reenter := false; _interrupted := false;
  _active := false
|}.

Definition set_next (v : Z) (n : ObjectWaiter) : ObjectWaiter := {|
  _next := v; _prev := _prev n; _thread := _thread n; _vthread := _vthread n;
  _notifier_tid := _notifier_tid n; w_recursions := w_recursions n;
  TState := TState n; _notified := _notified n; _is_wait := _is_wait n;
  _at_reenter := _at_reenter n; _interrupted := _interrupted n;
  _active := _active n |}.
Definition set_prev (v : Z) (n : ObjectWaiter) : ObjectWaiter := {|
  _next := _next n; _prev := v; _thread := _thread n; _vthread := _vthread n;
  _notifier_tid := _notifier_tid n; w_recursions := w_recursions n;
  TState := TState n; _notified := _notified n; _is_wait := _is_wait n;
  _at_reenter := _at_reenter n; _interrupted := _interrupted n;
  _active := _active n |}.
Definition set_notifier_tid (v : Z) (n : ObjectWaiter) : ObjectWaiter := {|
  _next := _next n; _prev := _prev n; _thread := _thread n; _vthread := _vthread n;
  _notifier_tid := v; w_recursions := w_recursions n;
  TState := TState n; _notified := _notified n; _is_wait := _is_wait n;
  _at_reenter := _at_reenter n; _interrupted := _interrupted n;
  _active := _active n |}.
Definition set_w_recursions (v : Z) (n : ObjectWaiter) : ObjectWaiter := {|
  _next := _next n; _prev := _prev n; _thread := _thread n; _vthread := _vthread n;
  _notifier_tid := _notifier_tid n; w_recursions := v;
  TState := TState n; _notified := _notified n; _is_wait := _is_wait n;
  _at_reenter := _at_reenter n; _interrupted := _interrupted n;
  _active := _active n |}.
Definition set_TState (v : TStates) (n : ObjectWaiter) : ObjectWaiter := {|
  _next := _next n; _prev := _prev n; _thread := _thread n; _vthread := _vthread n;
  _notifier_tid := _notifier_tid n; w_recursions := w_recursions n;
  TState := v; _notified := _notified n; _is_wait := _is_wait n;
  _at_reenter := _at_reenter n; _interrupted := _interrupted n;
  _active := _active n |}.
Definition set_notified (v : bool) (n : ObjectWaiter) : ObjectWaiter := {|
  _next := _next n; _prev := _prev n; _thread := _thread n; _vthread := _vthread n;
  _notifier_tid := _notifier_tid n; w_recursions := w_recursions n;
  TState := TState n; _notified := v; _is_wait := _is_wait n;
  _at_reenter := _at_reenter n; _interrupted := _interrupted n;
  _active := _active n |}.
Definition set_is_wait (v : bool) (n : ObjectWaiter) : ObjectWaiter := {|
  _next := _next n; _prev := _prev n; _thread := _thread n; _vthread := _vthread n;
  _notifier_tid := _notifier_tid n; w_recursions := w_recursions n;
  TState := TState n; _notified := _notified n; _is_wait := v;
  _at_reenter := _at_reenter n; _interrupted := _interrupted n;
  _active := _active n |}.
Definition set_active (v : bool) (n : ObjectWaiter) : ObjectWaiter := {|
  _next := _next n; _prev := _prev n; _thread := _thread n; _vthread := _vthread n;
  _notifier_tid := _notifier_tid n; w_recursions := w_recursions n;
  TState := TState n; _notified := _notified n; _is_wait := _is_wait n;
  _at_reenter := _at_reenter n; _interrupted := _interrupted n;
  _active := v |}.

(** [ObjectMonitor]: the fields the file reads and writes.  [_header] is the
    displaced mark word, [_object] the weak handle (null once the collector
    has cleared it). *)
Record ObjectMonitor := {
  _header : Z;
  _object : Z;
  _owner : Owner;
  _previous_owner_tid : Z;
  _recursions : Z;
  _EntryList : Z;
  _cxq : Z;
  _succ : Z;
  _Responsible : Z;
  _SpinDuration : Z;
  _contentions : Z;
  _WaitSet : Z;
  _waiters : Z;
  _WaitSetLock : Z
}.

Definition set_owner (v : Owner) (m : ObjectMonitor) : ObjectMonitor := {|
  _header := _header m; _object := _object m; _owner := v;
  _previous_owner_tid := _previous_owner_tid m; _recursions := _recursions m;
  _EntryList := _EntryList m; _cxq := _cxq m; _succ := _succ m;
  _Responsible := _Responsible m; _SpinDuration := _SpinDuration m;
  _contentions := _contentions m; _WaitSet := _WaitSet m;
  _waiters := _waiters m; _WaitSetLock := _WaitSetLock m |}.
Definition set_previous_owner_tid (v : Z) (m : ObjectMonitor) : ObjectMonitor := {|
  _header := _header m; _object := _object m; _owner := _owner m;
  _previous_owner_tid := v; _recursions := _recursions m;
  _EntryList := _EntryList m; _cxq := _cxq m; _succ := _succ m;
  _Responsible := _Responsible m; _SpinDuration := _SpinDuration m;
  _contentions := _contentions m; _WaitSet := _WaitSet m;
  _waiters := _waiters m; _WaitSetLock := _WaitSetLock m |}.
Definition set_recursions (v : Z) (m : ObjectMonitor) : ObjectMonitor := {|
  _header := _header m; _object := _object m; _owner := _owner m;
  _previous_owner_tid := _previous_owner_tid m; _recursions := v;
  _EntryList := _EntryList m; _cxq := _cxq m; _succ := _succ m;
  _Responsible := _Responsible m; _SpinDuration := _SpinDuration m;
  _contentions := _contentions m; _WaitSet := _WaitSet m;
  _waiters := _waiters m; _WaitSetLock := _WaitSetLock m |}.
Definition set_EntryList (v : Z) (m : ObjectMonitor) : ObjectMonitor := {|
  _header := _header m; _object := _object m; _owner := _owner m;
  _previous_owner_tid := _previous_owner_tid m; _recursions := _recursions m;
  _EntryList := v; _cxq := _cxq m; _succ := _succ m;
  _Responsible := _Responsible m; _SpinDuration := _SpinDuration m;
  _contentions := _contentions m; _WaitSet := _WaitSet m;
  _waiters := _waiters m; _WaitSetLock := _WaitSetLock m |}.
Definition set_cxq (v : Z) (m : ObjectMonitor) : ObjectMonitor := {|
  _header := _header m; _object := _object m; _owner := _owner m;
  _previous_owner_tid := _previous_owner_tid m; _recursions := _recursions m;
  _EntryList := _EntryList m; _cxq := v; _succ := _succ m;
  _Responsible := _Responsible m; _SpinDuration := _SpinDuration m;
  _contentions := _contentions m; _WaitSet := _WaitSet m;
  _waiters := _waiters m; _WaitSetLock := _WaitSetLock m |}.
Definition set_succ (v : Z) (m : ObjectMonitor) : ObjectMonitor := {|
  _header := _header m; _object := _object m; _owner := _owner m;
  _previous_owner_tid := _previous_owner_tid m; _recursions := _recursions m;
  _EntryList := _EntryList m; _cxq := _cxq m; _succ := v;
  _Responsible := _Responsible m; _SpinDuration := _SpinDuration m;
  _contentions := _contentions m; _WaitSet := _WaitSet m;
  _waiters := _waiters m; _WaitSetLock := _WaitSetLock m |}.
Definition set_Responsible (v : Z) (m : ObjectMonitor) : ObjectMonitor := {|
  _header := _header m; _object := _object m; _owner := _owner m;
  _previous_owner_tid := _previous_owner_tid m; _recursions := _recursions m;
  _EntryList := _EntryList m; _cxq := _cxq m; _succ := _succ m;
  _Responsible := v; _SpinDuration := _SpinDuration m;
  _contentions := _contentions m; _WaitSet := _WaitSet m;
  _waiters := _waiters m; _WaitSetLock := _WaitSetLock m |}.
Definition set_SpinDuration (v : Z) (m : ObjectMonitor) : ObjectMonitor := {|
  _header := _header m; _object := _object m; _owner := _owner m;
  _previous_owner_tid := _previous_owner_tid m; _recursions := _recursions m;
  _EntryList := _EntryList m; _cxq := _cxq m; _succ := _succ m;
  _Responsible := _Responsible m; _SpinDuration := v;
  _contentions := _contentions m; _WaitSet := _WaitSet m;
  _waiters := _waiters m; _WaitSetLock := _WaitSetLock m |}.
Definition set_contentions (v : Z) (m : ObjectMonitor) : ObjectMonitor := {|
  _header := _header m; _object := _object m; _owner := _owner m;
  _previous_owner_tid := _previous_owner_tid m; _recursions := _recursions m;
  _EntryList := _EntryList m; _cxq := _cxq m; _succ := _succ m;
  _Responsible := _Responsible m; _SpinDuration := _SpinDuration m;
  _contentions := v; _WaitSet := _WaitSet m;
  _waiters := _waiters m; _WaitSetLock := _WaitSetLock m |}.
Definition set_WaitSet (v : Z) (m : ObjectMonitor) : ObjectMonitor := {|
  _header := _header m; _object := _object m; _owner := _owner m;
  _previous_owner_tid := _previous_owner_tid m; _recursions := _recursions m;
  _EntryList := _EntryList m; _cxq := _cxq m; _succ := _succ m;
  _Responsible := _Responsible m; _SpinDuration := _SpinDuration m;
  _contentions := _contentions m; _WaitSet := v;
  _waiters := _waiters m; _WaitSetLock := _WaitSetLock m |}.
Definition set_waiters (v : Z) (m : ObjectMonitor) : ObjectMonitor := {|
  _header := _header m; _object := _object m; _owner := _owner m;
  _previous_owner_tid := _previous_owner_tid m; _recursions := _recursions m;
  _EntryList := _EntryList m; _cxq := _cxq m; _succ := _succ m;
  _Responsible := _Responsible m; _SpinDuration := _SpinDuration m;
  _contentions := _contentions m; _WaitSet := _WaitSet m;
  _waiters := v; _WaitSetLock := _WaitSetLock m |}.
Definition set_WaitSetLock (v : Z) (m : ObjectMonitor) : ObjectMonitor := {|
  _header := _header m; _object := _object m; _owner := _owner m;
  _previous_owner_tid := _previous_owner_tid m; _recursions := _recursions m;
  _EntryList := _EntryList m; _cxq := _cxq m; _succ := _succ m;
  _Responsible := _Responsible m; _SpinDuration := _SpinDuration m;
  _contentions := _contentions m; _WaitSet := _WaitSet m;
  _waiters := _waiters m; _WaitSetLock := v |}.

(** [ObjectMonitor::ObjectMonitor(oop)], lines 261-278. *)
Definition ObjectMonitor_new (k : Knobs) (object : Z) : ObjectMonitor := {|
  _header := 0; _object := object; _owner := NoOwner;
  _previous_owner_tid := 0; _recursions := 0; _EntryList := nullptr;
  _cxq := nullptr; _succ := nullptr; _Responsible := nullptr;
  _SpinDuration := Knob_SpinLimit k; _contentions := 0; _WaitSet := nullptr;
  _waiters := 0; _WaitSetLock := 0 |}.

(** The state of the executing thread that the file reads and writes:
    the [JavaThread] fields and what its collaborators answer.
    [on_virtual_thread] is [last_continuation() != nullptr &&
    ce->is_virtual_thread()]; [preempt_result] is the answer
    [Continuation::try_preempt] gives when it is asked. *)
Record JavaThread := {
  interrupted : bool;
  pending_exception : option Exception;
  suspended : bool;
  poll_armed : bool;
  current_pending_monitor : bool;
  current_waiting_monitor : bool;
  on_virtual_thread : bool;
  on_monitorenter : bool;
  preempt_result : freeze_result;
  preemption_cancelled : bool;
  contended_entered_monitor : bool;
  vthread : Z;
  relock_count : Z;
  held_monitor_count : Z
}.

Definition set_interrupted (v : bool) (t : JavaThread) : JavaThread := {|
  interrupted := v; pending_exception := pending_exception t;
  suspended := suspended t; poll_armed := poll_armed t;
  current_pending_monitor := current_pending_monitor t;
  current_waiting_monitor := current_waiting_monitor t;
  on_virtual_thread := on_virtual_thread t; on_monitorenter := on_monitorenter t;
  preempt_result := preempt_result t;
  preemption_cancelled := preemption_cancelled t;
  contended_entered_monitor := contended_entered_monitor t;
  vthread := vthread t; relock_count := relock_count t;
  held_monitor_count := held_monitor_count t |}.
Definition set_pending_exception (v : option Exception) (t : JavaThread) : JavaThread := {|
  interrupted := interrupted t; pending_exception := v;
  suspended := suspended t; poll_armed := poll_armed t;
  current_pending_monitor := current_pending_monitor t;
  current_waiting_monitor := current_waiting_monitor t;
  on_virtual_thread := on_virtual_thread t; on_monitorenter := on_monitorenter t;
  preempt_result := preempt_result t;
  preemption_cancelled := preemption_cancelled t;
  contended_entered_monitor := contended_entered_monitor t;
  vthread := vthread t; relock_count := relock_count t;
  held_monitor_count := held_monitor_count t |}.
Definition set_current_pending_monitor (v : bool) (t : JavaThread) : JavaThread := {|
  interrupted := interrupted t; pending_exception := pending_exception t;
  suspended := suspended t; poll_armed := poll_armed t;
  current_pending_monitor := v;
  current_waiting_monitor := current_waiting_monitor t;
  on_virtual_thread := on_virtual_thread t; on_monitorenter := on_monitorenter t;
  preempt_result := preempt_result t;
  preemption_cancelled := preemption_cancelled t;
  contended_entered_monitor := contended_entered_monitor t;
  vthread := vthread t; relock_count := relock_count t;
  held_monitor_count := held_monitor_count t |}.
Definition set_current_waiting_monitor (v : bool) (t : JavaThread) : JavaThread := {|
  interrupted := interrupted t; pending_exception := pending_exception t;
  suspended := suspended t; poll_armed := poll_armed t;
  current_pending_monitor := current_pending_monitor t;
  current_waiting_monitor := v;
  on_virtual_thread := on_virtual_thread t; on_monitorenter := on_monitorenter t;
  preempt_result := preempt_result t;
  preemption_cancelled := preemption_cancelled t;
  contended_entered_monitor := contended_entered_monitor t;
  vthread := vthread t; relock_count := relock_count t;
  held_monitor_count := held_monitor_count t |}.
Definition set_preemption_cancelled (v : bool) (t : JavaThread) : JavaThread := {|
  interrupted := interrupted t; pending_exception := pending_exception t;
  suspended := suspended t; poll_armed := poll_armed t;
  current_pending_monitor := current_pending_monitor t;
  current_waiting_monitor := current_waiting_monitor t;
  on_virtual_thread := on_virtual_thread t; on_monitorenter := on_monitorenter t;
  preempt_result := preempt_result t;
  preemption_cancelled := v;
  contended_entered_monitor := contended_entered_monitor t;
  vthread := vthread t; relock_count := relock_count t;
  held_monitor_count := held_monitor_count t |}.
Definition set_contended_entered_monitor (v : bool) (t : JavaThread) : JavaThread := {|
  interrupted := interrupted t; pending_exception := pending_exception t;
  suspended := suspended t; poll_armed := poll_armed t;
  current_pending_monitor := current_pending_monitor t;
  current_waiting_monitor := current_waiting_monitor t;
  on_virtual_thread := on_virtual_thread t; on_monitorenter := on_monitorenter t;
  preempt_result := preempt_result t;
  preemption_cancelled := preemption_cancelled t;
  contended_entered_monitor := v;
  vthread := vthread t; relock_count := relock_count t;
  held_monitor_count := held_monitor_count t |}.
Definition set_relock_count (v : Z) (t : JavaThread) : JavaThread := {|
  interrupted := interrupted t; pending_exception := pending_exception t;
  suspended := suspended t; poll_armed := poll_armed t;
  current_pending_monitor := current_pending_monitor t;
  current_waiting_monitor := current_waiting_monitor t;
  on_virtual_thread := on_virtual_thread t; on_monitorenter := on_monitorenter t;
  preempt_result := preempt_result t;
  preemption_cancelled := preemption_cancelled t;
  contended_entered_monitor := contended_entered_monitor t;
  vthread := vthread t; relock_count := v;
  held_monitor_count := held_monitor_count t |}.
Definition set_held_monitor_count (v : Z) (t : JavaThread) : JavaThread := {|
  interrupted := interrupted t; pending_exception := pending_exception t;
  suspended := suspended t; poll_armed := poll_armed t;
  current_pending_monitor := current_pending_monitor t;
  current_waiting_monitor := current_waiting_monitor t;
  on_virtual_thread := on_virtual_thread t; on_monitorenter := on_monitorenter t;
  preempt_result := preempt_result t;
  preemption_cancelled := preemption_cancelled t;
  contended_entered_monitor := contended_entered_monitor t;
  vthread := vthread t; relock_count := relock_count t;
  held_monitor_count := v |}.

(** The fields of a [java.lang.VirtualThread] object the file touches
    through [java_lang_VirtualThread], and the waiter its stack chunk
    carries ([chunk->set_object_waiter]). *)
Record VirtualThread := {
  vt_state : VThreadState;
  vt_notified : bool;
  vt_recheckInterval : Z;
  vt_onWaitingList : bool;
  vt_millisOnTimedWait : Z;
  vt_thread_id : Z;
  vt_object_waiter : Z
}.

Definition set_vt_state (v : VThreadState) (t : VirtualThread) : VirtualThread := {|
  vt_state := v; vt_notified := vt_notified t;
  vt_recheckInterval := vt_recheckInterval t;
  vt_onWaitingList := vt_onWaitingList t;
  vt_millisOnTimedWait := vt_millisOnTimedWait t;
  vt_thread_id := vt_thread_id t; vt_object_waiter := vt_object_waiter t |}.
Definition set_vt_notified (v : bool) (t : VirtualThread) : VirtualThread := {|
  vt_state := vt_state t; vt_notified := v;
  vt_recheckInterval := vt_recheckInterval t;
  vt_onWaitingList := vt_onWaitingList t;
  vt_millisOnTimedWait := vt_millisOnTimedWait t;
  vt_thread_id := vt_thread_id t; vt_object_waiter := vt_object_waiter t |}.
Definition set_vt_recheckInterval (v : Z) (t : VirtualThread) : VirtualThread := {|
  vt_state := vt_state t; vt_notified := vt_notified t;
  vt_recheckInterval := v;
  vt_onWaitingList := vt_onWaitingList t;
  vt_millisOnTimedWait := vt_millisOnTimedWait t;
  vt_thread_id := vt_thread_id t; vt_object_waiter := vt_object_waiter t |}.
Definition set_vt_onWaitingList (v : bool) (t : VirtualThread) : VirtualThread := {|
  vt_state := vt_state t; vt_notified := vt_notified t;
  vt_recheckInterval := vt_recheckInterval t;
  vt_onWaitingList := v;
  vt_millisOnTimedWait := vt_millisOnTimedWait t;
  vt_thread_id := vt_thread_id t; vt_object_waiter := vt_object_waiter t |}.
Definition set_vt_millisOnTimedWait (v : Z) (t : VirtualThread) : VirtualThread := {|
  vt_state := vt_state t; vt_notified := vt_notified t;
  vt_recheckInterval := vt_recheckInterval t;
  vt_onWaitingList := vt_onWaitingList t;
  vt_millisOnTimedWait := v;
  vt_thread_id := vt_thread_id t; vt_object_waiter := vt_object_waiter t |}.
Definition set_vt_object_waiter (v : Z) (t : VirtualThread) : VirtualThread := {|
  vt_state := vt_state t; vt_notified := vt_notified t;
  vt_recheckInterval := vt_recheckInterval t;
  vt_onWaitingList := vt_onWaitingList t;
  vt_millisOnTimedWait := vt_millisOnTimedWait t;
  vt_thread_id := vt_thread_id t; vt_object_waiter := v |}.

(** What is fixed for a run: the knobs, the build ([LOOM_MONITOR_SUPPORT],
    [INCLUDE_JFR]), the tracing switches that guard a store or an unpark,
    [markWord::encode(this)], and what the thread service answers for a
    thread that is notified
    ([JavaThreadBlockedOnMonitorEnterState::wait_reenter_begin], whose
    answer [ObjectWaiter::wait_reenter_begin] keeps in [_active];
    threadService.hpp is not part of the sources, so the answer is taken as
    it comes). *)
Record Config := {
  knobs : Knobs;
  LOOM_MONITOR_SUPPORT : bool;
  INCLUDE_JFR : bool;
  EventJavaMonitorEnter_is_enabled : bool;
  should_post_monitor_waited : bool;
  should_post_monitor_contended_entered : bool;
  encode_this : Z;
  JavaThreadBlockedOnMonitorEnterState_wait_reenter_begin : Z -> bool
}.

(** Everything the threads share, and the executing thread's own state.
    [mark] is the header word of the object the monitor belongs to; [top] is
    where the next [ObjectWaiter] is placed. *)
Record World := {
  mon : ObjectMonitor;
  heap : gmap Z ObjectWaiter;
  self : JavaThread;
  vthreads : gmap Z VirtualThread;
  mark : Z;
  top : Z
}.

Definition upd_mon (f : ObjectMonitor -> ObjectMonitor) (w : World) : World := {|
  mon := f (mon w); heap := heap w; self := self w; vthreads := vthreads w;
  mark := mark w; top := top w |}.
Definition upd_heap (f : gmap Z ObjectWaiter -> gmap Z ObjectWaiter) (w : World) : World := {|
  mon := mon w; heap := f (heap w); self := self w; vthreads := vthreads w;
  mark := mark w; top := top w |}.
Definition upd_self (f : JavaThread -> JavaThread) (w : World) : World := {|
  mon := mon w; heap := heap w; self := f (self w); vthreads := vthreads w;
  mark := mark w; top := top w |}.
Definition upd_vthreads (f : gmap Z VirtualThread -> gmap Z VirtualThread) (w : World) : World := {|
  mon := mon w; heap := heap w; self := self w; vthreads := f (vthreads w);
  mark := mark w; top := top w |}.
Definition set_mark (v : Z) (w : World) : World := {|
  mon := mon w; heap := heap w; self := self w; vthreads := vthreads w;
  mark := v; top := top w |}.
Definition set_top (v : Z) (w : World) : World := {|
  mon := mon w; heap := heap w; self := self w; vthreads := vthreads w;
  mark := mark w; top := v |}.

(** ** Executions

    A call runs in its caller's thread while the other threads run too.  An
    execution carries the moves of the environment still to come: before
    every access to shared state the next move is applied, and an exhausted
    list is a quiet environment.  The trace records what the executing thread
    itself did to the synchronisation slots and to its collaborators. *)

Inductive Event :=
| EvTrySetOwner (old new prev : Owner)
| EvClearOwner
| EvSetOwner (new : Owner)
| EvContentions (c : Z)
| EvAddContentions (d : Z)
| EvCasContentions (prev : Z)
| EvSetContentions (c : Z)
| EvCasCxq (expected new prev : Z)
| EvCasMark (prev : Z)
| EvTryPreempt (r : freeze_result)
| EvParkReset
| EvPark (millis : option Z)
| EvUnpark (t : Z)
| EvUnparkVThreadUnparker
| EvIsInterrupted (clear r : bool)
| EvPendingException (pending : bool)
| EvNotified (node : Z) (v : bool)
| EvThrow (e : Exception).

Record Exec := {
  world : World;
  env : list (World -> World);
  trace : list Event
}.

Inductive Result (A : Type) :=
| Done (a : A) (e : Exec)
| Fatal (msg : string)
| OutOfFuel.
Arguments Done {A} a e.
Arguments Fatal {A} msg.
Arguments OutOfFuel {A}.

Definition M (A : Type) : Type := Exec -> Result A.

Definition ret {A} (a : A) : M A := fun e => Done a e.

Definition bind {A B} (m : M A) (k : A -> M B) : M B := fun e =>
  match m e with
  | Done a e' => k a e'
  | Fatal msg => Fatal msg
  | OutOfFuel => OutOfFuel
  end.

Notation "'do' x <- m ; k" := (bind m (fun x => k))
  (at level 10, x name, m at level 100, k at level 200, only parsing).
Notation "'do' ' p <- m ; k" := (bind m (fun p => k))
  (at level 10, p pattern, m at level 100, k at level 200, only parsing).

Definition fatal {A} (msg : string) : M A := fun _ => Fatal msg.

(** [guarantee(cond, msg)]: the VM stops when the condition fails. *)
Definition guarantee (cond : bool) (msg : string) : M unit :=
  if cond then ret tt else fatal msg.

Definition when (cond : bool) (m : M unit) : M unit :=
  if cond then m else ret tt.

(** The trace with the events of one access added; most accesses add none. *)
Definition record (t : list Event) (evs : list Event) : list Event :=
  match evs with
  | [] => t
  | _ => t ++ evs
  end.

(** The world the next access sees: the environment has moved once. *)
Definition interfere (e : Exec) : World :=
  match env e with
  | [] => world e
  | g :: _ => g (world e)
  end.

(** One access: the environment moves, then [f] reads and writes at once.
    [None] is an access through a pointer that holds no object. *)
Definition atomic {A} (f : World -> option (A * World)) (ev : A -> list Event) : M A :=
  fun e =>
    match f (interfere e) with
    | Some (a, w') =>
        Done a {| world := w'; env := tail (env e); trace := record (trace e) (ev a) |}
    | None => Fatal "access through an invalid pointer"
    end.

(** An access to what only the executing thread touches: no other thread
    can tell it from the next shared access, so the environment does not
    move. *)
Definition local {A} (f : World -> A * World) (ev : A -> list Event) : M A :=
  fun e =>
    let '(a, w') := f (world e) in
    Done a {| world := w'; env := env e; trace := record (trace e) (ev a) |}.

(** A loop that leaves by [break] or [return]: the body answers [inl s] to
    go round again with state [s], [inr a] to leave with [a]. *)
Fixpoint loop {S A} (fuel : nat) (body : S -> M (S + A)) (s : S) : M A :=
  match fuel with
  | O => fun _ => OutOfFuel
  | Datatypes.S n =>
      do r <- body s ;
      match r with
      | inl s' => loop n body s'
      | inr a => ret a
      end
  end.

(** *** Accesses to the monitor, to a waiter, to the thread *)

Definition load {A} (f : ObjectMonitor -> A) : M A :=
  atomic (fun w => Some (f (mon w), w)) (fun _ => []).
Definition store (f : ObjectMonitor -> ObjectMonitor) : M unit :=
  atomic (fun w => Some (tt, upd_mon f w)) (fun _ => []).

Definition node_load {A} (p : Z) (f : ObjectWaiter -> A) : M A :=
  atomic (fun w => n ← heap w !! p; Some (f n, w)) (fun _ => []).
Definition node_store (p : Z) (f : ObjectWaiter -> ObjectWaiter) : M unit :=
  atomic (fun w => n ← heap w !! p; Some (tt, upd_heap (insert p (f n)) w))
         (fun _ => []).

(** The fields of the thread that only the thread itself writes. *)
Definition self_load {A} (f : JavaThread -> A) : M A :=
  local (fun w => (f (self w), w)) (fun _ => []).
Definition self_store (f : JavaThread -> JavaThread) : M unit :=
  local (fun w => (tt, upd_self f w)) (fun _ => []).

Definition vt_load {A} (v : Z) (f : VirtualThread -> A) : M A :=
  atomic (fun w => t ← vthreads w !! v; Some (f t, w)) (fun _ => []).
Definition vt_store (v : Z) (f : VirtualThread -> VirtualThread) : M unit :=
  atomic (fun w => t ← vthreads w !! v; Some (tt, upd_vthreads (insert v (f t)) w))
         (fun _ => []).

(** A waiter placed on the stack or by [new]: a fresh address. *)
Definition new_node (n : ObjectWaiter) : M Z :=
  atomic (fun w => Some (top w, set_top (top w + 1) (upd_heap (insert (top w) n) w)))
         (fun _ => []).
Definition delete_node (p : Z) : M unit :=
  atomic (fun w => Some (tt, upd_heap (delete p) w)) (fun _ => []).

(** *** The owner slot *)

Definition owner_raw : M Owner := load _owner.

(** [try_set_owner_from] and [try_set_owner_from_raw]: a compare-and-swap
    that answers the value it found. *)
Definition try_set_owner_from (old new : Owner) : M Owner :=
  atomic (fun w =>
            let prev := _owner (mon w) in
            Some (prev, if decide (prev = old) then upd_mon (set_owner new) w else w))
         (fun prev => [EvTrySetOwner old new prev]).

Definition release_clear_owner : M unit :=
  atomic (fun w => Some (tt, upd_mon (set_owner NoOwner) w)) (fun _ => [EvClearOwner]).

(** [set_owner_from_raw(old, new)]: a plain store; the old value is only
    asserted. *)
Definition set_owner_from_raw (old new : Owner) : M unit :=
  atomic (fun w => Some (tt, upd_mon (set_owner new) w)) (fun _ => [EvSetOwner new]).

(** *** The contentions counter *)

Definition contentions : M Z :=
  atomic (fun w => Some (_contentions (mon w), w)) (fun c => [EvContentions c]).

Definition add_to_contentions (d : Z) : M unit :=
  atomic (fun w => Some (tt, upd_mon (fun m => set_contentions (int_add (_contentions m) d) m) w))
         (fun _ => [EvAddContentions d]).

Definition cmpxchg_contentions (expected new : Z) : M Z :=
  atomic (fun w =>
            let prev := _contentions (mon w) in
            Some (prev, if prev =? expected then upd_mon (set_contentions new) w else w))
         (fun prev => [EvCasContentions prev]).

(** Modelled from the spec: [is_being_async_deflated], declared in
    [objectMonitor.inline.hpp]: deflation is committed when [contentions]
    has been pushed negative. *)
Definition is_being_async_deflated : M bool :=
  do c <- contentions ; ret (c <? 0).

(** *** The cxq head and the Responsible slot *)

Definition cmpxchg_cxq (expected new : Z) : M Z :=
  atomic (fun w =>
            let prev := _cxq (mon w) in
            Some (prev, if prev =? expected then upd_mon (set_cxq new) w else w))
         (fun prev => [EvCasCxq expected new prev]).

(** [Atomic::replace_if_null(&_Responsible, v)]. *)
Definition replace_if_null_Responsible (v : Z) : M bool :=
  atomic (fun w =>
            if _Responsible (mon w) =? nullptr
            then Some (true, upd_mon (set_Responsible v) w)
            else Some (false, w))
         (fun _ => []).

(** *** The thread and its collaborators *)

(** [JavaThread::is_interrupted(clear_interrupted)]. *)
Definition is_interrupted (clear : bool) : M bool :=
  atomic (fun w =>
            let r := interrupted (self w) in
            Some (r, if r && clear then upd_self (set_interrupted false) w else w))
         (fun r => [EvIsInterrupted clear r]).

Definition HAS_PENDING_EXCEPTION : M bool :=
  local (fun w => (bool_decide (pending_exception (self w) <> None), w))
        (fun b => [EvPendingException b]).

(** [THROW]: the exception becomes the thread's pending exception. *)
Definition THROW (x : Exception) : M unit :=
  local (fun w => (tt, upd_self (set_pending_exception (Some x)) w))
        (fun _ => [EvThrow x]).

(** [JavaThread::is_suspended] and [SafepointMechanism::local_poll_armed]:
    flags other threads raise. *)
Definition is_suspended : M bool :=
  atomic (fun w => Some (suspended (self w), w)) (fun _ => []).
Definition local_poll_armed : M bool :=
  atomic (fun w => Some (poll_armed (self w), w)) (fun _ => []).

(** [ParkEvent]: [park] comes back after an unpark, a timeout or for no
    reason; what happened meanwhile is the environment's move. *)
Definition park_reset : M unit :=
  atomic (fun w => Some (tt, w)) (fun _ => [EvParkReset]).
Definition park (millis : option Z) : M unit :=
  atomic (fun w => Some (tt, w)) (fun _ => [EvPark millis]).
Definition unpark (t : Z) : M unit :=
  atomic (fun w => Some (tt, w)) (fun _ => [EvUnpark t]).
Definition unpark_vthread_unparker : M unit :=
  atomic (fun w => Some (tt, w)) (fun _ => [EvUnparkVThreadUnparker]).

(** [Continuation::try_preempt]. *)
Definition try_preempt : M freeze_result :=
  atomic (fun w => Some (preempt_result (self w), w)) (fun r => [EvTryPreempt r]).

(** Modelled from the spec: the id the tracing layer gives a thread
    ([JFR_THREAD_ID]); the thread's identity stands for it. *)
Definition JFR_THREAD_ID (t : Z) : Z := t.

(** [object_peek] and [object]: the weak handle, null once cleared. *)
Definition object_peek : M Z := load _object.
Definition object : M Z := load _object.
Definition header : M Z := load _header.

(** [obj->cas_set_mark(new_mark, old_mark)]: answers the mark it found. *)
Definition cas_set_mark (new_mark old_mark : Z) : M Z :=
  atomic (fun w =>
            let prev := mark w in
            Some (prev, if prev =? old_mark then set_mark new_mark w else w))
         (fun prev => [EvCasMark prev]).

(** The plain store [_contentions = INT_MIN] of the dead-object path. *)
Definition set_contentions_raw (c : Z) : M unit :=
  atomic (fun w => Some (tt, upd_mon (set_contentions c) w)) (fun _ => [EvSetContentions c]).

(** The load of [node._notified] that [wait] keeps as [WasNotified]. *)
Definition load_notified (node : Z) : M bool :=
  atomic (fun w => n ← heap w !! node; Some (_notified n, w))
         (fun v => [EvNotified node v]).

(** Modelled from the spec: [Thread::SpinAcquire] and [Thread::SpinRelease]
    on [_WaitSetLock] (thread.cpp is not part of the sources): a
    test-and-set spin-lock. *)
Definition SpinAcquire (fuel : nat) : M unit :=
  loop fuel (fun _ : unit =>
    do got <- atomic (fun w =>
                if _WaitSetLock (mon w) =? 0
                then Some (true, upd_mon (set_WaitSetLock 1) w)
                else Some (false, w)) (fun _ => []) ;
    if got then ret (inr tt) else ret (inl tt)) tt.
Definition SpinRelease : M unit := store (set_WaitSetLock 0).

(** Modelled from the spec: [java_lang_VirtualThread::set_onWaitingList]
    and [cmpxchg_state] (javaClasses.cpp is not part of the sources; the
    specification leaves the continuation scheduler external): the first
    takes the flag once and says whether it did, the second is a
    compare-and-swap on the state. *)
Definition set_onWaitingList (vth : Z) : M bool :=
  atomic (fun w => t ← vthreads w !! vth;
            if vt_onWaitingList t then Some (false, w)
            else Some (true, upd_vthreads (insert vth (set_vt_onWaitingList true t)) w))
         (fun _ => []).
Definition cmpxchg_state (vth : Z) (old new : VThreadState) : M unit :=
  atomic (fun w => t ← vthreads w !! vth;
            if decide (vt_state t = old)
            then Some (tt, upd_vthreads (insert vth (set_vt_state new t)) w)
            else Some (tt, w))
         (fun _ => []).

(** [JvmtiDeferredUpdates::get_and_reset_relock_count_after_wait]. *)
Definition get_and_reset_relock_count_after_wait : M Z :=
  atomic (fun w => Some (relock_count (self w), upd_self (set_relock_count 0) w))
         (fun _ => []).

Definition MAX_RECHECK_INTERVAL : Z := 1000.

(** ** The functions of objectMonitor.cpp *)

Section ObjectMonitor.
Variable cfg : Config.

(** [ObjectMonitor::TryLock], lines 553-565. *)
Definition TryLock (current : Z) : M TryLockResult :=
  do own <- owner_raw ;
  if decide (own <> NoOwner) then ret HasOwner else
  do prev <- try_set_owner_from NoOwner (owner_for current) ;
  if decide (prev = NoOwner) then ret Success else ret Interference.

(** [ObjectMonitor::short_fixed_spin], lines 2252-2266: the loop runs
    [spin_count] times at most. *)
Fixpoint short_fixed_spin_loop (current : Z) (adapt : bool) (n : nat) : M bool :=
  match n with
  | O => ret false
  | S n' =>
      do status <- TryLock current ;
      match status with
      | Success =>
          do _ <- when adapt
                    (do d <- load _SpinDuration ;
                     store (set_SpinDuration (adjust_up (knobs cfg) d))) ;
          ret true
      | Interference => ret false
      | HasOwner => short_fixed_spin_loop current adapt n'
      end
  end.

Definition short_fixed_spin (current : Z) (spin_count : Z) (adapt : bool) : M bool :=
  short_fixed_spin_loop current adapt (Z.to_nat spin_count).

(** The [while (--ctr >= 0)] loop of [TrySpin], lines 2314-2383.  It answers
    the counter it stopped at and whether the lock was taken. *)
Fixpoint TrySpin_loop (current : Z) (n : nat) (ctr : Z) (prv : Owner) : M (Z * bool) :=
  let ctr := ctr - 1 in
  match n with
  | O => ret (ctr, false)
  | S n' =>
      if ctr <? 0 then ret (ctr, false) else
      do armed <- (if Z.land ctr 255 =? 0 then local_poll_armed else ret false) ;
      if armed then ret (ctr, false) else
      do ox <- owner_raw ;
      if decide (ox = NoOwner) then
        do ox <- try_set_owner_from NoOwner (owner_for current) ;
        if decide (ox = NoOwner) then
          do sc <- load _succ ;
          do _ <- when (sc =? current) (store (set_succ nullptr)) ;
          do d <- load _SpinDuration ;
          do _ <- store (set_SpinDuration (adjust_up (knobs cfg) d)) ;
          ret (ctr, true)
        else ret (ctr, false)
      else if bool_decide (ox <> prv) && bool_decide (prv <> NoOwner) then
        ret (ctr, false)
      else
        do sc <- load _succ ;
        do _ <- when (sc =? nullptr) (store (set_succ current)) ;
        TrySpin_loop current n' ctr ox
  end.

(** [ObjectMonitor::TrySpin], lines 2269-2403. *)
Definition TrySpin (current : Z) : M bool :=
  let knob_fixed_spin := Knob_FixedSpin (knobs cfg) in
  if 0 <? knob_fixed_spin then short_fixed_spin current knob_fixed_spin false else
  let knob_pre_spin := Knob_PreSpin (knobs cfg) in
  do pre <- short_fixed_spin current knob_pre_spin true ;
  if pre then ret true else
  do ctr <- load _SpinDuration ;
  if ctr <=? 0 then ret false else
  do sc <- load _succ ;
  do _ <- when (sc =? nullptr) (store (set_succ current)) ;
  do '(ctr, acquired) <- TrySpin_loop current (Z.to_nat ctr) ctr NoOwner ;
  if acquired then ret true else
  do _ <- when (ctr <? 0)
            (do d <- load _SpinDuration ;
             store (set_SpinDuration (adjust_down (knobs cfg) d))) ;
  do sc <- load _succ ;
  if sc =? current then
    do _ <- store (set_succ nullptr) ;
    do r <- TryLock current ;
    ret (bool_decide (r = Success))
  else ret false.

(** [ObjectMonitor::UnlinkAfterAcquire], lines 1267-1328. *)
Definition UnlinkAfterAcquire (fuel : nat) (current currentNode : Z) : M unit :=
  do ts <- node_load currentNode TState ;
  if decide (ts = TS_ENTER) then
    do nxt <- node_load currentNode _next ;
    do prv <- node_load currentNode _prev ;
    do _ <- when (negb (nxt =? nullptr)) (node_store nxt (set_prev prv)) ;
    do _ <- when (negb (prv =? nullptr)) (node_store prv (set_next nxt)) ;
    do el <- load _EntryList ;
    when (currentNode =? el) (store (set_EntryList nxt))
  else
    do v <- load _cxq ;
    do popped <- (if negb (v =? currentNode) then ret false else
                  do nx <- node_load currentNode _next ;
                  do prev <- cmpxchg_cxq v nx ;
                  ret (prev =? v)) ;
    if popped then ret tt else
    do v <- (if v =? currentNode then load _cxq else ret v) ;
    do '(p, q) <- loop fuel (fun '(p, q) =>
                    if negb (p =? nullptr) && negb (p =? currentNode) then
                      do nx <- node_load p _next ; ret (inl (nx, p))
                    else ret (inr (p, q))) (v, nullptr) ;
    do nx <- node_load p _next ;
    node_store q (set_next nx).

(** [ObjectMonitor::ExitEpilog], lines 1560-1604. *)
Definition ExitEpilog (current Wakee : Z) : M unit :=
  do isv <- node_load Wakee is_vthread ;
  do '(vth, t) <- (if negb isv then
                     do t <- node_load Wakee _thread ;
                     do _ <- store (set_succ t) ;
                     ret (nullptr, t)
                   else
                     do vth <- node_load Wakee _vthread ;
                     do tid <- vt_load vth vt_thread_id ;
                     do _ <- store (set_succ tid) ;
                     ret (vth, nullptr)) ;
  do _ <- release_clear_owner ;
  if vth =? nullptr then unpark t
  else
    do added <- set_onWaitingList vth ;
    when added unpark_vthread_unparker.

(** [ObjectMonitor::exit], lines 1387-1558. *)
Definition exit (fuel : nat) (current : Z) (not_suspended : bool) : M unit :=
  do cur <- owner_raw ;
  if decide (owner_for current <> cur) then ret tt else
  do rec <- load _recursions ;
  if negb (rec =? 0) then
    do rec <- load _recursions ;
    store (set_recursions (intx_add rec (-1)))
  else
  do _ <- store (set_Responsible nullptr) ;
  do _ <- when (INCLUDE_JFR cfg && (not_suspended && EventJavaMonitorEnter_is_enabled cfg))
            (store (set_previous_owner_tid (JFR_THREAD_ID current))) ;
  loop fuel (fun _ : unit =>
    do _ <- release_clear_owner ;
    do el <- load _EntryList ;
    do cx <- load _cxq ;
    do quiet <- (if Z.lor el cx =? 0 then ret true
                 else do sc <- load _succ ; ret (negb (sc =? nullptr))) ;
    if quiet then ret (inr tt) else
    do prev <- try_set_owner_from NoOwner (owner_for current) ;
    if decide (prev <> NoOwner) then ret (inr tt) else
    do o <- owner_raw ;
    do _ <- guarantee (bool_decide (o = owner_for current)) "invariant" ;
    do w <- load _EntryList ;
    if negb (w =? nullptr) then
      do _ <- ExitEpilog current w ; ret (inr tt)
    else
    do w <- load _cxq ;
    if w =? nullptr then ret (inl tt) else
    do w <- loop fuel (fun w =>
              do u <- cmpxchg_cxq w nullptr ;
              if u =? w then ret (inr w) else ret (inl u)) w ;
    do _ <- store (set_EntryList w) ;
    do _ <- loop fuel (fun '(p, q) =>
              if p =? nullptr then ret (inr tt) else
              do ts <- node_load p TState ;
              do _ <- guarantee (bool_decide (ts = TS_CXQ)) "Invariant" ;
              do _ <- node_store p (set_TState TS_ENTER) ;
              do _ <- node_store p (set_prev q) ;
              do nx <- node_load p _next ;
              ret (inl (nx, p))) (w, nullptr) ;
    do sc <- load _succ ;
    if negb (sc =? nullptr) then ret (inl tt) else
    do w <- load _EntryList ;
    if negb (w =? nullptr) then
      do ts <- node_load w TState ;
      do _ <- guarantee (bool_decide (ts = TS_ENTER)) "invariant" ;
      do _ <- ExitEpilog current w ;
      ret (inr tt)
    else ret (inl tt)) tt.

(** [ObjectMonitor::install_displaced_markword_in_object], lines 666-713. *)
Definition install_displaced_markword_in_object (obj : Z) : M unit :=
  do _ <- guarantee (negb (obj =? nullptr)) "must be non-null" ;
  do l_object <- object_peek ;
  if l_object =? nullptr then ret tt else
  do dmw <- header ;
  do res <- cas_set_mark dmw (encode_this cfg) ;
  ret tt.

(** [ObjectMonitor::EnterI], lines 737-1001. *)
Definition EnterI (fuel : nat) (current : Z) : M unit :=
  do r <- TryLock current ;
  if decide (r = Success) then ret tt else
  do prev <- try_set_owner_from DEFLATER_MARKER (owner_for current) ;
  if decide (prev = DEFLATER_MARKER) then add_to_contentions 1 else
  do spun <- TrySpin current ;
  if spun then ret tt else
  do node <- new_node (ObjectWaiter_new current) ;
  do _ <- park_reset ;
  do _ <- node_store node (set_prev BAD) ;
  do _ <- node_store node (set_TState TS_CXQ) ;
  do pushed <- loop fuel (fun _ : unit =>
                 do nxt <- load _cxq ;
                 do _ <- node_store node (set_next nxt) ;
                 do prev <- cmpxchg_cxq nxt node ;
                 if prev =? nxt then ret (inr (Some nxt)) else
                 do r <- TryLock current ;
                 if decide (r = Success) then ret (inr None) else ret (inl tt)) tt ;
  match pushed with
  | None => ret tt
  | Some nxt =>
      do onset <- (if nxt =? nullptr
                   then do el <- load _EntryList ; ret (el =? nullptr)
                   else ret false) ;
      do _ <- when onset (do _ <- replace_if_null_Responsible current ; ret tt) ;
      do do_timed_parked <- self_load on_virtual_thread ;
      do _ <- loop fuel (fun recheckInterval =>
                do r <- TryLock current ;
                if decide (r = Success) then ret (inr tt) else
                do resp <- load _Responsible ;
                do recheckInterval <-
                  (if (resp =? current) || do_timed_parked then
                     do _ <- park (Some recheckInterval) ;
                     let ri := int_mul recheckInterval 8 in
                     ret (if MAX_RECHECK_INTERVAL <? ri then MAX_RECHECK_INTERVAL else ri)
                   else
                     do _ <- park None ; ret recheckInterval) ;
                do r <- TryLock current ;
                if decide (r = Success) then ret (inr tt) else
                do prev <- try_set_owner_from DEFLATER_MARKER (owner_for current) ;
                if decide (prev = DEFLATER_MARKER) then
                  do _ <- add_to_contentions 1 ; ret (inr tt)
                else
                do spun <- TrySpin current ;
                if spun then ret (inr tt) else
                do sc <- load _succ ;
                do _ <- when (sc =? current) (store (set_succ nullptr)) ;
                ret (inl recheckInterval)) 1 ;
      do _ <- UnlinkAfterAcquire fuel current node ;
      do sc <- load _succ ;
      do _ <- when (sc =? current) (store (set_succ nullptr)) ;
      do resp <- load _Responsible ;
      when (resp =? current) (store (set_Responsible nullptr))
  end.

(** [ObjectMonitor::VThreadMonitorEnter], lines 1090-1168. *)
Definition VThreadMonitorEnter (fuel : nat) (current waiter : Z) : M bool :=
  do r <- TryLock current ;
  if decide (r = Success) then
    do _ <- add_to_contentions (-1) ; ret true
  else
  do prev <- try_set_owner_from DEFLATER_MARKER (owner_for current) ;
  if decide (prev = DEFLATER_MARKER) then ret true else
  do vth <- self_load vthread ;
  do node <- (if negb (waiter =? nullptr) then ret waiter
              else new_node (ObjectWaiter_new_vthread vth)) ;
  do _ <- node_store node (set_prev BAD) ;
  do _ <- node_store node (set_TState TS_CXQ) ;
  do pushed <- loop fuel (fun _ : unit =>
                 do nxt <- load _cxq ;
                 do _ <- node_store node (set_next nxt) ;
                 do prev <- cmpxchg_cxq nxt node ;
                 if prev =? nxt then ret (inr (Some nxt)) else
                 do r <- TryLock current ;
                 if decide (r = Success) then ret (inr None) else ret (inl tt)) tt ;
  match pushed with
  | None =>
      do _ <- add_to_contentions (-1) ;
      do _ <- when (waiter =? nullptr) (delete_node node) ;
      ret true
  | Some nxt =>
      do r <- TryLock current ;
      if decide (r = Success) then
        do _ <- UnlinkAfterAcquire fuel current node ;
        do sc <- load _succ ;
        do tid <- vt_load vth vt_thread_id ;
        do _ <- when (sc =? tid) (store (set_succ nullptr)) ;
        do _ <- add_to_contentions (-1) ;
        do _ <- when (waiter =? nullptr) (delete_node node) ;
        ret true
      else
      do onset <- (if nxt =? nullptr
                   then do el <- load _EntryList ; ret (el =? nullptr)
                   else ret false) ;
      do _ <- when onset
                (do tid <- vt_load vth vt_thread_id ;
                 do won <- replace_if_null_Responsible tid ;
                 when won (vt_store vth (set_vt_recheckInterval 1))) ;
      do _ <- vt_store vth (set_vt_state BLOCKING) ;
      do _ <- vt_store vth (set_vt_object_waiter node) ;
      ret false
  end.

(** [ObjectMonitor::ExitOnSuspend::operator()], lines 293-303, run when the
    thread leaves its blocked state; it answers [_om_exited]. *)
Definition ExitOnSuspend (fuel : nat) (current : Z) : M bool :=
  do susp <- is_suspended ;
  if susp then
    do _ <- store (set_recursions 0) ;
    do _ <- store (set_succ nullptr) ;
    do _ <- exit fuel current false ;
    do _ <- self_store (set_current_pending_monitor true) ;
    ret true
  else ret false.

(** [ObjectMonitor::ClearSuccOnSuspend::operator()], lines 305-312. *)
Definition ClearSuccOnSuspend (current : Z) : M unit :=
  do susp <- is_suspended ;
  if susp then
    do sc <- load _succ ;
    when (sc =? current) (store (set_succ nullptr))
  else ret tt.

(** [ObjectMonitor::enter], lines 374-548: [true] is OWNED, [false] RETRY. *)
Definition enter (fuel : nat) (current : Z) : M bool :=
  do cur <- try_set_owner_from NoOwner (owner_for current) ;
  if decide (cur = NoOwner) then ret true else
  if decide (cur = owner_for current) then
    do r <- load _recursions ;
    do _ <- store (set_recursions (intx_add r 1)) ;
    ret true
  else
  do spun <- TrySpin current ;
  if spun then ret true else
  do _ <- add_to_contentions 1 ;
  do deflated <- is_being_async_deflated ;
  if deflated then
    do l_object <- object ;
    do _ <- when (negb (l_object =? nullptr))
              (install_displaced_markword_in_object l_object) ;
    do _ <- add_to_contentions (-1) ;
    ret false
  else
  do _ <- self_store (set_current_pending_monitor true) ;
  do frozen <-
    (if LOOM_MONITOR_SUPPORT cfg then
       do vt <- self_load on_virtual_thread ;
       do ome <- (if vt then self_load on_monitorenter else ret false) ;
       if ome then
         do result <- try_preempt ;
         if decide (result = freeze_ok) then
           do acquired <- VThreadMonitorEnter fuel current nullptr ;
           do _ <- when acquired
                     (do _ <- self_store (set_preemption_cancelled true) ;
                      when (should_post_monitor_contended_entered cfg)
                        (self_store (set_contended_entered_monitor true))) ;
           do _ <- self_store (set_current_pending_monitor false) ;
           ret true
         else ret false
       else ret false
     else ret false) ;
  if frozen then ret true else
  do _ <- loop fuel (fun _ : unit =>
            do _ <- EnterI fuel current ;
            do _ <- self_store (set_current_pending_monitor false) ;
            do exited <- ExitOnSuspend fuel current ;
            if exited then ret (inl tt) else ret (inr tt)) tt ;
  do _ <- add_to_contentions (-1) ;
  ret true.

(** [ObjectMonitor::ReenterI], lines 1009-1082. *)
Definition ReenterI (fuel : nat) (current currentNode : Z) : M unit :=
  do _ <- loop fuel (fun _ : unit =>
            do v <- node_load currentNode TState ;
            do _ <- guarantee (bool_decide (v = TS_ENTER) || bool_decide (v = TS_CXQ))
                      "invariant" ;
            do spun <- TrySpin current ;
            if spun then ret (inr tt) else
            do _ <- park None ;
            do _ <- ClearSuccOnSuspend current ;
            do r <- TryLock current ;
            if decide (r = Success) then ret (inr tt) else
            do sc <- load _succ ;
            do _ <- when (sc =? current) (store (set_succ nullptr)) ;
            ret (inl tt)) tt ;
  do _ <- UnlinkAfterAcquire fuel current currentNode ;
  do sc <- load _succ ;
  do _ <- when (sc =? current) (store (set_succ nullptr)) ;
  node_store currentNode (set_TState TS_RUN).

(** [ObjectMonitor::AddWaiter], lines 2449-2467. *)
Definition AddWaiter (node : Z) : M unit :=
  do ws <- load _WaitSet ;
  if ws =? nullptr then
    do _ <- store (set_WaitSet node) ;
    do _ <- node_store node (set_prev node) ;
    node_store node (set_next node)
  else
    do head <- load _WaitSet ;
    do tail <- node_load head _prev ;
    do _ <- node_store tail (set_next node) ;
    do _ <- node_store head (set_prev node) ;
    do _ <- node_store node (set_next head) ;
    node_store node (set_prev tail).

(** [ObjectMonitor::DequeueSpecificWaiter], lines 2478-2501. *)
Definition DequeueSpecificWaiter (node : Z) : M unit :=
  do next <- node_load node _next ;
  do _ <- (if next =? node then store (set_WaitSet nullptr)
           else
             do prev <- node_load node _prev ;
             do _ <- node_store next (set_prev prev) ;
             do _ <- node_store prev (set_next next) ;
             do ws <- load _WaitSet ;
             when (ws =? node) (store (set_WaitSet next))) ;
  do _ <- node_store node (set_next nullptr) ;
  node_store node (set_prev nullptr).

(** [ObjectMonitor::DequeueWaiter], lines 2469-2476. *)
Definition DequeueWaiter : M Z :=
  do waiter <- load _WaitSet ;
  do _ <- when (negb (waiter =? nullptr)) (DequeueSpecificWaiter waiter) ;
  ret waiter.

(** [ObjectMonitor::check_owner], lines 1648-1656. *)
Definition check_owner (current : Z) : M bool :=
  do cur <- owner_raw ;
  if decide (cur = owner_for current) then ret true else
  do _ <- THROW IllegalMonitorStateException ;
  ret false.

(** [ObjectMonitor::VThreadWait], lines 2059-2094. *)
Definition VThreadWait (fuel : nat) (current : Z) (millis : Z) : M unit :=
  do vth <- self_load vthread ;
  do node <- new_node (ObjectWaiter_new_vthread vth) ;
  do _ <- node_store node (set_is_wait true) ;
  do _ <- node_store node (set_TState TS_WAIT) ;
  do _ <- vt_store vth (set_vt_notified false) ;
  do _ <- SpinAcquire fuel ;
  do _ <- AddWaiter node ;
  do _ <- SpinRelease ;
  do _ <- store (set_Responsible nullptr) ;
  do r <- load _recursions ;
  do _ <- node_store node (set_w_recursions r) ;
  do _ <- store (set_recursions 0) ;
  do wt <- load _waiters ;
  do _ <- store (set_waiters (int_add wt 1)) ;
  do _ <- exit fuel current true ;
  do o <- owner_raw ;
  do _ <- guarantee (bool_decide (o <> owner_for current)) "invariant" ;
  do _ <- vt_store vth (set_vt_state (if millis =? 0 then WAITING else TIMED_WAITING)) ;
  do _ <- vt_store vth (set_vt_millisOnTimedWait millis) ;
  vt_store vth (set_vt_object_waiter node).

(** The test [is_interrupted(true) && !HAS_PENDING_EXCEPTION] that guards
    both throws of [InterruptedException] in [wait]. *)
Definition interrupted_and_nothing_pending : M bool :=
  do intr <- is_interrupted true ;
  if intr then do pend <- HAS_PENDING_EXCEPTION ; ret (negb pend)
  else ret false.

(** [ObjectMonitor::wait], lines 1710-1937. *)
Definition wait (fuel : nat) (current : Z) (millis : Z) : M unit :=
  do ok <- check_owner current ;
  if negb ok then ret tt else
  do thrown <- interrupted_and_nothing_pending ;
  if thrown then THROW InterruptedException else
  do _ <- self_store (set_current_waiting_monitor true) ;
  do preempted <-
    (if LOOM_MONITOR_SUPPORT cfg then
       do vt <- self_load on_virtual_thread ;
       if vt then
         do result <- try_preempt ;
         if decide (result = freeze_ok) then
           do _ <- VThreadWait fuel current millis ;
           do _ <- self_store (set_current_waiting_monitor false) ;
           ret true
         else ret false
       else ret false
     else ret false) ;
  if preempted then ret tt else
  do node <- new_node (ObjectWaiter_new current) ;
  do _ <- node_store node (set_TState TS_WAIT) ;
  do _ <- park_reset ;
  do _ <- SpinAcquire fuel ;
  do _ <- AddWaiter node ;
  do _ <- SpinRelease ;
  do _ <- store (set_Responsible nullptr) ;
  do save <- load _recursions ;
  do wt <- load _waiters ;
  do _ <- store (set_waiters (int_add wt 1)) ;
  do _ <- store (set_recursions 0) ;
  do _ <- exit fuel current true ;
  do o <- owner_raw ;
  do _ <- guarantee (bool_decide (o <> owner_for current)) "invariant" ;
  do interrupted <- is_interrupted false ;
  do skip <- (if interrupted then ret true else HAS_PENDING_EXCEPTION) ;
  do _ <- (if skip then ret tt else
           do nt <- node_load node _notified ;
           if negb nt then
             (if millis <=? 0 then park None else park (Some millis))
           else ret tt) ;
  do _ <- ClearSuccOnSuspend current ;
  do ts <- node_load node TState ;
  do _ <- when (bool_decide (ts = TS_WAIT))
            (do _ <- SpinAcquire fuel ;
             do ts <- node_load node TState ;
             do _ <- when (bool_decide (ts = TS_WAIT))
                       (do _ <- DequeueSpecificWaiter node ;
                        node_store node (set_TState TS_RUN)) ;
             SpinRelease) ;
  do ts <- node_load node TState ;
  do _ <- guarantee (bool_decide (ts <> TS_WAIT)) "invariant" ;
  do sc <- load _succ ;
  do _ <- when (sc =? current) (store (set_succ nullptr)) ;
  do WasNotified <- load_notified node ;
  do _ <- when (should_post_monitor_waited cfg)
            (do nt <- node_load node _notified ;
             do redo <- (if nt then do sc <- load _succ ; ret (sc =? current)
                         else ret false) ;
             when redo (unpark current)) ;
  do v <- node_load node TState ;
  do _ <- (if decide (v = TS_RUN) then
             do _ <- enter fuel current ; ret tt
           else
             do _ <- guarantee (bool_decide (v = TS_ENTER) || bool_decide (v = TS_CXQ))
                       "invariant" ;
             ReenterI fuel current node) ;
  do ts <- node_load node TState ;
  do _ <- guarantee (bool_decide (ts = TS_RUN)) "invariant" ;
  do _ <- self_store (set_current_waiting_monitor false) ;
  do r <- load _recursions ;
  do _ <- guarantee (r =? 0) "invariant" ;
  do relock <- get_and_reset_relock_count_after_wait ;
  do _ <- store (set_recursions (intx_add save relock)) ;
  do _ <- when (negb (LOOM_MONITOR_SUPPORT cfg))
            (do h <- self_load held_monitor_count ;
             self_store (set_held_monitor_count (intx_add h relock))) ;
  do wt <- load _waiters ;
  do _ <- store (set_waiters (int_add wt (-1))) ;
  if negb WasNotified then
    do thrown <- interrupted_and_nothing_pending ;
    when thrown (THROW InterruptedException)
  else ret tt.

(** [ObjectWaiter::wait_reenter_begin], lines 2441-2443. *)
Definition wait_reenter_begin (node : Z) : M unit :=
  do t <- node_load node _thread ;
  node_store node
    (set_active (JavaThreadBlockedOnMonitorEnterState_wait_reenter_begin cfg t)).

(** [ObjectMonitor::INotify], lines 1944-2011. *)
Definition INotify (fuel : nat) (current : Z) : M unit :=
  do _ <- SpinAcquire fuel ;
  do iterator <- DequeueWaiter ;
  do _ <- when (negb (iterator =? nullptr))
    (do ts <- node_load iterator TState ;
     do _ <- guarantee (bool_decide (ts = TS_WAIT)) "invariant" ;
     do nt <- node_load iterator _notified ;
     do _ <- guarantee (negb nt) "invariant" ;
     do isv <- node_load iterator is_vthread ;
     do _ <- when isv
               (do vth <- node_load iterator _vthread ;
                do _ <- vt_store vth (set_vt_notified true) ;
                do old_state <- vt_load vth vt_state ;
                when (bool_decide (old_state = WAITED) || bool_decide (old_state = TIMED_WAITED))
                  (cmpxchg_state vth old_state BLOCKED)) ;
     do _ <- node_store iterator (set_TState TS_ENTER) ;
     do _ <- node_store iterator (set_notified true) ;
     do _ <- node_store iterator (set_notifier_tid (JFR_THREAD_ID current)) ;
     do list <- load _EntryList ;
     do _ <- (if list =? nullptr then
                do _ <- node_store iterator (set_prev nullptr) ;
                do _ <- node_store iterator (set_next nullptr) ;
                store (set_EntryList iterator)
              else
                do _ <- node_store iterator (set_TState TS_CXQ) ;
                loop fuel (fun _ : unit =>
                  do front <- load _cxq ;
                  do _ <- node_store iterator (set_next front) ;
                  do prev <- cmpxchg_cxq front iterator ;
                  if prev =? front then ret (inr tt) else ret (inl tt)) tt) ;
     do isv <- node_load iterator is_vthread ;
     when (negb isv) (wait_reenter_begin iterator)) ;
  SpinRelease.

(** [ObjectMonitor::notify], lines 2023-2032. *)
Definition notify (fuel : nat) (current : Z) : M unit :=
  do ok <- check_owner current ;
  if negb ok then ret tt else
  do ws <- load _WaitSet ;
  if ws =? nullptr then ret tt else
  INotify fuel current.

(** [ObjectMonitor::notifyAll], lines 2042-2057. *)
Definition notifyAll (fuel : nat) (current : Z) : M unit :=
  do ok <- check_owner current ;
  if negb ok then ret tt else
  do ws <- load _WaitSet ;
  if ws =? nullptr then ret tt else
  loop fuel (fun _ : unit =>
    do ws <- load _WaitSet ;
    if ws =? nullptr then ret (inr tt) else
    do _ <- INotify fuel current ;
    ret (inl tt)) tt.

(** Modelled from the spec: [is_busy], declared in
    [objectMonitor.inline.hpp]: the quick busy check of the deflater, over
    the fields [is_busy_to_string] prints; a [DEFLATER_MARKER] owner does not
    count as busy. *)
Definition is_busy : M bool :=
  do wt <- load _waiters ;
  do cx <- load _cxq ;
  do el <- load _EntryList ;
  do cnts <- contentions ;
  do o <- owner_raw ;
  ret (negb (wt =? 0) || negb (cx =? nullptr) || negb (el =? nullptr)
       || (0 <? cnts)
       || (bool_decide (o <> DEFLATER_MARKER) && bool_decide (o <> NoOwner))).

(** The restoration both losing paths of [deflate_monitor] share, lines
    611-614 and 624-627. *)
Definition restore_owner_after_lost_race : M unit :=
  do prev <- try_set_owner_from DEFLATER_MARKER NoOwner ;
  when (bool_decide (prev <> DEFLATER_MARKER)) (add_to_contentions (-1)).

(** [ObjectMonitor::deflate_monitor], lines 580-659. *)
Definition deflate_monitor : M bool :=
  do busy <- is_busy ;
  if busy then ret false else
  do obj <- object_peek ;
  do committed <-
    (if obj =? nullptr then
       do _ <- set_owner_from_raw NoOwner DEFLATER_MARKER ;
       do _ <- set_contentions_raw INT_MIN ;
       ret true
     else
       do prev <- try_set_owner_from NoOwner DEFLATER_MARKER ;
       if decide (prev <> NoOwner) then ret false else
       do c <- contentions ;
       do raced <- (if 0 <? c then ret true
                    else do wt <- load _waiters ; ret (negb (wt =? 0))) ;
       if raced then
         do _ <- restore_owner_after_lost_race ; ret false
       else
       do prev <- cmpxchg_contentions 0 INT_MIN ;
       if negb (prev =? 0) then
         do _ <- restore_owner_after_lost_race ; ret false
       else ret true) ;
  if negb committed then ret false else
  do o <- owner_raw ;
  do _ <- guarantee (bool_decide (o = DEFLATER_MARKER)) "must be deflater marker" ;
  do c <- contentions ;
  do _ <- guarantee (c <? 0) "must be negative: contentions=%d" ;
  do wt <- load _waiters ;
  do _ <- guarantee (wt =? 0) "must be 0: waiters=%d" ;
  do cx <- load _cxq ;
  do _ <- guarantee (cx =? nullptr) "must be no contending threads: cxq=" ;
  do el <- load _EntryList ;
  do _ <- guarantee (el =? nullptr) "must be no entering threads: EntryList=" ;
  do _ <- when (negb (obj =? nullptr)) (install_displaced_markword_in_object obj) ;
  ret true.

End ObjectMonitor.

(** ** What the properties are stated with *)

(** The execution once the environment has made its next move, or its next
    [n] moves, and the executing thread has done nothing. *)
Definition env_move (e : Exec) : Exec :=
  {| world := interfere e; env := tail (env e); trace := trace e |}.

Fixpoint env_moves (n : nat) (e : Exec) : Exec :=
  match n with
  | O => e
  | S n' => env_moves n' (env_move e)
  end.

(** Every move the environment still makes respects [R]. *)
Definition env_ok (R : World -> World -> Prop) (e : Exec) : Prop :=
  Forall (fun g => forall w, R w (g w)) (env e).

(** Partial correctness: if [m] comes back from [e], then with [Q]. *)
Definition wp {A} (m : M A) (Q : A -> Exec -> Prop) (e : Exec) : Prop :=
  match m e with
  | Done a e' => Q a e'
  | Fatal _ => True
  | OutOfFuel => True
  end.

(** [m] called under [P] comes back, if it does, with [Q]. *)
Definition triple {A} (P : Exec -> Prop) (m : M A) (Q : A -> Exec -> Prop) : Prop :=
  forall e, P e -> wp m Q e.

(** The trace [t] continues [t0]. *)
Definition continues (t0 t : list Event) : Prop := exists ext, t = t0 ++ ext.

(** The rely of a thread that enters, holds or leaves the monitor: no other
    thread takes the monitor away from its owner. *)
Definition owner_stable (current : Z) (w w' : World) : Prop :=
  _owner (mon w) = owner_for current -> _owner (mon w') = owner_for current.

(** What holds all along a call that started with trace [t0] in an
    environment that keeps to the rely [R]: the moves still to come respect
    [R], and the trace only grows. *)
Definition running (R : World -> World -> Prop) (t0 : list Event) (e : Exec) : Prop :=
  env_ok R e /\ continues t0 (trace e).

Definition owned (current : Z) (e : Exec) : Prop :=
  _owner (mon (world e)) = owner_for current.

Definition holding (current : Z) (t0 : list Event) (e : Exec) : Prop :=
  running (owner_stable current) t0 e /\ owned current e.

(** [m] keeps the invariant [I]. *)
Definition preserves {A} (I : Exec -> Prop) (m : M A) : Prop :=
  triple I m (fun _ e' => I e').

(** What [enter] leaves in the trace when it answers RETRY: after whatever
    came [before], the increment of [_contentions], the read that found it
    negative, the restoration of the object's header (the compare-and-swap
    of the mark word, when the object is alive), and the decrement. *)
Definition header_restore (ev : Event) : Prop := exists prev, ev = EvCasMark prev.

Definition retried (t0 t : list Event) : Prop :=
  exists before c mid,
    t = t0 ++ before ++ [EvAddContentions 1; EvContentions c] ++ mid
           ++ [EvAddContentions (-1)] /\
    c < 0 /\ Forall header_restore mid.

(** *** Inputs the properties are tried on *)

Definition platform_thread : JavaThread := {|
  interrupted := false; pending_exception := None; suspended := false;
  poll_armed := false; current_pending_monitor := false;
  current_waiting_monitor := false; on_virtual_thread := false;
  on_monitorenter := false; preempt_result := freeze_other;
  preemption_cancelled := false; contended_entered_monitor := false;
  vthread := nullptr; relock_count := 0; held_monitor_count := 0 |}.

(** A virtual thread mounted on its carrier, inside [monitorenter], whose
    continuation can be frozen. *)
Definition mounted_vthread (vt : Z) : JavaThread := {|
  interrupted := false; pending_exception := None; suspended := false;
  poll_armed := false; current_pending_monitor := false;
  current_waiting_monitor := false; on_virtual_thread := true;
  on_monitorenter := true; preempt_result := freeze_ok;
  preemption_cancelled := false; contended_entered_monitor := false;
  vthread := vt; relock_count := 0; held_monitor_count := 0 |}.

Definition running_vthread (id : Z) : VirtualThread := {|
  vt_state := RUNNING; vt_notified := false; vt_recheckInterval := 0;
  vt_onWaitingList := false; vt_millisOnTimedWait := 0; vt_thread_id := id;
  vt_object_waiter := nullptr |}.

Definition config (loom : bool) : Config := {|
  knobs := default_knobs; LOOM_MONITOR_SUPPORT := loom; INCLUDE_JFR := false;
  EventJavaMonitorEnter_is_enabled := false;
  should_post_monitor_waited := false;
  should_post_monitor_contended_entered := false;
  encode_this := 2;
  JavaThreadBlockedOnMonitorEnterState_wait_reenter_begin := fun _ => true |}.

Definition set_header_and_owner (h : Z) (o : Owner) (m : ObjectMonitor) : ObjectMonitor := {|
  _header := h; _object := _object m; _owner := o;
  _previous_owner_tid := _previous_owner_tid m; _recursions := _recursions m;
  _EntryList := _EntryList m; _cxq := _cxq m; _succ := _succ m;
  _Responsible := _Responsible m; _SpinDuration := _SpinDuration m;
  _contentions := _contentions m; _WaitSet := _WaitSet m;
  _waiters := _waiters m; _WaitSetLock := _WaitSetLock m |}.

(** A monitor of object 64 with displaced header 1, held by [o]. *)
Definition monitor_of (o : Owner) : ObjectMonitor :=
  set_header_and_owner 1 o (ObjectMonitor_new default_knobs 64).

Definition world_of (m : ObjectMonitor) (t : JavaThread) : World := {|
  mon := m; heap := ∅; self := t; vthreads := ∅; mark := 2; top := 4096 |}.

Definition quiet (w : World) : Exec := {| world := w; env := []; trace := [] |}.

(** Thread 1 is the virtual thread 77 mounted on its carrier; thread 2 holds
    the monitor. *)
Definition contended_by_vthread : Exec :=
  quiet {| mon := monitor_of (OwnerThread 2); heap := ∅;
           self := mounted_vthread 77;
           vthreads := {[ 77 := running_vthread 7 ]};
           mark := 2; top := 4096 |}.

(** A monitor the deflater has finished with. *)
Definition deflated_monitor : ObjectMonitor :=
  set_contentions INT_MIN (monitor_of DEFLATER_MARKER).

(** The execution after the thread has thrown [x], and after the first test
    of [wait] has found the interrupt flag set, cleared it, found nothing
    pending and thrown. *)
Definition thrown (x : Exception) (e : Exec) : Exec :=
  {| world := upd_self (set_pending_exception (Some x)) (world e);
     env := env e;
     trace := trace e ++ [EvThrow x] |}.

Definition interrupted_early (e : Exec) : Exec :=
  {| world := upd_self (set_pending_exception (Some InterruptedException))
                (upd_self (set_interrupted false) (world e));
     env := env e;
     trace := trace e ++ [EvIsInterrupted true true; EvPendingException false;
                          EvThrow InterruptedException] |}.

(** The owner of the monitor, interrupted, with an exception already
    pending when it calls [wait]. *)
Definition interrupted_with_pending : JavaThread :=
  set_pending_exception (Some (OtherException 7)) (set_interrupted true platform_thread).

(** *** Deflation *)

(** The rely of the deflating thread: the other threads keep to the
    async-deflation protocol.  A negative [_contentions] stays negative; once
    it is negative and the owner is [DEFLATER_MARKER], the owner and the
    queues stay as they are; the displaced header is never rewritten and a
    cleared object stays cleared.  The mark word of the object is theirs to
    write: they restore the displaced header, and lock the object again. *)
Definition deflation_stable (w w' : World) : Prop :=
  (_contentions (mon w) < 0 -> _contentions (mon w') < 0) /\
  (_contentions (mon w) < 0 -> _owner (mon w) = DEFLATER_MARKER ->
     _owner (mon w') = DEFLATER_MARKER /\
     _cxq (mon w') = _cxq (mon w) /\
     _EntryList (mon w') = _EntryList (mon w) /\
     _waiters (mon w') = _waiters (mon w)) /\
  _header (mon w') = _header (mon w) /\
  (_object (mon w) = nullptr -> _object (mon w') = nullptr).

Definition dead (w : World) : Prop := _object (mon w) = nullptr.

Definition negative (w : World) : Prop := _contentions (mon w) < 0.

Definition claimed (w : World) : Prop :=
  _contentions (mon w) < 0 /\ _owner (mon w) = DEFLATER_MARKER.

(** The final state of a deflated monitor. *)
Definition deflated (w : World) : Prop :=
  _owner (mon w) = DEFLATER_MARKER /\
  _contentions (mon w) < 0 /\
  _cxq (mon w) = nullptr /\
  _EntryList (mon w) = nullptr /\
  _waiters (mon w) = 0.

(** How far the deflater has got: still checking, [_contentions] made
    negative, or the owner seen to be [DEFLATER_MARKER] after that, with the
    fields among [_waiters], [_cxq] and [_EntryList] since found empty. *)
Inductive DeflationStage :=
  | Checking
  | Committed
  | Claimed (wt cx el : bool).

Definition at_stage (s : DeflationStage) (w : World) : Prop :=
  match s with
  | Checking => True
  | Committed => negative w
  | Claimed wt cx el =>
      claimed w /\
      (wt = true -> _waiters (mon w) = 0) /\
      (cx = true -> _cxq (mon w) = nullptr) /\
      (el = true -> _EntryList (mon w) = nullptr)
  end.

(** What the deflater knows at stage [s]; [gone] when it has seen the object
    cleared. *)
Definition deflating (gone : bool) (s : DeflationStage) (w : World) : Prop :=
  (gone = true -> dead w) /\ at_stage s w.

(** What the deflater's compare-and-swap of the mark word leaves: the event
    is the last of the trace, and the mark word is the displaced header
    where it pointed to the monitor, and what the compare-and-swap found
    otherwise. *)
Definition header_swapped (cfg : Config) (e' : Exec) : Prop :=
  exists t prev,
    trace e' = t ++ [EvCasMark prev] /\
    mark (world e') = (if prev =? encode_this cfg then _header (mon (world e')) else prev).

(** A thread that races with the deflater: it has seen [_contentions]
    negative and restores the header of the object. *)
Definition racing_restore (w : World) : World :=
  if _contentions (mon w) <? 0 then set_mark (_header (mon w)) w else w.

(** A thread that locks the object again once its header is restored: it
    writes its own mark word, 5. *)
Definition relock (w : World) : World :=
  if mark w =? _header (mon w) then set_mark 5 w else w.

(** A free monitor nobody waits for, with racing threads around. *)
Definition idle_among_racers : Exec :=
  {| world := world_of (monitor_of NoOwner) platform_thread;
     env := repeat racing_restore 12;
     trace := [] |}.

(** A free monitor nobody waits for; racing threads restore the header of
    the object, and the object is locked again before the deflater gets to
    its mark word. *)
Definition idle_then_relocked : Exec :=
  {| world := world_of (monitor_of NoOwner) platform_thread;
     env := repeat racing_restore 11 ++ [relock];
     trace := [] |}.

(** [P] survives the moves of an environment that keeps to [R]. *)
Definition stable (R : World -> World -> Prop) (P : World -> Prop) : Prop :=
  forall w w', R w w' -> P w -> P w'.

(** *** Executions that come back *)

(** Total correctness: [m] comes back from [e], with [Q]. *)
Definition returns {A} (m : M A) (Q : A -> Exec -> Prop) (e : Exec) : Prop :=
  match m e with
  | Done a e' => Q a e'
  | Fatal _ => False
  | OutOfFuel => False
  end.

(** The execution at world [w] with trace [t] that no other thread
    disturbs. *)
Definition alone (w : World) (t : list Event) : Exec :=
  {| world := w; env := []; trace := t |}.

(** *** Queues *)

(** The waiters linked by [_next] from [p] down to null, all in state [st]:
    the cxq, a stack whose head is the latest arrival. *)
Fixpoint chain (h : gmap Z ObjectWaiter) (st : TStates) (p : Z) (L : list Z) : Prop :=
  match L with
  | [] => p = nullptr
  | x :: L' =>
      p = x /\ x <> nullptr /\
      exists n, h !! x = Some n /\ TState n = st /\ chain h st (_next n) L'
  end.

(** The waiters [L] as a stretch of the EntryList: all in state [TS_ENTER],
    each linked by [_prev] to the one before it ([q] before the first) and by
    [_next] to the one after it ([t] after the last). *)
Fixpoint linked (h : gmap Z ObjectWaiter) (q : Z) (L : list Z) (t : Z) : Prop :=
  match L with
  | [] => True
  | x :: L' =>
      exists n, h !! x = Some n /\ TState n = TS_ENTER /\ _prev n = q /\
                _next n = hd t L' /\ linked h x L' t
  end.

(** *** Threads that arrive while the owner leaves *)

(** The monitors [m] and [m'] differ in [_cxq] at most. *)
Definition same_but_cxq (m m' : ObjectMonitor) : Prop :=
  set_cxq nullptr m' = set_cxq nullptr m.

(** Every waiter of [h] is in [h'], unchanged. *)
Definition preserved (h h' : gmap Z ObjectWaiter) : Prop :=
  forall p n, h !! p = Some n -> h' !! p = Some n.

(** Every waiter of [h] is in [h'], with nothing changed but its state and
    its [_prev] link. *)
Definition relinked (h h' : gmap Z ObjectWaiter) : Prop :=
  forall p n, h !! p = Some n ->
    exists n', h' !! p = Some n' /\ n' = set_prev (_prev n') (set_TState (TState n') n).

(** With the virtual threads [V], what is behind the waiter [n] can be
    woken. *)
Definition wakes (V : gmap Z VirtualThread) (n : ObjectWaiter) : Prop :=
  is_vthread n = true -> is_Some (V !! _vthread n).

(** The rely of a thread that works on the queues while other threads only
    arrive: a move of the environment leaves the monitor but for its cxq,
    the waiters there are and the virtual threads as they are, and the cxq
    either is as it was or has a new head: a waiter that was not there, in
    state [TS_CXQ], before the old head. *)
Definition arrival (w w' : World) : Prop :=
  same_but_cxq (mon w) (mon w') /\
  vthreads w' = vthreads w /\
  preserved (heap w) (heap w') /\
  (_cxq (mon w') = _cxq (mon w) \/
   exists n, _cxq (mon w') <> nullptr /\ heap w !! _cxq (mon w') = None /\
             heap w' !! _cxq (mon w') = Some n /\ TState n = TS_CXQ /\
             _next n = _cxq (mon w) /\ wakes (vthreads w') n).

(** The waiter [EnterI] pushes for thread [t] when the head of the cxq is
    [next]. *)
Definition arrived_waiter (t next : Z) : ObjectWaiter :=
  set_next next (set_TState TS_CXQ (set_prev BAD (ObjectWaiter_new t))).

(** Thread [t] arrives: it pushes its waiter, at the fresh address [p], on
    the cxq. *)
Definition arrive (p t : Z) (w : World) : World :=
  if negb (p =? nullptr) && bool_decide (heap w !! p = None) then
    upd_mon (set_cxq p) (upd_heap (insert p (arrived_waiter t (_cxq (mon w)))) w)
  else w.

(** What the owner knows while it leaves, before it has detached the cxq.
    The monitor is [M] but for the cxq and the virtual threads are [V]; the
    waiters of [h0] are as they were; the cxq holds [L0] under the waiters
    [N] that arrived since the call, at most one for each move the
    environment has made of the [n0] it had to make. *)
Definition before_detach (L0 : list Z) (n0 : nat) (h0 : gmap Z ObjectWaiter)
    (T0 : list Event) (M : ObjectMonitor) (V : gmap Z VirtualThread) (e : Exec) : Prop :=
  env_ok arrival e /\
  same_but_cxq M (mon (world e)) /\
  vthreads (world e) = V /\
  preserved h0 (heap (world e)) /\
  continues T0 (trace e) /\
  exists N,
    chain (heap (world e)) TS_CXQ (_cxq (mon (world e))) (N ++ L0) /\
    (forall n, heap (world e) !! hd nullptr (N ++ L0) = Some n -> wakes V n) /\
    (length N + length (env e) <= n0)%nat.

(** What the owner knows once it has detached the cxq, with the access that
    left [ev0] in the trace.  The waiters it detached are in its view [hv]
    of the heap, which the other threads leave as it is; the cxq holds the
    waiters [N'] that arrived since, none of them in [hv], at most one for
    each move the environment has made of the [n1] it had to make. *)
Definition after_detach (ev0 : Event) (n1 : nat) (T0 : list Event)
    (M : ObjectMonitor) (V : gmap Z VirtualThread) (hv : gmap Z ObjectWaiter)
    (e : Exec) : Prop :=
  env_ok arrival e /\
  same_but_cxq M (mon (world e)) /\
  vthreads (world e) = V /\
  preserved hv (heap (world e)) /\
  (exists ext, trace e = T0 ++ ext /\ In ev0 ext) /\
  exists N',
    chain (heap (world e)) TS_CXQ (_cxq (mon (world e))) N' /\
    (forall p, In p N' -> hv !! p = None) /\
    (length N' + length (env e) <= n1)%nat.

(** *** Queues the properties are tried on *)

(** A platform thread [t] waiting on the cxq, before the waiter at [next]. *)
Definition waiter_on_cxq (t next : Z) : ObjectWaiter :=
  set_next next (set_TState TS_CXQ (ObjectWaiter_new t)).

(** Thread 1 holds the monitor; thread 3 arrived on the cxq first, thread 4
    after it. *)
Definition two_on_cxq : World := {|
  mon := set_cxq 200 (monitor_of (OwnerThread 1));
  heap := {[ 100 := waiter_on_cxq 3 nullptr; 200 := waiter_on_cxq 4 100 ]};
  self := platform_thread; vthreads := ∅; mark := 2; top := 4096 |}.

(** Thread 1 leaves the monitor of [two_on_cxq]; thread 5 arrives, its
    waiter at 300, between the owner's last look at the cxq, its eleventh
    access, and the compare-and-swap that is to detach it. *)
Definition late_arrival : Exec := {|
  world := two_on_cxq;
  env := repeat (fun w => w) 11 ++ [arrive 300 5];
  trace := [] |}.

(** Platform thread [t] waiting, alone in the WaitSet at address [p]. *)
Definition lone_waiter (t p : Z) : ObjectWaiter :=
  set_prev p (set_next p (set_TState TS_WAIT (ObjectWaiter_new t))).

(** Thread 1 holds the monitor and thread 5 waits on it, the waiter at 300;
    the EntryList is [el]. *)
Definition one_waiting (el : Z) : World := {|
  mon := set_EntryList el (set_WaitSet 300 (monitor_of (OwnerThread 1)));
  heap := {[ 300 := lone_waiter 5 300 ]};
  self := platform_thread; vthreads := ∅; mark := 2; top := 4096 |}.

(** *** What wait leaves in the trace *)

(** The events that say nothing of the interrupt flag, of a pending
    exception, of [_notified] or of a throw: those of entering, leaving and
    queueing. *)
Definition silent (ev : Event) : Prop :=
  match ev with
  | EvIsInterrupted _ _ | EvPendingException _ | EvNotified _ _ | EvThrow _ => False
  | _ => True
  end.

Definition not_notified (ev : Event) : Prop :=
  match ev with
  | EvNotified _ _ => False
  | _ => True
  end.

(** Since the trace was [t0], the execution has only added events of [P]. *)
Definition emits (P : Event -> Prop) (t0 : list Event) (e : Exec) : Prop :=
  exists ext, trace e = t0 ++ ext /\ Forall P ext.

(** The value [wait] read from [_notified] (its [WasNotified]) and what the
    thread did after that read. *)
Fixpoint since_notified (t : list Event) : option (bool * list Event) :=
  match t with
  | [] => None
  | EvNotified _ v :: rest => Some (v, rest)
  | _ :: rest => since_notified rest
  end.

(** What the last test of [wait] adds to the trace, given [WasNotified]. *)
Definition last_test (v : bool) (fin : list Event) : Prop :=
  (v = true /\ fin = []) \/
  (v = false /\
   (fin = [EvIsInterrupted true false] \/
    fin = [EvIsInterrupted true true; EvPendingException true] \/
    fin = [EvIsInterrupted true true; EvPendingException false;
           EvThrow InterruptedException])).

(** The trace of a call of [wait] that started at [t0]: either it never read
    [_notified], or it read [v], went on to take the monitor back, and ended
    with the last test. *)
Definition waited (t0 t : list Event) : Prop :=
  (exists ext, t = t0 ++ ext /\ Forall not_notified ext) \/
  (exists pre node v mid fin,
     t = t0 ++ pre ++ [EvNotified node v] ++ mid ++ fin /\
     Forall not_notified pre /\ Forall silent mid /\ last_test v fin).

(** *** Other threads around a waiter *)

(** Another thread interrupts the executing thread. *)
Definition interrupt : World -> World := upd_self (set_interrupted true).

(** The executing thread, about to call [wait], with an exception already
    pending. *)
Definition thread_with_pending : JavaThread :=
  set_pending_exception (Some (OtherException 7)) platform_thread.

(** Thread 1 holds the monitor and calls [wait] as thread [t]; it is
    interrupted once it waits. *)
Definition interrupted_while_waiting (t : JavaThread) : Exec :=
  {| world := world_of (monitor_of (OwnerThread 1)) t;
     env := [id; id; interrupt];
     trace := [] |}.

(** What a notifier does to the waiter at [p] between taking and leaving the
    monitor, once [p] waits alone and the monitor is free: [INotify] with an
    empty EntryList, the thread service answering true for a platform
    thread, then [exit]. *)
Definition notified_by_other (p : Z) (w : World) : World :=
  match heap w !! p with
  | Some n =>
      if bool_decide (TState n = TS_WAIT) && (_WaitSet (mon w) =? p)
         && bool_decide (_owner (mon w) = NoOwner)
      then
        upd_mon (fun m => set_succ (_thread n) (set_EntryList p (set_WaitSet nullptr m)))
          (upd_heap (insert p (set_active (if is_vthread n then _active n else true)
                                 (set_next nullptr (set_prev nullptr
                                    (set_notifier_tid 2 (set_notified true
                                       (set_TState TS_ENTER n))))))) w)
      else w
  | None => w
  end.

(** The waiter at [p] is interrupted once it has been notified. *)
Definition interrupt_the_notified (p : Z) (w : World) : World :=
  match heap w !! p with
  | Some n => if _notified n then interrupt w else w
  | None => w
  end.

(** Thread 1 holds the monitor and calls [wait]; once it waits, thread 2
    notifies it, and then it is interrupted. *)
Definition notified_then_interrupted : Exec :=
  {| world := world_of (monitor_of (OwnerThread 1)) platform_thread;
     env := repeat (fun w => interrupt_the_notified 4096 (notified_by_other 4096 w)) 32;
     trace := [] |}.

(** *** Calls in a row *)

(** [n] calls of [m], one after the other. *)
Fixpoint times {A} (n : nat) (m : M A) : M unit :=
  match n with
  | O => ret tt
  | S n' => do _ <- m ; times n' m
  end.

(** What [exit] stores before it releases: [_Responsible] is cleared, and
    [_previous_owner_tid] is set in a build with JFR whose MonitorEnter event
    is on. *)
Definition leaving (cfg : Config) (current : Z) (not_suspended : bool)
    (m : ObjectMonitor) : ObjectMonitor :=
  let m := set_Responsible nullptr m in
  if INCLUDE_JFR cfg && (not_suspended && EventJavaMonitorEnter_is_enabled cfg)
  then set_previous_owner_tid (JFR_THREAD_ID current) m else m.

(** Thread 1 holds the monitor; thread 3 is on the EntryList, its waiter
    at 100, and thread 4 on the cxq, its waiter at 200. *)
Definition one_entering : World := {|
  mon := set_cxq 200 (set_EntryList 100 (monitor_of (OwnerThread 1)));
  heap := {[ 100 := set_TState TS_ENTER (ObjectWaiter_new 3);
             200 := waiter_on_cxq 4 nullptr ]};
  self := platform_thread; vthreads := ∅; mark := 2; top := 4096 |}.

(** What a spin that fails leaves in the monitor: the penalty on
    [_SpinDuration], and [_succ] cleared if it was the spinner. *)
Definition spun_out (cfg : Config) (current : Z) (m : ObjectMonitor) : ObjectMonitor :=
  set_succ (if _succ m =? current then nullptr else _succ m)
    (set_SpinDuration (adjust_down (knobs cfg) (_SpinDuration m)) m).

(** The build of [config false] on a uniprocessor. *)
Definition uniprocessor_config : Config := {|
  knobs := uniprocessor_knobs; LOOM_MONITOR_SUPPORT := false; INCLUDE_JFR := false;
  EventJavaMonitorEnter_is_enabled := false;
  should_post_monitor_waited := false;
  should_post_monitor_contended_entered := false;
  encode_this := 2;
  JavaThreadBlockedOnMonitorEnterState_wait_reenter_begin := fun _ => true |}.

(** *** What exit leaves in the trace *)

(** The events of a thread that wakes another. *)
Definition wakeup (ev : Event) : Prop :=
  match ev with
  | EvUnpark _ | EvUnparkVThreadUnparker => True
  | _ => False
  end.

(** The accesses [exit] makes on the way to a wakeup: it clears the owner
    slot, takes it back, detaches the cxq. *)
Definition exit_step (ev : Event) : Prop :=
  match ev with
  | EvClearOwner | EvTrySetOwner _ _ _ | EvCasCxq _ _ _ => True
  | _ => False
  end.

(** What a call of [exit] that started at [t0] has added to the trace:
    steps only, or steps that end with the release of the monitor and, right
    after it, one wakeup. *)
Definition exited (t0 t : list Event) : Prop :=
  exists ext, t = t0 ++ ext /\
    (Forall exit_step ext \/
     exists pre wake, ext = pre ++ [EvClearOwner; wake] /\
                      Forall exit_step pre /\ wakeup wake).

(** *** Taking the owner slot *)

(** The compare-and-swap by which [current] takes a free monitor, when it
    found the owner slot empty. *)
Definition win (current : Z) : Event :=
  EvTrySetOwner NoOwner (owner_for current) NoOwner.

(** The same compare-and-swap when another thread was there first. *)
Definition failed (current : Z) (ev : Event) : Prop :=
  match ev with
  | EvTrySetOwner old new prev =>
      old = NoOwner /\ new = owner_for current /\ prev <> NoOwner
  | _ => False
  end.

(** Since the trace was [t0], [current] has taken the owner slot once: before
    that it added events of [P] only, since then events of [Q] only. *)
Definition won (P Q : Event -> Prop) (current : Z) (t0 : list Event) (e : Exec) : Prop :=
  exists pre post, trace e = t0 ++ pre ++ win current :: post /\
                   Forall P pre /\ Forall Q post.

Definition no_event (ev : Event) : Prop := False.

(** What is known of an execution after an attempt that answered [b]. *)
Definition took (P Q : Event -> Prop) (current : Z) (t0 : list Event)
    (b : bool) (e : Exec) : Prop :=
  if b then won P Q current t0 e else emits P t0 e.

(** What a spin that answered [b] has added to the trace. *)
Definition spun (current : Z) (b : bool) (ext : list Event) : Prop :=
  if b then exists pre, ext = pre ++ [win current] /\ Forall (failed current) pre
  else Forall (failed current) ext.

(** What a thread whose wait is over adds to the trace while the monitor is
    not its own: attempts on the owner slot that fail, and parks. *)
Definition contending (current : Z) (ev : Event) : Prop :=
  failed current ev \/ ev = EvPark None.

(** What it adds once the monitor is its own: the compare-and-swap that
    unlinks its node if the node heads the cxq. *)
Definition unlinking (ev : Event) : Prop :=
  match ev with
  | EvCasCxq _ _ _ => True
  | _ => False
  end.

(** *** Deflation with no other thread around *)

(** What [is_busy] answers on the monitor [m]. *)
Definition busy (m : ObjectMonitor) : bool :=
  negb (_waiters m =? 0) || negb (_cxq m =? nullptr) || negb (_EntryList m =? nullptr)
  || (0 <? _contentions m)
  || (bool_decide (_owner m <> DEFLATER_MARKER) && bool_decide (_owner m <> NoOwner)).

(** The monitors [deflate_monitor] deflates when it runs alone: not busy,
    and either the object is gone, or the owner slot is empty and
    [_contentions] is 0. *)
Definition deflatable (m : ObjectMonitor) : bool :=
  negb (busy m) &&
  ((_object m =? nullptr) || (bool_decide (_owner m = NoOwner) && (_contentions m =? 0))).

(** The world once the monitor is deflated: the owner slot holds the marker,
    [_contentions] is [INT_MIN], and the mark word of a live object that
    pointed to the monitor is the displaced header again. *)
Definition deflate (cfg : Config) (w : World) : World :=
  let w' := upd_mon (fun m => set_contentions INT_MIN (set_owner DEFLATER_MARKER m)) w in
  if negb (_object (mon w) =? nullptr) && (mark w =? encode_this cfg)
  then set_mark (_header (mon w)) w' else w'.

(** *** A deflation that gives up *)

(** The rely of the deflater on the owner slot: no other thread writes the
    marker there. *)
Definition only_the_deflater_marks (w w' : World) : Prop :=
  _owner (mon w) <> DEFLATER_MARKER -> _owner (mon w') <> DEFLATER_MARKER.

(** The owner slot does not hold the marker, and the other threads will not
    put it there. *)
Definition unmarked (e : Exec) : Prop :=
  env_ok only_the_deflater_marks e /\ _owner (mon (world e)) <> DEFLATER_MARKER.

(** *** A thread that arrives while the monitor is deflated *)

(** What a contending thread does first: [add_to_contentions(1)]. *)
Definition contend (w : World) : World :=
  upd_mon (fun m => set_contentions (int_add (_contentions m) 1) m) w.

(** The deflater starts at [w]; the other thread announces itself after the
    deflater's first [n] accesses. *)
Definition contended_after (n : nat) (w : World) : Exec :=
  {| world := w; env := repeat id n ++ [contend]; trace := [] |}.

(** *** The WaitSet *)

(** The waiters [L] as a stretch of a doubly-linked list: each linked by
    [_prev] to the one before it ([q] before the first) and by [_next] to
    the one after it ([t] after the last). *)
Fixpoint arc (h : gmap Z ObjectWaiter) (q : Z) (L : list Z) (t : Z) : Prop :=
  match L with
  | [] => True
  | x :: L' =>
      exists n, h !! x = Some n /\ _prev n = q /\ _next n = hd t L' /\ arc h x L' t
  end.

(** The WaitSet is the ring of the waiters [L], longest-waiting first:
    [ws] points to the first, the last and the first are linked to each
    other; an empty WaitSet is a null pointer. *)
Definition ring (h : gmap Z ObjectWaiter) (ws : Z) (L : list Z) : Prop :=
  ws = hd nullptr L /\ ~ In nullptr L /\ List.NoDup L /\
  arc h (List.last L nullptr) L (hd nullptr L).

(** The waiters [n] and [n'] differ in their links at most. *)
Definition same_but_links (n n' : ObjectWaiter) : Prop :=
  set_next nullptr (set_prev nullptr n') = set_next nullptr (set_prev nullptr n).

(** The heaps [h] and [h'] hold the same waiters, with nothing changed but
    the links of those in [L]. *)
Definition rethreaded (L : list Z) (h h' : gmap Z ObjectWaiter) : Prop :=
  forall p, match h !! p, h' !! p with
            | Some n, Some n' => same_but_links n n' /\ (~ In p L -> n' = n)
            | None, None => True
            | _, _ => False
            end.

(** The worlds [w] and [w'] differ in the WaitSet at most: in the pointer
    to it and in the waiters of the heap. *)
Definition same_but_WaitSet (w w' : World) : Prop :=
  upd_heap (fun _ => ∅) (upd_mon (set_WaitSet nullptr) w') =
  upd_heap (fun _ => ∅) (upd_mon (set_WaitSet nullptr) w).

(** The waiter of platform thread [t] in the WaitSet, between the waiters
    at [p] and at [n]. *)
Definition waiter_between (t p n : Z) : ObjectWaiter :=
  set_prev p (set_next n (set_TState TS_WAIT (ObjectWaiter_new t))).

(** Thread 1 holds the monitor; thread 5 waits on it, the waiter at 300, and
    so does thread 6 since later, the waiter at 400; the waiter of thread 7,
    at 500, is not in the WaitSet yet. *)
Definition two_waiting : World := {|
  mon := set_WaitSet 300 (monitor_of (OwnerThread 1));
  heap := {[ 300 := waiter_between 5 400 400; 400 := waiter_between 6 300 300;
             500 := set_TState TS_WAIT (ObjectWaiter_new 7) ]};
  self := platform_thread; vthreads := ∅; mark := 2; top := 4096 |}.

(** *** Notified waiters *)

(** The waiters [L] stacked from [p] down to [q]: all in state [st], each
    linked by [_next] to the one under it, the last to [q]. *)
Fixpoint stacked (h : gmap Z ObjectWaiter) (st : TStates) (p : Z) (L : list Z) (q : Z)
    : Prop :=
  match L with
  | [] => p = q
  | x :: L' =>
      p = x /\ exists n, h !! x = Some n /\ TState n = st /\ stacked h st (_next n) L' q
  end.

(** A platform thread waits behind [n] and has not been notified. *)
Definition waits (n : ObjectWaiter) : Prop :=
  TState n = TS_WAIT /\ _notified n = false /\ is_vthread n = false.

(** The waiter [n'] of a platform thread is [n] notified by [current]:
    [_active] holds what the thread service answered, and nothing else has
    changed but its state and its links. *)
Definition notified_by (cfg : Config) (current : Z) (n n' : ObjectWaiter) : Prop :=
  n' = set_prev (_prev n') (set_next (_next n') (set_TState (TState n')
         (set_active (JavaThreadBlockedOnMonitorEnterState_wait_reenter_begin cfg
                        (_thread n))
            (set_notifier_tid (JFR_THREAD_ID current) (set_notified true n))))).

(** The compare-and-swap that pushes a waiter on the cxq, when it finds the
    head it expected. *)
Definition pushes (ev : Event) : Prop :=
  match ev with
  | EvCasCxq expected _ prev => prev = expected
  | _ => False
  end.

(** The world [w'] is [w] but for the waiters of the heap and the three
    queues of the monitor. *)
Definition same_but_queues (w w' : World) : Prop :=
  w' = upd_heap (fun _ => heap w')
         (upd_mon (fun m => set_EntryList (_EntryList (mon w'))
                              (set_cxq (_cxq (mon w'))
                                 (set_WaitSet (_WaitSet (mon w')) m))) w).

(** ** More functions of objectMonitor.cpp *)

Section EnterFor.
Variable cfg : Config.

(** [ObjectMonitor::enter_for], lines 317-372. *)
Definition enter_for (locking_thread : Z) : M bool :=
  do _ <- add_to_contentions 1 ;
  do deflated <- is_being_async_deflated ;
  do success <-
    (if negb deflated then
       do prev_owner <- try_set_owner_from NoOwner (owner_for locking_thread) ;
       if decide (prev_owner = NoOwner) then ret true
       else if decide (prev_owner = owner_for locking_thread) then
         do r <- load _recursions ;
         do _ <- store (set_recursions (intx_add r 1)) ;
         ret true
       else if decide (prev_owner = DEFLATER_MARKER) then
         do prev_owner <- try_set_owner_from DEFLATER_MARKER (owner_for locking_thread) ;
         if decide (prev_owner = DEFLATER_MARKER) then
           do _ <- add_to_contentions 1 ;
           ret true
         else if decide (prev_owner = NoOwner) then
           do prev_owner <- try_set_owner_from NoOwner (owner_for locking_thread) ;
           ret (bool_decide (prev_owner = NoOwner))
         else ret false
       else ret false
     else
       do l_object <- object ;
       do _ <- when (negb (l_object =? nullptr))
                 (install_displaced_markword_in_object cfg l_object) ;
       ret false) ;
  do _ <- add_to_contentions (-1) ;
  ret success.

End EnterFor.

(** *** enter_for with no other thread around *)

(** The monitors [enter_for] takes for thread [t] when it runs alone: not
    deflated, and free, held by [t] already, or claimed by a deflater that
    has not committed. *)
Definition enterable_for (t : Z) (m : ObjectMonitor) : bool :=
  negb (_contentions m + 1 <? 0) &&
  (bool_decide (_owner m = NoOwner) || bool_decide (_owner m = owner_for t)
   || bool_decide (_owner m = DEFLATER_MARKER)).

(** What [enter_for] leaves of such a monitor: [t] owns it, one level
    deeper if it did already, and [_contentions] is one up if a deflation
    was cancelled. *)
Definition entered_for (t : Z) (m : ObjectMonitor) : ObjectMonitor :=
  match _owner m with
  | NoOwner => set_owner (owner_for t) m
  | DEFLATER_MARKER =>
      set_contentions (_contentions m + 1) (set_owner (owner_for t) m)
  | _ => set_recursions (intx_add (_recursions m) 1) m
  end.

(** What it leaves when the monitor is deflated: the displaced header in the
    mark word of a live object that pointed to the monitor. *)
Definition turned_away (cfg : Config) (w : World) : World :=
  if (_contentions (mon w) + 1 <? 0) && negb (_object (mon w) =? nullptr)
     && (mark w =? encode_this cfg)
  then set_mark (_header (mon w)) w else w.

(** *** enter_for against the deflater *)

(** The whole of [enter_for] for thread [t] as one move of another thread. *)
Definition entering (cfg : Config) (t : Z) (w : World) : World :=
  match enter_for cfg t (quiet w) with
  | Done _ e' => world e'
  | _ => w
  end.

(** The deflater starts at [w]; thread [t] is entered for after the
    deflater's first [n] accesses. *)
Definition entered_after (cfg : Config) (t : Z) (n : nat) (w : World) : Exec :=
  {| world := w; env := repeat id n ++ [entering cfg t]; trace := [] |}.

Section CompleteExit.
Variable cfg : Config.

(** [LockingMode == LM_LEGACY]. *)
Variable LM_LEGACY : bool.

(** Modelled from the spec: [is_stack_locker] and [set_owner_from_BasicLock]
    are declared in [objectMonitor.inline.hpp], which is not part of the
    sources, and the specification says nothing of them: they are taken as
    they come. *)
Variable is_stack_locker : Z -> M bool.
Variable set_owner_from_BasicLock : Z -> M unit.

(** [ObjectMonitor::complete_exit], lines 1611-1628. *)
Definition complete_exit (fuel : nat) (current : Z) : M Z :=
  do cur <- owner_raw ;
  do _ <- (if decide (owner_for current <> cur) then
             do stack_locker <- (if LM_LEGACY then is_stack_locker current
                                 else ret false) ;
             when stack_locker
               (do _ <- set_owner_from_BasicLock current ;
                store (set_recursions 0))
           else ret tt) ;
  do o <- owner_raw ;
  do _ <- guarantee (bool_decide (owner_for current = o)) "complete_exit not owner" ;
  do save <- load _recursions ;
  do _ <- store (set_recursions 0) ;
  do _ <- exit cfg fuel current true ;
  do o <- owner_raw ;
  do _ <- guarantee (bool_decide (o <> owner_for current)) "invariant" ;
  ret save.

End CompleteExit.

(** The rely of a thread that does not own the monitor: no other thread
    makes it the owner. *)
Definition not_entered_for (current : Z) (w w' : World) : Prop :=
  _owner (mon w) <> owner_for current -> _owner (mon w') <> owner_for current.

(** *** The queues a thread unlinks itself from *)

(** The EntryList holds the waiters [L], first to be woken first: [el]
    points to the first, they are doubly linked between two nulls and in
    state [TS_ENTER]. *)
Definition entry_list (h : gmap Z ObjectWaiter) (el : Z) (L : list Z) : Prop :=
  el = hd nullptr L /\ ~ In nullptr L /\ List.NoDup L /\ linked h nullptr L nullptr.

(** Thread [t] waiting to enter, its waiter linked between [prev] and
    [next] on the EntryList. *)
Definition waiter_on_EntryList (t prev next : Z) : ObjectWaiter :=
  set_prev prev (set_next next (set_TState TS_ENTER (ObjectWaiter_new t))).

(** Thread 1 holds the monitor; threads 3, 4 and 5 are on the EntryList,
    their waiters at 100, 200 and 300. *)
Definition three_entering : World := {|
  mon := set_EntryList 100 (monitor_of (OwnerThread 1));
  heap := {[ 100 := waiter_on_EntryList 3 nullptr 200;
             200 := waiter_on_EntryList 4 100 300;
             300 := waiter_on_EntryList 5 200 nullptr ]};
  self := platform_thread; vthreads := ∅; mark := 2; top := 4096 |}.

(** A platform thread that has been suspended. *)
Definition suspended_thread : JavaThread := {|
  interrupted := false; pending_exception := None; suspended := true;
  poll_armed := false; current_pending_monitor := false;
  current_waiting_monitor := false; on_virtual_thread := false;
  on_monitorenter := false; preempt_result := freeze_other;
  preemption_cancelled := false; contended_entered_monitor := false;
  vthread := nullptr; relock_count := 0; held_monitor_count := 0 |}.

(** *** Threads that arrive while the owner notifies *)

(** A compare-and-swap that was to push [x] on the cxq and found another
    head than the one read. *)
Definition misses (x : Z) (ev : Event) : Prop :=
  match ev with
  | EvCasCxq expected new prev => new = x /\ prev <> expected
  | _ => False
  end.

(** What the notifier knows while other threads arrive.  The monitor is [Mn]
    but for the cxq and the virtual threads are [V]; the waiters of its view
    [hv] of the heap are as it left them, and its trace is [T].  The cxq
    holds, above the head [c0] it had at the call, the waiters [B] and above
    them more: all of them waiters that arrived since the call, none in
    [hv], but for the waiters [S] the notifier pushed itself; at most one
    has arrived for each move the environment has made of the [n0] it had
    to make. *)
Definition notifying (S : list Z) (c0 : Z) (n0 : nat) (Mn : ObjectMonitor)
    (V : gmap Z VirtualThread) (hv : gmap Z ObjectWaiter) (T : list Event)
    (B : list Z) (e : Exec) : Prop :=
  env_ok arrival e /\
  same_but_cxq Mn (mon (world e)) /\
  vthreads (world e) = V /\
  preserved hv (heap (world e)) /\
  trace e = T /\
  exists A,
    stacked (heap (world e)) TS_CXQ (_cxq (mon (world e))) (A ++ B) c0 /\
    (forall p, In p (A ++ B) -> In p S \/ hv !! p = None) /\
    (length (A ++ B) + length (env e) <= n0 + length S)%nat.

(** Thread 1 holds the monitor of [one_waiting 200] and notifies; thread 7
    arrives on the cxq, its waiter at 400, between the read of the head of
    the cxq, the notifier's fifteenth access, and the compare-and-swap that
    is to push the notified waiter. *)
Definition notified_among_arrivals : Exec := {|
  world := one_waiting 200;
  env := repeat (fun w => w) 15 ++ [arrive 400 7];
  trace := [] |}.

(** *** enter: the owner slot and the queued virtual thread *)

(** An access of [current] that puts it in the owner slot: a
    compare-and-swap to [current] that finds the value it expects, or a
    plain store of [current]. *)
Definition takes (current : Z) (ev : Event) : Prop :=
  match ev with
  | EvTrySetOwner old new prev => new = owner_for current /\ prev = old
  | EvSetOwner new => new = owner_for current
  | _ => False
  end.

(** What [enter] leaves when the build has [LOOM_MONITOR_SUPPORT], the
    continuation of the calling virtual thread was frozen
    ([Continuation::try_preempt] answered [freeze_ok]) and
    [VThreadMonitorEnter] did not get the monitor: since the trace was [t0]
    no access of the call has put [current] in the owner slot, a
    compare-and-swap has pushed the waiter [node] on the cxq, and [node] is
    the waiter kept in the stack chunk of the virtual thread. *)
Definition queued (cfg : Config) (current : Z) (t0 : list Event) (e' : Exec) : Prop :=
  LOOM_MONITOR_SUPPORT cfg = true /\
  exists ext node nxt vth vt,
    trace e' = t0 ++ ext /\
    Forall (fun ev => ~ takes current ev) ext /\
    In (EvTryPreempt freeze_ok) ext /\
    In (EvCasCxq nxt node nxt) ext /\
    vthreads (world e') !! vth = Some vt /\
    vt_object_waiter vt = node.

(** What holds all along a call of [current] when no other thread enters
    the monitor for it: since the trace was [t0], [current] is in the owner
    slot only if an access of the call has put it there. *)
Definition unowned_unless_taken (current : Z) (t0 : list Event) (e : Exec) : Prop :=
  env_ok (not_entered_for current) e /\
  exists ext, trace e = t0 ++ ext /\
    (_owner (mon (world e)) = owner_for current -> Exists (takes current) ext).

(** Since the trace was [t0], no access has put [current] in the owner
    slot, and the waiter [node] has been pushed on the cxq, above [nxt],
    when [o] names them. *)
Definition tried (current : Z) (t0 : list Event) (o : option (Z * Z))
    (t : list Event) : Prop :=
  exists ext, t = t0 ++ ext /\
    Forall (fun ev => ~ takes current ev) ext /\
    match o with
    | Some (node, nxt) => In (EvCasCxq nxt node nxt) ext
    | None => True
    end.

(** The call answers true whenever it returns. *)
Definition answers_true (m : M bool) : Prop :=
  forall e r e', m e = Done r e' -> r = true.

(** The owner [t] leaves the monitor once a contender has announced itself
    in [_contentions]. *)
Definition leaves_when_contended (t : Z) (w : World) : World :=
  if bool_decide (_owner (mon w) = OwnerThread t) && (0 <? _contentions (mon w))
  then upd_mon (set_owner NoOwner) w else w.

(** As [contended_by_vthread], with nothing left to spin, and thread 2
    about to leave. *)
Definition released_to_the_frozen : Exec :=
  {| world := upd_mon (set_SpinDuration 0) (world contended_by_vthread);
     env := repeat (leaves_when_contended 2) 20;
     trace := [] |}.

(** * Properties *)

Lemma wrap_small bits z :
  0 < bits -> - 2 ^ (bits - 1) <= z < 2 ^ (bits - 1) -> wrap bits z = z.
Proof.
  intros Hb Hz. unfold wrap.
  assert (E : 2 ^ bits = 2 * 2 ^ (bits - 1)).
  { replace bits with (Z.succ (bits - 1)) at 1 by lia.
    rewrite Z.pow_succ_r by lia. reflexivity. }
  rewrite Z.mod_small by lia. lia.
Qed.

Lemma int_add_small a b : in_int (a + b) -> int_add a b = a + b.
Proof.
  unfold in_int, INT_MIN, INT_MAX, int_add. intros H.
  apply wrap_small; [lia|]. change (32 - 1) with 31. lia.
Qed.

Lemma int_sub_small a b : in_int (a - b) -> int_sub a b = a - b.
Proof.
  unfold in_int, INT_MIN, INT_MAX, int_sub. intros H.
  apply wrap_small; [lia|]. change (32 - 1) with 31. lia.
Qed.

Lemma adjust_up_default x :
  in_int x ->
  adjust_up default_knobs x =
    if x <? 5000 then Z.max x 1000 + 100 else x.
Proof.
  intros Hx. unfold adjust_up. simpl.
  destruct (x <? 5000) eqn:E; [|reflexivity].
  apply Z.ltb_lt in E.
  destruct (x <? 1000) eqn:E'.
  - apply Z.ltb_lt in E'. rewrite int_add_small; [lia|].
    unfold in_int, INT_MIN, INT_MAX. lia.
  - apply Z.ltb_ge in E'. rewrite int_add_small; [lia|].
    unfold in_int, INT_MIN, INT_MAX in *. lia.
Qed.

Lemma adjust_down_default x :
  in_int x ->
  adjust_down default_knobs x =
    if 0 <? x then Z.max (x - 200) 0 else x.
Proof.
  intros Hx. unfold adjust_down. simpl.
  destruct (0 <? x) eqn:E; [|reflexivity].
  apply Z.ltb_lt in E.
  rewrite int_sub_small by (unfold in_int, INT_MIN, INT_MAX in *; lia).
  destruct (x - 200 <? 0) eqn:E'.
  - apply Z.ltb_lt in E'. lia.
  - apply Z.ltb_ge in E'. lia.
Qed.

(** ** Adaptive spinning *)

(** C5, as stated, fails: [adjust_up] does not clamp at [Knob_SpinLimit].
    From 4950, inside [0, SPIN_LIMIT], the update gives 5050, which is
    neither the clamped value nor at most [SPIN_LIMIT]. *)
Lemma adjust_up_exceeds_spin_limit :
  0 <= 4950 <= Knob_SpinLimit default_knobs /\
  adjust_up default_knobs 4950 = 5050 /\
  adjust_up default_knobs 4950 <> adjust_up_clamped default_knobs 4950 /\
  ~ adjust_up default_knobs 4950 <= Knob_SpinLimit default_knobs.
Proof. vm_compute. repeat split; congruence. Qed.

(** C5, amended: for a spin duration below [SPIN_LIMIT] the successful-spin
    update raises the value to [POVERTY] when it is below it and then adds
    [BONUS], with no clamp; at [SPIN_LIMIT] the value is kept.  So the
    result stays below [SPIN_LIMIT + BONUS], and it is the clamped update
    exactly when that update does not have to clamp. *)
Theorem adjust_up_raises_then_adds (x : Z) :
  0 <= x <= Knob_SpinLimit default_knobs ->
  (x < Knob_SpinLimit default_knobs ->
     adjust_up default_knobs x =
       Z.max x (Knob_Poverty default_knobs) + Knob_Bonus default_knobs) /\
  (x = Knob_SpinLimit default_knobs -> adjust_up default_knobs x = x) /\
  adjust_up default_knobs x < Knob_SpinLimit default_knobs + Knob_Bonus default_knobs /\
  (Z.max x (Knob_Poverty default_knobs) + Knob_Bonus default_knobs
     <= Knob_SpinLimit default_knobs ->
   adjust_up default_knobs x = adjust_up_clamped default_knobs x).
Proof.
  simpl. intros Hx.
  rewrite adjust_up_default by (unfold in_int, INT_MIN, INT_MAX; lia).
  unfold adjust_up_clamped. simpl.
  destruct (x <? 5000) eqn:E.
  - apply Z.ltb_lt in E. repeat split; intros; lia.
  - apply Z.ltb_ge in E. repeat split; intros; lia.
Qed.

Lemma adjust_up_raises_then_adds_witness :
  adjust_up default_knobs 300 = 1100 /\ adjust_up default_knobs 5000 = 5000.
Proof.
  destruct (adjust_up_raises_then_adds 300 ltac:(simpl; lia)) as (H & _).
  destruct (adjust_up_raises_then_adds 5000 ltac:(simpl; lia)) as (_ & H' & _).
  split; [apply H; simpl; lia | apply H'; reflexivity].
Defined.

Lemma spin_update_bounded (x : Z) (o : SpinOutcome) :
  0 <= x < 5100 -> 0 <= spin_update default_knobs x o < 5100.
Proof.
  intros Hx. destruct o; simpl.
  - rewrite adjust_up_default by (unfold in_int, INT_MIN, INT_MAX; lia).
    destruct (x <? 5000) eqn:E; [apply Z.ltb_lt in E|]; lia.
  - rewrite adjust_down_default by (unfold in_int, INT_MIN, INT_MAX; lia).
    destruct (0 <? x) eqn:E; lia.
Qed.

Lemma spin_updates_bounded (os : list SpinOutcome) : forall x,
  0 <= x < 5100 -> 0 <= spin_updates default_knobs x os < 5100.
Proof.
  unfold spin_updates. induction os as [|o os IH]; intros x Hx; simpl.
  - exact Hx.
  - apply IH. apply spin_update_bounded. exact Hx.
Qed.

(** C9: from any spin duration in [0, SPIN_LIMIT], every sequence of
    success and failure updates keeps the value non-negative and strictly
    below [SPIN_LIMIT + BONUS]; [adjust_up] never decreases an [int] and
    [adjust_down] never increases one. *)
Theorem spin_duration_stays_in_range (x : Z) (os : list SpinOutcome) :
  0 <= x <= Knob_SpinLimit default_knobs ->
  0 <= spin_updates default_knobs x os
    < Knob_SpinLimit default_knobs + Knob_Bonus default_knobs /\
  spin_updates default_knobs x os <= 5099 /\
  (forall y, in_int y -> y <= adjust_up default_knobs y) /\
  (forall y, in_int y -> adjust_down default_knobs y <= y).
Proof.
  simpl. intros Hx.
  assert (B := spin_updates_bounded os x ltac:(lia)).
  repeat split; try lia.
  - intros y Hy. rewrite adjust_up_default by exact Hy.
    destruct (y <? 5000); lia.
  - intros y Hy. rewrite adjust_down_default by exact Hy.
    destruct (0 <? y) eqn:E; [apply Z.ltb_lt in E|]; lia.
Qed.

Lemma spin_duration_stays_in_range_witness :
  0 <= spin_updates default_knobs 4999
         [SpinSuccess; SpinSuccess; SpinFailure; SpinSuccess] < 5100.
Proof.
  exact (proj1 (spin_duration_stays_in_range 4999
                  [SpinSuccess; SpinSuccess; SpinFailure; SpinSuccess]
                  ltac:(simpl; lia))).
Defined.

(** ** Executions: the environment's moves *)

Lemma env_move_quiet (e : Exec) : env e = [] -> env_move e = e.
Proof. destruct e as [w en tr]. simpl. intros ->. reflexivity. Qed.

Lemma env_moves_quiet (n : nat) (e : Exec) : env e = [] -> env_moves n e = e.
Proof.
  induction n as [|n IH]; intros H; simpl; [reflexivity|].
  rewrite env_move_quiet by exact H. apply IH, H.
Qed.

Lemma env_moves_S (n : nat) (e : Exec) :
  env_moves (S n) e = env_move (env_moves n e).
Proof.
  revert e. induction n as [|n IH]; intros e; [reflexivity|].
  change (env_moves (S (S n)) e) with (env_moves (S n) (env_move e)).
  rewrite IH. reflexivity.
Qed.

(** ** exit by a thread that does not own the monitor *)

(** C8: [exit] called by a thread that is not the owner when [exit] reads
    the owner slot returns at once, raises nothing and writes nothing: the
    execution it leaves is the one the environment's single move made, and
    in a quiet environment the very execution it was called in. *)
Theorem exit_by_non_owner_writes_nothing
    (cfg : Config) (fuel : nat) (current : Z) (not_suspended : bool) (e : Exec) :
  _owner (mon (world (env_move e))) <> owner_for current ->
  exit cfg fuel current not_suspended e = Done tt (env_move e) /\
  (env e = [] -> exit cfg fuel current not_suspended e = Done tt e).
Proof.
  intros Hne.
  assert (H : exit cfg fuel current not_suspended e = Done tt (env_move e)).
  { unfold exit, bind, owner_raw, load, atomic. simpl in *.
    destruct (decide (owner_for current <> _owner (mon (interfere e)))) as [_|E].
    - reflexivity.
    - exfalso. apply E. congruence. }
  split; [exact H|]. intros Hq. rewrite H, env_move_quiet by exact Hq. reflexivity.
Qed.

Lemma exit_by_non_owner_witness :
  exit (config false) 0 1 true
       (quiet (world_of (monitor_of (OwnerThread 2)) platform_thread))
  = Done tt (quiet (world_of (monitor_of (OwnerThread 2)) platform_thread)).
Proof.
  apply (exit_by_non_owner_writes_nothing (config false) 0 1 true
           (quiet (world_of (monitor_of (OwnerThread 2)) platform_thread))).
  - simpl. discriminate.
  - reflexivity.
Defined.

(** ** notify and notifyAll on an empty WaitSet *)

(** C10: [notify] and [notifyAll] check the owner first.  Called by the
    owner while the WaitSet is empty they return normally and write nothing:
    what they leave is what the environment's two moves made (one before each
    of the two reads), and in a quiet environment the execution itself.
    Called by a thread that is not the owner they throw
    [IllegalMonitorStateException] whatever the WaitSet holds, and write
    nothing else. *)
Theorem notify_empty_wait_set_is_a_no_op
    (cfg : Config) (fuel : nat) (current : Z) (e : Exec) :
  (_owner (mon (world (env_move e))) = owner_for current ->
   _WaitSet (mon (world (env_moves 2 e))) = nullptr ->
   notify cfg fuel current e = Done tt (env_moves 2 e) /\
   notifyAll cfg fuel current e = Done tt (env_moves 2 e) /\
   (env e = [] ->
    notify cfg fuel current e = Done tt e /\
    notifyAll cfg fuel current e = Done tt e)) /\
  (_owner (mon (world (env_move e))) <> owner_for current ->
   notify cfg fuel current e = Done tt (thrown IllegalMonitorStateException (env_move e)) /\
   notifyAll cfg fuel current e = Done tt (thrown IllegalMonitorStateException (env_move e))).
Proof.
  split.
  - intros Ho Hw.
    assert (H : notify cfg fuel current e = Done tt (env_moves 2 e) /\
                notifyAll cfg fuel current e = Done tt (env_moves 2 e)).
    { unfold notify, notifyAll, check_owner, bind, owner_raw, load, atomic.
      simpl in *. rewrite Ho.
      destruct (decide (owner_for current = owner_for current)) as [_|E];
        [|congruence].
      unfold ret, env_move in *. simpl in *. rewrite Hw. simpl.
      split; reflexivity. }
    destruct H as [H1 H2]. repeat split; try assumption.
    + rewrite H1, env_moves_quiet by assumption. reflexivity.
    + rewrite H2, env_moves_quiet by assumption. reflexivity.
  - intros Ho.
    unfold notify, notifyAll, check_owner, bind, owner_raw, load, atomic.
    simpl in *.
    destruct (decide (_owner (mon (interfere e)) = owner_for current)) as [E|_];
      [congruence|].
    split; reflexivity.
Qed.

Lemma notify_empty_wait_set_witness :
  notify (config false) 0 1 (quiet (world_of (monitor_of (OwnerThread 1)) platform_thread))
  = Done tt (quiet (world_of (monitor_of (OwnerThread 1)) platform_thread)) /\
  notifyAll (config false) 0 2 (quiet (world_of (monitor_of (OwnerThread 1)) platform_thread))
  = Done tt (thrown IllegalMonitorStateException
               (quiet (world_of (monitor_of (OwnerThread 1)) platform_thread))).
Proof.
  split.
  - apply (proj1 (notify_empty_wait_set_is_a_no_op (config false) 0 1
             (quiet (world_of (monitor_of (OwnerThread 1)) platform_thread))));
      reflexivity.
  - apply (proj2 (notify_empty_wait_set_is_a_no_op (config false) 0 2
             (quiet (world_of (monitor_of (OwnerThread 1)) platform_thread)))).
    simpl. discriminate.
Defined.

(** ** wait: the two early returns *)

(** C6, as stated, fails: the owner calls [wait] with its interrupt flag
    set while another exception is already pending.  The flag is cleared,
    but [InterruptedException] is not thrown and the wait goes on: a waiter
    is created and the monitor is released on the way. *)
Lemma wait_interrupted_owner_with_pending_exception_waits :
  exists e',
    wait (config false) 8 1 0
         (quiet (world_of (monitor_of (OwnerThread 1)) interrupted_with_pending))
    = Done tt e' /\
    interrupted (self (world e')) = false /\
    pending_exception (self (world e')) = Some (OtherException 7) /\
    ~ In (EvThrow InterruptedException) (trace e') /\
    In EvClearOwner (trace e') /\
    TState <$> heap (world e') !! 4096 = Some TS_RUN.
Proof.
  eexists. split; [vm_compute; reflexivity|].
  vm_compute. repeat split; try reflexivity.
  - intros H. repeat (destruct H as [H|H]; [discriminate H|]). exact H.
  - auto 20.
Qed.

(** C6, amended: [wait] called by a thread that is not the owner throws
    [IllegalMonitorStateException] and writes nothing else.  [wait] called by
    the owner whose interrupt flag is set, and who has no exception pending,
    clears the flag and throws [InterruptedException] before any waiter
    exists: the monitor and the waiters are as the environment's two moves
    left them (in a quiet environment, as they were), so the thread is not
    enqueued and [_waiters], [_WaitSet], [_owner] and [_recursions] are
    untouched. *)
Theorem wait_early_returns
    (cfg : Config) (fuel : nat) (current millis : Z) (e : Exec) :
  (_owner (mon (world (env_move e))) <> owner_for current ->
   wait cfg fuel current millis e
   = Done tt (thrown IllegalMonitorStateException (env_move e))) /\
  (_owner (mon (world (env_move e))) = owner_for current ->
   interrupted (self (world (env_moves 2 e))) = true ->
   pending_exception (self (world (env_moves 2 e))) = None ->
   exists e',
     wait cfg fuel current millis e = Done tt e' /\
     e' = interrupted_early (env_moves 2 e) /\
     mon (world e') = mon (world (env_moves 2 e)) /\
     heap (world e') = heap (world (env_moves 2 e)) /\
     top (world e') = top (world (env_moves 2 e)) /\
     interrupted (self (world e')) = false /\
     pending_exception (self (world e')) = Some InterruptedException /\
     (env e = [] ->
      mon (world e') = mon (world e) /\ heap (world e') = heap (world e))).
Proof.
  split.
  - intros Ho.
    unfold wait, check_owner, bind, owner_raw, load, atomic. simpl in *.
    destruct (decide (_owner (mon (interfere e)) = owner_for current)) as [E|_];
      [congruence|].
    reflexivity.
  - intros Ho Hi Hp. eexists. split; [|split; [reflexivity|]].
    + unfold wait, check_owner, interrupted_and_nothing_pending, is_interrupted,
        HAS_PENDING_EXCEPTION, THROW, local, bind, owner_raw, load, atomic.
      simpl in Hi, Hp. unfold env_move in *. simpl in *. rewrite Ho.
      destruct (decide (owner_for current = owner_for current)) as [_|E];
        [|congruence].
      unfold ret. simpl. rewrite Hi. simpl. rewrite Hp. simpl.
      unfold interrupted_early. simpl. rewrite <- !app_assoc. reflexivity.
    + repeat split; try reflexivity.
      all: rewrite (env_moves_quiet 2 e) by assumption; reflexivity.
Qed.

Lemma wait_early_returns_witness :
  wait (config false) 0 1 0
       (quiet (world_of (monitor_of (OwnerThread 2)) platform_thread))
  = Done tt (thrown IllegalMonitorStateException
               (quiet (world_of (monitor_of (OwnerThread 2)) platform_thread))) /\
  exists e',
    wait (config false) 0 1 0
         (quiet (world_of (monitor_of (OwnerThread 1))
                   (set_interrupted true platform_thread)))
    = Done tt e' /\
    pending_exception (self (world e')) = Some InterruptedException /\
    mon (world e') = monitor_of (OwnerThread 1) /\
    heap (world e') = ∅.
Proof.
  split.
  - apply (proj1 (wait_early_returns (config false) 0 1 0
             (quiet (world_of (monitor_of (OwnerThread 2)) platform_thread)))).
    simpl. discriminate.
  - destruct (proj2 (wait_early_returns (config false) 0 1 0
               (quiet (world_of (monitor_of (OwnerThread 1))
                         (set_interrupted true platform_thread))))
               eq_refl eq_refl eq_refl)
      as (e' & Hrun & _ & Hm & Hh & _ & _ & Hp & _).
    exists e'. repeat split; assumption.
Defined.

(** ** A program logic for executions *)

Lemma wp_ret {A} (a : A) (Q : A -> Exec -> Prop) (e : Exec) :
  Q a e -> wp (ret a) Q e.
Proof. intros H. exact H. Qed.

Lemma wp_bind {A B} (m : M A) (k : A -> M B) (Q : B -> Exec -> Prop) (e : Exec) :
  wp m (fun a e' => wp (k a) Q e') e -> wp (bind m k) Q e.
Proof. unfold wp, bind. destruct (m e); auto. Qed.

Lemma wp_mono {A} (m : M A) (Q Q' : A -> Exec -> Prop) (e : Exec) :
  wp m Q e -> (forall a e', Q a e' -> Q' a e') -> wp m Q' e.
Proof. unfold wp. destruct (m e); auto. Qed.

Lemma wp_atomic {A} (f : World -> option (A * World)) (ev : A -> list Event)
    (Q : A -> Exec -> Prop) (e : Exec) :
  (forall a w', f (interfere e) = Some (a, w') ->
     Q a {| world := w'; env := tail (env e); trace := record (trace e) (ev a) |}) ->
  wp (atomic f ev) Q e.
Proof.
  intros H. unfold wp, atomic.
  destruct (f (interfere e)) as [[a w']|] eqn:E; [apply H; reflexivity|exact I].
Qed.

Lemma wp_local {A} (f : World -> A * World) (ev : A -> list Event)
    (Q : A -> Exec -> Prop) (e : Exec) :
  (forall a w', f (world e) = (a, w') ->
     Q a {| world := w'; env := env e; trace := record (trace e) (ev a) |}) ->
  wp (local f ev) Q e.
Proof.
  intros H. unfold wp, local.
  destruct (f (world e)) as [a w'] eqn:E. apply H. reflexivity.
Qed.

Lemma wp_guarantee (cond : bool) (msg : string) (Q : unit -> Exec -> Prop) (e : Exec) :
  (cond = true -> Q tt e) -> wp (guarantee cond msg) Q e.
Proof. intros H. destruct cond; [apply H; reflexivity|exact I]. Qed.

Lemma wp_when (cond : bool) (m : M unit) (Q : unit -> Exec -> Prop) (e : Exec) :
  (cond = true -> wp m Q e) -> (cond = false -> Q tt e) -> wp (when cond m) Q e.
Proof. intros H1 H2. destruct cond; [apply H1|apply H2]; reflexivity. Qed.

Lemma wp_loop {S A} (Inv : S -> Exec -> Prop) (body : S -> M (S + A))
    (Q : A -> Exec -> Prop) :
  (forall s e, Inv s e ->
     wp (body s) (fun r e' => match r with inl s' => Inv s' e' | inr a => Q a e' end) e) ->
  forall fuel s e, Inv s e -> wp (loop fuel body s) Q e.
Proof.
  intros Hbody. induction fuel as [|n IH]; intros s e HI; [exact I|].
  simpl. apply wp_bind. eapply wp_mono; [apply Hbody, HI|].
  intros [s'|a] e' H; [apply IH, H|exact H].
Qed.

Lemma wp_Done {A} (m : M A) (Q : A -> Exec -> Prop) (e : Exec) (a : A) (e' : Exec) :
  wp m Q e -> m e = Done a e' -> Q a e'.
Proof. unfold wp. intros H E. rewrite E in H. exact H. Qed.

Lemma triple_frame {A} (P : Exec -> Prop) (m : M A) (Q Q' : A -> Exec -> Prop) :
  triple P m Q -> (forall a e', Q a e' -> Q' a e') -> triple P m Q'.
Proof. intros H HQ e HP. eapply wp_mono; [apply H, HP|exact HQ]. Qed.

(** *** The rely and the trace along a call *)

Lemma continues_refl (t : list Event) : continues t t.
Proof. exists []. symmetry. apply app_nil_r. Qed.

Lemma continues_record (t0 t evs : list Event) :
  continues t0 t -> continues t0 (record t evs).
Proof.
  intros [ext ->]. destruct evs as [|x evs]; simpl.
  - exists ext. reflexivity.
  - exists (ext ++ x :: evs). rewrite app_assoc. reflexivity.
Qed.

Lemma continues_trans (t0 t1 t2 : list Event) :
  continues t0 t1 -> continues t1 t2 -> continues t0 t2.
Proof.
  intros [x ->] [y ->]. exists (x ++ y). rewrite app_assoc. reflexivity.
Qed.

Lemma record_app (t evs : list Event) : record t evs = t ++ evs.
Proof. destruct evs; simpl; [rewrite app_nil_r|]; reflexivity. Qed.

Lemma running_atomic (R : World -> World -> Prop) (t0 : list Event) (e : Exec)
    (w' : World) (evs : list Event) :
  running R t0 e ->
  running R t0 {| world := w'; env := tail (env e); trace := record (trace e) evs |}.
Proof.
  intros [He Ht]. split.
  - unfold env_ok in *. simpl. destruct (env e) as [|g gs]; simpl; [constructor|].
    inversion He; assumption.
  - simpl. apply continues_record, Ht.
Qed.

Lemma running_local (R : World -> World -> Prop) (t0 : list Event) (e : Exec)
    (w' : World) (evs : list Event) :
  running R t0 e ->
  running R t0 {| world := w'; env := env e; trace := record (trace e) evs |}.
Proof.
  intros [He Ht]. split; [exact He|]. simpl. apply continues_record, Ht.
Qed.

Lemma running_restart (R : World -> World -> Prop) (t0 : list Event) (e : Exec) :
  running R t0 e -> running R (trace e) e.
Proof. intros [He _]. split; [exact He|apply continues_refl]. Qed.

Lemma running_continues (R : World -> World -> Prop) (t0 t1 : list Event) (e : Exec) :
  continues t0 t1 -> running R t1 e -> running R t0 e.
Proof.
  intros H [He Ht]. split; [exact He|]. eapply continues_trans; eassumption.
Qed.

Lemma rely_interfere (R : World -> World -> Prop) (t0 : list Event) (e : Exec) :
  (forall w, R w w) -> running R t0 e -> R (world e) (interfere e).
Proof.
  intros Hrefl [He _]. unfold interfere, env_ok in *.
  destruct (env e) as [|g gs]; [apply Hrefl|].
  inversion He as [|? ? Hg _]. apply Hg.
Qed.

Lemma owned_interfere (current : Z) (t0 : list Event) (e : Exec) :
  running (owner_stable current) t0 e -> owned current e ->
  _owner (mon (interfere e)) = owner_for current.
Proof.
  intros [He _] Ho. unfold interfere, env_ok, owned in *.
  destruct (env e) as [|g gs]; [exact Ho|].
  inversion He as [|? ? Hg _]. apply Hg, Ho.
Qed.

(** ** Specifications of the functions behind enter *)

Create HintDb prims.
#[local] Hint Unfold load store node_load node_store self_load self_store vt_load
  vt_store new_node delete_node owner_raw try_set_owner_from release_clear_owner
  set_owner_from_raw contentions add_to_contentions cmpxchg_contentions
  cmpxchg_cxq replace_if_null_Responsible is_interrupted HAS_PENDING_EXCEPTION
  THROW is_suspended local_poll_armed park_reset park unpark
  unpark_vthread_unparker try_preempt object_peek object header cas_set_mark
  set_contentions_raw load_notified set_onWaitingList cmpxchg_state
  get_and_reset_relock_count_after_wait is_being_async_deflated : prims.

Lemma wp_atomic_r (R : World -> World -> Prop) (t0 : list Event) {A}
    (f : World -> option (A * World)) (ev : A -> list Event)
    (Q : A -> Exec -> Prop) (e : Exec) :
  running R t0 e ->
  (forall a w' e', f (interfere e) = Some (a, w') -> running R t0 e' ->
     world e' = w' -> trace e' = record (trace e) (ev a) -> Q a e') ->
  wp (atomic f ev) Q e.
Proof.
  intros He H. apply wp_atomic. intros a w' Hf.
  apply (H a w' _ Hf); [apply running_atomic, He|reflexivity|reflexivity].
Qed.

Lemma wp_local_r (R : World -> World -> Prop) (t0 : list Event) {A}
    (f : World -> A * World) (ev : A -> list Event)
    (Q : A -> Exec -> Prop) (e : Exec) :
  running R t0 e ->
  (forall a w' e', f (world e) = (a, w') -> running R t0 e' ->
     world e' = w' -> trace e' = record (trace e) (ev a) -> Q a e') ->
  wp (local f ev) Q e.
Proof.
  intros He H. apply wp_local. intros a w' Hf.
  apply (H a w' _ Hf); [apply running_local, He|reflexivity|reflexivity].
Qed.

Ltac inv_step H :=
  simpl in H;
  repeat match type of H with
         | context [heap ?w !! ?p] => destruct (heap w !! p) eqn:?; simpl in H
         | context [vthreads ?w !! ?p] => destruct (vthreads w !! p) eqn:?; simpl in H
         | (if ?b then _ else _) = _ => destruct b eqn:?
         end;
  try discriminate H;
  try (injection H as <- <-).

Ltac wp_step :=
  lazymatch goal with
  | |- wp (if true then _ else _) _ _ => cbv iota
  | |- wp (if false then _ else _) _ _ => cbv iota
  | |- wp (ret _) _ _ => apply wp_ret
  | |- wp (bind _ _) _ _ => apply wp_bind
  | H : running ?c ?t ?e |- wp (atomic _ _) _ ?e =>
      let a := fresh "a" in let w := fresh "w" in let e' := fresh "e" in
      let Hf := fresh "Hf" in let He := fresh "He" in
      let Hw := fresh "Hw" in let Ht := fresh "Ht" in
      apply (wp_atomic_r c t _ _ _ _ H); intros a w e' Hf He Hw Ht; inv_step Hf
  | H : running ?c ?t ?e |- wp (local _ _) _ ?e =>
      let a := fresh "a" in let w := fresh "w" in let e' := fresh "e" in
      let Hf := fresh "Hf" in let He := fresh "He" in
      let Hw := fresh "Hw" in let Ht := fresh "Ht" in
      apply (wp_local_r c t _ _ _ _ H); intros a w e' Hf He Hw Ht; inv_step Hf
  | |- wp (guarantee _ _) _ _ => apply wp_guarantee; intros ?
  | |- wp (when _ _) _ _ => apply wp_when; intros ?
  | |- wp (if ?b then _ else _) _ _ => destruct b eqn:?
  | |- wp (match ?x with _ => _ end) _ _ => destruct x eqn:?
  | |- wp _ _ _ => progress autounfold with prims
  end.

Ltac wp_steps := repeat wp_step.

(** [owned] at a state, from the accesses that led to it. *)
Ltac solve_owned :=
  lazymatch goal with
  | H : owned ?c ?e |- owned ?c ?e => exact H
  | Hw : world ?e' = _ |- owned _ ?e' =>
      unfold owned; rewrite Hw; simpl;
      first [ reflexivity
            | assumption
            | eapply owned_interfere; [eassumption|solve_owned]
            | change (owned _ _); solve_owned ]
  end.

Lemma TryLock_spec current t0 :
  triple (running (owner_stable current) t0) (TryLock current)
    (fun r e' => running (owner_stable current) t0 e' /\ (r = Success -> owned current e')).
Proof.
  intros e He. unfold TryLock. wp_steps.
  all: split; [ assumption | try discriminate ].
  intros _. solve_owned.
Qed.

Ltac know :=
  repeat match goal with
         | H : ?x = ?x -> _ |- _ => specialize (H eq_refl)
         | H : ?P -> _, H' : ?P |- _ =>
             lazymatch type of P with Prop => specialize (H H') end
         | H : _ /\ _ |- _ => destruct H
         end.

Ltac wp_call spec :=
  eapply wp_mono; [eapply spec; eassumption|];
  let a := fresh "r" in let e' := fresh "e" in let H := fresh "Hpost" in
  intros a e' H; simpl in H; know.

Ltac done_running := split; [assumption|try discriminate; try (intros _; solve_owned)].

Section SpinSpecs.
Variable cfg : Config.
Variable current : Z.
Variable t0 : list Event.

Lemma short_fixed_spin_loop_spec adapt n :
  triple (running (owner_stable current) t0) (short_fixed_spin_loop cfg current adapt n)
    (fun r e' => running (owner_stable current) t0 e' /\ (r = true -> owned current e')).
Proof.
  induction n as [|n IH]; intros e He; simpl.
  - wp_step. done_running.
  - wp_step. wp_call (TryLock_spec current t0). destruct r.
    + know. wp_steps; done_running.
    + apply IH. assumption.
    + wp_step. done_running.
Qed.

Lemma short_fixed_spin_spec spin_count adapt :
  triple (running (owner_stable current) t0) (short_fixed_spin cfg current spin_count adapt)
    (fun r e' => running (owner_stable current) t0 e' /\ (r = true -> owned current e')).
Proof. apply short_fixed_spin_loop_spec. Qed.

Lemma TrySpin_loop_spec n : forall ctr prv,
  triple (running (owner_stable current) t0) (TrySpin_loop cfg current n ctr prv)
    (fun r e' => running (owner_stable current) t0 e' /\ (snd r = true -> owned current e')).
Proof.
  induction n as [|n IH]; intros ctr prv e He; simpl.
  - wp_step. done_running.
  - wp_steps; try done_running.
    all: apply IH; assumption.
Qed.
End SpinSpecs.

Section TrySpinSpec.
Variable cfg : Config.
Variable current : Z.
Variable t0 : list Event.

Lemma TrySpin_spec :
  triple (running (owner_stable current) t0) (TrySpin cfg current)
    (fun r e' => running (owner_stable current) t0 e' /\ (r = true -> owned current e')).
Proof.
  intros e He. unfold TrySpin.
  destruct (0 <? Knob_FixedSpin (knobs cfg)).
  { apply short_fixed_spin_spec. assumption. }
  wp_step. wp_call (short_fixed_spin_spec cfg current t0).
  destruct r.
  { know. wp_step. done_running. }
  wp_steps; try done_running.
  all: wp_call (TrySpin_loop_spec cfg current t0); destruct r as [ctr' acq]; simpl in *.
  all: destruct acq; know; wp_steps; try done_running.
  all: wp_call (TryLock_spec current t0); wp_step; split; [assumption|].
  all: intros Hb; apply bool_decide_eq_true in Hb; auto.
Qed.
End TrySpinSpec.

Lemma preserves_ret {A} (I : Exec -> Prop) (a : A) : preserves I (ret a).
Proof. intros e H. exact H. Qed.

Lemma preserves_bind {A B} (I : Exec -> Prop) (m : M A) (k : A -> M B) :
  preserves I m -> (forall a, preserves I (k a)) -> preserves I (bind m k).
Proof.
  intros Hm Hk e H. apply wp_bind. eapply wp_mono; [apply Hm, H|].
  intros a e' H'. apply Hk, H'.
Qed.

Lemma preserves_when (I : Exec -> Prop) (cond : bool) (m : M unit) :
  preserves I m -> preserves I (when cond m).
Proof. intros Hm. destruct cond; [exact Hm|apply preserves_ret]. Qed.

Lemma preserves_guarantee (I : Exec -> Prop) (cond : bool) (msg : string) :
  preserves I (guarantee cond msg).
Proof. intros e H. apply wp_guarantee. intros _. exact H. Qed.

Lemma preserves_loop {S A} (I : Exec -> Prop) (body : S -> M (S + A)) :
  (forall s, preserves I (body s)) ->
  forall fuel s, preserves I (loop fuel body s).
Proof.
  intros Hb fuel s e H.
  apply (wp_loop (fun _ e => I e) body (fun _ e => I e)); [|exact H].
  intros s' e' H'. eapply wp_mono; [apply Hb, H'|].
  intros [x|x] e'' H''; exact H''.
Qed.

Lemma running_preserved_atomic (R : World -> World -> Prop) t0 {A}
    (f : World -> option (A * World)) (ev : A -> list Event) :
  preserves (running R t0) (atomic f ev).
Proof. intros e H. apply wp_atomic. intros a w' _. apply running_atomic, H. Qed.

Lemma running_preserved_local (R : World -> World -> Prop) t0 {A}
    (f : World -> A * World) (ev : A -> list Event) :
  preserves (running R t0) (local f ev).
Proof. intros e H. apply wp_local. intros a w' _. apply running_local, H. Qed.

Lemma holding_preserved_atomic current t0 {A}
    (f : World -> option (A * World)) (ev : A -> list Event) :
  (forall w a w', f w = Some (a, w') -> _owner (mon w') = _owner (mon w)) ->
  preserves (holding current t0) (atomic f ev).
Proof.
  intros Hf e [He Ho]. apply wp_atomic. intros a w' E. split.
  - apply running_atomic, He.
  - unfold owned. simpl. rewrite (Hf _ _ _ E).
    eapply owned_interfere; eassumption.
Qed.

Lemma holding_preserved_local current t0 {A}
    (f : World -> A * World) (ev : A -> list Event) :
  (forall w a w', f w = (a, w') -> _owner (mon w') = _owner (mon w)) ->
  preserves (holding current t0) (local f ev).
Proof.
  intros Hf e [He Ho]. apply wp_local. intros a w' E. split.
  - apply running_local, He.
  - unfold owned. simpl. rewrite (Hf _ _ _ E). exact Ho.
Qed.

Create HintDb pres.

Ltac pres_side :=
  let Hf := fresh "Hf" in
  intros ? ? ? Hf; inv_step Hf;
  repeat match goal with
         | |- context [if ?b then _ else _] => destruct b
         end;
  reflexivity.

Ltac pres :=
  repeat first
    [ assumption
    | apply preserves_ret
    | apply preserves_bind; [|intros ?]
    | apply preserves_when
    | apply preserves_guarantee
    | apply preserves_loop; intros ?
    | apply running_preserved_atomic
    | apply running_preserved_local
    | apply holding_preserved_atomic; pres_side
    | apply holding_preserved_local; pres_side
    | solve [auto with pres]
    | match goal with
      | |- preserves _ (if ?b then _ else _) => destruct b
      | |- preserves _ (match ?x with _ => _ end) => destruct x
      end
    | progress cbv beta
    | progress autounfold with prims ].

Section ExitSpecs.
Variable cfg : Config.
Variable current : Z.
Variable t0 : list Event.

Lemma UnlinkAfterAcquire_holding fuel node :
  preserves (holding current t0) (UnlinkAfterAcquire fuel current node).
Proof. unfold UnlinkAfterAcquire. pres. Qed.

Lemma ExitEpilog_running Wakee :
  preserves (running (owner_stable current) t0) (ExitEpilog current Wakee).
Proof. unfold ExitEpilog. pres. Qed.
#[local] Hint Resolve ExitEpilog_running : pres.

Lemma exit_running fuel not_suspended :
  preserves (running (owner_stable current) t0) (exit cfg fuel current not_suspended).
Proof. unfold exit. pres. Qed.

End ExitSpecs.

Ltac wp_pres I :=
  lazymatch goal with
  | |- wp ?m _ ?e =>
      let H := fresh "Hpres" in
      assert (H : preserves I m) by pres; apply H; clear H
  end.

Ltac hold := split; [assumption|try discriminate; intros; solve_owned].

Section EnterISpec.
Variable cfg : Config.
Variable current : Z.
Variable t0 : list Event.

#[local] Hint Resolve UnlinkAfterAcquire_holding : pres.

Lemma EnterI_spec fuel :
  triple (running (owner_stable current) t0) (EnterI cfg fuel current)
    (fun _ e' => holding current t0 e').
Proof.
  intros e He. unfold EnterI.
  wp_step. wp_call (TryLock_spec current t0).
  wp_step; [know; wp_step; split; assumption|].
  wp_steps.
  { hold. }
  all: wp_call (TrySpin_spec cfg current t0).
  all: wp_step; [know; wp_step; split; assumption|].
  all: wp_steps.
  eapply wp_mono.
  { apply (wp_loop (fun _ e => running (owner_stable current) t0 e) _
             (fun r e => running (owner_stable current) t0 e /\ (r = None -> owned current e)));
      [|assumption].
    intros [] e' He'. wp_steps; try (split; [assumption|discriminate]).
    all: wp_call (TryLock_spec current t0).
    all: wp_steps; know; try assumption; split; auto. }
  intros pushed e' [He' Ho]. simpl. destruct pushed as [nxt|];
    [|wp_step; split; auto].
  clear Ho. wp_steps.
  all: eapply wp_mono;
    [ apply (wp_loop (fun _ e => running (owner_stable current) t0 e) _
              (fun _ e => holding current t0 e)); [|assumption]
    | intros [] e'' Hh; wp_pres (holding current t0); exact Hh ].
  all: intros recheck e'' He''; wp_step; wp_call (TryLock_spec current t0).
  all: wp_step; [know; wp_step; split; assumption|].
  all: wp_steps.
  all: wp_call (TryLock_spec current t0).
  all: wp_step; [know; wp_step; split; assumption|].
  all: wp_steps; try hold.
  all: wp_call (TrySpin_spec cfg current t0).
  all: wp_step; [know; wp_step; split; assumption|].
  all: wp_steps; assumption.
Qed.
End EnterISpec.

Ltac trace_back :=
  repeat match goal with
         | H : trace ?e = _ |- context [trace ?e] => rewrite H
         end;
  simpl; rewrite ?record_app, ?app_nil_r.

Section VThreadSpecs.
Variable cfg : Config.
Variable current : Z.
Variable t0 : list Event.

#[local] Hint Resolve UnlinkAfterAcquire_holding : pres.
#[local] Hint Resolve exit_running : pres.

Lemma VThreadMonitorEnter_spec fuel waiter :
  triple (running (owner_stable current) t0) (VThreadMonitorEnter fuel current waiter)
    (fun r e' => running (owner_stable current) t0 e' /\ (r = true -> owned current e')).
Proof.
  intros e He. unfold VThreadMonitorEnter.
  wp_step. wp_call (TryLock_spec current t0).
  wp_step; [know; wp_steps; hold|].
  wp_steps; try hold.
  all: eapply wp_mono;
    [ apply (wp_loop (fun _ e => running (owner_stable current) t0 e) _
              (fun r e => running (owner_stable current) t0 e /\ (r = None -> owned current e)));
      [|assumption]
    | ].
  all: try (intros [] e' He'; wp_steps; try (split; [assumption|discriminate]);
            wp_call (TryLock_spec current t0);
            wp_steps; know; try assumption; split; auto).
  all: intros pushed e' [He' Ho]; simpl; destruct pushed as [nxt|];
    [clear Ho|know; wp_steps; hold].
  all: wp_step; wp_call (TryLock_spec current t0); wp_step.
  all: try (know; eapply wp_mono;
            [wp_pres (holding current t0); split; assumption
            |intros ? ? [? ?]; split; auto]).
  all: wp_steps; split; try assumption; discriminate.
Qed.

Lemma ExitOnSuspend_spec fuel :
  triple (holding current t0) (ExitOnSuspend cfg fuel current)
    (fun exited e' => running (owner_stable current) t0 e' /\ (exited = false -> owned current e')).
Proof.
  intros e [He Ho]. unfold ExitOnSuspend. wp_steps.
  - wp_call (exit_running cfg current t0). wp_steps. split; [assumption|discriminate].
  - hold.
Qed.

Lemma install_displaced_markword_in_object_spec obj e :
  running (owner_stable current) t0 e ->
  wp (install_displaced_markword_in_object cfg obj)
    (fun _ e' => running (owner_stable current) t0 e' /\
                 exists mid, trace e' = trace e ++ mid /\ Forall header_restore mid) e.
Proof.
  intros He. unfold install_displaced_markword_in_object. wp_steps.
  all: split; [assumption|].
  - exists []. split; [trace_back; reflexivity|constructor].
  - eexists [_]. split; [trace_back; reflexivity|].
    repeat constructor. eexists; reflexivity.
Qed.

End VThreadSpecs.

(** ** Specification of deflate_monitor *)

Lemma wp_atomic_stable (R : World -> World -> Prop) (t0 : list Event)
    (P : World -> Prop) {A} (f : World -> option (A * World)) (ev : A -> list Event)
    (Q : A -> Exec -> Prop) (e : Exec) :
  (forall w, R w w) -> stable R P -> running R t0 e -> P (world e) ->
  (forall w a w' e', P w -> f w = Some (a, w') -> running R t0 e' ->
     world e' = w' -> Q a e') ->
  wp (atomic f ev) Q e.
Proof.
  intros Hrefl Hst He HP H. apply wp_atomic. intros a w' Hf.
  apply (H (interfere e) a w' _); [|exact Hf|apply running_atomic, He|reflexivity].
  apply (Hst (world e)); [apply rely_interfere with t0; assumption|exact HP].
Qed.

Lemma stable_and (R : World -> World -> Prop) (P Q : World -> Prop) :
  stable R P -> stable R Q -> stable R (fun w => P w /\ Q w).
Proof. intros HP HQ w w' HR [H1 H2]. split; [eapply HP|eapply HQ]; eassumption. Qed.

Lemma stable_True (R : World -> World -> Prop) : stable R (fun _ => True).
Proof. intros w w' _ _. exact I. Qed.

Lemma deflation_stable_refl w : deflation_stable w w.
Proof. unfold deflation_stable. tauto. Qed.

Lemma INT_MIN_negative : INT_MIN < 0.
Proof. unfold INT_MIN. lia. Qed.

Lemma dead_stable : stable deflation_stable dead.
Proof. intros w w' HR H. apply HR, H. Qed.

Lemma negative_stable : stable deflation_stable negative.
Proof. intros w w' HR H. apply HR, H. Qed.

Lemma claimed_stable : stable deflation_stable claimed.
Proof.
  intros w w' (Hn & Hc & _) [H1 H2]. split; [apply Hn, H1|apply (Hc H1 H2)].
Qed.

Lemma claimed_queues_stable (wt cx el : bool) :
  stable deflation_stable
    (fun w => claimed w /\
              (wt = true -> _waiters (mon w) = 0) /\
              (cx = true -> _cxq (mon w) = nullptr) /\
              (el = true -> _EntryList (mon w) = nullptr)).
Proof.
  intros w w' HR ([H1 H2] & Hw & Hc & He).
  split; [apply (claimed_stable w w' HR); split; assumption|].
  destruct HR as (_ & HR & _). destruct (HR H1 H2) as (_ & -> & -> & ->).
  repeat split; assumption.
Qed.

Lemma header_stable h : stable deflation_stable (fun w => _header (mon w) = h).
Proof. intros w w' (_ & _ & HR & _) H. congruence. Qed.

Lemma deflating_stable gone s : stable deflation_stable (deflating gone s).
Proof.
  intros w w' HR (Hd & Hs). split.
  - intros Hg. apply (dead_stable w w' HR (Hd Hg)).
  - destruct s as [| |wt cx el]; simpl in *.
    + exact I.
    + apply (negative_stable w w' HR Hs).
    + apply (claimed_queues_stable wt cx el w w' HR Hs).
Qed.

Lemma header_deflating_stable h gone s :
  stable deflation_stable (fun w => _header (mon w) = h /\ deflating gone s w).
Proof. apply stable_and; [apply header_stable|apply deflating_stable]. Qed.

Ltac forget e :=
  repeat match goal with
         | H : context [e] |- _ => clear H
         end;
  try clear e.

Ltac booleans :=
  repeat match goal with
         | H : (_ =? _) = true |- _ => apply Z.eqb_eq in H
         | H : (_ =? _) = false |- _ => apply Z.eqb_neq in H
         | H : (_ <? _) = true |- _ => apply Z.ltb_lt in H
         | H : (_ <? _) = false |- _ => apply Z.ltb_ge in H
         | H : bool_decide _ = true |- _ => apply bool_decide_eq_true in H
         | H : bool_decide _ = false |- _ => apply bool_decide_eq_false in H
         | H : negb _ = true |- _ => apply negb_true_iff in H
         | H : negb _ = false |- _ => apply negb_false_iff in H
         end.

(** The facts about the world the environment left are carried over the
    access just made. *)
Ltac carried :=
  cbv beta;
  repeat match goal with
         | Hw : world ?e = _ |- context [world ?e] => rewrite Hw
         end;
  repeat match goal with
         | |- context [if ?b then _ else _] => destruct b eqn:?
         end;
  unfold deflated, deflating, at_stage, claimed, negative, dead in *;
  simpl in *; booleans;
  pose proof INT_MIN_negative;
  intuition (first [congruence|lia]).

(** One shared access of the deflater, which knows [P] of the world before
    the environment moves. *)
Ltac keep P Hst :=
  lazymatch goal with
  | He : running deflation_stable ?t ?e |- wp (atomic ?f ?ev) ?Q ?e =>
      let w := fresh "w" in let a := fresh "a" in let w' := fresh "w" in
      let e' := fresh "e" in let HP := fresh "HP" in let Hf := fresh "Hf" in
      let He' := fresh "He" in let Hw := fresh "Hw" in
      apply (wp_atomic_stable deflation_stable t P f ev Q e
               deflation_stable_refl Hst He);
      [ solve [carried]
      | forget e;
        repeat match goal with
               | H : deflating _ _ _ |- _ => clear H
               | H : _ /\ deflating _ _ _ |- _ => clear H
               end;
        intros w a w' e' HP Hf He' Hw; inv_step Hf ]
  end.

Section DeflationSpec.
Variable cfg : Config.
Variable t0 : list Event.

(** An access with the most the deflater knows by now, or a step of the
    control flow. *)
Ltac advance :=
  lazymatch goal with
  | |- wp (atomic _ _) _ _ =>
      first
        [ keep (deflating true (Claimed true true true))
               (deflating_stable true (Claimed true true true))
        | keep (deflating true (Claimed true true false))
               (deflating_stable true (Claimed true true false))
        | keep (deflating true (Claimed true false false))
               (deflating_stable true (Claimed true false false))
        | keep (deflating true (Claimed false false false))
               (deflating_stable true (Claimed false false false))
        | keep (deflating true Committed) (deflating_stable true Committed)
        | keep (deflating true Checking) (deflating_stable true Checking)
        | keep (deflating false (Claimed true true true))
               (deflating_stable false (Claimed true true true))
        | keep (deflating false (Claimed true true false))
               (deflating_stable false (Claimed true true false))
        | keep (deflating false (Claimed true false false))
               (deflating_stable false (Claimed true false false))
        | keep (deflating false (Claimed false false false))
               (deflating_stable false (Claimed false false false))
        | keep (deflating false Committed) (deflating_stable false Committed)
        | keep (deflating false Checking) (deflating_stable false Checking) ]
  | |- wp (install_displaced_markword_in_object _ _) _ _ => fail
  | |- wp _ _ _ => first [progress cbn [negb]|wp_step]; try discriminate
  end.

(** The compare-and-swap of the mark word is the last access of
    [install_displaced_markword_in_object]: what it leaves is what the call
    returns with. *)
Lemma install_displaced_markword_in_object_swaps obj e :
  running deflation_stable t0 e ->
  deflating false (Claimed true true true) (world e) ->
  wp (install_displaced_markword_in_object cfg obj)
    (fun _ e' => deflating false (Claimed true true true) (world e') /\
                 (_object (mon (world e')) <> nullptr -> header_swapped cfg e')) e.
Proof.
  intros He Hd. unfold install_displaced_markword_in_object.
  wp_step. wp_step.
  unfold object_peek, load. apply wp_bind.
  keep (deflating false (Claimed true true true))
       (deflating_stable false (Claimed true true true)).
  destruct (_object (mon w) =? nullptr) eqn:Eobj.
  - apply wp_ret. rewrite Hw. split; [exact HP|]. intros Hobj. booleans. contradiction.
  - apply wp_bind. unfold header, load.
    keep (deflating false (Claimed true true true))
         (deflating_stable false (Claimed true true true)).
    apply wp_bind. unfold cas_set_mark. apply wp_atomic. intros prev w2 Hstep.
    inversion Hstep; subst prev w2; clear Hstep.
    apply wp_ret. cbn [world trace].
    pose proof (rely_interfere deflation_stable t0 e deflation_stable_refl He) as HR.
    rewrite Hw0 in HR.
    pose proof (deflating_stable false (Claimed true true true) _ _ HR HP0) as HP1.
    pose proof (header_stable (_header (mon w0)) _ _ HR eq_refl) as Hh.
    split.
    + destruct (mark (interfere e) =? encode_this cfg); [|exact HP1].
      revert HP1. unfold deflating, at_stage, claimed, dead. simpl. tauto.
    + intros _. exists (trace e), (mark (interfere e)).
      split; [rewrite record_app; reflexivity|].
      destruct (mark (interfere e) =? encode_this cfg); simpl; congruence.
Qed.

Lemma deflate_monitor_spec e :
  running deflation_stable t0 e ->
  wp (deflate_monitor cfg)
    (fun r e' => r = true ->
       deflated (world e') /\
       (_object (mon (world e')) <> nullptr -> header_swapped cfg e')) e.
Proof.
  intros He.
  unfold deflate_monitor, is_busy, restore_owner_after_lost_race.
  repeat advance.
  - intros _. solve [carried].
  - eapply wp_mono.
    + apply install_displaced_markword_in_object_swaps; [eassumption|].
      solve [carried].
    + intros [] e1 [Hd Hswap]. apply wp_ret. intros _. split; [|exact Hswap].
      revert Hd. unfold deflating, deflated, at_stage, claimed. tauto.
Qed.

End DeflationSpec.

(** ** deflate_monitor: the state it leaves on success *)

Lemma racing_restore_keeps_to_the_protocol w :
  deflation_stable w (racing_restore w).
Proof.
  unfold deflation_stable, racing_restore.
  destruct (_contentions (mon w) <? 0); simpl; tauto.
Qed.

Lemma relock_keeps_to_the_protocol w : deflation_stable w (relock w).
Proof.
  unfold deflation_stable, relock.
  destruct (mark w =? _header (mon w)); simpl; tauto.
Qed.

Lemma env_ok_repeat (R : World -> World -> Prop) (g : World -> World) (n : nat)
    (w : World) (t : list Event) :
  (forall w, R w (g w)) -> env_ok R {| world := w; env := repeat g n; trace := t |}.
Proof.
  intros Hg. unfold env_ok. simpl. induction n; simpl; constructor; assumption.
Qed.

Lemma idle_then_relocked_keeps_to_the_protocol :
  env_ok deflation_stable idle_then_relocked.
Proof.
  unfold env_ok, idle_then_relocked. cbn [env]. apply List.Forall_app. split.
  - apply List.Forall_forall. intros g Hg. apply repeat_spec in Hg. subst g.
    apply racing_restore_keeps_to_the_protocol.
  - constructor; [apply relock_keeps_to_the_protocol|constructor].
Qed.




(** ** A logic for executions that come back *)

Lemma returns_ret {A} (a : A) (Q : A -> Exec -> Prop) (e : Exec) :
  Q a e -> returns (ret a) Q e.
Proof. intros H. exact H. Qed.

Lemma returns_bind {A B} (m : M A) (k : A -> M B) (Q : B -> Exec -> Prop) (e : Exec) :
  returns m (fun a e' => returns (k a) Q e') e -> returns (bind m k) Q e.
Proof. unfold returns, bind. destruct (m e); auto. Qed.

Lemma returns_mono {A} (m : M A) (Q Q' : A -> Exec -> Prop) (e : Exec) :
  returns m Q e -> (forall a e', Q a e' -> Q' a e') -> returns m Q' e.
Proof. unfold returns. destruct (m e); auto. Qed.

Lemma returns_atomic {A} (f : World -> option (A * World)) (ev : A -> list Event)
    (Q : A -> Exec -> Prop) (w : World) (t : list Event) (a : A) (w' : World) :
  f w = Some (a, w') -> Q a (alone w' (record t (ev a))) ->
  returns (atomic f ev) Q (alone w t).
Proof. intros Hf HQ. unfold returns, atomic, interfere. simpl. rewrite Hf. exact HQ. Qed.

Lemma returns_local {A} (f : World -> A * World) (ev : A -> list Event)
    (Q : A -> Exec -> Prop) (w : World) (t : list Event) :
  Q (f w).1 (alone (f w).2 (record t (ev (f w).1))) ->
  returns (local f ev) Q (alone w t).
Proof. intros HQ. unfold returns, local. simpl. destruct (f w) as [a w']. exact HQ. Qed.

Lemma returns_guarantee (cond : bool) (msg : string) (Q : unit -> Exec -> Prop) (e : Exec) :
  cond = true -> Q tt e -> returns (guarantee cond msg) Q e.
Proof. intros -> H. exact H. Qed.

Lemma returns_loop {S A} (Inv : nat -> S -> Exec -> Prop) (body : S -> M (S + A))
    (Q : A -> Exec -> Prop) :
  (forall n s e, Inv n s e ->
     returns (body s)
       (fun r e' => match r with
                    | inl s' => exists n', (n' < n)%nat /\ Inv n' s' e'
                    | inr a => Q a e'
                    end) e) ->
  forall fuel n s e, (n < fuel)%nat -> Inv n s e -> returns (loop fuel body s) Q e.
Proof.
  intros Hbody. induction fuel as [|k IH]; intros n s e Hn HI; [lia|].
  simpl. apply returns_bind. eapply returns_mono; [apply Hbody, HI|].
  intros [s'|a] e' H; [|exact H].
  destruct H as (n' & Hlt & HI'). apply (IH n'); [lia|exact HI'].
Qed.

Lemma returns_loop_once {S A} (body : S -> M (S + A)) (Q : A -> Exec -> Prop)
    (n : nat) (s : S) (e : Exec) :
  returns (body s)
    (fun r e' => match r with
                 | inl s' => returns (loop n body s') Q e'
                 | inr a => Q a e'
                 end) e ->
  returns (loop (Datatypes.S n) body s) Q e.
Proof.
  intros H. simpl. apply returns_bind. eapply returns_mono; [exact H|].
  intros [s'|a] e' H'; exact H'.
Qed.

Lemma returns_Done {A} (m : M A) (Q : A -> Exec -> Prop) (e : Exec) :
  returns m Q e -> exists a e', m e = Done a e' /\ Q a e'.
Proof. unfold returns. destruct (m e) as [a e'| |]; [eauto|contradiction..]. Qed.

(** ** Queues in the heap *)

Lemma chain_functional h st : forall L1 L2 p,
  chain h st p L1 -> chain h st p L2 -> L1 = L2.
Proof.
  induction L1 as [|x L1 IH]; intros [|y L2] p H1 H2; simpl in *.
  - reflexivity.
  - destruct H2 as (-> & Hy & _). congruence.
  - destruct H1 as (-> & Hx & _). congruence.
  - destruct H1 as (-> & _ & n & Hn & _ & H1).
    destruct H2 as (<- & _ & m & Hm & _ & H2).
    rewrite Hn in Hm. injection Hm as <-. f_equal. eapply IH; eassumption.
Qed.

Lemma chain_from_member h st : forall A p x B,
  chain h st p (A ++ x :: B) -> chain h st x (x :: B).
Proof.
  induction A as [|a A IH]; intros p x B H; simpl in *.
  - destruct H as (-> & Hx & H). split; [reflexivity|]. split; assumption.
  - destruct H as (_ & _ & n & _ & _ & H). eapply IH, H.
Qed.

Lemma chain_NoDup h st : forall L p, chain h st p L -> List.NoDup L.
Proof.
  induction L as [|x L IH]; intros p H; [constructor|].
  pose proof H as H0. simpl in H. destruct H as (-> & Hx & n & Hn & Hs & H).
  constructor; [|eapply IH, H].
  intros Hin. apply in_split in Hin. destruct Hin as (A & B & ->).
  pose proof (chain_from_member _ _ _ _ _ _ H) as H1.
  pose proof (chain_functional _ _ _ _ _ H0 H1) as E.
  apply (f_equal (@length Z)) in E. simpl in E. rewrite length_app in E. simpl in E. lia.
Qed.

Lemma chain_insert h st x n : forall L p,
  ~ In x L -> chain h st p L -> chain (<[x := n]> h) st p L.
Proof.
  induction L as [|y L IH]; intros p Hx H; simpl in *; [exact H|].
  destruct H as (-> & Hy & m & Hm & Hs & H).
  split; [reflexivity|]. split; [exact Hy|].
  exists m. split; [|split; [exact Hs|apply IH; [tauto|exact H]]].
  rewrite lookup_insert_ne; [exact Hm|]. intros ->. apply Hx. left. reflexivity.
Qed.

Lemma linked_insert h x n t : forall L q,
  ~ In x L -> linked h q L t -> linked (<[x := n]> h) q L t.
Proof.
  induction L as [|y L IH]; intros q Hx H; simpl in *; [exact I|].
  destruct H as (m & Hm & Hs & Hp & Hn & H).
  exists m. split; [|split; [exact Hs|split; [exact Hp|split; [exact Hn|]]]].
  - rewrite lookup_insert_ne; [exact Hm|]. intros ->. apply Hx. left. reflexivity.
  - apply IH; [tauto|exact H].
Qed.

Lemma last_cons_default (y : Z) (L : list Z) (d : Z) : List.last (y :: L) d = List.last L y.
Proof.
  revert y d. induction L as [|z L IH]; intros y d; [reflexivity|].
  change (List.last (z :: L) d = List.last (z :: L) y). rewrite !IH. reflexivity.
Qed.

Lemma linked_snoc h x n t : forall D q,
  linked h q D x -> h !! x = Some n -> TState n = TS_ENTER ->
  _prev n = List.last D q -> _next n = t -> linked h q (D ++ [x]) t.
Proof.
  induction D as [|y D IH]; intros q H Hn Hs Hp Ht.
  - exists n. repeat split; assumption.
  - destruct H as (m & Hm & Hms & Hmp & Hmn & H).
    exists m. split; [exact Hm|]. split; [exact Hms|]. split; [exact Hmp|].
    split; [destruct D; exact Hmn|].
    apply IH; try assumption.
    rewrite Hp. apply last_cons_default.
Qed.

(** ** Running alone *)

Ltac lookups :=
  repeat first
    [ rewrite lookup_insert_eq
    | rewrite lookup_insert_ne by congruence
    | match goal with
      | H : ?h !! ?p = Some _ |- context [?h !! ?p] => rewrite H
      | H : ?b = true |- context [if ?b then _ else _] => rewrite H
      | H : ?b = false |- context [if ?b then _ else _] => rewrite H
      | |- context [decide (?a = ?a)] =>
          destruct (decide (a = a)); [|congruence]
      | H : ?c = _ |- context [?c] =>
          lazymatch c with _ _ => rewrite H end
      end
    | progress simpl ].

Ltac truth :=
  simpl;
  first [ reflexivity
        | apply bool_decide_eq_true_2; first [assumption|congruence]
        | apply Z.eqb_eq; first [assumption|congruence]
        | apply negb_true_iff, Z.eqb_neq; first [assumption|congruence]
        | apply negb_true_iff; first [assumption|congruence] ].

(** One step of an execution that no other thread disturbs. *)
Ltac run :=
  lazymatch goal with
  | |- returns (if true then _ else _) _ _ => cbv iota
  | |- returns (if false then _ else _) _ _ => cbv iota
  | |- returns (ret _) _ _ => apply returns_ret
  | |- returns (bind _ _) _ _ => apply returns_bind
  | |- returns (atomic _ _) _ (alone _ _) =>
      eapply returns_atomic;
      [ simpl; lookups; simpl; reflexivity
      | cbv beta;
        lazymatch goal with
        | |- returns ?m ?Q (alone ?w ?t) =>
            let w' := eval simpl in w in
            let t' := eval simpl in t in
            change (returns m Q (alone w' t'))
        | |- _ => idtac
        end ]
  | |- returns (local _ _) _ (alone _ _) =>
      apply returns_local; cbv beta;
      lazymatch goal with
      | |- returns ?m ?Q (alone ?w ?t) =>
          let w' := eval simpl in w in
          let t' := eval simpl in t in
          change (returns m Q (alone w' t'))
      | |- _ => idtac
      end
  | |- returns (guarantee ?c _) _ _ =>
      apply returns_guarantee; [truth|]
  | |- returns (when ?c _) _ _ => unfold when
  | |- returns (if ?b then ?x else ?y) ?Q ?e =>
      first
        [ match goal with
          | H : ?c = _ |- _ =>
              match b with context [c] => rewrite H end
          end
        | let b0 := eval cbv delta [nullptr] in b in
          let b' := eval simpl in b0 in
          progress (change (returns (if b' then x else y) Q e))
        | rewrite Z.lor_0_l
        | rewrite Z.eqb_refl
        | lazymatch b with
          | decide ?P => destruct (decide P); [try congruence|try congruence]
          end ]
  | |- returns _ _ _ =>
      first [progress autounfold with prims|progress cbv beta iota]
  end.

(** ** Threads that arrive while the owner leaves *)

Lemma same_but_cxq_refl m : same_but_cxq m m.
Proof. reflexivity. Qed.

Lemma same_but_cxq_trans m1 m2 m3 :
  same_but_cxq m1 m2 -> same_but_cxq m2 m3 -> same_but_cxq m1 m3.
Proof. unfold same_but_cxq. congruence. Qed.

Lemma preserved_refl h : preserved h h.
Proof. intros p n H. exact H. Qed.

Lemma preserved_trans h1 h2 h3 : preserved h1 h2 -> preserved h2 h3 -> preserved h1 h3.
Proof. intros H1 H2 p n H. apply H2, H1, H. Qed.

Lemma preserved_insert h h' p n :
  preserved h h' -> preserved (<[p := n]> h) (<[p := n]> h').
Proof.
  intros H q m. destruct (decide (p = q)) as [<-|Hne].
  - rewrite !lookup_insert_eq. auto.
  - rewrite !lookup_insert_ne by exact Hne. apply H.
Qed.

Lemma preserved_fresh h h' p : preserved h h' -> h' !! p = None -> h !! p = None.
Proof.
  intros H Hp. destruct (h !! p) as [n|] eqn:E; [|reflexivity].
  apply H in E. congruence.
Qed.

Lemma chain_preserved h h' st : forall L p,
  preserved h h' -> chain h st p L -> chain h' st p L.
Proof.
  induction L as [|x L IH]; intros p Hp H; simpl in *; [exact H|].
  destruct H as (-> & Hx & n & Hn & Hs & H).
  split; [reflexivity|]. split; [exact Hx|].
  exists n. split; [apply Hp, Hn|]. split; [exact Hs|apply IH; assumption].
Qed.

Lemma linked_preserved h h' t : forall L q,
  preserved h h' -> linked h q L t -> linked h' q L t.
Proof.
  induction L as [|x L IH]; intros q Hp H; simpl in *; [exact I|].
  destruct H as (n & Hn & Hs & Hq & Hnx & H).
  exists n. split; [apply Hp, Hn|]. repeat split; try assumption.
  apply IH; assumption.
Qed.

Lemma linked_lookup h t : forall L q x,
  linked h q L t -> In x L -> is_Some (h !! x).
Proof.
  induction L as [|y L IH]; intros q x H Hin; [contradiction|].
  simpl in H. destruct H as (n & Hn & _ & _ & _ & H).
  destruct Hin as [<-|Hin]; [exists n; exact Hn|].
  eapply IH; eassumption.
Qed.

Lemma relinked_refl h : relinked h h.
Proof. intros p n H. exists n. split; [exact H|]. destruct n; reflexivity. Qed.

Lemma relinked_insert h h' x n' q st :
  relinked h h' -> h' !! x = Some n' ->
  relinked h (<[x := set_prev q (set_TState st n')]> h').
Proof.
  intros H Hx p n Hp. destruct (H p n Hp) as (n1 & Hn1 & E).
  destruct (decide (x = p)) as [<-|Hne].
  - rewrite lookup_insert_eq. eexists. split; [reflexivity|].
    rewrite Hx in Hn1. injection Hn1 as <-. rewrite E. destruct n; reflexivity.
  - rewrite lookup_insert_ne by exact Hne. exists n1. split; assumption.
Qed.

Lemma relinked_preserved h0 h1 h2 h3 :
  preserved h0 h1 -> relinked h1 h2 -> preserved h2 h3 -> relinked h0 h3.
Proof.
  intros H1 H2 H3 p n Hp. destruct (H2 p n (H1 p n Hp)) as (n' & Hn' & E).
  exists n'. split; [apply H3, Hn'|exact E].
Qed.

Lemma chain_head h st p L : chain h st p L -> p = hd nullptr L.
Proof. destruct L; simpl; [auto|]. intros (-> & _). reflexivity. Qed.

Lemma arrival_refl w : arrival w w.
Proof.
  split; [reflexivity|]. split; [reflexivity|]. split; [apply preserved_refl|].
  left. reflexivity.
Qed.

Lemma arrive_is_an_arrival p t w : arrival w (arrive p t w).
Proof.
  unfold arrive.
  destruct (negb (p =? nullptr) && bool_decide (heap w !! p = None)) eqn:E;
    [|apply arrival_refl].
  apply andb_true_iff in E. destruct E as [Hp Hfresh].
  apply negb_true_iff, Z.eqb_neq in Hp. apply bool_decide_eq_true in Hfresh.
  split; [reflexivity|]. split; [reflexivity|]. split.
  - intros q n Hq. simpl. rewrite lookup_insert_ne; [exact Hq|]. intros ->. congruence.
  - right. simpl. eexists. split; [exact Hp|]. split; [exact Hfresh|].
    split; [apply lookup_insert_eq|]. split; [reflexivity|]. split; [reflexivity|].
    intros Hv. discriminate Hv.
Qed.

Lemma arrival_interfere (e : Exec) : env_ok arrival e -> arrival (world e) (interfere e).
Proof.
  unfold env_ok, interfere. intros H.
  destruct (env e) as [|f g]; [apply arrival_refl|].
  inversion H as [|? ? Hf _]. apply Hf.
Qed.

Lemma env_ok_tail (R : World -> World -> Prop) (e : Exec) w t :
  env_ok R e -> env_ok R {| world := w; env := tail (env e); trace := t |}.
Proof.
  unfold env_ok. simpl. intros H.
  destruct (env e); [exact H|]. inversion H; assumption.
Qed.

Lemma In_record (ev0 : Event) T0 t evs :
  (exists ext, t = T0 ++ ext /\ In ev0 ext) ->
  exists ext, record t evs = T0 ++ ext /\ In ev0 ext.
Proof.
  intros (ext & -> & Hin). destruct evs as [|ev evs]; simpl; [exists ext; auto|].
  exists (ext ++ ev :: evs). rewrite app_assoc. split; [reflexivity|].
  apply in_or_app. left. exact Hin.
Qed.

(** *** Before the cxq is detached *)

Section BeforeDetach.
Variables (L0 : list Z) (n0 : nat) (h0 : gmap Z ObjectWaiter) (T0 : list Event).
Hypothesis HL0 : L0 <> [].

Lemma chain_cxq_lookup h st p N :
  chain h st p (N ++ L0) ->
  exists n, h !! hd nullptr (N ++ L0) = Some n /\ p = hd nullptr (N ++ L0) /\ p <> nullptr.
Proof.
  destruct (N ++ L0) as [|x L] eqn:E.
  - apply app_eq_nil in E. destruct E as [_ E]. contradiction.
  - simpl. intros (-> & Hx & n & Hn & _). exists n. auto.
Qed.

(** The environment moves, and the trace takes [evs]. *)
Lemma before_detach_move M V (e : Exec) (evs : list Event) :
  before_detach L0 n0 h0 T0 M V e ->
  before_detach L0 n0 h0 T0 M V
    {| world := interfere e; env := tail (env e); trace := record (trace e) evs |}.
Proof.
  intros (Henv & Hm & Hv & Hh & Ht & N & Hch & Hwk & Hlen).
  pose proof (arrival_interfere e Henv) as (Hm' & Hv' & Hh' & Hc).
  split; [apply env_ok_tail, Henv|]. simpl.
  split; [eapply same_but_cxq_trans; eassumption|].
  split; [congruence|].
  split; [eapply preserved_trans; eassumption|].
  split; [apply continues_record, Ht|].
  unfold interfere in *. destruct (env e) as [|f g] eqn:Eg.
  { exists N. split; [exact Hch|]. split; [exact Hwk|exact Hlen]. }
  simpl in Hlen |- *.
  destruct Hc as [Hc|(n & Hp & Hfresh & Hn & Hst & Hnx & Hw)].
  - exists N. rewrite Hc. split; [eapply chain_preserved; eassumption|].
    split; [|lia].
    intros n Hn. apply Hwk.
    destruct (chain_cxq_lookup _ _ _ _ Hch) as (n1 & Hn1 & _).
    rewrite (Hh' _ _ Hn1) in Hn. injection Hn as <-. exact Hn1.
  - exists (_cxq (mon (f (world e))) :: N). simpl.
    split; [|split; [|lia]].
    + split; [reflexivity|]. split; [exact Hp|]. exists n.
      split; [exact Hn|]. split; [exact Hst|].
      rewrite Hnx. eapply chain_preserved; eassumption.
    + intros n' Hn'. rewrite Hn in Hn'. injection Hn' as <-.
      rewrite <- Hv, <- Hv'. exact Hw.
Qed.

(** The owner writes a field of the monitor that is not the cxq. *)
Lemma before_detach_upd_mon M V w g t (gm : ObjectMonitor -> ObjectMonitor) :
  (forall m, set_cxq nullptr (gm m) = gm (set_cxq nullptr m)) ->
  (forall m, _cxq (gm m) = _cxq m) ->
  before_detach L0 n0 h0 T0 M V {| world := w; env := g; trace := t |} ->
  before_detach L0 n0 h0 T0 (gm M) V {| world := upd_mon gm w; env := g; trace := t |}.
Proof.
  intros Hgm Hcx (Henv & Hm & Hv & Hh & Ht & N & Hch & Hwk & Hlen). simpl in *.
  split; [exact Henv|]. simpl.
  split; [unfold same_but_cxq in *; rewrite !Hgm, Hm; reflexivity|].
  split; [exact Hv|]. split; [exact Hh|]. split; [exact Ht|].
  exists N. rewrite Hcx. auto.
Qed.

Lemma before_detach_field {A} M V e (fld : ObjectMonitor -> A) :
  (forall m, fld (set_cxq nullptr m) = fld m) ->
  before_detach L0 n0 h0 T0 M V e -> fld (mon (world e)) = fld M.
Proof.
  intros Hf (_ & Hm & _). rewrite <- (Hf (mon (world e))), <- (Hf M).
  f_equal. exact Hm.
Qed.

Lemma before_detach_cxq M V e :
  before_detach L0 n0 h0 T0 M V e -> _cxq (mon (world e)) <> nullptr.
Proof.
  intros (_ & _ & _ & _ & _ & N & Hch & _).
  destruct (chain_cxq_lookup _ _ _ _ Hch) as (_ & _ & _ & H). exact H.
Qed.

(** The accesses of [exit] before it detaches the cxq. *)

Lemma before_load {A} (fld : ObjectMonitor -> A) (Q : A -> Exec -> Prop) M V e :
  before_detach L0 n0 h0 T0 M V e ->
  (forall m, fld (set_cxq nullptr m) = fld m) ->
  (forall e', before_detach L0 n0 h0 T0 M V e' -> Q (fld M) e') ->
  returns (load fld) Q e.
Proof.
  intros H Hf HQ. unfold returns, load, atomic. cbv beta iota.
  pose proof (before_detach_move M V e [] H) as H'.
  pose proof (before_detach_field M V _ fld Hf H') as E. cbn [world] in E.
  rewrite E. apply HQ, H'.
Qed.

Lemma before_load_cxq (Q : Z -> Exec -> Prop) M V e :
  before_detach L0 n0 h0 T0 M V e ->
  (forall e', before_detach L0 n0 h0 T0 M V e' -> Q (_cxq (mon (world e'))) e') ->
  returns (load _cxq) Q e.
Proof.
  intros H HQ. unfold returns, load, atomic. cbv beta iota.
  apply (HQ _ (before_detach_move M V e [] H)).
Qed.

Lemma before_store (gm : ObjectMonitor -> ObjectMonitor) (Q : unit -> Exec -> Prop) M V e :
  before_detach L0 n0 h0 T0 M V e ->
  (forall m, set_cxq nullptr (gm m) = gm (set_cxq nullptr m)) ->
  (forall m, _cxq (gm m) = _cxq m) ->
  (forall e', before_detach L0 n0 h0 T0 (gm M) V e' -> Q tt e') ->
  returns (store gm) Q e.
Proof.
  intros H Hgm Hcx HQ. unfold returns, store, atomic. cbv beta iota.
  apply HQ. apply before_detach_upd_mon; [exact Hgm|exact Hcx|].
  apply (before_detach_move M V e [] H).
Qed.

Lemma before_release_clear_owner (Q : unit -> Exec -> Prop) M V e :
  before_detach L0 n0 h0 T0 M V e ->
  (forall e', before_detach L0 n0 h0 T0 (set_owner NoOwner M) V e' -> Q tt e') ->
  returns release_clear_owner Q e.
Proof.
  intros H HQ. unfold returns, release_clear_owner, atomic. cbv beta iota.
  apply HQ. apply (before_detach_upd_mon M V _ _ _ (set_owner NoOwner));
    [reflexivity|reflexivity|].
  apply (before_detach_move M V e _ H).
Qed.

Lemma before_try_set_owner_from (old new : Owner) (Q : Owner -> Exec -> Prop) M V e :
  before_detach L0 n0 h0 T0 M V e ->
  _owner M = old ->
  (forall e', before_detach L0 n0 h0 T0 (set_owner new M) V e' -> Q old e') ->
  returns (try_set_owner_from old new) Q e.
Proof.
  intros H Ho HQ. unfold returns, try_set_owner_from, atomic.
  pose proof (before_detach_move M V e [EvTrySetOwner old new old] H) as H'.
  pose proof (before_detach_field M V _ _owner (fun _ => eq_refl) H') as Ho'.
  cbn [world] in Ho'. cbv beta iota zeta. rewrite Ho', Ho.
  destruct (decide (old = old)) as [_|Hne]; [|congruence].
  apply HQ. apply (before_detach_upd_mon M V _ _ _ (set_owner new));
    [reflexivity|reflexivity|exact H'].
Qed.

End BeforeDetach.

(** *** Once the cxq is detached *)

Section AfterDetach.
Variables (ev0 : Event) (n1 : nat) (T0 : list Event).

Lemma after_detach_move M V hv (e : Exec) (evs : list Event) :
  after_detach ev0 n1 T0 M V hv e ->
  after_detach ev0 n1 T0 M V hv
    {| world := interfere e; env := tail (env e); trace := record (trace e) evs |}.
Proof.
  intros (Henv & Hm & Hv & Hh & Ht & N' & Hch & Hnew & Hlen).
  pose proof (arrival_interfere e Henv) as (Hm' & Hv' & Hh' & Hc).
  split; [apply env_ok_tail, Henv|]. simpl.
  split; [eapply same_but_cxq_trans; eassumption|].
  split; [congruence|].
  split; [eapply preserved_trans; eassumption|].
  split; [apply In_record, Ht|].
  unfold interfere in *. destruct (env e) as [|f g] eqn:Eg.
  { exists N'. auto. }
  simpl in Hlen |- *.
  destruct Hc as [Hc|(n & Hp & Hfresh & Hn & Hst & Hnx & Hw)].
  - exists N'. rewrite Hc. split; [eapply chain_preserved; eassumption|].
    split; [exact Hnew|lia].
  - exists (_cxq (mon (f (world e))) :: N'). simpl.
    split; [|split; [|lia]].
    + split; [reflexivity|]. split; [exact Hp|]. exists n.
      split; [exact Hn|]. split; [exact Hst|].
      rewrite Hnx. eapply chain_preserved; eassumption.
    + intros p [<-|Hin]; [|apply Hnew, Hin].
      eapply preserved_fresh; eassumption.
Qed.

Lemma after_detach_upd_mon M V hv w g t (gm : ObjectMonitor -> ObjectMonitor) :
  (forall m, set_cxq nullptr (gm m) = gm (set_cxq nullptr m)) ->
  (forall m, _cxq (gm m) = _cxq m) ->
  after_detach ev0 n1 T0 M V hv {| world := w; env := g; trace := t |} ->
  after_detach ev0 n1 T0 (gm M) V hv {| world := upd_mon gm w; env := g; trace := t |}.
Proof.
  intros Hgm Hcx (Henv & Hm & Hv & Hh & Ht & N' & Hch & Hnew & Hlen). simpl in *.
  split; [exact Henv|]. simpl.
  split; [unfold same_but_cxq in *; rewrite !Hgm, Hm; reflexivity|].
  split; [exact Hv|]. split; [exact Hh|]. split; [exact Ht|].
  exists N'. rewrite Hcx. auto.
Qed.

Lemma after_detach_upd_node M V hv w g t (p : Z) (n n' : ObjectWaiter) :
  hv !! p = Some n ->
  after_detach ev0 n1 T0 M V hv {| world := w; env := g; trace := t |} ->
  after_detach ev0 n1 T0 M V (<[p := n']> hv)
    {| world := upd_heap (insert p n') w; env := g; trace := t |}.
Proof.
  intros Hp (Henv & Hm & Hv & Hh & Ht & N' & Hch & Hnew & Hlen). simpl in *.
  split; [exact Henv|]. simpl.
  split; [exact Hm|]. split; [exact Hv|]. split; [apply preserved_insert, Hh|].
  split; [exact Ht|].
  assert (Hout : ~ In p N') by (intros Hin; apply Hnew in Hin; congruence).
  exists N'. split; [apply chain_insert; assumption|]. split; [|exact Hlen].
  intros q Hq. rewrite lookup_insert_ne; [apply Hnew, Hq|].
  intros ->. contradiction.
Qed.

Lemma after_detach_upd_vthreads M V hv w g t (v : Z) (x : VirtualThread) :
  after_detach ev0 n1 T0 M V hv {| world := w; env := g; trace := t |} ->
  after_detach ev0 n1 T0 M (<[v := x]> V) hv
    {| world := upd_vthreads (insert v x) w; env := g; trace := t |}.
Proof.
  intros (Henv & Hm & Hv & Hh & Ht & HN). simpl in *.
  split; [exact Henv|]. simpl.
  split; [exact Hm|]. split; [rewrite Hv; reflexivity|]. split; [exact Hh|].
  split; [exact Ht|exact HN].
Qed.

Lemma after_detach_field {A} M V hv e (fld : ObjectMonitor -> A) :
  (forall m, fld (set_cxq nullptr m) = fld m) ->
  after_detach ev0 n1 T0 M V hv e -> fld (mon (world e)) = fld M.
Proof.
  intros Hf (_ & Hm & _). rewrite <- (Hf (mon (world e))), <- (Hf M).
  f_equal. exact Hm.
Qed.

Lemma after_detach_lookup M V hv e p n :
  after_detach ev0 n1 T0 M V hv e -> hv !! p = Some n -> heap (world e) !! p = Some n.
Proof. intros (_ & _ & _ & Hh & _) Hp. apply Hh, Hp. Qed.

Lemma after_detach_vthreads M V hv e :
  after_detach ev0 n1 T0 M V hv e -> vthreads (world e) = V.
Proof. intros (_ & _ & Hv & _). exact Hv. Qed.

(** The accesses of [exit] once it has detached the cxq. *)

Lemma after_load {A} (fld : ObjectMonitor -> A) (Q : A -> Exec -> Prop) M V hv e :
  after_detach ev0 n1 T0 M V hv e ->
  (forall m, fld (set_cxq nullptr m) = fld m) ->
  (forall e', after_detach ev0 n1 T0 M V hv e' -> Q (fld M) e') ->
  returns (load fld) Q e.
Proof.
  intros H Hf HQ. unfold returns, load, atomic. cbv beta iota.
  pose proof (after_detach_move M V hv e [] H) as H'.
  pose proof (after_detach_field M V hv _ fld Hf H') as E. cbn [world] in E.
  rewrite E. apply HQ, H'.
Qed.

Lemma after_store (gm : ObjectMonitor -> ObjectMonitor) (Q : unit -> Exec -> Prop)
    M V hv e :
  after_detach ev0 n1 T0 M V hv e ->
  (forall m, set_cxq nullptr (gm m) = gm (set_cxq nullptr m)) ->
  (forall m, _cxq (gm m) = _cxq m) ->
  (forall e', after_detach ev0 n1 T0 (gm M) V hv e' -> Q tt e') ->
  returns (store gm) Q e.
Proof.
  intros H Hgm Hcx HQ. unfold returns, store, atomic. cbv beta iota.
  apply HQ. apply after_detach_upd_mon; [exact Hgm|exact Hcx|].
  apply (after_detach_move M V hv e [] H).
Qed.

Lemma after_release_clear_owner (Q : unit -> Exec -> Prop) M V hv e :
  after_detach ev0 n1 T0 M V hv e ->
  (forall e', after_detach ev0 n1 T0 (set_owner NoOwner M) V hv e' -> Q tt e') ->
  returns release_clear_owner Q e.
Proof.
  intros H HQ. unfold returns, release_clear_owner, atomic. cbv beta iota.
  apply HQ. apply (after_detach_upd_mon M V hv _ _ _ (set_owner NoOwner));
    [reflexivity|reflexivity|].
  apply (after_detach_move M V hv e _ H).
Qed.

Lemma after_node_load {A} (p : Z) (f : ObjectWaiter -> A) (Q : A -> Exec -> Prop)
    M V hv e n :
  after_detach ev0 n1 T0 M V hv e ->
  hv !! p = Some n ->
  (forall e', after_detach ev0 n1 T0 M V hv e' -> Q (f n) e') ->
  returns (node_load p f) Q e.
Proof.
  intros H Hp HQ. unfold returns, node_load, atomic.
  pose proof (after_detach_move M V hv e [] H) as H'.
  pose proof (after_detach_lookup M V hv _ p n H' Hp) as E. cbn [world] in E.
  rewrite E. simpl. apply HQ, H'.
Qed.

Lemma after_node_store (p : Z) (f : ObjectWaiter -> ObjectWaiter)
    (Q : unit -> Exec -> Prop) M V hv e n :
  after_detach ev0 n1 T0 M V hv e ->
  hv !! p = Some n ->
  (forall e', after_detach ev0 n1 T0 M V (<[p := f n]> hv) e' -> Q tt e') ->
  returns (node_store p f) Q e.
Proof.
  intros H Hp HQ. unfold returns, node_store, atomic.
  pose proof (after_detach_move M V hv e [] H) as H'.
  pose proof (after_detach_lookup M V hv _ p n H' Hp) as E. cbn [world] in E.
  rewrite E. simpl. apply HQ.
  apply (after_detach_upd_node M V hv _ _ _ p n (f n) Hp H').
Qed.

Lemma after_vt_load {A} (v : Z) (f : VirtualThread -> A) (Q : A -> Exec -> Prop)
    M V hv e x :
  after_detach ev0 n1 T0 M V hv e ->
  V !! v = Some x ->
  (forall e', after_detach ev0 n1 T0 M V hv e' -> Q (f x) e') ->
  returns (vt_load v f) Q e.
Proof.
  intros H Hv HQ. unfold returns, vt_load, atomic.
  pose proof (after_detach_move M V hv e [] H) as H'.
  pose proof (after_detach_vthreads M V hv _ H') as E. cbn [world] in E.
  rewrite E, Hv. simpl. apply HQ, H'.
Qed.

Lemma after_set_onWaitingList (v : Z) (Q : bool -> Exec -> Prop) M V hv e x :
  after_detach ev0 n1 T0 M V hv e ->
  V !! v = Some x ->
  (forall e' V', after_detach ev0 n1 T0 M V' hv e' ->
                 Q (negb (vt_onWaitingList x)) e') ->
  returns (set_onWaitingList v) Q e.
Proof.
  intros H Hv HQ. unfold returns, set_onWaitingList, atomic.
  pose proof (after_detach_move M V hv e [] H) as H'.
  pose proof (after_detach_vthreads M V hv _ H') as E. cbn [world] in E.
  rewrite E, Hv. simpl. destruct (vt_onWaitingList x); simpl.
  - eapply HQ, H'.
  - eapply HQ. apply (after_detach_upd_vthreads M V hv _ _ _ v _ H').
Qed.

Lemma after_unpark (t : Z) (Q : unit -> Exec -> Prop) M V hv e :
  after_detach ev0 n1 T0 M V hv e ->
  (forall e', after_detach ev0 n1 T0 M V hv e' -> Q tt e') ->
  returns (unpark t) Q e.
Proof.
  intros H HQ. unfold returns, unpark, atomic. cbv beta iota.
  apply HQ. apply (after_detach_move M V hv e _ H).
Qed.

Lemma after_unpark_vthread_unparker (Q : unit -> Exec -> Prop) M V hv e :
  after_detach ev0 n1 T0 M V hv e ->
  (forall e', after_detach ev0 n1 T0 M V hv e' -> Q tt e') ->
  returns unpark_vthread_unparker Q e.
Proof.
  intros H HQ. unfold returns, unpark_vthread_unparker, atomic. cbv beta iota.
  apply HQ. apply (after_detach_move M V hv e _ H).
Qed.

End AfterDetach.

(** *** The compare-and-swap that detaches the cxq *)

Section Detach.
Variables (L0 : list Z) (n0 : nat) (h0 : gmap Z ObjectWaiter) (T0 : list Event).
Hypothesis HL0 : L0 <> [].

Lemma detach_returns M V (fuel : nat) (e : Exec) (Q : Z -> Exec -> Prop) :
  before_detach L0 n0 h0 T0 M V e ->
  (n0 < fuel)%nat ->
  (forall e' N n1,
     after_detach (EvCasCxq (hd nullptr (N ++ L0)) nullptr (hd nullptr (N ++ L0)))
       n1 T0 M V (heap (world e')) e' ->
     chain (heap (world e')) TS_CXQ (hd nullptr (N ++ L0)) (N ++ L0) ->
     (forall n, heap (world e') !! hd nullptr (N ++ L0) = Some n -> wakes V n) ->
     preserved h0 (heap (world e')) ->
     (length N + n1 <= n0)%nat ->
     Q (hd nullptr (N ++ L0)) e') ->
  returns
    (loop fuel (fun w =>
       do u <- cmpxchg_cxq w nullptr ;
       if u =? w then ret (inr w) else ret (inl u)) (_cxq (mon (world e))))
    Q e.
Proof.
  intros H Hfuel HQ.
  apply (returns_loop
           (fun n s e => before_detach L0 n0 h0 T0 M V e /\
                         s = _cxq (mon (world e)) /\ n = length (env e))
           _ _) with (n := length (env e)).
  - clear e H. intros n s e (H & -> & ->).
    apply returns_bind. unfold returns at 1, cmpxchg_cxq, atomic.
    cbv beta iota zeta.
    remember (_cxq (mon (world e))) as c0 eqn:Hc0.
    remember (_cxq (mon (interfere e))) as c1 eqn:Hc1.
    pose proof (before_detach_move L0 n0 h0 T0 HL0 M V e [EvCasCxq c0 nullptr c1] H) as H'.
    destruct (c1 =? c0) eqn:E.
    + apply returns_ret.
      apply Z.eqb_eq in E. rewrite E in *. clear E Hc0 c1.
      destruct H as (_ & _ & _ & _ & [ext0 Ht] & _).
      destruct H' as (Henv & Hm & Hv & Hh & _ & N & Hch & Hwk & Hlen).
      cbn [world env trace] in Henv, Hm, Hv, Hh, Hch, Hwk, Hlen.
      rewrite <- Hc1 in Hch.
      pose proof (chain_head _ _ _ _ Hch) as Hhd.
      clear Hc1. rewrite Hhd in *. clear Hhd c0.
      apply (HQ _ N (length (tail (env e)))); cbn [world env trace].
      * split; [exact Henv|]. cbn [world env trace].
        split; [exact Hm|]. split; [exact Hv|]. split; [apply preserved_refl|].
        split.
        { eexists (ext0 ++ [_]).
          rewrite Ht. simpl. rewrite <- app_assoc. split; [reflexivity|].
          apply in_or_app. right. left. reflexivity. }
        exists []. simpl. split; [reflexivity|]. split; [tauto|lia].
      * exact Hch.
      * exact Hwk.
      * exact Hh.
      * exact Hlen.
    + apply returns_ret.
      exists (length (tail (env e))). split.
      * apply Z.eqb_neq in E. subst c0 c1. unfold interfere in E.
        destruct (env e); [congruence|simpl; lia].
      * split; [exact H'|]. split; [exact Hc1|reflexivity].
  - destruct H as (_ & _ & _ & _ & _ & N & _ & _ & Hlen). lia.
  - split; [exact H|]. split; reflexivity.
Qed.
End Detach.

(** *** The walk that turns the detached waiters into the EntryList *)

Section DrainAmongArrivals.
Variables (ev0 : Event) (n1 : nat) (T0 : list Event).
Variables (M : ObjectMonitor) (V : gmap Z VirtualThread).
Variable L : list Z.

Lemma drain_among_arrivals (fuel : nat) (hv0 : gmap Z ObjectWaiter) (p0 : Z) (e : Exec) :
  after_detach ev0 n1 T0 M V hv0 e ->
  chain hv0 TS_CXQ p0 L -> (length L < fuel)%nat ->
  returns
    (loop fuel (fun '(p, q) =>
       if p =? nullptr then ret (inr tt) else
       do ts <- node_load p TState ;
       do _ <- guarantee (bool_decide (ts = TS_CXQ)) "Invariant" ;
       do _ <- node_store p (set_TState TS_ENTER) ;
       do _ <- node_store p (set_prev q) ;
       do nx <- node_load p _next ;
       ret (inl (nx, p))) (p0, nullptr))
    (fun _ e' => exists hv, after_detach ev0 n1 T0 M V hv e' /\
                            linked hv nullptr L nullptr /\ relinked hv0 hv)
    e.
Proof.
  intros H Hchain Hfuel.
  pose proof (chain_NoDup _ _ _ _ Hchain) as Hnd.
  apply (returns_loop
           (fun n '(p, q) e =>
              exists hv D Rst,
                after_detach ev0 n1 T0 M V hv e /\ L = D ++ Rst /\ n = length Rst /\
                linked hv nullptr D p /\ chain hv TS_CXQ p Rst /\
                q = List.last D nullptr /\ relinked hv0 hv)
           _ _) with (n := length L); [|exact Hfuel|].
  - clear e H. intros n [p q] e (hv & D & Rst & H & HL & -> & Hlk & Hch & -> & Hrq).
    destruct Rst as [|x Rst].
    + simpl in Hch. subst p. simpl. apply returns_ret.
      exists hv. split; [exact H|]. split; [|exact Hrq].
      rewrite HL, app_nil_r. exact Hlk.
    + simpl in Hch. destruct Hch as (-> & Hx & nd & Hnd1 & Hst & Hch).
      assert (Hxn : (x =? nullptr) = false) by (apply Z.eqb_neq; exact Hx).
      rewrite Hxn.
      apply returns_bind.
      eapply (after_node_load _ _ _ x TState); [exact H|exact Hnd1|].
      clear e H. intros e H.
      apply returns_bind. apply returns_guarantee;
        [apply bool_decide_eq_true_2; exact Hst|].
      apply returns_bind.
      eapply (after_node_store _ _ _ x); [exact H|exact Hnd1|].
      clear e H. intros e H.
      apply returns_bind.
      eapply (after_node_store _ _ _ x); [exact H|apply lookup_insert_eq|].
      clear e H. intros e H.
      apply returns_bind.
      eapply (after_node_load _ _ _ x _next); [exact H|apply lookup_insert_eq|].
      clear e H. intros e H.
      apply returns_ret.
      exists (length Rst). split; [simpl; lia|].
      eexists _, (D ++ [x]), Rst. split; [exact H|].
      assert (HxD : ~ In x D /\ ~ In x Rst).
      { rewrite HL in Hnd. apply NoDup_remove_2 in Hnd.
        split; intros Hin; apply Hnd, in_or_app; [left|right]; exact Hin. }
      split; [rewrite <- app_assoc; exact HL|]. split; [reflexivity|].
      split; [|split; [|split]].
      * eapply linked_snoc.
        -- apply linked_insert; [tauto|]. apply linked_insert; [tauto|]. exact Hlk.
        -- apply lookup_insert_eq.
        -- reflexivity.
        -- reflexivity.
        -- reflexivity.
      * apply chain_insert; [tauto|]. apply chain_insert; [tauto|]. exact Hch.
      * symmetry. apply last_last.
      * rewrite insert_insert_eq. apply relinked_insert; assumption.
  - exists hv0, [], L. split; [exact H|].
    repeat split; try reflexivity; [exact Hchain|apply relinked_refl].
Qed.
End DrainAmongArrivals.

(** *** exit among arriving threads *)

Ltac decided :=
  lazymatch goal with
  | |- returns (if true then _ else _) _ _ => cbv iota
  | |- returns (if false then _ else _) _ _ => cbv iota
  | |- returns (ret _) _ _ => apply returns_ret
  | |- returns (bind _ _) _ _ => apply returns_bind
  | |- returns (guarantee ?c _) _ _ => apply returns_guarantee; [truth|]
  | |- returns (when ?c _) _ _ => unfold when
  | |- returns (if ?b then ?x else ?y) ?Q ?e =>
      first
        [ match goal with
          | H : ?c = _ |- _ =>
              match b with context [c] => rewrite H end
          end
        | let b0 := eval cbv delta [nullptr] in b in
          let b' := eval simpl in b0 in
          progress (change (returns (if b' then x else y) Q e))
        | rewrite Z.lor_0_l
        | rewrite Z.eqb_refl
        | lazymatch b with
          | decide ?P => destruct (decide P); [try congruence|try congruence]
          end ]
  end.

(** One step of [exit] before it detaches the cxq. *)
Ltac before :=
  first
    [ decided
    | lazymatch goal with
      | H : before_detach _ _ _ _ ?M _ ?e |- returns ?m _ ?e =>
          let e' := fresh "e" in
          lazymatch m with
          | owner_raw => unfold owner_raw
          | load _cxq =>
              eapply (before_load_cxq _ _ _ _ ltac:(eassumption)); [exact H|];
              clear H; intros e' H;
              let Hc := fresh "Hc" in
              pose proof (before_detach_cxq _ _ _ _ ltac:(eassumption) _ _ _ H) as Hc;
              apply Z.eqb_neq in Hc; change nullptr with 0 in Hc
          | load ?fld =>
              eapply (before_load _ _ _ _ ltac:(eassumption) fld); [exact H|reflexivity|];
              clear H; intros e' H; cbv beta;
              let v := eval simpl in (fld M) in change (fld M) with v
          | store ?gm =>
              eapply (before_store _ _ _ _ ltac:(eassumption) gm); [exact H|reflexivity|reflexivity|];
              clear H; intros e' H
          | release_clear_owner =>
              eapply (before_release_clear_owner _ _ _ _ ltac:(eassumption)); [exact H|]; clear H; intros e' H
          | try_set_owner_from _ _ =>
              eapply (before_try_set_owner_from _ _ _ _ ltac:(eassumption)); [exact H|reflexivity|];
              clear H; intros e' H
          end
      end
    | progress cbv beta iota ].

(** One step of [exit] once it has detached the cxq. *)
Ltac after :=
  first
    [ decided
    | lazymatch goal with
      | H : after_detach _ _ _ ?M _ _ ?e |- returns ?m _ ?e =>
          lazymatch m with
          | load ?fld =>
              eapply (after_load _ _ _ fld); [exact H|reflexivity|];
              clear e H; intros e H; cbv beta;
              let v := eval simpl in (fld M) in change (fld M) with v
          | store ?gm =>
              eapply (after_store _ _ _ gm); [exact H|reflexivity|reflexivity|];
              clear e H; intros e H
          | release_clear_owner =>
              eapply after_release_clear_owner; [exact H|]; clear e H; intros e H
          | node_load ?p ?f =>
              eapply (after_node_load _ _ _ p f); [exact H|eassumption|];
              clear e H; intros e H
          | vt_load ?v ?f =>
              eapply (after_vt_load _ _ _ v f); [exact H|eassumption|];
              clear e H; intros e H
          | set_onWaitingList ?v =>
              eapply (after_set_onWaitingList _ _ _ v); [exact H|eassumption|];
              clear e H; intros e ? H
          | unpark ?t =>
              eapply after_unpark; [exact H|]; clear e H; intros e H
          | unpark_vthread_unparker =>
              eapply after_unpark_vthread_unparker; [exact H|]; clear e H; intros e H
          end
      end
    | progress cbv beta iota ].

Section ExitAmongArrivals.
Variable cfg : Config.
Variable current : Z.

Lemma ExitEpilog_among_arrivals ev0 n1 T0 M V hv (Wakee : Z) (nd : ObjectWaiter) (e : Exec) :
  after_detach ev0 n1 T0 M V hv e ->
  hv !! Wakee = Some nd -> wakes V nd ->
  returns (ExitEpilog current Wakee)
    (fun _ e' => exists M' V', after_detach ev0 n1 T0 M' V' hv e' /\
                               _EntryList M' = _EntryList M)
    e.
Proof.
  intros H Hnd Hwk. unfold ExitEpilog.
  destruct (is_vthread nd) eqn:Hisv.
  - destruct (Hwk Hisv) as [vt Hvt].
    assert (Hne : (_vthread nd =? nullptr) = false)
      by (apply negb_true_iff; exact Hisv).
    destruct (vt_onWaitingList vt) eqn:Hon.
    + repeat after. eexists _, _. split; [exact H|reflexivity].
    + repeat after. eexists _, _. split; [exact H|reflexivity].
  - repeat after. eexists _, _. split; [exact H|reflexivity].
Qed.

Lemma exit_leaves L n0 h0 T0 M V (fuel : nat) (not_suspended : bool) (e : Exec) :
  before_detach L n0 h0 T0 M V e ->
  L <> [] ->
  _owner M = owner_for current ->
  _recursions M = 0 ->
  _EntryList M = nullptr ->
  _succ M = nullptr ->
  (n0 + length L < fuel)%nat ->
  returns (exit cfg fuel current not_suspended)
    (fun _ e' =>
       exists N N',
         (length N + length N' <= n0)%nat /\
         (exists ext, trace e' = T0 ++ ext /\
            In (EvCasCxq (hd nullptr (N ++ L)) nullptr (hd nullptr (N ++ L))) ext) /\
         chain (heap (world e')) TS_CXQ (_cxq (mon (world e'))) N' /\
         (forall p, In p N' -> ~ In p (N ++ L)) /\
         _EntryList (mon (world e')) = hd nullptr (N ++ L) /\
         linked (heap (world e')) nullptr (N ++ L) nullptr /\
         relinked h0 (heap (world e')))
    e.
Proof.
  intros H HL Ho Hrec Hel Hsucc Hfuel.
  unfold exit.
  repeat before.
  lazymatch goal with
  | |- returns _ (fun _ e' => returns ?tail ?Q e') _ =>
      assert (Hloop : forall M1 e1,
                before_detach L n0 h0 T0 M1 V e1 ->
                _EntryList M1 = nullptr -> _succ M1 = nullptr ->
                returns tail Q e1)
  end.
  { clear H Ho Hrec Hel Hsucc. intros M' e' H Hel Hsucc.
    destruct fuel as [|k]; [lia|].
    apply returns_loop_once.
    repeat before.
    eapply (detach_returns L n0 h0 T0 HL); [exact H|lia|].
    clear H. intros ed N nd H Hch Hwk Hh Hlen.
    destruct (N ++ L) as [|x D] eqn:ED;
      [apply app_eq_nil in ED; destruct ED; contradiction|].
    cbn [hd] in *.
    assert (Hlen' : (length (x :: D) < S k)%nat)
      by (rewrite <- ED, length_app; lia).
    pose proof Hch as Hch0.
    cbn [chain] in Hch. destruct Hch as (_ & Hx & node & Hnode & _).
    specialize (Hwk _ Hnode).
    remember (heap (world ed)) as hd0 eqn:Hhd0. clear Hhd0.
    assert (Hxz : (x =? nullptr) = false) by (apply Z.eqb_neq; exact Hx).
    repeat after.
    eapply returns_mono;
      [eapply drain_among_arrivals with (L := x :: D); [exact H|exact Hch0|exact Hlen']|].
    clear ed H. intros [] ed (hv & H & Hlk & Hrl).
    pose proof Hlk as Hlk0.
    cbn [linked] in Hlk. destruct Hlk as (node' & Hnode' & Hst' & _).
    repeat after.
    eapply returns_mono.
    { eapply ExitEpilog_among_arrivals; [exact H|exact Hnode'|].
      destruct (Hrl _ _ Hnode) as (node'' & Hn'' & E).
      rewrite Hnode' in Hn''. injection Hn'' as <-.
      unfold wakes. rewrite E. exact Hwk. }
    clear ed H. intros [] ed (M'' & V' & H & HE).
    after.
    destruct H as (_ & Hm & _ & Hpres & Htr & N' & Hcx & Hnew & HlenN).
    exists N, N'. rewrite ED. cbn [hd].
    split; [lia|]. split; [exact Htr|]. split; [exact Hcx|].
    split.
    { intros p Hp Hin. apply Hnew in Hp.
      destruct (linked_lookup _ _ _ _ _ Hlk0 Hin) as [? Hsome]. congruence. }
    split.
    { transitivity (_EntryList (set_cxq nullptr (mon (world ed)))); [reflexivity|].
      rewrite Hm. exact HE. }
    split; [eapply linked_preserved; eassumption|].
    eapply relinked_preserved; eassumption. }
  destruct (INCLUDE_JFR cfg && (not_suspended && EventJavaMonitorEnter_is_enabled cfg)).
  - repeat before. apply (Hloop _ _ H); assumption.
  - repeat before. apply (Hloop _ _ H); assumption.
Qed.

Lemma exit_among_arrivals (fuel : nat) (not_suspended : bool) (e : Exec) (L : list Z) :
  env_ok arrival e ->
  _owner (mon (world e)) = owner_for current ->
  _recursions (mon (world e)) = 0 ->
  _EntryList (mon (world e)) = nullptr ->
  _succ (mon (world e)) = nullptr ->
  L <> [] ->
  chain (heap (world e)) TS_CXQ (_cxq (mon (world e))) L ->
  (forall n, heap (world e) !! hd nullptr L = Some n -> wakes (vthreads (world e)) n) ->
  (length (env e) + length L < fuel)%nat ->
  returns (exit cfg fuel current not_suspended)
    (fun _ e' =>
       exists N N',
         (length N + length N' <= length (env e))%nat /\
         (exists ext, trace e' = trace e ++ ext /\
            In (EvCasCxq (hd nullptr (N ++ L)) nullptr (hd nullptr (N ++ L))) ext) /\
         chain (heap (world e')) TS_CXQ (_cxq (mon (world e'))) N' /\
         (forall p, In p N' -> ~ In p (N ++ L)) /\
         _EntryList (mon (world e')) = hd nullptr (N ++ L) /\
         linked (heap (world e')) nullptr (N ++ L) nullptr /\
         relinked (heap (world e)) (heap (world e')))
    e.
Proof.
  intros Henv Ho Hrec Hel Hsucc HL Hch Hwake Hfuel.
  apply exit_leaves with (M := mon (world e)) (V := vthreads (world e));
    try assumption.
  split; [exact Henv|]. split; [reflexivity|]. split; [reflexivity|].
  split; [apply preserved_refl|]. split; [exists []; symmetry; apply app_nil_r|].
  exists []. simpl. split; [exact Hch|]. split; [exact Hwake|lia].
Qed.

End ExitAmongArrivals.

(** ** exit: the cxq becomes the EntryList *)

(** C3: the owner leaves a monitor whose EntryList is empty and whose cxq
    holds the waiters [L] (latest arrival first), with no successor
    designated, while other threads arrive on the cxq.  Then [exit] returns.
    It has detached the whole cxq with a compare-and-swap that found its head
    and left it empty: [L] and, above it, the waiters [N] that arrived before
    that compare-and-swap.  It leaves these waiters, in the same order (latest
    arrival at the head, earliest at the tail), as the EntryList: every one
    of them now in state [TS_ENTER] and linked by [_prev] to the one before
    it, nothing else changed in the waiters there were.  The cxq holds the
    waiters [N'] that arrived after the compare-and-swap, and no other. *)
Theorem exit_drains_cxq_into_EntryList
    (cfg : Config) (fuel : nat) (current : Z) (not_suspended : bool)
    (e : Exec) (L : list Z) :
  env_ok arrival e ->
  _owner (mon (world e)) = owner_for current ->
  _recursions (mon (world e)) = 0 ->
  _EntryList (mon (world e)) = nullptr ->
  _succ (mon (world e)) = nullptr ->
  L <> [] ->
  chain (heap (world e)) TS_CXQ (_cxq (mon (world e))) L ->
  (forall n, heap (world e) !! hd nullptr L = Some n -> wakes (vthreads (world e)) n) ->
  (length (env e) + length L < fuel)%nat ->
  exists e' N N',
    exit cfg fuel current not_suspended e = Done tt e' /\
    (length N + length N' <= length (env e))%nat /\
    (exists ext, trace e' = trace e ++ ext /\
       In (EvCasCxq (hd nullptr (N ++ L)) nullptr (hd nullptr (N ++ L))) ext) /\
    chain (heap (world e')) TS_CXQ (_cxq (mon (world e'))) N' /\
    (forall p, In p N' -> ~ In p (N ++ L)) /\
    _EntryList (mon (world e')) = hd nullptr (N ++ L) /\
    linked (heap (world e')) nullptr (N ++ L) nullptr /\
    relinked (heap (world e)) (heap (world e')).
Proof.
  intros Henv Ho Hrec Hel Hsucc HL Hch Hwake Hfuel.
  destruct (returns_Done _ _ _
              (exit_among_arrivals cfg current fuel not_suspended e L
                 Henv Ho Hrec Hel Hsucc HL Hch Hwake Hfuel))
    as ([] & e' & Hrun & N & N' & Hpost).
  exists e', N, N'. split; [exact Hrun|exact Hpost].
Qed.

(** The compare-and-swap of the owner fails on the late arrival, and the
    next one detaches the three waiters. *)
Lemma exit_detaches_the_late_arrival :
  exists e',
    exit (config false) 15 1 true late_arrival = Done tt e' /\
    trace e' = [EvClearOwner; EvTrySetOwner NoOwner (OwnerThread 1) NoOwner;
                EvCasCxq 200 nullptr 300; EvCasCxq 300 nullptr 300;
                EvClearOwner; EvUnpark 5] /\
    _cxq (mon (world e')) = nullptr /\
    _EntryList (mon (world e')) = 300 /\
    linked (heap (world e')) nullptr [300; 200; 100] nullptr.
Proof.
  eexists. split; [vm_compute; reflexivity|].
  split; [reflexivity|]. split; [reflexivity|]. split; [reflexivity|].
  eexists. split; [vm_compute; reflexivity|]. repeat split.
  eexists. split; [vm_compute; reflexivity|]. repeat split.
  eexists. split; [vm_compute; reflexivity|]. repeat split.
Qed.

Lemma exit_drains_cxq_into_EntryList_witness :
  exists e' N N',
    exit (config false) 15 1 true late_arrival = Done tt e' /\
    (length N + length N' <= 12)%nat /\
    (exists ext, trace e' = [] ++ ext /\
       In (EvCasCxq (hd nullptr (N ++ [200; 100])) nullptr
             (hd nullptr (N ++ [200; 100]))) ext) /\
    chain (heap (world e')) TS_CXQ (_cxq (mon (world e'))) N' /\
    (forall p, In p N' -> ~ In p (N ++ [200; 100])) /\
    _EntryList (mon (world e')) = hd nullptr (N ++ [200; 100]) /\
    linked (heap (world e')) nullptr (N ++ [200; 100]) nullptr /\
    relinked (heap two_on_cxq) (heap (world e')).
Proof.
  apply (exit_drains_cxq_into_EntryList (config false) 15 1 true late_arrival [200; 100]).
  - repeat (constructor; [first [apply arrive_is_an_arrival|intros w; apply arrival_refl]|]).
    constructor.
  - reflexivity.
  - reflexivity.
  - reflexivity.
  - reflexivity.
  - discriminate.
  - split; [reflexivity|]. split; [discriminate|].
    exists (waiter_on_cxq 4 100). split; [vm_compute; reflexivity|].
    split; [reflexivity|]. split; [reflexivity|]. split; [discriminate|].
    exists (waiter_on_cxq 3 nullptr). split; [vm_compute; reflexivity|].
    split; reflexivity.
  - intros n Hn Hv. vm_compute in Hn. injection Hn as <-. discriminate Hv.
  - simpl. lia.
Defined.

(** ** INotify while other threads arrive *)

Lemma stacked_head h st p N q : stacked h st p N q -> p = hd q N.
Proof. destruct N; simpl; [auto|]. intros (-> & _). reflexivity. Qed.

Lemma stacked_preserved h h' st : forall N p q,
  preserved h h' -> stacked h st p N q -> stacked h' st p N q.
Proof.
  induction N as [|x N IH]; intros p q Hp H; simpl in *; [exact H|].
  destruct H as (-> & n & Hn & Hs & H).
  split; [reflexivity|]. exists n. split; [apply Hp, Hn|]. split; [exact Hs|].
  apply IH; assumption.
Qed.

Lemma stacked_insert h st x n m : forall N p q,
  h !! x = Some n ->
  (In x N -> _next m = _next n /\ TState m = TState n) ->
  stacked h st p N q -> stacked (<[x := m]> h) st p N q.
Proof.
  induction N as [|y N IH]; intros p q Hx Hk H; simpl in *; [exact H|].
  destruct H as (-> & n' & Hn' & Hs & H).
  split; [reflexivity|].
  destruct (decide (x = y)) as [<-|Hne].
  - rewrite Hx in Hn'. injection Hn' as <-.
    destruct (Hk (or_introl eq_refl)) as [Hnx Hts].
    exists m. split; [apply lookup_insert_eq|]. split; [congruence|].
    rewrite Hnx. apply IH; [exact Hx|intros Hin; apply Hk; right; exact Hin|exact H].
  - exists n'. split; [rewrite lookup_insert_ne by exact Hne; exact Hn'|].
    split; [exact Hs|].
    apply IH; [exact Hx|intros Hin; apply Hk; right; exact Hin|exact H].
Qed.

Section NotifyAmongArrivals.
Variables (c0 : Z) (n0 : nat).

(** The environment moves. *)
Lemma notifying_interfere S Mn V hv T B (e : Exec) :
  notifying S c0 n0 Mn V hv T B e ->
  notifying S c0 n0 Mn V hv T B (env_move e).
Proof.
  intros (Henv & Hm & Hv & Hh & Ht & A & Hst & Hout & Hlen).
  pose proof (arrival_interfere e Henv) as (Hm' & Hv' & Hh' & Hc).
  unfold env_move.
  split; [apply env_ok_tail, Henv|]. simpl.
  split; [eapply same_but_cxq_trans; eassumption|].
  split; [congruence|].
  split; [eapply preserved_trans; eassumption|].
  split; [exact Ht|].
  unfold interfere in *. destruct (env e) as [|f g] eqn:Eg.
  { exists A. split; [exact Hst|]. split; [exact Hout|exact Hlen]. }
  simpl in Hlen |- *.
  destruct Hc as [Hc|(n & Hp & Hfresh & Hn & Hts & Hnx & Hw)].
  - exists A. rewrite Hc. split; [eapply stacked_preserved; eassumption|].
    split; [exact Hout|lia].
  - exists (_cxq (mon (f (world e))) :: A). simpl.
    split; [|split].
    + split; [reflexivity|]. exists n. split; [exact Hn|]. split; [exact Hts|].
      rewrite Hnx. eapply stacked_preserved; eassumption.
    + intros p [<-|Hin]; [|apply Hout, Hin].
      right. eapply preserved_fresh; eassumption.
    + lia.
Qed.

(** The cxq as the notifier finds it. *)
Lemma notifying_rebase S Mn V hv T B (e : Exec) :
  notifying S c0 n0 Mn V hv T B e ->
  exists B1, (exists A, B1 = A ++ B) /\
             _cxq (mon (world e)) = hd c0 B1 /\
             (length B1 <= n0 + length S)%nat /\
             (forall p, In p B1 -> In p S \/ hv !! p = None) /\
             stacked (heap (world e)) TS_CXQ (_cxq (mon (world e))) B1 c0 /\
             notifying S c0 n0 Mn V hv T B1 e.
Proof.
  intros (Henv & Hm & Hv & Hh & Ht & A & Hst & Hout & Hlen).
  exists (A ++ B). split; [exists A; reflexivity|].
  split; [eapply stacked_head; eassumption|]. split; [lia|].
  split; [exact Hout|]. split; [exact Hst|].
  repeat (split; [assumption|]). exists []. simpl. auto.
Qed.

Lemma notifying_field {A} S Mn V hv T B e (fld : ObjectMonitor -> A) :
  (forall m, fld (set_cxq nullptr m) = fld m) ->
  notifying S c0 n0 Mn V hv T B e -> fld (mon (world e)) = fld Mn.
Proof.
  intros Hf (_ & Hm & _). rewrite <- (Hf (mon (world e))), <- (Hf Mn).
  f_equal. exact Hm.
Qed.

Lemma notifying_lookup S Mn V hv T B e p n :
  notifying S c0 n0 Mn V hv T B e -> hv !! p = Some n -> heap (world e) !! p = Some n.
Proof. intros (_ & _ & _ & Hh & _) Hp. apply Hh, Hp. Qed.

Lemma notifying_trace S Mn V hv T B e :
  notifying S c0 n0 Mn V hv T B e -> trace e = T.
Proof. intros (_ & _ & _ & _ & Ht & _). exact Ht. Qed.

Lemma notifying_stack S Mn V hv T B e :
  notifying S c0 n0 Mn V hv T B e ->
  exists A, stacked (heap (world e)) TS_CXQ (_cxq (mon (world e))) (A ++ B) c0 /\
            (length (A ++ B) <= n0 + length S)%nat.
Proof.
  intros (_ & _ & _ & _ & _ & A & Hst & _ & Hlen). exists A. split; [exact Hst|lia].
Qed.

Lemma returns_atomic_bind {A B} (f : World -> option (A * World)) (ev : A -> list Event)
    (k : A -> M B) (Q : B -> Exec -> Prop) (e : Exec) (a : A) (w' : World) :
  f (interfere e) = Some (a, w') ->
  returns (k a) Q {| world := w'; env := tail (env e); trace := record (trace e) (ev a) |} ->
  returns (bind (atomic f ev) k) Q e.
Proof. unfold returns, bind, atomic. intros -> H. exact H. Qed.

Lemma returns_bind_ret {A} (m : M A) (Q : A -> Exec -> Prop) (e : Exec) :
  returns (bind m ret) Q e -> returns m Q e.
Proof. unfold returns, bind, ret. destruct (m e); auto. Qed.

(** The notifier reads a field of the monitor that is not the cxq. *)
Lemma notifying_load {A C} S Mn V hv T B (e : Exec) (fld : ObjectMonitor -> A)
    (k : A -> M C) (Q : C -> Exec -> Prop) :
  (forall m, fld (set_cxq nullptr m) = fld m) ->
  notifying S c0 n0 Mn V hv T B e ->
  (forall e1, notifying S c0 n0 Mn V hv T B e1 -> returns (k (fld Mn)) Q e1) ->
  returns (bind (load fld) k) Q e.
Proof.
  intros Hf H Hk. apply notifying_interfere in H.
  eapply returns_atomic_bind; [reflexivity|].
  change (fld (mon (interfere e))) with (fld (mon (world (env_move e)))).
  rewrite (notifying_field _ _ _ _ _ _ _ fld Hf H). apply Hk. exact H.
Qed.

(** It reads the head of the cxq. *)
Lemma notifying_load_cxq {C} S Mn V hv T B (e : Exec)
    (k : Z -> M C) (Q : C -> Exec -> Prop) :
  notifying S c0 n0 Mn V hv T B e ->
  (forall B1 e1, (exists A, B1 = A ++ B) -> (length B1 <= n0 + length S)%nat ->
     notifying S c0 n0 Mn V hv T B1 e1 -> returns (k (hd c0 B1)) Q e1) ->
  returns (bind (load _cxq) k) Q e.
Proof.
  intros H Hk. apply notifying_interfere in H.
  destruct (notifying_rebase _ _ _ _ _ _ _ H) as (B1 & Hg & Hc & Hlen & _ & _ & H1).
  eapply returns_atomic_bind; [reflexivity|].
  change (_cxq (mon (interfere e))) with (_cxq (mon (world (env_move e)))).
  rewrite Hc. apply (Hk B1); assumption.
Qed.

(** It writes a field of the monitor that is not the cxq. *)
Lemma notifying_store {C} S Mn V hv T B (e : Exec) (gm : ObjectMonitor -> ObjectMonitor)
    (k : unit -> M C) (Q : C -> Exec -> Prop) :
  (forall m, set_cxq nullptr (gm m) = gm (set_cxq nullptr m)) ->
  (forall m, _cxq (gm m) = _cxq m) ->
  notifying S c0 n0 Mn V hv T B e ->
  (forall e1, notifying S c0 n0 (gm Mn) V hv T B e1 -> returns (k tt) Q e1) ->
  returns (bind (store gm) k) Q e.
Proof.
  intros Hgm Hcx H Hk. apply notifying_interfere in H.
  eapply returns_atomic_bind; [reflexivity|].
  apply Hk. destruct H as (Henv & Hm & Hv & Hh & Ht & A & Hst & Hout & Hlen).
  simpl in *.
  split; [exact Henv|]. simpl.
  split; [unfold same_but_cxq in *; rewrite !Hgm, Hm; reflexivity|].
  split; [exact Hv|]. split; [exact Hh|]. split; [exact Ht|].
  exists A. rewrite Hcx. auto.
Qed.

(** It reads a waiter of its view. *)
Lemma notifying_node_load {A C} S Mn V hv T B (e : Exec) (p : Z) (n : ObjectWaiter)
    (fld : ObjectWaiter -> A) (k : A -> M C) (Q : C -> Exec -> Prop) :
  hv !! p = Some n ->
  notifying S c0 n0 Mn V hv T B e ->
  (forall e1, notifying S c0 n0 Mn V hv T B e1 -> returns (k (fld n)) Q e1) ->
  returns (bind (node_load p fld) k) Q e.
Proof.
  intros Hp H Hk. apply notifying_interfere in H.
  eapply returns_atomic_bind.
  { simpl. change (interfere e) with (world (env_move e)).
    rewrite (notifying_lookup _ _ _ _ _ _ _ _ _ H Hp). reflexivity. }
  apply Hk. exact H.
Qed.

(** It writes a waiter of its view; the links and the state of a waiter it
    has pushed on the cxq stay. *)
Lemma notifying_node_store {C} S Mn V hv T B (e : Exec) (p : Z) (n : ObjectWaiter)
    (f : ObjectWaiter -> ObjectWaiter) (k : unit -> M C) (Q : C -> Exec -> Prop) :
  hv !! p = Some n ->
  (In p S -> _next (f n) = _next n /\ TState (f n) = TState n) ->
  notifying S c0 n0 Mn V hv T B e ->
  (forall e1, notifying S c0 n0 Mn V (<[p := f n]> hv) T B e1 -> returns (k tt) Q e1) ->
  returns (bind (node_store p f) k) Q e.
Proof.
  intros Hp Hkeep H Hk. apply notifying_interfere in H.
  pose proof (notifying_lookup _ _ _ _ _ _ _ _ _ H Hp) as Hp'.
  eapply returns_atomic_bind.
  { simpl. change (interfere e) with (world (env_move e)).
    rewrite Hp'. reflexivity. }
  apply Hk. destruct H as (Henv & Hm & Hv & Hh & Ht & A & Hst & Hout & Hlen).
  simpl in *.
  split; [exact Henv|]. simpl.
  split; [exact Hm|]. split; [exact Hv|].
  split; [apply preserved_insert, Hh|]. split; [exact Ht|].
  exists A. split; [|split; [|exact Hlen]].
  - apply (stacked_insert _ _ _ n); [exact Hp'| |exact Hst].
    intros Hin. destruct (Hout _ Hin) as [HS|Hnone]; [apply Hkeep, HS|congruence].
  - intros q Hq. destruct (Hout _ Hq) as [HS|Hnone]; [left; exact HS|].
    right. rewrite lookup_insert_ne; [exact Hnone|]. intros ->. congruence.
Qed.

(** It reads and writes a virtual thread. *)
Lemma notifying_vt_load {A C} S Mn V hv T B (e : Exec) (v : Z) (vt : VirtualThread)
    (fld : VirtualThread -> A) (k : A -> M C) (Q : C -> Exec -> Prop) :
  V !! v = Some vt ->
  notifying S c0 n0 Mn V hv T B e ->
  (forall e1, notifying S c0 n0 Mn V hv T B e1 -> returns (k (fld vt)) Q e1) ->
  returns (bind (vt_load v fld) k) Q e.
Proof.
  intros Hv H Hk. apply notifying_interfere in H.
  eapply returns_atomic_bind.
  { simpl. change (interfere e) with (world (env_move e)).
    destruct H as (_ & _ & -> & _). rewrite Hv. reflexivity. }
  apply Hk. exact H.
Qed.

Lemma notifying_upd_vthreads S Mn V hv T B w g t
    (gv : gmap Z VirtualThread -> gmap Z VirtualThread) :
  notifying S c0 n0 Mn V hv T B {| world := w; env := g; trace := t |} ->
  notifying S c0 n0 Mn (gv V) hv T B
    {| world := upd_vthreads gv w; env := g; trace := t |}.
Proof.
  intros (Henv & Hm & Hv & Hh & Ht & HA). simpl in *.
  split; [exact Henv|]. simpl. split; [exact Hm|]. split; [congruence|]. auto.
Qed.

Lemma notifying_vt_store {C} S Mn V hv T B (e : Exec) (v : Z) (vt : VirtualThread)
    (f : VirtualThread -> VirtualThread) (k : unit -> M C) (Q : C -> Exec -> Prop) :
  V !! v = Some vt ->
  notifying S c0 n0 Mn V hv T B e ->
  (forall e1, notifying S c0 n0 Mn (<[v := f vt]> V) hv T B e1 -> returns (k tt) Q e1) ->
  returns (bind (vt_store v f) k) Q e.
Proof.
  intros Hv H Hk. apply notifying_interfere in H.
  pose proof H as (_ & _ & HV & _).
  eapply returns_atomic_bind.
  { cbv beta. change (interfere e) with (world (env_move e)).
    rewrite HV, Hv. reflexivity. }
  apply Hk. apply (notifying_upd_vthreads _ _ _ _ _ _ _ _ _ (insert v (f vt))).
  exact H.
Qed.

Lemma notifying_cmpxchg_state {C} S Mn V hv T B (e : Exec) (v : Z) (vt : VirtualThread)
    (old new : VThreadState) (k : unit -> M C) (Q : C -> Exec -> Prop) :
  V !! v = Some vt ->
  notifying S c0 n0 Mn V hv T B e ->
  (forall V' e1, notifying S c0 n0 Mn V' hv T B e1 -> returns (k tt) Q e1) ->
  returns (bind (cmpxchg_state v old new) k) Q e.
Proof.
  intros Hv H Hk. apply notifying_interfere in H.
  pose proof H as (_ & _ & HV & _).
  unfold cmpxchg_state.
  destruct (decide (vt_state vt = old)) as [E|E].
  - eapply returns_atomic_bind.
    { cbv beta. change (interfere e) with (world (env_move e)).
      rewrite HV, Hv. simpl. rewrite decide_True by exact E. reflexivity. }
    apply (Hk (<[v := set_vt_state new vt]> V)).
    apply (notifying_upd_vthreads _ _ _ _ _ _ _ _ _ (insert v (set_vt_state new vt))).
    exact H.
  - eapply returns_atomic_bind.
    { cbv beta. change (interfere e) with (world (env_move e)).
      rewrite HV, Hv. simpl. rewrite decide_False by exact E. reflexivity. }
    apply (Hk V). exact H.
Qed.

Lemma notifying_upd_mon S Mn V hv T B w g t (gm : ObjectMonitor -> ObjectMonitor) :
  (forall m, set_cxq nullptr (gm m) = gm (set_cxq nullptr m)) ->
  (forall m, _cxq (gm m) = _cxq m) ->
  notifying S c0 n0 Mn V hv T B {| world := w; env := g; trace := t |} ->
  notifying S c0 n0 (gm Mn) V hv T B {| world := upd_mon gm w; env := g; trace := t |}.
Proof.
  intros Hgm Hcx (Henv & Hm & Hv & Hh & Ht & A & Hst & Hout & Hlen). simpl in *.
  split; [exact Henv|]. simpl.
  split; [unfold same_but_cxq in *; rewrite !Hgm, Hm; reflexivity|].
  split; [exact Hv|]. split; [exact Hh|]. split; [exact Ht|].
  exists A. rewrite Hcx. auto.
Qed.

(** It takes the lock of the WaitSet, which nobody holds. *)
Lemma notifying_SpinAcquire {C} S Mn V hv T B (e : Exec) (fuel : nat)
    (k : unit -> M C) (Q : C -> Exec -> Prop) :
  _WaitSetLock Mn = 0 -> (0 < fuel)%nat ->
  notifying S c0 n0 Mn V hv T B e ->
  (forall e1, notifying S c0 n0 (set_WaitSetLock 1 Mn) V hv T B e1 -> returns (k tt) Q e1) ->
  returns (bind (SpinAcquire fuel) k) Q e.
Proof.
  intros Hlock Hfuel H Hk. destruct fuel as [|n]; [lia|].
  apply notifying_interfere in H.
  pose proof (notifying_field _ _ _ _ _ _ _ _WaitSetLock (fun _ => eq_refl) H) as Hl.
  rewrite Hlock in Hl.
  apply returns_bind. unfold SpinAcquire. apply returns_loop_once.
  eapply returns_atomic_bind.
  { cbv beta. change (interfere e) with (world (env_move e)). rewrite Hl. reflexivity. }
  apply Hk.
  apply (notifying_upd_mon _ _ _ _ _ _ _ _ _ (set_WaitSetLock 1));
    [reflexivity|reflexivity|exact H].
Qed.

(** It tries to push the waiter [x] it has prepared, above the head [front]
    it read: either the head is still [front] and [x] is on the cxq, or
    waiters have arrived above [front]. *)
Lemma notifying_cmpxchg_cxq {C} Mn V hv T B (e : Exec) (x front : Z) (nx : ObjectWaiter)
    (k : Z -> M C) (Q : C -> Exec -> Prop) :
  hv !! x = Some nx -> TState nx = TS_CXQ -> _next nx = front ->
  notifying [] c0 n0 Mn V hv T B e ->
  (forall B1 e1, (exists A, B1 = A ++ B) -> front = hd c0 B1 ->
     (length B1 <= n0)%nat ->
     notifying [x] c0 n0 Mn V hv (T ++ [EvCasCxq front x front]) (x :: B1) e1 ->
     returns (k front) Q e1) ->
  (forall prev B1 e1, prev <> front -> (exists A, B1 = A ++ B) -> prev = hd c0 B1 ->
     (length B1 <= n0)%nat ->
     notifying [] c0 n0 Mn V hv (T ++ [EvCasCxq front x prev]) B1 e1 ->
     returns (k prev) Q e1) ->
  returns (bind (cmpxchg_cxq front x) k) Q e.
Proof.
  intros Hx Hts Hnx H Hwin Hlose. apply notifying_interfere in H.
  destruct (notifying_rebase _ _ _ _ _ _ _ H)
    as (B1 & Hg & Hc & Hlen & Hout & Hst & H1).
  simpl in Hlen. rewrite Nat.add_0_r in Hlen.
  pose proof (notifying_lookup _ _ _ _ _ _ _ _ _ H Hx) as Hx'.
  destruct H1 as (Henv & Hm & Hv & Hh & Ht & A1 & Hst1 & Hout1 & Hlen1).
  unfold cmpxchg_cxq.
  destruct (Z.eqb_spec (_cxq (mon (world (env_move e)))) front) as [E|E].
  - eapply returns_atomic_bind.
    { cbv beta zeta. change (interfere e) with (world (env_move e)).
      rewrite (proj2 (Z.eqb_eq _ _) E). reflexivity. }
    change (interfere e) with (world (env_move e)). rewrite E.
    apply (Hwin B1); [exact Hg|congruence|exact Hlen|].
    simpl in *.
    split; [exact Henv|]. simpl.
    split; [exact Hm|]. split; [exact Hv|]. split; [exact Hh|].
    split; [congruence|].
    exists []. simpl. split; [|split].
    + split; [reflexivity|]. exists nx. split; [exact Hx'|]. split; [exact Hts|].
      rewrite Hnx, <- E. exact Hst.
    + intros p [<-|Hin]; [left; left; reflexivity|].
      destruct (Hout _ Hin) as [[]|Hnone]. right. exact Hnone.
    + rewrite List.length_app in Hlen1. simpl. lia.
  - eapply returns_atomic_bind.
    { cbv beta zeta. change (interfere e) with (world (env_move e)).
      rewrite (proj2 (Z.eqb_neq _ _) E). reflexivity. }
    change (interfere e) with (world (env_move e)).
    apply (Hlose _ B1); [exact E|exact Hg|exact Hc|exact Hlen|].
    simpl in *.
    split; [exact Henv|]. simpl.
    split; [exact Hm|]. split; [exact Hv|]. split; [exact Hh|].
    split; [congruence|].
    exists A1. auto.
Qed.

End NotifyAmongArrivals.

Ltac in_view :=
  first [ eassumption
        | apply lookup_insert_eq
        | rewrite lookup_insert_ne by congruence; in_view ].

Ltac kept := first [intros [] | intros _; split; reflexivity].

Ltac nload H :=
  eapply (notifying_load _ _) with (2 := H); [reflexivity|]; clear H; intros ? H.
Ltac nstore H :=
  eapply (notifying_store _ _) with (3 := H); [reflexivity|reflexivity|]; clear H;
  intros ? H.
Ltac nnload H :=
  eapply (notifying_node_load _ _) with (2 := H); [in_view|]; clear H; intros ? H.
Ltac nnstore H :=
  eapply (notifying_node_store _ _) with (3 := H); [in_view|kept|]; clear H;
  intros ? H.
Ltac last_step := apply returns_bind_ret.
Ltac done_ret := unfold ret at 1; unfold returns at 1.
Ltac fieldof H fld :=
  rewrite (notifying_field _ _ _ _ _ _ _ _ _ fld (fun _ => eq_refl) H); simpl.

Lemma unlinked_same (n n' : ObjectWaiter) :
  same_but_links n n' ->
  set_prev nullptr (set_next nullptr n') = set_prev nullptr (set_next nullptr n).
Proof.
  unfold same_but_links. destruct n, n'. simpl. intros H. injection H as -> -> -> -> -> -> -> -> -> ->.
  reflexivity.
Qed.

Section NotifyRun.
Variable cfg : Config.
Variable current : Z.

Lemma INotify_among_arrivals (fuel : nat) (e : Exec) (x : Z) (nd : ObjectWaiter) :
  env_ok arrival e ->
  _WaitSetLock (mon (world e)) = 0 ->
  _WaitSet (mon (world e)) = x -> x <> nullptr ->
  heap (world e) !! x = Some nd ->
  TState nd = TS_WAIT -> _notified nd = false ->
  (_next nd <> x ->
   is_Some (heap (world e) !! _next nd) /\ is_Some (heap (world e) !! _prev nd)) ->
  wakes (vthreads (world e)) nd ->
  (length (env e) < fuel)%nat ->
  returns (INotify cfg fuel current)
    (fun _ e' =>
       (exists nd',
          heap (world e') !! x = Some nd' /\
          _notified nd' = true /\
          _notifier_tid nd' = JFR_THREAD_ID current /\
          _active nd' = (if is_vthread nd then _active nd
                         else JavaThreadBlockedOnMonitorEnterState_wait_reenter_begin cfg
                                (_thread nd)) /\
          if _EntryList (mon (world e)) =? nullptr then
            _EntryList (mon (world e')) = x /\
            TState nd' = TS_ENTER /\ _next nd' = nullptr /\ _prev nd' = nullptr /\
            trace e' = trace e /\
            exists N,
              stacked (heap (world e')) TS_CXQ (_cxq (mon (world e'))) N
                (_cxq (mon (world e))) /\
              (length N <= length (env e))%nat
          else
            _EntryList (mon (world e')) = _EntryList (mon (world e)) /\
            TState nd' = TS_CXQ /\
            exists N N' fails,
              _next nd' = hd (_cxq (mon (world e))) N /\
              trace e' = trace e ++ fails ++ [EvCasCxq (_next nd') x (_next nd')] /\
              Forall (misses x) fails /\
              stacked (heap (world e')) TS_CXQ (_cxq (mon (world e'))) (N' ++ x :: N)
                (_cxq (mon (world e))) /\
              (length N + length N' <= length (env e))%nat) /\
       _WaitSet (mon (world e')) = (if _next nd =? x then nullptr else _next nd) /\
       _WaitSetLock (mon (world e')) = 0 /\
       _owner (mon (world e')) = _owner (mon (world e)) /\
       env_ok arrival e')
    e.
Proof.
  intros Henv Hlock Hws Hx Hnd Hst Hnt Hnb Hvt Hfuel.
  remember (_cxq (mon (world e))) as c0 eqn:Ec0.
  remember (length (env e)) as n0 eqn:En0.
  remember (mon (world e)) as M0 eqn:EM0.
  remember (vthreads (world e)) as V0 eqn:EV0.
  remember (heap (world e)) as h0 eqn:Eh0.
  remember (trace e) as T0 eqn:ET0.
  assert (H0 : notifying [] c0 n0 M0 V0 h0 T0 [] e).
  { subst. split; [exact Henv|]. split; [reflexivity|]. split; [reflexivity|].
    split; [apply preserved_refl|]. split; [reflexivity|].
    exists []. simpl. split; [reflexivity|]. split; [intros p []|]. lia. }
  assert (Hxz : (x =? nullptr) = false) by (apply Z.eqb_neq; exact Hx).
  assert (Hfuel0 : (n0 < fuel)%nat) by lia.
  clear Henv En0 Hfuel ET0.
  unfold INotify.
  apply (notifying_SpinAcquire c0 n0 [] M0 V0 h0 T0 []); [exact Hlock|lia|exact H0|].
  clear H0. intros e1 H1.
  apply returns_bind. unfold DequeueWaiter.
  apply (notifying_load c0 n0 _ _ _ _ _ _ _ _WaitSet) with (2 := H1); [reflexivity|].
  clear e1 H1. intros e1 H1. simpl (_WaitSet _). rewrite Hws, Hxz. cbn [negb when].
  apply returns_bind. unfold DequeueSpecificWaiter.
  apply (notifying_node_load c0 n0 _ _ _ _ _ _ _ x nd) with (2 := H1); [exact Hnd|].
  clear e1 H1. intros e1 H1.
  apply returns_bind.
  (* what follows once the waiter is out of the ring *)
  lazymatch goal with
  | |- returns _ (fun _ e' => returns ?tail ?Q e') _ =>
      assert (Htail1 : forall hv' ndx e2,
                notifying [] c0 n0
                  (set_WaitSet (if _next nd =? x then nullptr else _next nd)
                     (set_WaitSetLock 1 M0)) V0 hv' T0 [] e2 ->
                hv' !! x = Some ndx ->
                set_prev nullptr (set_next nullptr ndx) =
                  set_prev nullptr (set_next nullptr nd) ->
                returns tail Q e2)
  end.
  { clear H1. intros hv' ndx eC H2 Hndx Hlinks.
    nnstore H2. last_step. nnstore H2.
    unfold ret at 1. unfold returns at 1. unfold ret at 1. unfold returns at 1.
    rewrite Hlinks in H2.
    rewrite Hxz. cbn [negb when].
    apply returns_bind.
    nnload H2. simpl (TState _). rewrite Hst.
    apply returns_bind, returns_guarantee; [reflexivity|].
    nnload H2. simpl (_notified _). rewrite Hnt.
    apply returns_bind, returns_guarantee; [reflexivity|].
    nnload H2. change (is_vthread (set_prev nullptr (set_next nullptr nd))) with (is_vthread nd).
    apply returns_bind.
    set (n2 := set_prev nullptr (set_next nullptr nd)) in *.
    (* what follows once a virtual thread has been told *)
    lazymatch goal with
    | H2 : notifying _ _ _ ?M2 _ ?hv2 _ _ _
      |- returns _ (fun _ e' => returns ?tail ?Q e') _ =>
        assert (Htail2 : forall V' e3,
                  notifying [] c0 n0 M2 V' hv2 T0 [] e3 -> returns tail Q e3)
    end.
    { clear H2. intros V' eA HA.
      nnstore HA. nnstore HA. nnstore HA. nload HA.
      simpl (_EntryList _).
      apply returns_bind.
      (* the end of the call, once the waiter is on its new queue *)
      lazymatch goal with
      | |- returns _ (fun _ e' => returns ?tail
                                    (fun _ e'' => returns SpinRelease ?POST e'') e') _ =>
          assert (Htail3 : forall S M3 hv3 n3 T3 B e4,
                    notifying S c0 n0 M3 V' hv3 T3 B e4 ->
                    hv3 !! x = Some n3 ->
                    is_vthread n3 = is_vthread nd -> _thread n3 = _thread nd ->
                    (forall hvf e',
                       notifying S c0 n0 (set_WaitSetLock 0 M3) V' hvf T3 B e' ->
                       hvf !! x = Some (if is_vthread nd then n3
                                        else set_active
                                               (JavaThreadBlockedOnMonitorEnterState_wait_reenter_begin
                                                  cfg (_thread nd)) n3) ->
                       POST tt e') ->
                    returns tail (fun _ e'' => returns SpinRelease POST e'') e4)
      end.
      { clear HA. intros S M3 hv3 n3 T3 B eB H4 Hn3 Hisv Hthr Hfin.
        nnload H4. rewrite Hisv.
        destruct (is_vthread nd) eqn:Evt; cbn [negb when].
        - unfold ret at 1. unfold returns at 1.
          unfold SpinRelease. last_step. nstore H4.
          apply (Hfin hv3); [exact H4|exact Hn3].
        - unfold wait_reenter_begin.
          nnload H4. rewrite Hthr. last_step.
          eapply (notifying_node_store _ _) with (3 := H4);
            [in_view|intros _; split; reflexivity|]; clear H4; intros ? H4.
          unfold ret at 1. unfold returns at 1.
          unfold SpinRelease. last_step. nstore H4.
          eapply Hfin; [exact H4|apply lookup_insert_eq]. }
      destruct (_EntryList M0 =? nullptr) eqn:Hel.
      - nnstore HA. nnstore HA. last_step. nstore HA. done_ret.
        eapply Htail3 with (1 := HA); [in_view|reflexivity|reflexivity|].
        intros hvf e' Hf Hxf.
        split; [|split; [|split; [|split]]]; [| | | |apply Hf].
        + eexists. split; [apply (notifying_lookup _ _ _ _ _ _ _ _ _ _ _ Hf Hxf)|].
          destruct (notifying_stack _ _ _ _ _ _ _ _ _ Hf) as (A & HstA & HlenA).
          rewrite app_nil_r in HstA, HlenA. simpl in HlenA.
          destruct (is_vthread nd); simpl.
          all: repeat (split; [reflexivity|]).
          all: split; [fieldof Hf _EntryList; reflexivity|].
          all: repeat (split; [reflexivity|]).
          all: split; [apply (notifying_trace _ _ _ _ _ _ _ _ _ Hf)|].
          all: exists A; split; [exact HstA|lia].
        + fieldof Hf _WaitSet. reflexivity.
        + fieldof Hf _WaitSetLock. reflexivity.
        + fieldof Hf _owner. reflexivity.
      - nnstore HA. rewrite !insert_insert_eq in HA.
        lazymatch type of HA with
        | notifying _ _ _ ?M3 _ (<[x := ?nb0]> ?hvb) _ _ _ =>
            set (nb := nb0) in *;
            apply (returns_loop
                     (fun n (_ : unit) e5 =>
                        exists B fails nL,
                          notifying [] c0 n0 M3 V' (<[x := nL]> hvb) (T0 ++ fails) B e5 /\
                          Forall (misses x) fails /\
                          nL = set_next (_next nL) nb /\
                          (n + length B = n0)%nat)) with (n := n0);
              [|exact Hfuel0
               |exists [], [], nb; rewrite app_nil_r;
                split; [exact HA|]; split; [constructor|]; split; [reflexivity|simpl; lia]]
        end.
        clear HA. intros n [] eL (B & fails & nL & HN & Hfails & HnL & Hmeasure).
        eapply (notifying_load_cxq c0 n0) with (1 := HN).
        clear HN. intros B1 eM Hg1 Hlen1 H1.
        nnstore H1. rewrite insert_insert_eq in H1.
        eapply (notifying_cmpxchg_cxq c0 n0) with (4 := H1);
          [apply lookup_insert_eq|rewrite HnL; reflexivity|reflexivity| |].
        + clear H1. intros B2 eN Hg2 Hfront Hlen2 H2.
          rewrite Z.eqb_refl. done_ret.
          eapply Htail3 with (1 := H2);
            [apply lookup_insert_eq|rewrite HnL; reflexivity|rewrite HnL; reflexivity|].
          intros hvf e' Hf Hxf.
          split; [|split; [|split; [|split]]]; [| | | |apply Hf].
          * eexists. split; [apply (notifying_lookup _ _ _ _ _ _ _ _ _ _ _ Hf Hxf)|].
            destruct (notifying_stack _ _ _ _ _ _ _ _ _ Hf) as (A & HstA & HlenA).
            rewrite List.length_app in HlenA. simpl in HlenA.
            pose proof (notifying_trace _ _ _ _ _ _ _ _ _ Hf) as Htr.
            rewrite HnL.
            destruct (is_vthread nd); simpl.
            all: repeat (split; [reflexivity|]).
            all: split; [fieldof Hf _EntryList; reflexivity|].
            all: repeat (split; [reflexivity|]).
            all: exists B2, A, fails.
            all: split; [exact Hfront|].
            all: split; [rewrite Htr, <- app_assoc; reflexivity|].
            all: split; [exact Hfails|].
            all: split; [exact HstA|lia].
          * fieldof Hf _WaitSet. reflexivity.
          * fieldof Hf _WaitSetLock. reflexivity.
          * fieldof Hf _owner. reflexivity.
        + clear H1. intros prev B2 eN Hne Hg2 Hprev Hlen2 H2.
          rewrite (proj2 (Z.eqb_neq _ _) Hne). done_ret.
          assert (Hlonger : (length B1 < length B2)%nat).
          { destruct Hg2 as [[|a A2] ->].
            - simpl in Hprev. contradiction.
            - simpl. rewrite List.length_app. lia. }
          assert (Hlong1 : (length B <= length B1)%nat).
          { destruct Hg1 as [A1 ->]. rewrite List.length_app. lia. }
          exists (n0 - length B2)%nat. split; [lia|].
          exists B2, (fails ++ [EvCasCxq (hd c0 B1) x prev]), (set_next (hd c0 B1) nL).
          split; [rewrite app_assoc; exact H2|].
          split; [apply Forall_app; split; [exact Hfails|]; repeat constructor; exact Hne|].
          split; [rewrite HnL; reflexivity|lia]. }
    destruct (is_vthread nd) eqn:Evt; cbn [when].
    - destruct (Hvt Evt) as [vt Hvt'].
      nnload H2. simpl (_vthread _).
      eapply (notifying_vt_store _ _) with (2 := H2); [exact Hvt'|].
      clear H2; intros ? H2.
      eapply (notifying_vt_load _ _) with (2 := H2); [apply lookup_insert_eq|].
      clear H2; intros ? H2. simpl (vt_state _).
      destruct (bool_decide _ || bool_decide _); cbn [when].
      + last_step.
        eapply (notifying_cmpxchg_state _ _) with (2 := H2); [apply lookup_insert_eq|].
        clear H2. intros V' ? H2. done_ret. apply (Htail2 V'). exact H2.
      + done_ret. eapply Htail2. exact H2.
    - done_ret. eapply Htail2. exact H2. }
  destruct (Z.eqb_spec (_next nd) x) as [Hsole|Hring].
  - last_step. nstore H1. done_ret.
    eapply Htail1 with (1 := H1); [exact Hnd|reflexivity].
  - destruct (Hnb Hring) as [[nn Hnn] [np Hnp]].
    nnload H1.
    destruct (decide (_prev nd = _next nd)) as [Epn|Epn];
      [|destruct (decide (_prev nd = x)) as [Epx|Epx]].
    + rewrite Epn. nnstore H1. nnstore H1. nload H1. simpl (_WaitSet _).
      rewrite Hws, Z.eqb_refl. cbn [when]. last_step. nstore H1. done_ret.
      eapply Htail1 with (1 := H1); [in_view|reflexivity].
    + rewrite Epx. nnstore H1. nnstore H1. nload H1. simpl (_WaitSet _).
      rewrite Hws, Z.eqb_refl. cbn [when]. last_step. nstore H1. done_ret.
      eapply Htail1 with (1 := H1); [in_view|reflexivity].
    + nnstore H1. nnstore H1. nload H1. simpl (_WaitSet _).
      rewrite Hws, Z.eqb_refl. cbn [when]. last_step. nstore H1. done_ret.
      eapply Htail1 with (1 := H1); [in_view|reflexivity].
Qed.

Lemma notify_runs_INotify (fuel : nat) (e0 : Exec) :
  env_ok arrival e0 ->
  _owner (mon (world (env_moves 2 e0))) = owner_for current ->
  _WaitSet (mon (world (env_moves 2 e0))) <> nullptr ->
  notify cfg fuel current e0 = INotify cfg fuel current (env_moves 2 e0).
Proof.
  intros Henv Ho Hws.
  assert (Henv1 : env_ok arrival (env_move e0)) by (apply env_ok_tail, Henv).
  pose proof (arrival_interfere _ Henv1) as (Hm & _).
  assert (Ho1 : _owner (mon (interfere e0)) = owner_for current).
  { simpl in Ho. rewrite <- Ho.
    change (_owner (set_cxq nullptr (mon (world (env_move e0)))) =
            _owner (set_cxq nullptr (mon (interfere (env_move e0))))).
    f_equal. symmetry. exact Hm. }
  unfold notify, check_owner, owner_raw, load. unfold bind at 1 2. unfold atomic at 1.
  rewrite Ho1. rewrite decide_True by reflexivity.
  unfold ret at 1. cbn [negb]. unfold bind at 1. unfold atomic at 1.
  simpl in Hws. apply Z.eqb_neq in Hws.
  change (interfere {| world := interfere e0; env := tail (env e0);
                       trace := record (trace e0) [] |})
    with (interfere (env_move e0)).
  rewrite Hws. reflexivity.
Qed.


Lemma notifyAll_runs_INotify (fuel : nat) (e0 : Exec) (e' : Exec) :
  env_ok arrival e0 ->
  _owner (mon (world (env_moves 3 e0))) = owner_for current ->
  _WaitSet (mon (world (env_moves 3 e0))) <> nullptr ->
  INotify cfg (S (S fuel)) current (env_moves 3 e0) = Done tt e' ->
  env_ok arrival e' ->
  _WaitSet (mon (world e')) = nullptr ->
  notifyAll cfg (S (S fuel)) current e0 = Done tt (env_move e').
Proof.
  intros Henv Ho Hws Hrun Henv' Hws'.
  assert (Henv1 : env_ok arrival (env_move e0)) by (apply env_ok_tail, Henv).
  assert (Henv2 : env_ok arrival (env_move (env_move e0))) by (apply env_ok_tail, Henv1).
  pose proof (arrival_interfere _ Henv1) as (Hm1 & _).
  pose proof (arrival_interfere _ Henv2) as (Hm2 & _).
  pose proof (arrival_interfere _ Henv') as (Hm' & _).
  assert (Hf : forall {A} (fld : ObjectMonitor -> A) m m',
             (forall m, fld (set_cxq nullptr m) = fld m) ->
             same_but_cxq m m' -> fld m' = fld m).
  { intros A fld m m' Hfld Hs. rewrite <- (Hfld m), <- (Hfld m'). f_equal. exact Hs. }
  change (world (env_moves 3 e0)) with (interfere (env_move (env_move e0))) in Ho, Hws.
  change (world (env_move (env_move e0))) with (interfere (env_move e0)) in Hm2.
  change (world (env_move e0)) with (interfere e0) in Hm1.
  assert (Ho1 : _owner (mon (interfere e0)) = owner_for current).
  { rewrite <- Ho.
    rewrite (Hf _ _owner _ _ (fun _ => eq_refl) Hm2).
    rewrite (Hf _ _owner _ _ (fun _ => eq_refl) Hm1). reflexivity. }
  assert (Hws1 : _WaitSet (mon (interfere (env_move e0))) <> nullptr).
  { rewrite <- (Hf _ _WaitSet _ _ (fun _ => eq_refl) Hm2). exact Hws. }
  assert (Hws2 : _WaitSet (mon (interfere e')) = nullptr).
  { rewrite (Hf _ _WaitSet _ _ (fun _ => eq_refl) Hm'). exact Hws'. }
  apply Z.eqb_neq in Hws, Hws1.
  unfold notifyAll, check_owner, owner_raw, load. unfold bind at 1 2. unfold atomic at 1.
  rewrite Ho1. rewrite decide_True by reflexivity.
  unfold ret at 1. cbn [negb]. unfold bind at 1. unfold atomic at 1.
  change (interfere {| world := interfere e0; env := tail (env e0);
                       trace := record (trace e0) [] |})
    with (interfere (env_move e0)).
  rewrite Hws1.
  cbn [loop]. unfold bind at 1 2. unfold atomic at 1.
  change (interfere {| world := interfere (env_move e0);
                       env := tail (env {| world := interfere e0; env := tail (env e0);
                                           trace := record (trace e0) [] |});
                       trace := record (trace {| world := interfere e0; env := tail (env e0);
                                                 trace := record (trace e0) [] |}) [] |})
    with (interfere (env_move (env_move e0))).
  rewrite Hws. unfold bind at 1.
  change (INotify cfg (S (S fuel)) current ?E) with
    (INotify cfg (S (S fuel)) current (env_moves 3 e0)).
  rewrite Hrun. unfold ret at 1.
  unfold bind at 1 2. unfold atomic at 1. rewrite Hws2. reflexivity.
Qed.

End NotifyRun.

(** ** notify: the waiter moves to the EntryList or to the cxq *)

(** C4: [INotify], which [notify] runs once and [notifyAll] once for each
    waiter, run while other threads arrive on the cxq, on a WaitSet whose
    first waiter is [x].  It returns.  [x] has left the WaitSet with its
    [_notified] flag set and the notifier recorded, and for a platform
    thread [_active] holds what the thread service answered.  If the
    EntryList was empty, [x] is now the whole EntryList, in state [TS_ENTER]
    with null links, and [INotify] has added nothing to the trace.  Otherwise
    the EntryList is as it was and [x] is on the cxq in state [TS_CXQ]:
    [INotify] has added to the trace the compare-and-swaps that were to push
    [x] and found another head than the one read, then the one that found
    the head [x] is linked to; the cxq holds, above what it held at the
    call, the waiters [N] that arrived before that compare-and-swap, then
    [x], then the waiters [N'] that arrived after it.  Either way the trace
    holds no unpark, the monitor is still held and the lock of the WaitSet
    is free again.  [notify] by the owner is this [INotify] after its two
    reads, and so is [notifyAll] when [x] waits alone, but for the read that
    finds the WaitSet empty. *)
Theorem INotify_transfers_the_first_waiter
    (cfg : Config) (fuel : nat) (current : Z) (e : Exec) (x : Z) (nd : ObjectWaiter) :
  env_ok arrival e ->
  _WaitSetLock (mon (world e)) = 0 ->
  _WaitSet (mon (world e)) = x -> x <> nullptr ->
  heap (world e) !! x = Some nd ->
  TState nd = TS_WAIT -> _notified nd = false ->
  (_next nd <> x ->
   is_Some (heap (world e) !! _next nd) /\ is_Some (heap (world e) !! _prev nd)) ->
  wakes (vthreads (world e)) nd ->
  (length (env e) < fuel)%nat ->
  exists e',
    INotify cfg fuel current e = Done tt e' /\
    (_owner (mon (world e)) = owner_for current ->
     (forall e0, env_ok arrival e0 -> env_moves 2 e0 = e ->
        notify cfg fuel current e0 = Done tt e') /\
     (_next nd = x -> (1 < fuel)%nat ->
      forall e0, env_ok arrival e0 -> env_moves 3 e0 = e ->
        notifyAll cfg fuel current e0 = Done tt (env_move e'))) /\
    (exists nd',
       heap (world e') !! x = Some nd' /\
       _notified nd' = true /\
       _notifier_tid nd' = JFR_THREAD_ID current /\
       _active nd' = (if is_vthread nd then _active nd
                      else JavaThreadBlockedOnMonitorEnterState_wait_reenter_begin cfg
                             (_thread nd)) /\
       if _EntryList (mon (world e)) =? nullptr then
         _EntryList (mon (world e')) = x /\
         TState nd' = TS_ENTER /\ _next nd' = nullptr /\ _prev nd' = nullptr /\
         trace e' = trace e /\
         exists N,
           stacked (heap (world e')) TS_CXQ (_cxq (mon (world e'))) N
             (_cxq (mon (world e))) /\
           (length N <= length (env e))%nat
       else
         _EntryList (mon (world e')) = _EntryList (mon (world e)) /\
         TState nd' = TS_CXQ /\
         exists N N' fails,
           _next nd' = hd (_cxq (mon (world e))) N /\
           trace e' = trace e ++ fails ++ [EvCasCxq (_next nd') x (_next nd')] /\
           Forall (misses x) fails /\
           stacked (heap (world e')) TS_CXQ (_cxq (mon (world e'))) (N' ++ x :: N)
             (_cxq (mon (world e))) /\
           (length N + length N' <= length (env e))%nat) /\
    _WaitSet (mon (world e')) = (if _next nd =? x then nullptr else _next nd) /\
    _WaitSetLock (mon (world e')) = 0 /\
    _owner (mon (world e')) = _owner (mon (world e)).
Proof.
  intros Henv Hlock Hws Hx Hnd Hst Hnt Hnb Hvt Hfuel.
  destruct (returns_Done _ _ _
              (INotify_among_arrivals cfg current fuel e x nd
                 Henv Hlock Hws Hx Hnd Hst Hnt Hnb Hvt Hfuel))
    as ([] & e' & Hrun & Hnode & Hws' & Hlock' & Ho' & Henv').
  exists e'. split; [exact Hrun|].
  split; [|split; [exact Hnode|]; split; [exact Hws'|]; split; assumption].
  intros Ho. split.
  - intros e0 Henv0 <-. rewrite notify_runs_INotify; [exact Hrun|exact Henv0|exact Ho|].
    rewrite Hws. exact Hx.
  - intros Hsole Hfuel2 e0 Henv0 He0.
    destruct fuel as [|[|k]]; [lia|lia|]. subst e.
    apply notifyAll_runs_INotify;
      [exact Henv0|exact Ho|rewrite Hws; exact Hx|exact Hrun|exact Henv'|].
    rewrite Hws', (proj2 (Z.eqb_eq _ _) Hsole). reflexivity.
Qed.

(** The compare-and-swap of the notifier fails on the waiter that has just
    arrived, and the next one pushes the notified waiter above it. *)
Lemma INotify_retries_the_push :
  exists e',
    INotify (config false) 20 1 notified_among_arrivals = Done tt e' /\
    trace e' = [EvCasCxq nullptr 300 400; EvCasCxq 400 300 400] /\
    _cxq (mon (world e')) = 300 /\
    _EntryList (mon (world e')) = 200 /\
    _WaitSet (mon (world e')) = nullptr /\
    heap (world e') !! 300 =
      Some (set_active true
              (set_next 400 (set_prev nullptr
                 (set_notifier_tid 1 (set_notified true
                    (set_TState TS_CXQ (lone_waiter 5 300))))))).
Proof.
  eexists. split; [vm_compute; reflexivity|].
  vm_compute. repeat split.
Qed.

Lemma INotify_transfers_the_first_waiter_witness :
  exists e' nd' N N' fails,
    INotify (config false) 20 1 notified_among_arrivals = Done tt e' /\
    heap (world e') !! 300 = Some nd' /\
    _notified nd' = true /\ TState nd' = TS_CXQ /\
    trace e' = [] ++ fails ++ [EvCasCxq (_next nd') 300 (_next nd')] /\
    Forall (misses 300) fails /\
    stacked (heap (world e')) TS_CXQ (_cxq (mon (world e'))) (N' ++ 300 :: N) nullptr /\
    _EntryList (mon (world e')) = 200.
Proof.
  destruct (INotify_transfers_the_first_waiter (config false) 20 1
              notified_among_arrivals 300 (lone_waiter 5 300))
    as (e' & Hrun & _ & (nd' & Hnd' & Hnt & _ & _ & Hel & Hst & N & N' & fails
                         & _ & Htr & Hfails & Hstk & _) & _).
  - unfold env_ok, notified_among_arrivals. simpl.
    repeat (apply List.Forall_cons; [intros w; apply arrival_refl|]).
    apply List.Forall_cons; [intros w; apply arrive_is_an_arrival|apply List.Forall_nil].
  - reflexivity.
  - reflexivity.
  - discriminate.
  - vm_compute. reflexivity.
  - reflexivity.
  - reflexivity.
  - intros H. contradiction H. reflexivity.
  - intros H. discriminate H.
  - simpl. lia.
  - exists e', nd', N, N', fails. repeat split; assumption.
Defined.

(** ** What the functions behind wait leave in the trace *)

Lemma emits_start (P : Event -> Prop) (e : Exec) : emits P (trace e) e.
Proof. exists []. split; [symmetry; apply app_nil_r|constructor]. Qed.

Lemma emits_record (P : Event -> Prop) (t0 : list Event) (e : Exec)
    (w' : World) (g : list (World -> World)) (evs : list Event) :
  emits P t0 e -> Forall P evs ->
  emits P t0 {| world := w'; env := g; trace := record (trace e) evs |}.
Proof.
  intros (ext & Ht & HP) Hevs. exists (ext ++ evs). simpl. split.
  - rewrite record_app, Ht, app_assoc. reflexivity.
  - apply Forall_app. split; assumption.
Qed.

Lemma emits_preserved_atomic (P : Event -> Prop) (t0 : list Event) {A}
    (f : World -> option (A * World)) (ev : A -> list Event) :
  (forall a, Forall P (ev a)) -> preserves (emits P t0) (atomic f ev).
Proof.
  intros Hev e He. apply wp_atomic. intros a w' _. apply emits_record; [exact He|apply Hev].
Qed.

Lemma emits_preserved_local (P : Event -> Prop) (t0 : list Event) {A}
    (f : World -> A * World) (ev : A -> list Event) :
  (forall a, Forall P (ev a)) -> preserves (emits P t0) (local f ev).
Proof.
  intros Hev e He. apply wp_local. intros a w' _. apply emits_record; [exact He|apply Hev].
Qed.

Lemma silent_not_notified (ev : Event) : silent ev -> not_notified ev.
Proof. destruct ev; simpl; tauto. Qed.

Create HintDb emits.

Ltac events :=
  intros; repeat constructor;
  first [ exact I
        | match goal with
          | H : forall ev, silent ev -> _ |- _ => apply H; exact I
          end ].

Ltac emitting :=
  repeat first
    [ assumption
    | apply preserves_ret
    | apply preserves_bind; [|intros ?]
    | apply preserves_when
    | apply preserves_guarantee
    | apply preserves_loop; intros ?
    | apply emits_preserved_atomic; events
    | apply emits_preserved_local; events
    | solve [eauto with emits]
    | match goal with
      | |- preserves _ (if ?b then _ else _) => destruct b
      | |- preserves _ (match ?x with _ => _ end) => destruct x
      end
    | progress cbv beta
    | progress autounfold with prims ].

Section Emits.
Variable cfg : Config.
Variable P : Event -> Prop.
Hypothesis HP : forall ev, silent ev -> P ev.
Variable t0 : list Event.

Lemma TryLock_emits current : preserves (emits P t0) (TryLock current).
Proof. unfold TryLock. emitting. Qed.
#[local] Hint Resolve TryLock_emits : emits.

Lemma short_fixed_spin_loop_emits current adapt n :
  preserves (emits P t0) (short_fixed_spin_loop cfg current adapt n).
Proof. induction n as [|n IH]; simpl; emitting. Qed.
#[local] Hint Resolve short_fixed_spin_loop_emits : emits.

Lemma TrySpin_loop_emits current n : forall ctr prv,
  preserves (emits P t0) (TrySpin_loop cfg current n ctr prv).
Proof. induction n as [|n IH]; intros ctr prv; simpl; emitting. Qed.
#[local] Hint Resolve TrySpin_loop_emits : emits.

Lemma TrySpin_emits current : preserves (emits P t0) (TrySpin cfg current).
Proof. unfold TrySpin, short_fixed_spin. emitting. Qed.
#[local] Hint Resolve TrySpin_emits : emits.

Lemma UnlinkAfterAcquire_emits fuel current node :
  preserves (emits P t0) (UnlinkAfterAcquire fuel current node).
Proof. unfold UnlinkAfterAcquire. emitting. Qed.
#[local] Hint Resolve UnlinkAfterAcquire_emits : emits.

Lemma ExitEpilog_emits current Wakee :
  preserves (emits P t0) (ExitEpilog current Wakee).
Proof. unfold ExitEpilog. emitting. Qed.
#[local] Hint Resolve ExitEpilog_emits : emits.

Lemma exit_emits fuel current not_suspended :
  preserves (emits P t0) (exit cfg fuel current not_suspended).
Proof. unfold exit. emitting. Qed.
#[local] Hint Resolve exit_emits : emits.

Lemma install_displaced_markword_in_object_emits obj :
  preserves (emits P t0) (install_displaced_markword_in_object cfg obj).
Proof. unfold install_displaced_markword_in_object. emitting. Qed.
#[local] Hint Resolve install_displaced_markword_in_object_emits : emits.

Lemma EnterI_emits fuel current : preserves (emits P t0) (EnterI cfg fuel current).
Proof. unfold EnterI. emitting. Qed.
#[local] Hint Resolve EnterI_emits : emits.

Lemma VThreadMonitorEnter_emits fuel current waiter :
  preserves (emits P t0) (VThreadMonitorEnter fuel current waiter).
Proof. unfold VThreadMonitorEnter. emitting. Qed.
#[local] Hint Resolve VThreadMonitorEnter_emits : emits.

Lemma ExitOnSuspend_emits fuel current :
  preserves (emits P t0) (ExitOnSuspend cfg fuel current).
Proof. unfold ExitOnSuspend. emitting. Qed.
#[local] Hint Resolve ExitOnSuspend_emits : emits.

Lemma ClearSuccOnSuspend_emits current :
  preserves (emits P t0) (ClearSuccOnSuspend current).
Proof. unfold ClearSuccOnSuspend. emitting. Qed.
#[local] Hint Resolve ClearSuccOnSuspend_emits : emits.

Lemma enter_emits fuel current : preserves (emits P t0) (enter cfg fuel current).
Proof. unfold enter. emitting. Qed.
#[local] Hint Resolve enter_emits : emits.

Lemma ReenterI_emits fuel current node :
  preserves (emits P t0) (ReenterI cfg fuel current node).
Proof. unfold ReenterI. emitting. Qed.
#[local] Hint Resolve ReenterI_emits : emits.

Lemma SpinAcquire_emits fuel : preserves (emits P t0) (SpinAcquire fuel).
Proof. unfold SpinAcquire. emitting. Qed.
#[local] Hint Resolve SpinAcquire_emits : emits.

Lemma AddWaiter_emits node : preserves (emits P t0) (AddWaiter node).
Proof. unfold AddWaiter. emitting. Qed.
#[local] Hint Resolve AddWaiter_emits : emits.

Lemma DequeueSpecificWaiter_emits node :
  preserves (emits P t0) (DequeueSpecificWaiter node).
Proof. unfold DequeueSpecificWaiter. emitting. Qed.
#[local] Hint Resolve DequeueSpecificWaiter_emits : emits.

Lemma VThreadWait_emits fuel current millis :
  preserves (emits P t0) (VThreadWait cfg fuel current millis).
Proof. unfold VThreadWait, SpinRelease. emitting. Qed.

End Emits.

Lemma silent_silent (ev : Event) : silent ev -> silent ev.
Proof. exact (fun H => H). Qed.

#[local] Hint Resolve TryLock_emits TrySpin_emits UnlinkAfterAcquire_emits
  ExitEpilog_emits exit_emits install_displaced_markword_in_object_emits
  EnterI_emits VThreadMonitorEnter_emits ExitOnSuspend_emits
  ClearSuccOnSuspend_emits enter_emits ReenterI_emits SpinAcquire_emits
  AddWaiter_emits DequeueSpecificWaiter_emits VThreadWait_emits
  silent_silent silent_not_notified : emits.

(** A step along [wait] that keeps to the events of [P]. *)
Ltac walk :=
  lazymatch goal with
  | H : emits ?P ?t ?e |- wp (bind ?m _) _ ?e =>
      let Hp := fresh "Hp" in
      assert (Hp : preserves (emits P t) m)
        by (unfold SpinRelease, check_owner, interrupted_and_nothing_pending; emitting);
      apply wp_bind; eapply wp_mono; [apply Hp; exact H|];
      clear Hp H; intros ? ? H; cbv beta in H
  | |- wp (if ?b then _ else _) _ _ => destruct b eqn:?
  | |- wp (match ?x with _ => _ end) _ _ => destruct x eqn:?
  end.

(** [wait] comes back without having read [_notified]. *)
Ltac early :=
  lazymatch goal with
  | H : emits not_notified ?t ?e |- wp ?m _ ?e =>
      let Hp := fresh "Hp" in
      assert (Hp : preserves (emits not_notified t) m) by emitting;
      eapply wp_mono; [apply Hp; exact H|];
      let H' := fresh in intros ? ? H'; left; exact H'
  end.

Lemma wait_waited cfg fuel current millis e :
  wp (wait cfg fuel current millis) (fun _ e' => waited (trace e) (trace e')) e.
Proof.
  pose proof (emits_start not_notified e) as H.
  set (t0 := trace e) in *. clearbody t0.
  unfold wait.
  repeat walk.
  all: try early.
  destruct H as (pre & Hpre & Hfor).
  lazymatch goal with
  | |- wp (bind (load_notified ?n) _) _ _ => set (node := n)
  end.
  apply wp_bind. unfold load_notified at 1. apply wp_atomic. intros v w' _.
  lazymatch goal with
  | |- wp _ _ ?e1 =>
      pose proof (emits_start silent e1) as H;
      assert (Ht1 : trace e1 = t0 ++ pre ++ [EvNotified node v])
        by (simpl; rewrite Hpre, <- app_assoc; reflexivity);
      set (t1 := trace e1) in *; clearbody t1
  end.
  repeat walk.
  - destruct v; [discriminate|].
    lazymatch goal with
    | |- wp _ _ ?e1 => set (elast := e1) in *
    end.
    destruct H as (mid & Hmid & Hsil).
    assert (Hend : forall fin e2,
              trace e2 = trace elast ++ fin -> last_test false fin ->
              waited t0 (trace e2)).
    { intros fin e2 Ht Hfin. right. exists pre, node, false, mid, fin.
      split; [|split; [exact Hfor|split; [exact Hsil|exact Hfin]]].
      rewrite Ht, Hmid, Ht1, <- !app_assoc. reflexivity. }
    unfold interrupted_and_nothing_pending, is_interrupted, HAS_PENDING_EXCEPTION, THROW.
    apply wp_bind, wp_bind, wp_atomic. intros r w1 _. destruct r.
    + apply wp_bind, wp_local. intros b w2 _. apply wp_ret. destruct b; simpl.
      * apply wp_ret. apply (Hend [EvIsInterrupted true true; EvPendingException true]).
        -- simpl. rewrite <- app_assoc. reflexivity.
        -- right. split; [reflexivity|]. right. left. reflexivity.
      * apply wp_local. intros [] w3 _.
        apply (Hend [EvIsInterrupted true true; EvPendingException false;
                     EvThrow InterruptedException]).
        -- simpl. rewrite <- !app_assoc. reflexivity.
        -- right. split; [reflexivity|]. right. right. reflexivity.
    + apply wp_ret. simpl. apply wp_ret.
      apply (Hend [EvIsInterrupted true false]).
      * reflexivity.
      * right. split; [reflexivity|]. left. reflexivity.
  - destruct v; [|discriminate].
    destruct H as (mid & Hmid & Hsil).
    apply wp_ret. right. exists pre, node, true, mid, [].
    split; [|split; [exact Hfor|split; [exact Hsil|left; split; reflexivity]]].
    rewrite Hmid, Ht1, app_nil_r, <- !app_assoc. reflexivity.
Qed.



(** ** wait: who raises InterruptedException *)

Lemma since_notified_none (ext : list Event) :
  Forall not_notified ext -> since_notified ext = None.
Proof.
  induction 1 as [|ev ext Hev _ IH]; [reflexivity|].
  destruct ev; simpl in *; solve [exact IH | contradiction].
Qed.

Lemma since_notified_found (pre : list Event) (node : Z) (v : bool) (rest : list Event) :
  Forall not_notified pre ->
  since_notified (pre ++ EvNotified node v :: rest) = Some (v, rest).
Proof.
  induction 1 as [|ev pre Hev _ IH]; [reflexivity|].
  destruct ev; simpl in *; solve [exact IH | contradiction].
Qed.

Lemma in_after_silent (mid fin : list Event) (ev : Event) :
  Forall silent mid -> ~ silent ev -> In ev (mid ++ fin) <-> In ev fin.
Proof.
  intros Hmid Hev. rewrite in_app_iff. split; [|tauto].
  intros [Hin|Hin]; [|exact Hin].
  rewrite List.Forall_forall in Hmid. contradiction (Hev (Hmid _ Hin)).
Qed.

(** C7, as stated, fails: the owner waits with an exception already pending
    and is interrupted while it waits.  It was not notified and the last test
    finds the interrupt flag set (and clears it), yet no
    [InterruptedException] is raised: the pending exception stays. *)
Lemma wait_interrupted_with_exception_pending_returns_normally :
  exists e' post,
    wait (config false) 3 1 0 (interrupted_while_waiting thread_with_pending)
    = Done tt e' /\
    since_notified (trace e') = Some (false, post) /\
    In (EvIsInterrupted true true) post /\
    ~ In (EvThrow InterruptedException) post /\
    pending_exception (self (world e')) = Some (OtherException 7).
Proof.
  eexists _, _. split; [vm_compute; reflexivity|].
  split; [vm_compute; reflexivity|].
  split; [right; left; reflexivity|].
  split; [|reflexivity].
  simpl. intros [H|[H|[H|[]]]]; discriminate H.
Qed.

(** C7, amended: in any call of [wait] that returns after reading
    [_notified] (the read that gives [WasNotified], made once the thread has
    left the WaitSet and before it takes the monitor back), what follows the
    read raises [InterruptedException] if and only if the waiter was not
    notified, the interrupt flag was found set by the last test (which
    clears it) and no exception was already pending; nothing else is thrown
    after the read.  So a notified waiter returns normally whatever its
    interrupt flag, and so does a waiter that timed out or woke up for no
    reason and is not interrupted. *)
Theorem wait_raises_interrupted_iff
    (cfg : Config) (fuel : nat) (current millis : Z) (e e' : Exec)
    (new : list Event) (v : bool) (post : list Event) :
  wait cfg fuel current millis e = Done tt e' ->
  trace e' = trace e ++ new ->
  since_notified new = Some (v, post) ->
  (In (EvThrow InterruptedException) post <->
   v = false /\ In (EvIsInterrupted true true) post /\
   In (EvPendingException false) post) /\
  (forall x, In (EvThrow x) post -> x = InterruptedException).
Proof.
  intros Hrun Hnew Hsince.
  pose proof (wp_Done _ _ _ _ _ (wait_waited cfg fuel current millis e) Hrun) as Hw.
  destruct Hw as [(ext & Hext & Hfor)|(pre & node & v0 & mid & fin & Ht & Hpre & Hmid & Hfin)].
  - rewrite Hnew in Hext. apply app_inv_head in Hext. subst new.
    rewrite (since_notified_none _ Hfor) in Hsince. discriminate.
  - rewrite Hnew in Ht. apply app_inv_head in Ht. subst new.
    simpl in Hsince. rewrite (since_notified_found _ _ _ _ Hpre) in Hsince.
    injection Hsince as <- <-.
    assert (Hthrow : forall x, In (EvThrow x) (mid ++ fin) <-> In (EvThrow x) fin)
      by (intros x; apply in_after_silent; [exact Hmid|simpl; tauto]).
    rewrite Hthrow.
    rewrite (in_after_silent mid fin (EvIsInterrupted true true) Hmid)
      by (simpl; tauto).
    rewrite (in_after_silent mid fin (EvPendingException false) Hmid)
      by (simpl; tauto).
    split.
    + destruct Hfin as [[-> ->]|[-> [->|[->| ->]]]]; simpl;
        intuition congruence.
    + intros x Hx. apply Hthrow in Hx.
      revert Hx.
      destruct Hfin as [[-> ->]|[-> [->|[->| ->]]]]; simpl; intuition congruence.
Qed.

Lemma wait_raises_interrupted_iff_witness :
  (exists e' post,
     wait (config false) 3 1 0 (interrupted_while_waiting platform_thread) = Done tt e' /\
     since_notified (trace e') = Some (false, post) /\
     In (EvThrow InterruptedException) post) /\
  (exists e' post,
     wait (config false) 3 1 0 notified_then_interrupted = Done tt e' /\
     since_notified (trace e') = Some (true, post) /\
     interrupted (self (world e')) = true /\
     ~ In (EvThrow InterruptedException) post).
Proof.
  split.
  - eexists _, _. split; [vm_compute; reflexivity|].
    split; [vm_compute; reflexivity|].
    refine (proj2 (proj1 (wait_raises_interrupted_iff (config false) 3 1 0
                            (interrupted_while_waiting platform_thread)
                            _ _ false _ _ eq_refl _)) _).
    + vm_compute. reflexivity.
    + vm_compute. reflexivity.
    + split; [reflexivity|]. split; [right; left; reflexivity|].
      right; right; left; reflexivity.
  - eexists _, _. split; [vm_compute; reflexivity|].
    split; [vm_compute; reflexivity|]. split; [reflexivity|].
    intros Hin.
    refine (_ (proj1 (proj1 (wait_raises_interrupted_iff (config false) 3 1 0
                               notified_then_interrupted
                               _ _ true _ _ eq_refl _)) Hin)).
    + intros [Hv _]. discriminate Hv.
    + vm_compute. reflexivity.
    + vm_compute. reflexivity.
Defined.

(** ** Entering and leaving with no other thread around *)

Lemma returns_is {A} (m : M A) (a : A) (E : Exec) (e : Exec) :
  returns m (fun a' e' => a' = a /\ e' = E) e -> m e = Done a E.
Proof.
  unfold returns. destruct (m e) as [a' e'| |]; [|contradiction..].
  intros [-> ->]. reflexivity.
Qed.

Lemma returns_is_tt (m : M unit) (E : Exec) (e : Exec) :
  returns m (fun _ e' => e' = E) e -> m e = Done tt E.
Proof.
  unfold returns. destruct (m e) as [[] e'| |]; [|contradiction..].
  intros ->. reflexivity.
Qed.

Lemma intx_add_small a b :
  - 2 ^ 63 <= a + b < 2 ^ 63 -> intx_add a b = a + b.
Proof.
  intros H. unfold intx_add. apply wrap_small; [lia|]. change (64 - 1) with 63. lia.
Qed.

Section Reentrancy.
Variable cfg : Config.
Variable current : Z.
Variables (h : gmap Z ObjectWaiter) (s : JavaThread) (v : gmap Z VirtualThread) (mk tp : Z).

Let at_mon (m : ObjectMonitor) (T : list Event) : Exec :=
  alone {| mon := m; heap := h; self := s; vthreads := v; mark := mk; top := tp |} T.

Lemma enter_free fuel m T :
  _owner m = NoOwner ->
  returns (enter cfg fuel current)
    (fun b e' => b = true /\
       e' = at_mon (set_owner (owner_for current) m)
              (T ++ [EvTrySetOwner NoOwner (owner_for current) NoOwner]))
    (at_mon m T).
Proof.
  intros Ho. unfold at_mon, enter. repeat run. split; reflexivity.
Qed.

Lemma enter_again fuel m T :
  _owner m = owner_for current ->
  returns (enter cfg fuel current)
    (fun b e' => b = true /\
       e' = at_mon (set_recursions (intx_add (_recursions m) 1) m)
              (T ++ [EvTrySetOwner NoOwner (owner_for current) (owner_for current)]))
    (at_mon m T).
Proof.
  intros Ho. unfold at_mon, enter, owner_for in *. repeat run. split; reflexivity.
Qed.

Lemma exit_nested fuel not_suspended m T :
  _owner m = owner_for current -> _recursions m <> 0 ->
  returns (exit cfg fuel current not_suspended)
    (fun _ e' => e' = at_mon (set_recursions (intx_add (_recursions m) (-1)) m) T)
    (at_mon m T).
Proof.
  intros Ho Hr. apply Z.eqb_neq in Hr.
  unfold at_mon, exit. repeat run. reflexivity.
Qed.

Lemma exit_releases fuel not_suspended m T :
  _owner m = owner_for current -> _recursions m = 0 ->
  (_EntryList m = nullptr /\ _cxq m = nullptr) \/ _succ m <> nullptr ->
  returns (exit cfg (S fuel) current not_suspended)
    (fun _ e' => e' = at_mon (set_owner NoOwner (leaving cfg current not_suspended m))
                        (T ++ [EvClearOwner]))
    (at_mon m T).
Proof.
  intros Ho Hr Hq.
  unfold at_mon, exit, leaving. repeat run.
  destruct (INCLUDE_JFR cfg && (not_suspended && EventJavaMonitorEnter_is_enabled cfg)).
  - repeat run. apply returns_loop_once. repeat run.
    destruct Hq as [[Hel Hcx]|Hsc].
    + rewrite Hel, Hcx. repeat run. reflexivity.
    + apply Z.eqb_neq in Hsc.
      destruct (Z.lor (_EntryList m) (_cxq m) =? 0); repeat run; reflexivity.
  - repeat run. apply returns_loop_once. repeat run.
    destruct Hq as [[Hel Hcx]|Hsc].
    + rewrite Hel, Hcx. repeat run. reflexivity.
    + apply Z.eqb_neq in Hsc.
      destruct (Z.lor (_EntryList m) (_cxq m) =? 0); repeat run; reflexivity.
Qed.

Lemma exit_wakes_head fuel not_suspended m T x nd :
  _owner m = owner_for current -> _recursions m = 0 ->
  _EntryList m = x -> x <> nullptr -> _succ m = nullptr ->
  h !! x = Some nd -> is_vthread nd = false ->
  returns (exit cfg (S fuel) current not_suspended)
    (fun _ e' =>
       e' = at_mon (set_owner NoOwner
                      (set_succ (_thread nd) (leaving cfg current not_suspended m)))
              (T ++ [EvClearOwner; EvTrySetOwner NoOwner (owner_for current) NoOwner;
                     EvClearOwner; EvUnpark (_thread nd)]))
    (at_mon m T).
Proof.
  intros Ho Hr Hel Hx Hsc Hnd Hv.
  assert (Hlor : (Z.lor x (_cxq m) =? 0) = false).
  { apply Z.eqb_neq. intros E. apply Z.lor_eq_0_iff in E. tauto. }
  assert (Hxz : (x =? 0) = false) by (apply Z.eqb_neq; exact Hx).
  unfold at_mon, exit, leaving, ExitEpilog. repeat run.
  destruct (INCLUDE_JFR cfg && (not_suspended && EventJavaMonitorEnter_is_enabled cfg)).
  - repeat run. apply returns_loop_once. repeat run.
    rewrite <- !app_assoc. reflexivity.
  - repeat run. apply returns_loop_once. repeat run.
    rewrite <- !app_assoc. reflexivity.
Qed.

Lemma enters fuel (n : nat) : forall m T,
  _owner m = owner_for current -> 0 <= _recursions m ->
  _recursions m + Z.of_nat n < 2 ^ 63 ->
  returns (times n (enter cfg fuel current))
    (fun _ e' =>
       e' = at_mon (set_recursions (_recursions m + Z.of_nat n) m)
              (T ++ repeat (EvTrySetOwner NoOwner (owner_for current) (owner_for current)) n))
    (at_mon m T).
Proof.
  induction n as [|n IH]; intros m T Ho Hr Hn.
  - simpl. apply returns_ret. rewrite Z.add_0_r, app_nil_r.
    destruct m; reflexivity.
  - cbn [times]. apply returns_bind.
    eapply returns_mono; [apply enter_again, Ho|].
    intros b e' [_ ->]. cbv beta.
    rewrite intx_add_small by lia.
    eapply returns_mono; [apply IH; simpl; [exact Ho|lia|lia]|].
    intros [] e'' ->. simpl. rewrite <- app_assoc.
    replace (_recursions m + 1 + Z.of_nat n) with (_recursions m + Z.of_nat (S n)) by lia.
    reflexivity.
Qed.

Lemma exits fuel not_suspended (n : nat) : forall m T,
  _owner m = owner_for current -> Z.of_nat n <= _recursions m < 2 ^ 63 ->
  returns (times n (exit cfg fuel current not_suspended))
    (fun _ e' => e' = at_mon (set_recursions (_recursions m - Z.of_nat n) m) T)
    (at_mon m T).
Proof.
  induction n as [|n IH]; intros m T Ho Hr.
  - simpl. apply returns_ret. rewrite Z.sub_0_r. destruct m; reflexivity.
  - cbn [times]. apply returns_bind.
    eapply returns_mono; [apply exit_nested; [exact Ho|lia]|].
    intros [] e' ->. cbv beta.
    rewrite intx_add_small by lia.
    eapply returns_mono; [apply IH; simpl; [exact Ho|lia]|].
    intros [] e'' ->. simpl.
    replace (_recursions m + -1 - Z.of_nat n) with (_recursions m - Z.of_nat (S n)) by lia.
    reflexivity.
Qed.

End Reentrancy.

(** ** Nested locking *)

(** X1: a thread takes a free monitor whose queues are empty, enters it [n]
    more times and then leaves it [n + 1] times, no other thread around.
    After the enters it owns the monitor with [_recursions = n]; the first
    [n] exits only count [_recursions] down; the last one releases.  The
    monitor is then as it was but for what [exit] stores before it releases,
    and the thread has made one compare-and-swap on the owner slot for each
    enter and one release. *)
Theorem nested_locking_round_trip
    (cfg : Config) (fuel : nat) (current : Z) (n : nat) (w : World) :
  (0 < fuel)%nat ->
  _owner (mon w) = NoOwner -> _recursions (mon w) = 0 ->
  _EntryList (mon w) = nullptr -> _cxq (mon w) = nullptr ->
  Z.of_nat n < 2 ^ 63 ->
  exists e1 e2,
    times (S n) (enter cfg fuel current) (quiet w) = Done tt e1 /\
    _owner (mon (world e1)) = owner_for current /\
    _recursions (mon (world e1)) = Z.of_nat n /\
    times n (exit cfg fuel current true) e1 = Done tt e2 /\
    _owner (mon (world e2)) = owner_for current /\
    _recursions (mon (world e2)) = 0 /\
    exit cfg fuel current true e2 =
      Done tt {| world := upd_mon (leaving cfg current true) w;
                 env := [];
                 trace := EvTrySetOwner NoOwner (owner_for current) NoOwner
                          :: repeat (EvTrySetOwner NoOwner (owner_for current)
                                       (owner_for current)) n
                          ++ [EvClearOwner] |}.
Proof.
  intros Hfuel Ho Hr Hel Hcx Hn.
  destruct w as [m h s v mk tp]. simpl in *.
  destruct fuel as [|k]; [lia|clear Hfuel].
  set (cur := owner_for current).
  set (E1 := alone {| mon := set_recursions (Z.of_nat n) (set_owner cur m); heap := h;
                      self := s; vthreads := v; mark := mk; top := tp |}
               ([EvTrySetOwner NoOwner cur NoOwner]
                ++ repeat (EvTrySetOwner NoOwner cur cur) n)).
  set (E2 := alone {| mon := set_owner cur m; heap := h;
                      self := s; vthreads := v; mark := mk; top := tp |}
               ([EvTrySetOwner NoOwner cur NoOwner]
                ++ repeat (EvTrySetOwner NoOwner cur cur) n)).
  exists E1, E2.
  assert (H1 : times (S n) (enter cfg (S k) current)
                 (quiet {| mon := m; heap := h; self := s; vthreads := v;
                           mark := mk; top := tp |}) = Done tt E1).
  { apply returns_is_tt. cbn [times]. apply returns_bind.
    eapply returns_mono; [apply (enter_free cfg current h s v mk tp (S k) m []), Ho|].
    intros b e' [_ ->]. cbv beta.
    eapply returns_mono; [apply enters; simpl; [reflexivity|lia|lia]|].
    intros [] e'' ->. simpl. rewrite Hr. reflexivity. }
  assert (H2 : times n (exit cfg (S k) current true) E1 = Done tt E2).
  { apply returns_is_tt.
    eapply returns_mono; [apply exits; simpl; [reflexivity|lia]|].
    intros [] e'' ->. simpl. rewrite Z.sub_diag.
    unfold E2, alone. repeat f_equal. destruct m; simpl in *. subst. reflexivity. }
  split; [exact H1|]. split; [reflexivity|]. split; [reflexivity|].
  split; [exact H2|]. split; [reflexivity|]. split; [exact Hr|].
  apply returns_is_tt.
  eapply returns_mono;
    [apply (exit_releases cfg current h s v mk tp k true); simpl;
       [reflexivity|exact Hr|left; split; assumption]|].
  intros [] e'' ->. unfold alone, upd_mon. simpl.
  repeat f_equal. unfold leaving.
  destruct (INCLUDE_JFR cfg && (true && EventJavaMonitorEnter_is_enabled cfg));
    destruct m; simpl in *; subst; reflexivity.
Qed.

Lemma nested_locking_round_trip_witness :
  exists e1 e2,
    times 3 (enter (config false) 1 7) (quiet (world_of (monitor_of NoOwner) platform_thread))
      = Done tt e1 /\
    _recursions (mon (world e1)) = 2 /\
    times 2 (exit (config false) 1 7 true) e1 = Done tt e2 /\
    exists e3, exit (config false) 1 7 true e2 = Done tt e3 /\
               mon (world e3) = monitor_of NoOwner.
Proof.
  destruct (nested_locking_round_trip (config false) 1 7 2
              (world_of (monitor_of NoOwner) platform_thread))
    as (e1 & e2 & H1 & _ & Hr & H2 & _ & _ & H3);
    [lia|reflexivity|reflexivity|reflexivity|reflexivity|simpl; lia|].
  exists e1, e2. split; [exact H1|]. split; [exact Hr|]. split; [exact H2|].
  eexists. split; [exact H3|reflexivity].
Defined.

(** ** exit: who is woken *)

(** X2: the owner leaves, at recursion depth 0, a monitor whose EntryList is
    not empty and that has no successor designated, no other thread around.
    [exit] releases the monitor, takes it back, names the thread of the head
    of the EntryList as successor, releases again and unparks that thread,
    in this order.  It leaves the EntryList, the cxq and the waiters as they
    are: the woken thread unlinks itself. *)
Theorem exit_wakes_the_head_of_EntryList
    (cfg : Config) (fuel : nat) (current : Z) (not_suspended : bool)
    (w : World) (x : Z) (nd : ObjectWaiter) :
  (0 < fuel)%nat ->
  _owner (mon w) = owner_for current -> _recursions (mon w) = 0 ->
  _EntryList (mon w) = x -> x <> nullptr -> _succ (mon w) = nullptr ->
  heap w !! x = Some nd -> is_vthread nd = false ->
  exit cfg fuel current not_suspended (quiet w) =
    Done tt {| world := upd_mon (fun m => set_owner NoOwner
                                   (set_succ (_thread nd)
                                      (leaving cfg current not_suspended m))) w;
               env := [];
               trace := [EvClearOwner;
                         EvTrySetOwner NoOwner (owner_for current) NoOwner;
                         EvClearOwner; EvUnpark (_thread nd)] |}.
Proof.
  intros Hfuel Ho Hr Hel Hx Hsc Hnd Hv.
  destruct w as [m h s v mk tp]. simpl in *.
  destruct fuel as [|k]; [lia|clear Hfuel].
  apply returns_is_tt.
  eapply returns_mono;
    [apply (exit_wakes_head cfg current h s v mk tp k not_suspended m [] x nd);
       assumption|].
  intros [] e' ->. reflexivity.
Qed.

Lemma exit_wakes_the_head_of_EntryList_witness :
  exists e',
    exit (config false) 1 1 true (quiet one_entering) = Done tt e' /\
    trace e' = [EvClearOwner; EvTrySetOwner NoOwner (OwnerThread 1) NoOwner;
                EvClearOwner; EvUnpark 3] /\
    _EntryList (mon (world e')) = 100 /\ _cxq (mon (world e')) = 200 /\
    heap (world e') = heap one_entering.
Proof.
  eexists. split.
  - apply (exit_wakes_the_head_of_EntryList (config false) 1 1 true one_entering 100
             (set_TState TS_ENTER (ObjectWaiter_new 3)));
      [lia|reflexivity|reflexivity|reflexivity|discriminate|reflexivity
      |vm_compute; reflexivity|reflexivity].
  - repeat split; reflexivity.
Defined.

(** X3: the owner leaves, at recursion depth 0, a monitor whose queues are
    both empty, or that has a successor designated whatever its queues hold,
    no other thread around.  [exit] clears the owner slot and returns: it
    wakes nobody and leaves the queues and the successor as they are. *)
Theorem exit_releases_without_waking
    (cfg : Config) (fuel : nat) (current : Z) (not_suspended : bool) (w : World) :
  (0 < fuel)%nat ->
  _owner (mon w) = owner_for current -> _recursions (mon w) = 0 ->
  (_EntryList (mon w) = nullptr /\ _cxq (mon w) = nullptr) \/ _succ (mon w) <> nullptr ->
  exit cfg fuel current not_suspended (quiet w) =
    Done tt {| world := upd_mon (fun m => set_owner NoOwner
                                   (leaving cfg current not_suspended m)) w;
               env := [];
               trace := [EvClearOwner] |}.
Proof.
  intros Hfuel Ho Hr Hq.
  destruct w as [m h s v mk tp]. simpl in *.
  destruct fuel as [|k]; [lia|clear Hfuel].
  apply returns_is_tt.
  eapply returns_mono;
    [apply (exit_releases cfg current h s v mk tp k not_suspended m []); assumption|].
  intros [] e' ->. reflexivity.
Qed.

Lemma exit_releases_without_waking_witness :
  exists e',
    exit (config false) 1 1 true
      (quiet (upd_mon (set_succ 9) one_entering)) = Done tt e' /\
    trace e' = [EvClearOwner] /\ _owner (mon (world e')) = NoOwner /\
    _EntryList (mon (world e')) = 100 /\ _succ (mon (world e')) = 9.
Proof.
  eexists. split.
  - apply (exit_releases_without_waking (config false) 1 1 true
             (upd_mon (set_succ 9) one_entering));
      [lia|reflexivity|reflexivity|right; discriminate].
  - repeat split; reflexivity.
Defined.

(** ** Spinning on a monitor that stays held *)

Section SpinHeld.
Variable cfg : Config.
Variable current : Z.
Variables (h : gmap Z ObjectWaiter) (s : JavaThread) (v : gmap Z VirtualThread) (mk tp : Z).
Hypothesis Hpoll : poll_armed s = false.

Let at_mon (m : ObjectMonitor) (T : list Event) : Exec :=
  alone {| mon := m; heap := h; self := s; vthreads := v; mark := mk; top := tp |} T.

Lemma TryLock_held m T :
  _owner m <> NoOwner ->
  returns (TryLock current) (fun r e' => r = HasOwner /\ e' = at_mon m T) (at_mon m T).
Proof.
  intros Ho. unfold at_mon, TryLock. repeat run; [|exfalso; tauto].
  repeat run. split; reflexivity.
Qed.

Lemma short_fixed_spin_loop_held adapt (n : nat) m T :
  _owner m <> NoOwner ->
  returns (short_fixed_spin_loop cfg current adapt n)
    (fun r e' => r = false /\ e' = at_mon m T) (at_mon m T).
Proof.
  intros Ho. induction n as [|n IH]; simpl.
  - apply returns_ret. split; reflexivity.
  - apply returns_bind. eapply returns_mono; [apply TryLock_held, Ho|].
    intros r e' [-> ->]. exact IH.
Qed.

Lemma TrySpin_loop_held (n : nat) : forall m T prv,
  _owner m <> NoOwner -> prv = NoOwner \/ prv = _owner m ->
  _succ m <> nullptr ->
  returns (TrySpin_loop cfg current n (Z.of_nat n) prv)
    (fun r e' => r = (-1, false) /\ e' = at_mon m T) (at_mon m T).
Proof.
  induction n as [|n IH]; intros m T prv Ho Hprv Hsc.
  - simpl. apply returns_ret. split; reflexivity.
  - cbn [TrySpin_loop].
    replace (Z.of_nat (S n) - 1) with (Z.of_nat n) by lia.
    assert (E : (Z.of_nat n <? 0) = false) by (apply Z.ltb_ge; lia).
    rewrite E.
    apply returns_bind.
    apply returns_mono with (Q := fun a e' => a = false /\ e' = at_mon m T).
    { destruct (Z.land (Z.of_nat n) 255 =? 0).
      - unfold at_mon. repeat run. split; reflexivity.
      - apply returns_ret. split; reflexivity. }
    intros a e' [-> ->]. cbv iota.
    apply Z.eqb_neq in Hsc.
    unfold at_mon. repeat run.
    assert (Hb : bool_decide (_owner m <> prv) && bool_decide (prv <> NoOwner) = false).
    { destruct Hprv as [->| ->].
      - apply andb_false_iff. right. apply bool_decide_eq_false. tauto.
      - apply andb_false_iff. left. apply bool_decide_eq_false. tauto. }
    rewrite Hb. repeat run.
    apply IH; [exact Ho|right; reflexivity|apply Z.eqb_neq; exact Hsc].
Qed.

Lemma TrySpin_held m T :
  _owner m <> NoOwner -> current <> nullptr ->
  Knob_FixedSpin (knobs cfg) <= 0 -> 0 < _SpinDuration m ->
  returns (TrySpin cfg current)
    (fun r e' => r = false /\ e' = at_mon (spun_out cfg current m) T) (at_mon m T).
Proof.
  intros Ho Hcur Hfix Hd.
  assert (Hfix' : (0 <? Knob_FixedSpin (knobs cfg)) = false) by (apply Z.ltb_ge; lia).
  assert (Hd' : (_SpinDuration m <=? 0) = false) by (apply Z.leb_gt; lia).
  assert (Hcur' : (current =? 0) = false) by (apply Z.eqb_neq; exact Hcur).
  unfold TrySpin. rewrite Hfix'. cbv zeta.
  apply returns_bind. unfold short_fixed_spin.
  eapply returns_mono; [apply short_fixed_spin_loop_held, Ho|].
  intros r e' [-> ->]. cbv iota.
  unfold at_mon. repeat run.
  set (d := _SpinDuration m).
  assert (Hloop : forall m1,
            _owner m1 = _owner m -> _succ m1 <> nullptr ->
            returns (TrySpin_loop cfg current (Z.to_nat d) d NoOwner)
              (fun r e' => r = (-1, false) /\ e' = at_mon m1 T) (at_mon m1 T)).
  { intros m1 Ho1 Hs1. rewrite <- (Z2Nat.id d) at 2 by (unfold d; lia).
    apply TrySpin_loop_held; [rewrite Ho1; exact Ho|left; reflexivity|exact Hs1]. }
  destruct (_succ m =? 0) eqn:Hsc.
  - repeat run. simpl.
    eapply returns_mono; [apply (Hloop (set_succ current m)); [reflexivity|exact Hcur]|].
    intros r e' [-> ->]. unfold at_mon. cbv beta iota. repeat run.
    change (-1 <? 0) with true. repeat run.
    simpl. eapply returns_mono; [apply (TryLock_held _ T), Ho|].
    intros r e' [-> ->]. apply returns_ret. split; [reflexivity|].
    unfold at_mon, alone. simpl. f_equal. f_equal.
    unfold spun_out. apply Z.eqb_eq in Hsc. destruct m; simpl in *. subst.
    rewrite (proj2 (Z.eqb_neq 0 current)) by (apply not_eq_sym; exact Hcur).
    reflexivity.
  - repeat run. simpl.
    eapply returns_mono; [apply (Hloop m); [reflexivity|apply Z.eqb_neq; exact Hsc]|].
    intros r e' [-> ->]. unfold at_mon. cbv beta iota. repeat run.
    change (-1 <? 0) with true. repeat run.
    destruct (_succ m =? current) eqn:Hsc'.
    + repeat run.
      simpl. eapply returns_mono; [apply (TryLock_held _ T), Ho|].
      intros r e' [-> ->]. apply returns_ret. split; [reflexivity|].
      unfold at_mon, alone. simpl. f_equal. f_equal.
      unfold spun_out. rewrite Hsc'. reflexivity.
    + repeat run. split; [reflexivity|].
      unfold at_mon, alone. simpl. f_equal. f_equal.
      unfold spun_out. rewrite Hsc'. destruct m; reflexivity.
Qed.

End SpinHeld.

(** X4: a thread spins on a monitor that another thread holds all along,
    no safepoint poll armed.  [TrySpin] gives up after the rounds
    [_SpinDuration] allows: it answers [false], has not made one
    compare-and-swap on the owner slot (it only looks until the slot reads
    null), has taken the penalty off [_SpinDuration], and does not leave
    itself as the successor. *)
Theorem TrySpin_on_a_held_monitor_gives_up
    (cfg : Config) (current : Z) (w : World) :
  _owner (mon w) <> NoOwner -> current <> nullptr ->
  poll_armed (self w) = false ->
  Knob_FixedSpin (knobs cfg) <= 0 -> 0 < _SpinDuration (mon w) ->
  TrySpin cfg current (quiet w) =
    Done false {| world := upd_mon (spun_out cfg current) w; env := []; trace := [] |}.
Proof.
  intros Ho Hcur Hpoll Hfix Hd. destruct w as [m h s v mk tp]. simpl in *.
  apply returns_is.
  eapply returns_mono;
    [apply (TrySpin_held cfg current h s v mk tp Hpoll m []); assumption|].
  intros r e' [-> ->]. split; reflexivity.
Qed.

Lemma TrySpin_on_a_held_monitor_gives_up_witness :
  exists e',
    TrySpin (config false) 1
      (quiet (world_of (monitor_of (OwnerThread 2)) platform_thread)) = Done false e' /\
    _SpinDuration (mon (world e')) = 4800 /\ _succ (mon (world e')) = nullptr /\
    trace e' = [].
Proof.
  eexists. split.
  - apply (TrySpin_on_a_held_monitor_gives_up (config false) 1
             (world_of (monitor_of (OwnerThread 2)) platform_thread));
      [discriminate|discriminate|reflexivity|simpl; lia|simpl; lia].
  - repeat split; reflexivity.
Defined.

(** ** On a uniprocessor *)

Lemma spin_update_uniprocessor (o : SpinOutcome) : spin_update uniprocessor_knobs 0 o = 0.
Proof. destruct o; reflexivity. Qed.

(** X5: with the knobs as [ObjectMonitor::Initialize] sets them on a
    uniprocessor, a monitor never spins.  It is created with
    [_SpinDuration = 0]; no update, after a success or after a failure, moves
    [_SpinDuration] off 0; and [TrySpin] on a monitor whose [_SpinDuration]
    is not positive answers [false] after a single read, whatever the other
    threads do: it reads the owner slot not even once and writes nothing. *)
Theorem uniprocessor_never_spins :
  (forall object, _SpinDuration (ObjectMonitor_new uniprocessor_knobs object) = 0) /\
  (forall os, spin_updates uniprocessor_knobs 0 os = 0) /\
  (forall cfg current e,
     knobs cfg = uniprocessor_knobs ->
     _SpinDuration (mon (world (env_move e))) <= 0 ->
     TrySpin cfg current e = Done false (env_move e)).
Proof.
  split; [reflexivity|]. split.
  - intros os. unfold spin_updates. induction os as [|o os IH]; [reflexivity|].
    simpl. rewrite spin_update_uniprocessor. exact IH.
  - intros cfg current e Hk Hd.
    unfold TrySpin, short_fixed_spin. rewrite Hk. simpl.
    unfold bind, ret, load, atomic. simpl in *.
    apply Z.leb_le in Hd. rewrite Hd. reflexivity.
Qed.

Lemma uniprocessor_never_spins_witness :
  TrySpin uniprocessor_config
    1 (quiet (world_of (ObjectMonitor_new uniprocessor_knobs 64) platform_thread))
  = Done false (quiet (world_of (ObjectMonitor_new uniprocessor_knobs 64) platform_thread)).
Proof.
  apply (proj2 (proj2 uniprocessor_never_spins)); [reflexivity|simpl; lia].
Defined.

(** ** A wait that nobody notifies *)

Lemma leaving_previous_owner_tid cfg current not_suspended m :
  leaving cfg current not_suspended m =
  set_previous_owner_tid
    (if INCLUDE_JFR cfg && (not_suspended && EventJavaMonitorEnter_is_enabled cfg)
     then JFR_THREAD_ID current else _previous_owner_tid m)
    (set_Responsible nullptr m).
Proof.
  unfold leaving.
  destruct (INCLUDE_JFR cfg && (not_suspended && EventJavaMonitorEnter_is_enabled cfg));
    destruct m; reflexivity.
Qed.

Lemma int_add_back (a : Z) : in_int a -> in_int (a + 1) -> int_add (int_add a 1) (-1) = a.
Proof.
  intros Ha Ha1. rewrite (int_add_small a 1) by exact Ha1.
  rewrite int_add_small; [lia|]. replace (a + 1 + -1) with a by lia. exact Ha.
Qed.

Lemma wait_times_out (cfg : Config) (fuel : nat) (current millis : Z)
    m h s v mk tp :
  _owner m = owner_for current -> current <> nullptr ->
  interrupted s = false -> pending_exception s = None -> suspended s = false ->
  on_virtual_thread s = false ->
  _WaitSetLock m = 0 -> _WaitSet m = nullptr ->
  _EntryList m = nullptr -> _cxq m = nullptr -> _succ m = nullptr ->
  returns (wait cfg (S fuel) current millis)
    (fun _ e' =>
       mon (world e') =
         set_recursions (intx_add (_recursions m) (relock_count s))
           (set_waiters (int_add (int_add (_waiters m) 1) (-1))
              (leaving cfg current true m)) /\
       heap (world e') !! tp = Some (set_TState TS_RUN (ObjectWaiter_new current)) /\
       (forall p, p <> tp -> heap (world e') !! p = h !! p) /\
       interrupted (self (world e')) = false /\
       pending_exception (self (world e')) = None /\
       trace e' = [EvIsInterrupted true false; EvParkReset; EvClearOwner;
                   EvIsInterrupted false false; EvPendingException false;
                   EvPark (if millis <=? 0 then None else Some millis);
                   EvNotified tp false;
                   EvTrySetOwner NoOwner (owner_for current) NoOwner;
                   EvIsInterrupted true false])
    (alone {| mon := m; heap := h; self := s; vthreads := v; mark := mk; top := tp |} []).
Proof.
  intros Ho Hcur Hint Hpend Hsusp Hvt Hlock Hws Hel Hcx Hsc.
  assert (Hcur' : (0 =? current) = false) by (apply Z.eqb_neq; apply not_eq_sym; exact Hcur).
  assert (Hcur0 : (nullptr =? current) = false) by exact Hcur'.
  unfold wait, check_owner, interrupted_and_nothing_pending.
  repeat run.
  apply returns_mono with (Q := fun a e' => a = false /\ e' = alone
      {| mon := m; heap := h; self := set_current_waiting_monitor true s;
         vthreads := v; mark := mk; top := tp |} [EvIsInterrupted true false]).
  { destruct (LOOM_MONITOR_SUPPORT cfg); repeat run; split; reflexivity. }
  intros a e' [-> ->]. cbv iota.
  repeat run.
  unfold SpinAcquire at 1.
  repeat first [run | apply returns_loop_once].
  unfold AddWaiter.
  repeat run.
  unfold SpinRelease at 1.
  repeat run.
  eapply returns_mono.
  { apply (exit_releases cfg current); simpl; [exact Ho|reflexivity|].
    left. split; assumption. }
  intros [] e' ->. cbv beta.
  rewrite (leaving_previous_owner_tid _ _ _ (set_recursions 0 _)).
  set (jfr := INCLUDE_JFR cfg && (true && EventJavaMonitorEnter_is_enabled cfg)).
  repeat run.
  assert (Hpark : forall w T (Q : unit -> Exec -> Prop),
            Q tt (alone w (T ++ [EvPark (if millis <=? 0 then None else Some millis)])) ->
            returns (if millis <=? 0 then park None else park (Some millis)) Q (alone w T)).
  { intros w T Q HQ. destruct (millis <=? 0); unfold park; repeat run; exact HQ. }
  change (atomic (fun w : World => Some (tt, w)) (fun _ : unit => [EvPark None]))
    with (park None).
  change (atomic (fun w : World => Some (tt, w)) (fun _ : unit => [EvPark (Some millis)]))
    with (park (Some millis)).
  apply Hpark. clear Hpark.
  unfold ClearSuccOnSuspend.
  repeat run.
  unfold SpinAcquire at 1.
  repeat first [run | apply returns_loop_once].
  unfold DequeueSpecificWaiter, SpinRelease.
  repeat run.
  assert (Hmon : forall M,
            M = set_owner (owner_for current)
                  (set_WaitSetLock 0
                     (set_WaitSet nullptr
                        (set_WaitSetLock 1
                           (set_owner NoOwner
                              (set_previous_owner_tid
                                 (if jfr then current else _previous_owner_tid m)
                                 (set_Responsible nullptr
                                    (set_recursions 0
                                       (set_waiters (int_add (_waiters m) 1)
                                          (set_Responsible nullptr
                                             (set_WaitSetLock 0
                                                (set_WaitSet tp
                                                   (set_WaitSetLock 1 m)))))))))))) ->
            set_waiters (int_add (int_add (_waiters m) 1) (-1))
              (set_recursions (intx_add (_recursions m) (relock_count s)) M) =
            set_recursions (intx_add (_recursions m) (relock_count s))
              (set_waiters (int_add (int_add (_waiters m) 1) (-1))
                 (leaving cfg current true m))).
  { intros M ->. rewrite leaving_previous_owner_tid. fold jfr.
    destruct m; simpl in *. subst. reflexivity. }
  assert (Hheap : forall (H : gmap Z ObjectWaiter) n1 n2 n3 n4 n5 n6 n7 p,
            p <> tp ->
            <[tp:=n1]> (<[tp:=n2]> (<[tp:=n3]> (<[tp:=n4]> (<[tp:=n5]>
              (<[tp:=n6]> (<[tp:=n7]> H)))))) !! p = H !! p).
  { intros H n1 n2 n3 n4 n5 n6 n7 p Hp. rewrite !lookup_insert_ne by congruence.
    reflexivity. }
  destruct (should_post_monitor_waited cfg).
  all: repeat run.
  all: lazymatch goal with
       | |- returns ?m ?Q (alone ?w ?t) =>
           let w' := eval simpl in w in change (returns m Q (alone w' t))
       end.
  all: (eapply returns_mono; [apply (enter_free cfg current); reflexivity|]).
  all: intros b e' [-> ->]; cbv beta.
  all: repeat run.
  all: destruct (LOOM_MONITOR_SUPPORT cfg).
  all: repeat run.
  all: simpl.
  all: split; [apply Hmon; reflexivity|].
  all: split; [rewrite lookup_insert_eq; reflexivity|].
  all: split; [intros p Hp; apply Hheap, Hp|].
  all: repeat split; assumption.
Qed.

(** X6: the owner, a platform thread with no interrupt and no exception
    pending, calls [wait] on a monitor whose WaitSet and queues are empty,
    and no other thread does anything: nobody notifies, the park comes back
    by its timeout or for no reason.  Then [wait] returns normally and
    throws nothing.  On the way the thread queued its waiter, released the
    monitor, parked, took its waiter off the WaitSet itself and took the
    monitor back; at the end the monitor is as it was but for what [exit]
    stores: the same owner at the same recursion depth, [_waiters] and the
    WaitSet as before.  The waiter it used is left behind in state
    [TS_RUN]. *)
Theorem wait_that_nobody_notifies_takes_the_monitor_back
    (cfg : Config) (fuel : nat) (current millis : Z) (w : World) :
  (0 < fuel)%nat ->
  _owner (mon w) = owner_for current -> current <> nullptr ->
  interrupted (self w) = false -> pending_exception (self w) = None ->
  suspended (self w) = false -> on_virtual_thread (self w) = false ->
  relock_count (self w) = 0 ->
  _WaitSetLock (mon w) = 0 -> _WaitSet (mon w) = nullptr ->
  _EntryList (mon w) = nullptr -> _cxq (mon w) = nullptr -> _succ (mon w) = nullptr ->
  - 2 ^ 63 <= _recursions (mon w) < 2 ^ 63 ->
  in_int (_waiters (mon w)) -> in_int (_waiters (mon w) + 1) ->
  exists e',
    wait cfg fuel current millis (quiet w) = Done tt e' /\
    mon (world e') = leaving cfg current true (mon w) /\
    heap (world e') !! top w = Some (set_TState TS_RUN (ObjectWaiter_new current)) /\
    (forall p, p <> top w -> heap (world e') !! p = heap w !! p) /\
    pending_exception (self (world e')) = None /\
    trace e' = [EvIsInterrupted true false; EvParkReset; EvClearOwner;
                EvIsInterrupted false false; EvPendingException false;
                EvPark (if millis <=? 0 then None else Some millis);
                EvNotified (top w) false;
                EvTrySetOwner NoOwner (owner_for current) NoOwner;
                EvIsInterrupted true false].
Proof.
  intros Hfuel Ho Hcur Hint Hpend Hsusp Hvt Hrelock Hlock Hws Hel Hcx Hsc Hr Hw Hw1.
  destruct w as [m h s v mk tp]. simpl in *.
  destruct fuel as [|k]; [lia|clear Hfuel].
  destruct (returns_Done _ _ _
              (wait_times_out cfg k current millis m h s v mk tp
                 Ho Hcur Hint Hpend Hsusp Hvt Hlock Hws Hel Hcx Hsc))
    as ([] & e' & Hrun & Hm & Hnode & Hheap & _ & Hp & Ht).
  exists e'. split; [exact Hrun|]. split.
  - rewrite Hm, Hrelock, int_add_back by assumption.
    rewrite intx_add_small by lia. rewrite Z.add_0_r.
    rewrite leaving_previous_owner_tid. destruct m; reflexivity.
  - repeat split; assumption.
Qed.

Lemma wait_that_nobody_notifies_takes_the_monitor_back_witness :
  exists e',
    wait (config false) 1 1 50
      (quiet (world_of (monitor_of (OwnerThread 1)) platform_thread)) = Done tt e' /\
    mon (world e') = monitor_of (OwnerThread 1) /\
    pending_exception (self (world e')) = None /\
    In (EvPark (Some 50)) (trace e').
Proof.
  destruct (wait_that_nobody_notifies_takes_the_monitor_back (config false) 1 1 50
              (world_of (monitor_of (OwnerThread 1)) platform_thread))
    as (e' & Hrun & Hm & _ & _ & Hp & Ht);
    try reflexivity; try (vm_compute; intuition congruence); try lia.
  exists e'. split; [exact Hrun|]. split; [exact Hm|]. split; [exact Hp|].
  rewrite Ht. simpl. auto 10.
Defined.

(** ** exit: one wakeup at most, and only once the monitor is free *)

Lemma exited_steps (t0 : list Event) (e : Exec) :
  emits exit_step t0 e -> exited t0 (trace e).
Proof. intros (ext & Ht & H). exists ext. split; [exact Ht|left; exact H]. Qed.

Lemma ExitEpilog_exited (t0 : list Event) (current Wakee : Z) :
  triple (emits exit_step t0) (ExitEpilog current Wakee)
    (fun _ e' => exited t0 (trace e')).
Proof.
  intros e H. unfold ExitEpilog.
  walk. walk.
  lazymatch goal with |- wp (let '(_, _) := ?p in _) _ _ => destruct p as [vth t] end.
  destruct H as (pre & Hpre & Hfor).
  unfold release_clear_owner, unpark, set_onWaitingList, unpark_vthread_unparker.
  apply wp_bind, wp_atomic; intros [] w1 _.
  assert (Hwake : forall wake w g, wakeup wake ->
            exited t0 (trace {| world := w; env := g;
                               trace := record (record (trace e'0) [EvClearOwner]) [wake] |})).
  { intros wake w g Hw. exists (pre ++ [EvClearOwner; wake]). split.
    - simpl. rewrite Hpre, <- !app_assoc. reflexivity.
    - right. exists pre, wake. auto. }
  assert (Hnone : forall w g,
            exited t0 (trace {| world := w; env := g;
                               trace := record (record (trace e'0) [EvClearOwner]) [] |})).
  { intros w g. exists (pre ++ [EvClearOwner]). split.
    - simpl. rewrite Hpre, <- !app_assoc. reflexivity.
    - left. apply Forall_app. split; [exact Hfor|repeat constructor]. }
  destruct (vth =? nullptr).
  - apply wp_atomic; intros [] w2 _. apply Hwake. exact I.
  - apply wp_bind, wp_atomic; intros added w2 _.
    apply wp_when; intros _.
    + apply wp_atomic; intros [] w3 _. simpl.
      exists (pre ++ [EvClearOwner; EvUnparkVThreadUnparker]). split.
      * rewrite Hpre, <- !app_assoc. reflexivity.
      * right. exists pre, EvUnparkVThreadUnparker. repeat split; [exact Hfor].
    + apply Hnone.
Qed.

Lemma exit_exited cfg fuel current not_suspended e :
  wp (exit cfg fuel current not_suspended) (fun _ e' => exited (trace e) (trace e')) e.
Proof.
  pose proof (emits_start exit_step e) as H.
  set (t0 := trace e) in *. clearbody t0.
  unfold exit.
  walk. walk; [apply wp_ret, exited_steps, H|].
  walk. walk.
  { walk. eapply wp_mono.
    - assert (Hp : preserves (emits exit_step t0)
                     (store (set_recursions (intx_add a1 (-1))))) by emitting.
      apply Hp. exact H.
    - intros ? e1 H1. apply exited_steps, H1. }
  walk. walk.
  lazymatch goal with
  | |- wp (loop _ ?b _) ?Q _ =>
      apply (wp_loop (fun _ e1 => emits exit_step t0 e1) b Q); [|exact H]
  end.
  clear. intros [] e H.
  repeat walk.
  all: try (apply wp_ret; first [apply exited_steps; exact H | exact H]).
  all: try (apply wp_bind; eapply wp_mono; [apply ExitEpilog_exited; exact H|];
            intros [] e1 H1; apply wp_ret; exact H1).
Qed.

(** X7: whatever the other threads do meanwhile, and from any state, a call
    of [exit] that returns has either only cleared the owner slot, taken it
    back and detached the cxq, or has done that and then, as its last two
    actions, released the monitor and woken one thread.  So [exit] wakes at
    most one thread, wakes it only once the owner slot is clear, and never
    parks. *)
Theorem exit_wakes_at_most_one_thread
    (cfg : Config) (fuel : nat) (current : Z) (not_suspended : bool) (e e' : Exec) :
  exit cfg fuel current not_suspended e = Done tt e' ->
  exited (trace e) (trace e').
Proof.
  intros E. exact (wp_Done _ _ _ _ _ (exit_exited cfg fuel current not_suspended e) E).
Qed.

Lemma exit_wakes_at_most_one_thread_witness :
  exists e', exit (config false) 5 1 true late_arrival = Done tt e' /\
             exited (trace late_arrival) (trace e').
Proof.
  eexists. split; [vm_compute; reflexivity|].
  apply (exit_wakes_at_most_one_thread (config false) 5 1 true late_arrival).
  vm_compute; reflexivity.
Defined.

(** ** Spinning: the answer is true exactly when the owner slot was taken *)

Lemma won_record (P Q : Event -> Prop) (current : Z) (t0 : list Event) (e : Exec)
    (w' : World) (g : list (World -> World)) (evs : list Event) :
  won P Q current t0 e -> Forall Q evs ->
  won P Q current t0 {| world := w'; env := g; trace := record (trace e) evs |}.
Proof.
  intros (pre & post & Ht & Hpre & Hpost) Hevs. exists pre, (post ++ evs). simpl.
  split; [|split; [exact Hpre|apply Forall_app; split; assumption]].
  rewrite record_app, Ht, <- !app_assoc. reflexivity.
Qed.

Lemma won_preserved_atomic (P Q : Event -> Prop) (current : Z) (t0 : list Event) {A}
    (f : World -> option (A * World)) (ev : A -> list Event) :
  (forall a, Forall Q (ev a)) -> preserves (won P Q current t0) (atomic f ev).
Proof.
  intros Hev e He. apply wp_atomic. intros a w' _. apply won_record; [exact He|apply Hev].
Qed.

Lemma won_preserved_local (P Q : Event -> Prop) (current : Z) (t0 : list Event) {A}
    (f : World -> A * World) (ev : A -> list Event) :
  (forall a, Forall Q (ev a)) -> preserves (won P Q current t0) (local f ev).
Proof.
  intros Hev e He. apply wp_local. intros a w' _. apply won_record; [exact He|apply Hev].
Qed.

Lemma emits_won (P Q : Event -> Prop) (current : Z) (t0 : list Event) (e : Exec)
    (w' : World) (g : list (World -> World)) :
  emits P t0 e ->
  won P Q current t0 {| world := w'; env := g; trace := record (trace e) [win current] |}.
Proof.
  intros (pre & Ht & Hpre). exists pre, []. simpl.
  split; [rewrite Ht, <- app_assoc; reflexivity|split; [exact Hpre|constructor]].
Qed.

(** The thread has the slot: what it does next adds events of [Q]. *)
Ltac keeping :=
  repeat first
    [ assumption
    | apply preserves_ret
    | apply preserves_bind; [|intros ?]
    | apply preserves_when
    | apply preserves_guarantee
    | apply preserves_loop; intros ?
    | apply won_preserved_atomic; intros; repeat constructor; exact I
    | apply won_preserved_local; intros; repeat constructor; exact I
    | match goal with
      | |- preserves _ (if ?b then _ else _) => destruct b
      | |- preserves _ (match ?x with _ => _ end) => destruct x
      end
    | progress cbv beta
    | progress autounfold with prims ].

Lemma wp_preserved_bind {A B} (I : Exec -> Prop) (m : M A) (k : A -> M B)
    (R : B -> Exec -> Prop) (e : Exec) :
  preserves I m -> I e -> (forall a e', I e' -> wp (k a) R e') -> wp (bind m k) R e.
Proof.
  intros Hm H Hk. apply wp_bind. eapply wp_mono; [apply Hm, H|]. exact Hk.
Qed.

Ltac keep_on :=
  lazymatch goal with
  | H : won ?P ?Q ?c ?t ?e |- wp (bind ?m _) _ ?e =>
      apply (wp_preserved_bind (won P Q c t) m); [keeping|exact H|clear H; intros ? ? H]
  end.

Section Winning.
Variable cfg : Config.
Variable P Q : Event -> Prop.
Variable current : Z.
Hypothesis HP : forall ev, failed current ev -> P ev.
Variable t0 : list Event.

(** One attempt on the owner slot. *)
Lemma attempt_won {B} (k : Owner -> M B) (R : B -> Exec -> Prop) (e : Exec) :
  emits P t0 e ->
  (forall e', won P Q current t0 e' -> wp (k NoOwner) R e') ->
  (forall prev e', prev <> NoOwner -> emits P t0 e' -> wp (k prev) R e') ->
  wp (bind (try_set_owner_from NoOwner (owner_for current)) k) R e.
Proof.
  intros H Hwin Hlose. apply wp_bind. unfold try_set_owner_from.
  apply wp_atomic. intros prev w' _.
  destruct (decide (prev = NoOwner)) as [->|Hne].
  - apply Hwin. apply emits_won, H.
  - apply Hlose; [exact Hne|]. apply emits_record; [exact H|].
    repeat constructor. apply HP. simpl. auto.
Qed.

Lemma quiet_step {A B} (f : World -> option (A * World)) (k : A -> M B)
    (R : B -> Exec -> Prop) (e : Exec) :
  emits P t0 e ->
  (forall a e', emits P t0 e' -> wp (k a) R e') ->
  wp (bind (atomic f (fun _ => [])) k) R e.
Proof.
  intros H Hk. apply wp_bind, wp_atomic. intros a w' _.
  apply Hk. apply emits_record; [exact H|constructor].
Qed.

Lemma TryLock_took :
  triple (emits P t0) (TryLock current)
    (fun r e' => took P Q current t0 (bool_decide (r = Success)) e').
Proof.
  intros e H. unfold TryLock, owner_raw, load.
  apply quiet_step; [exact H|]. intros own e1 H1.
  destruct (decide (own <> NoOwner)); [apply wp_ret; exact H1|].
  apply attempt_won; [exact H1| |].
  - intros e2 H2. rewrite decide_True by reflexivity. apply wp_ret. exact H2.
  - intros prev e2 Hne H2. rewrite decide_False by exact Hne. apply wp_ret. exact H2.
Qed.

Lemma short_fixed_spin_loop_took (adapt : bool) (n : nat) :
  triple (emits P t0) (short_fixed_spin_loop cfg current adapt n) (took P Q current t0).
Proof.
  induction n as [|n IH]; intros e H; simpl; [apply wp_ret; exact H|].
  apply wp_bind. eapply wp_mono; [apply TryLock_took, H|].
  intros r e1 H1. destruct r; simpl in H1.
  - apply wp_bind. eapply wp_mono.
    + assert (Hp : preserves (won P Q current t0)
                     (when adapt
                        (do d <- load _SpinDuration ;
                         store (set_SpinDuration (adjust_up (knobs cfg) d))))) by keeping.
      apply Hp. exact H1.
    + intros ? e2 H2. apply wp_ret. exact H2.
  - apply IH. exact H1.
  - apply wp_ret. exact H1.
Qed.

Lemma TrySpin_loop_took (n : nat) : forall ctr prv,
  triple (emits P t0) (TrySpin_loop cfg current n ctr prv) (fun r e' => took P Q current t0 (snd r) e').
Proof.
  induction n as [|n IH]; intros ctr prv e H; simpl; [apply wp_ret; exact H|].
  destruct (ctr - 1 <? 0); [apply wp_ret; exact H|].
  apply wp_bind.
  apply wp_mono with (Q := fun _ e' => emits P t0 e').
  { destruct (Z.land (ctr - 1) 255 =? 0); [|apply wp_ret; exact H].
    unfold local_poll_armed. apply wp_atomic. intros a w' _.
    apply emits_record; [exact H|constructor]. }
  intros armed e1 H1. destruct armed; [apply wp_ret; exact H1|].
  unfold owner_raw, load. apply quiet_step; [exact H1|]. intros ox e2 H2.
  destruct (decide (ox = NoOwner)).
  - apply attempt_won; [exact H2| |].
    + intros e3 H3. rewrite decide_True by reflexivity.
      repeat keep_on. apply wp_ret. exact H3.
    + intros prev e3 Hne H3. rewrite decide_False by exact Hne. apply wp_ret. exact H3.
  - destruct (bool_decide (ox <> prv) && bool_decide (prv <> NoOwner));
      [apply wp_ret; exact H2|].
    apply quiet_step; [exact H2|]. intros sc e3 H3.
    apply wp_bind. apply wp_when; intros _.
    + unfold store. apply wp_atomic. intros [] w' _. apply IH.
      apply emits_record; [exact H3|constructor].
    + apply IH. exact H3.
Qed.

Lemma TrySpin_took :
  triple (emits P t0) (TrySpin cfg current) (took P Q current t0).
Proof.
  intros e H. unfold TrySpin, short_fixed_spin.
  destruct (0 <? Knob_FixedSpin (knobs cfg)); [apply short_fixed_spin_loop_took, H|].
  apply wp_bind. eapply wp_mono; [apply short_fixed_spin_loop_took, H|].
  intros pre e1 H1. destruct pre; [apply wp_ret; exact H1|]. simpl in H1.
  unfold load at 1. apply quiet_step; [exact H1|]. intros ctr e2 H2.
  destruct (ctr <=? 0); [apply wp_ret; exact H2|].
  unfold load at 1. apply quiet_step; [exact H2|]. intros sc e3 H3.
  apply wp_bind, wp_mono with (Q := fun _ e' => emits P t0 e').
  { apply wp_when; intros _; [|exact H3]. unfold store. apply wp_atomic. intros [] w' _.
    apply emits_record; [exact H3|constructor]. }
  intros [] e4 H4.
  apply wp_bind. eapply wp_mono; [apply TrySpin_loop_took, H4|].
  intros [ctr' acquired] e5 H5. simpl in H5.
  destruct acquired; [apply wp_ret; exact H5|]. simpl in H5.
  apply wp_bind, wp_mono with (Q := fun _ e' => emits P t0 e').
  { apply wp_when; intros _; [|exact H5].
    unfold load. apply quiet_step; [exact H5|]. intros d e6 H6.
    unfold store. apply wp_atomic. intros [] w' _.
    apply emits_record; [exact H6|constructor]. }
  intros [] e6 H6.
  unfold load. apply quiet_step; [exact H6|]. intros sc' e7 H7.
  destruct (sc' =? current); [|apply wp_ret; exact H7].
  unfold store. apply quiet_step; [exact H7|]. intros [] e8 H8.
  apply wp_bind. eapply wp_mono; [apply TryLock_took, H8|].
  intros r e9 H9. apply wp_ret. exact H9.
Qed.

End Winning.

(** X8: whatever the other threads do meanwhile, a call of [TrySpin] only
    ever attempts the compare-and-swap of the owner slot from empty to the
    calling thread.  It answers true exactly when one attempt found the slot
    empty, and that attempt is the last: every attempt before it, and every
    attempt of a call that answers false, found another owner. *)
Theorem TrySpin_answers_true_iff_it_took_the_owner_slot
    (cfg : Config) (current : Z) (e : Exec) (b : bool) (e' : Exec) :
  TrySpin cfg current e = Done b e' ->
  exists ext, trace e' = trace e ++ ext /\ spun current b ext.
Proof.
  intros E.
  pose proof (wp_Done _ _ _ _ _
    (TrySpin_took cfg (failed current) no_event current (fun _ H => H)
       (trace e) e (emits_start _ e)) E) as H.
  destruct b; simpl in H.
  - destruct H as (pre & post & Ht & Hpre & Hpost).
    destruct post as [|ev post]; [|inversion Hpost; contradiction].
    exists (pre ++ [win current]). split; [exact Ht|]. exists pre. auto.
  - destruct H as (ext & Ht & Hext). exists ext. auto.
Qed.

Lemma TrySpin_answers_true_iff_it_took_the_owner_slot_witness :
  exists b e',
    TrySpin (config false) 1
      {| world := one_entering;
         env := [upd_mon (set_owner NoOwner); upd_mon (set_owner (OwnerThread 2));
                 upd_mon (set_owner NoOwner)];
         trace := [] |} = Done b e' /\
    exists ext, trace e' = [] ++ ext /\ spun 1 b ext.
Proof.
  eexists _, _. split; [vm_compute; reflexivity|].
  apply (TrySpin_answers_true_iff_it_took_the_owner_slot (config false) 1
           {| world := one_entering;
              env := [upd_mon (set_owner NoOwner); upd_mon (set_owner (OwnerThread 2));
                      upd_mon (set_owner NoOwner)];
              trace := [] |}).
  vm_compute; reflexivity.
Defined.

(** ** ReenterI *)

Lemma ReenterI_won (cfg : Config) (fuel : nat) (current node : Z) (t0 : list Event) :
  triple (emits (contending current) t0) (ReenterI cfg fuel current node)
    (fun _ e' => won (contending current) unlinking current t0 e').
Proof.
  intros e H. unfold ReenterI.
  assert (HP : forall ev, failed current ev -> contending current ev)
    by (intros ev Hev; left; exact Hev).
  apply wp_bind.
  apply wp_mono with (Q := fun _ e' => won (contending current) unlinking current t0 e').
  - apply (wp_loop (fun _ e1 => emits (contending current) t0 e1)); [|exact H].
    clear e H. intros [] e H.
    unfold node_load at 1. apply (quiet_step (contending current) t0); [exact H|].
    intros v e1 H1.
    apply wp_bind, wp_guarantee. intros _.
    apply wp_bind. eapply wp_mono;
      [apply (TrySpin_took cfg (contending current) unlinking current HP t0), H1|].
    intros spun e2 H2. destruct spun; [apply wp_ret; exact H2|]. simpl in H2.
    apply wp_bind. unfold park. apply wp_atomic. intros [] w3 _.
    lazymatch goal with
    | |- wp _ _ ?e3 =>
        assert (H3 : emits (contending current) t0 e3)
          by (apply emits_record; [exact H2|repeat constructor; right; reflexivity])
    end.
    apply wp_bind.
    apply wp_mono with (Q := fun _ e' => emits (contending current) t0 e').
    { unfold ClearSuccOnSuspend, is_suspended.
      apply (quiet_step (contending current) t0); [exact H3|]. intros susp e4 H4.
      destruct susp; [|apply wp_ret; exact H4].
      unfold load. apply (quiet_step (contending current) t0); [exact H4|].
      intros sc e5 H5. apply wp_when; intros _; [|exact H5].
      unfold store. apply wp_atomic. intros [] w' _.
      apply emits_record; [exact H5|constructor]. }
    intros [] e4 H4.
    apply wp_bind. eapply wp_mono;
      [apply (TryLock_took (contending current) unlinking current HP t0), H4|].
    intros r e5 H5. destruct r; simpl in H5; [apply wp_ret; exact H5| |].
    all: unfold load; apply (quiet_step (contending current) t0); [exact H5|];
      intros sc e6 H6; apply wp_bind, wp_when; intros _;
      [unfold store; apply wp_atomic; intros [] w' _; apply wp_ret;
       apply emits_record; [exact H6|constructor]
      |apply wp_ret; exact H6].
  - intros [] e1 H1. cbv beta.
    assert (Hp : preserves (won (contending current) unlinking current t0)
                   (do _ <- UnlinkAfterAcquire fuel current node ;
                    do sc <- load _succ ;
                    do _ <- when (sc =? current) (store (set_succ nullptr)) ;
                    node_store node (set_TState TS_RUN)))
      by (unfold UnlinkAfterAcquire; keeping).
    exact (Hp e1 H1).
Qed.

(** X9: whatever the other threads do meanwhile, [ReenterI] comes back only
    once the calling thread has taken the owner slot by compare-and-swap.
    Until then it has only made attempts that found another owner, and
    parked; from then on it only unlinks its node: it neither gives the
    monitor up nor wakes anybody. *)
Theorem ReenterI_returns_once_it_took_the_owner_slot
    (cfg : Config) (fuel : nat) (current node : Z) (e e' : Exec) :
  ReenterI cfg fuel current node e = Done tt e' ->
  won (contending current) unlinking current (trace e) e'.
Proof.
  intros E.
  exact (wp_Done _ _ _ _ _
           (ReenterI_won cfg fuel current node (trace e) e (emits_start _ e)) E).
Qed.

Lemma ReenterI_returns_once_it_took_the_owner_slot_witness :
  exists e',
    ReenterI (config false) 5 4 200
      {| world := one_entering;
         env := [id; id; upd_mon (set_owner NoOwner); upd_mon (set_owner (OwnerThread 2));
                 id; id; upd_mon (set_owner NoOwner)];
         trace := [] |} = Done tt e' /\
    won (contending 4) unlinking 4 [] e'.
Proof.
  eexists. split; [vm_compute; reflexivity|].
  apply (ReenterI_returns_once_it_took_the_owner_slot (config false) 5 4 200
           {| world := one_entering;
              env := [id; id; upd_mon (set_owner NoOwner);
                      upd_mon (set_owner (OwnerThread 2));
                      id; id; upd_mon (set_owner NoOwner)];
              trace := [] |}).
  vm_compute; reflexivity.
Defined.

(** ** deflate_monitor with no other thread around *)

(** X10: with no other thread around, [deflate_monitor] answers true exactly
    on a monitor that is not busy and whose object is gone, or whose owner
    slot is empty with [_contentions] at 0.  It then leaves the marker in
    the owner slot, [INT_MIN] in [_contentions] and the displaced header in
    the mark word of a live object that pointed to the monitor.  When it
    answers false it leaves the monitor, the object and the heap exactly as
    they were. *)
Theorem deflate_monitor_alone (cfg : Config) (w : World) :
  exists t,
    deflate_monitor cfg (quiet w) =
    Done (deflatable (mon w))
         (alone (if deflatable (mon w) then deflate cfg w else w) t).
Proof.
  destruct w as [m h s v mk tp]. destruct m as [hdr obj own ptid rec el cx sc resp sd cnt ws wt wsl].
  unfold deflatable, busy, deflate, quiet, alone.
  unfold deflate_monitor, is_busy, restore_owner_after_lost_race,
    install_displaced_markword_in_object.
  autounfold with prims. unfold load, store, atomic, bind, ret, interfere, when, guarantee.
  unfold nullptr. simpl.
  destruct (Z.eqb_spec cnt 0) as [->|Hc];
    [|assert (Hc' : (cnt =? 0) = false) by (apply Z.eqb_neq; exact Hc)].
  all: destruct (wt =? 0) eqn:Hw; destruct (cx =? 0) eqn:Hx;
    destruct (el =? 0) eqn:Hl; destruct (obj =? 0) eqn:Ho;
    destruct (mk =? encode_this cfg) eqn:Hm; destruct own.
  all: try (destruct (0 <? cnt) eqn:Hp).
  all: eexists.
  all: repeat first [ progress simpl | rewrite Hw | rewrite Hx | rewrite Hl | rewrite Ho
                    | rewrite Hm | rewrite Hp | rewrite Hc' ].
  all: reflexivity.
Qed.

(** ** deflate_monitor: giving up leaves no marker behind *)

Lemma unmarked_interfere (e : Exec) :
  unmarked e -> _owner (mon (interfere e)) <> DEFLATER_MARKER.
Proof.
  intros [He Ho]. unfold interfere, env_ok in *.
  destruct (env e) as [|g gs]; [exact Ho|].
  inversion He as [|? ? Hg _]. apply Hg, Ho.
Qed.

(** An access that leaves the owner slot alone. *)
Lemma unmarked_preserved_atomic {A} (f : World -> option (A * World))
    (ev : A -> list Event) :
  (forall w a w', f w = Some (a, w') -> _owner (mon w') = _owner (mon w)) ->
  preserves unmarked (atomic f ev).
Proof.
  intros Hf e H. apply wp_atomic. intros a w' E. split.
  - apply env_ok_tail, H.
  - simpl. rewrite (Hf _ _ _ E). apply unmarked_interfere, H.
Qed.

Lemma env_ok_preserved_atomic (R : World -> World -> Prop) {A}
    (f : World -> option (A * World)) (ev : A -> list Event) :
  preserves (env_ok R) (atomic f ev).
Proof. intros e H. apply wp_atomic. intros a w' _. apply env_ok_tail, H. Qed.

Ltac reading :=
  apply unmarked_preserved_atomic; intros ? ? ? E; simpl in E;
  injection E as <- <-; reflexivity.

Lemma is_busy_unmarked : preserves unmarked is_busy.
Proof.
  unfold is_busy, contentions, owner_raw, load.
  repeat (apply preserves_bind; [reading|intros ?]). apply preserves_ret.
Qed.

(** The deflater takes the marker back out of the owner slot. *)
Lemma restore_owner_after_lost_race_unmarked (e : Exec) :
  env_ok only_the_deflater_marks e ->
  wp restore_owner_after_lost_race (fun _ e' => unmarked e') e.
Proof.
  intros He. unfold restore_owner_after_lost_race, try_set_owner_from.
  apply wp_bind, wp_atomic. intros prev w' E. simpl in E.
  assert (H1 : unmarked {| world := w'; env := tail (env e);
                           trace := record (trace e)
                                      [EvTrySetOwner DEFLATER_MARKER NoOwner prev] |}).
  { split; [apply env_ok_tail, He|]. simpl.
    destruct (decide (_owner (mon (interfere e)) = DEFLATER_MARKER)) as [Hd|Hd];
      injection E as <- <-; [discriminate|exact Hd]. }
  apply wp_when; intros _; [|exact H1].
  assert (Hp : preserves unmarked (add_to_contentions (-1))).
  { unfold add_to_contentions. apply unmarked_preserved_atomic.
    intros ? ? ? E'. simpl in E'. injection E' as <- <-. reflexivity. }
  exact (Hp _ H1).
Qed.

(** What comes back as true is of no concern here. *)
Ltac through :=
  repeat first
    [ apply wp_ret; intros; discriminate
    | apply wp_bind
    | apply wp_atomic; intros ? ? _
    | apply wp_guarantee; intros _
    | apply wp_when; intros _
    | match goal with
      | |- wp (if ?b then _ else _) _ _ => destruct b
      end
    | progress unfold install_displaced_markword_in_object
    | progress autounfold with prims ].

Lemma deflate_monitor_unmarked (cfg : Config) (e : Exec) :
  unmarked e ->
  wp (deflate_monitor cfg) (fun r e' => r = false -> unmarked e') e.
Proof.
  intros H. unfold deflate_monitor.
  apply (wp_preserved_bind unmarked); [apply is_busy_unmarked|exact H|].
  clear e H. intros busy e H.
  destruct busy; [apply wp_ret; intros _; exact H|].
  apply (wp_preserved_bind unmarked); [unfold object_peek, load; reading|exact H|].
  clear e H. intros obj e H.
  destruct (obj =? nullptr); [through|].
  apply wp_bind, wp_bind. unfold try_set_owner_from at 1.
  apply wp_atomic. intros prev w1 E. simpl in E.
  destruct (decide (prev <> NoOwner)) as [Hne|_].
  { apply wp_ret. simpl. apply wp_ret. intros _. split; [apply env_ok_tail, H|]. simpl.
    destruct (decide (_owner (mon (interfere e)) = NoOwner)) as [Hd|Hd];
      injection E as <- <-; [contradiction|apply unmarked_interfere, H]. }
  destruct H as [He _].
  lazymatch goal with
  | |- wp _ _ ?e1 =>
      assert (H1 : env_ok only_the_deflater_marks e1) by (apply env_ok_tail, He);
      generalize dependent e1
  end.
  clear. intros e1 H1.
  apply (wp_preserved_bind (env_ok only_the_deflater_marks));
    [apply env_ok_preserved_atomic|exact H1|].
  clear. intros c e2 H2.
  apply (wp_preserved_bind (env_ok only_the_deflater_marks));
    [|exact H2|].
  { destruct (0 <? c); [apply preserves_ret|].
    apply preserves_bind; [apply env_ok_preserved_atomic|intros ?; apply preserves_ret]. }
  clear. intros raced e3 H3.
  destruct raced.
  { apply wp_bind. eapply wp_mono; [apply restore_owner_after_lost_race_unmarked, H3|].
    intros [] e4 H4. apply wp_ret. simpl. apply wp_ret. intros _. exact H4. }
  apply (wp_preserved_bind (env_ok only_the_deflater_marks));
    [apply env_ok_preserved_atomic|exact H3|].
  clear. intros prev e4 H4.
  destruct (negb (prev =? 0)); [|through].
  apply wp_bind. eapply wp_mono; [apply restore_owner_after_lost_race_unmarked, H4|].
  intros [] e5 H5. apply wp_ret. simpl. apply wp_ret. intros _. exact H5.
Qed.

(** X11: no other thread ever writes the deflater's marker into the owner
    slot.  Then, whatever else the other threads do meanwhile, a call of
    [deflate_monitor] that finds no marker in the owner slot and answers
    false leaves none there: a deflation that gives up has taken its marker
    back. *)
Theorem deflate_monitor_false_leaves_no_marker (cfg : Config) (e e' : Exec) :
  env_ok only_the_deflater_marks e ->
  _owner (mon (world e)) <> DEFLATER_MARKER ->
  deflate_monitor cfg e = Done false e' ->
  _owner (mon (world e')) <> DEFLATER_MARKER.
Proof.
  intros He Ho E.
  exact (proj2 (wp_Done _ _ _ _ _ (deflate_monitor_unmarked cfg e (conj He Ho)) E eq_refl)).
Qed.

Lemma deflate_monitor_false_leaves_no_marker_witness :
  exists e',
    deflate_monitor (config false)
      (contended_after 7 (world_of (monitor_of NoOwner) platform_thread)) = Done false e' /\
    _owner (mon (world e')) <> DEFLATER_MARKER.
Proof.
  eexists. split; [vm_compute; reflexivity|].
  apply (deflate_monitor_false_leaves_no_marker (config false)
           (contended_after 7 (world_of (monitor_of NoOwner) platform_thread))).
  - repeat constructor; intros w H; exact H.
  - discriminate.
  - vm_compute; reflexivity.
Defined.

(** ** deflate_monitor against a thread that arrives *)

Lemma returns_atomic_at {A} (f : World -> option (A * World)) (ev : A -> list Event)
    (Q : A -> Exec -> Prop) (e : Exec) (a : A) (w' : World) :
  f (interfere e) = Some (a, w') ->
  Q a {| world := w'; env := tail (env e); trace := record (trace e) (ev a) |} ->
  returns (atomic f ev) Q e.
Proof. intros Hf HQ. unfold returns, atomic. rewrite Hf. exact HQ. Qed.

(** One step of an execution among the moves of other threads. *)
Ltac race :=
  lazymatch goal with
  | |- returns (if true then _ else _) _ _ => cbv iota
  | |- returns (if false then _ else _) _ _ => cbv iota
  | |- returns (ret _) _ _ => apply returns_ret
  | |- returns (bind _ _) _ _ => apply returns_bind
  | |- returns (atomic _ _) _ _ =>
      eapply returns_atomic_at;
      [ unfold interfere; simpl; reflexivity
      | cbv beta;
        lazymatch goal with
        | |- returns ?m ?Q ?e =>
            let e' := eval simpl in e in change (returns m Q e')
        | |- _ => idtac
        end ]
  | |- returns (guarantee ?c _) _ _ =>
      apply returns_guarantee;
      [ unfold nullptr; simpl;
        repeat match goal with
               | H : (_ =? _) = _ |- _ => rewrite H
               end;
        reflexivity
      | ]
  | |- returns (when ?c _) _ _ => unfold when
  | |- returns (if ?b then ?x else ?y) ?Q ?e =>
      first
        [ match goal with
          | H : ?c = _ |- _ =>
              match b with context [c] => rewrite H end
          end
        | let b0 := eval cbv delta [nullptr] in b in
          let b' := eval simpl in b0 in
          progress (change (returns (if b' then x else y) Q e))
        | let b' := eval vm_compute in b in
          lazymatch b' with
          | true => change (returns x Q e)
          | false => change (returns y Q e)
          end
        | rewrite bool_decide_eq_true_2 by congruence
        | rewrite bool_decide_eq_false_2 by congruence
        | lazymatch b with
          | decide ?P =>
              let Hd := fresh "Hd" in
              destruct (decide P) as [Hd|Hd];
              [try (exfalso; congruence)|try (exfalso; congruence)]
          end ]
  | |- returns _ _ _ => progress autounfold with prims
  | |- returns _ _ _ => progress unfold load, store
  end.

Ltac deflating_case :=
  unfold contended_after, deflate_monitor, is_busy, restore_owner_after_lost_race,
    install_displaced_markword_in_object, contend;
  simpl repeat; simpl app;
  repeat race;
  simpl;
  repeat match goal with
         | H : (_ =? _) = _ |- _ => rewrite H; simpl
         end;
  split; intros Hb;
  first [ discriminate Hb
        | simpl; repeat split; first [reflexivity | lia] ].

(** X12: a monitor is idle and its object alive when the deflater starts,
    and one other thread announces itself, by [add_to_contentions(1)], at
    any moment of the call.  Then [deflate_monitor] returns, and either it
    answers false and leaves the world as the other thread's increment alone
    would have left it, the owner slot empty again; or it answers true and
    the owner slot holds the marker with [_contentions] negative, increment
    included, so that the other thread sees the deflation. *)
Theorem deflate_monitor_against_a_contender (cfg : Config) (w : World) (n : nat) :
  _waiters (mon w) = 0 -> _cxq (mon w) = nullptr -> _EntryList (mon w) = nullptr ->
  _contentions (mon w) = 0 -> _owner (mon w) = NoOwner -> _object (mon w) <> nullptr ->
  exists b e',
    deflate_monitor cfg (contended_after n w) = Done b e' /\
    (b = false -> world e' = contend w /\ env e' = []) /\
    (b = true -> _owner (mon (world e')) = DEFLATER_MARKER /\
                 _contentions (mon (world e')) < 0 /\
                 (10 <= n)%nat).
Proof.
  destruct w as [m h s v mk tp]. destruct m as [hdr obj own ptid rec el cx sc resp sd cnt ws wt wsl]. simpl.
  intros -> -> -> -> -> Hobj.
  assert (Ho : (obj =? 0) = false) by (apply Z.eqb_neq; exact Hobj).
  lazymatch goal with
  | |- exists b e', deflate_monitor cfg (contended_after n ?w0) = _ /\ _ =>
      cut (returns (deflate_monitor cfg)
             (fun b e' =>
                (b = false -> world e' = contend w0 /\ env e' = []) /\
                (b = true -> _owner (mon (world e')) = DEFLATER_MARKER /\
                             _contentions (mon (world e')) < 0 /\
                             (10 <= n)%nat))
             (contended_after n w0))
  end.
  { intros H. apply returns_Done in H. destruct H as (b & e' & E & H).
    exists b, e'. split; [exact E|exact H]. }
  destruct (mk =? encode_this cfg) eqn:Hm.
  all: do 18 (destruct n as [|n]; [solve [deflating_case]|]).
  all: solve [deflating_case].
Qed.

Lemma deflate_monitor_against_a_contender_witness :
  exists b e',
    deflate_monitor (config false)
      (contended_after 8 (world_of (monitor_of NoOwner) platform_thread)) = Done b e' /\
    (b = false ->
     world e' = contend (world_of (monitor_of NoOwner) platform_thread) /\ env e' = []) /\
    (b = true -> _owner (mon (world e')) = DEFLATER_MARKER /\
                 _contentions (mon (world e')) < 0 /\
                 (10 <= 8)%nat).
Proof.
  apply (deflate_monitor_against_a_contender (config false)
           (world_of (monitor_of NoOwner) platform_thread) 8);
    first [reflexivity | discriminate].
Defined.

(** ** The WaitSet as a ring *)

Lemma arc_frame h q L t p n :
  ~ In p L -> arc h q L t -> arc (<[p := n]> h) q L t.
Proof.
  revert q. induction L as [|x L IH]; intros q Hp H; [exact I|].
  destruct H as (m & Hm & Hq & Hn & Hr).
  exists m. split; [|split; [exact Hq|split; [exact Hn|]]].
  - rewrite lookup_insert_ne; [exact Hm|]. intros ->. apply Hp. left. reflexivity.
  - apply IH; [|exact Hr]. intros Hin. apply Hp. right. exact Hin.
Qed.

Lemma last_default (L : list Z) : forall x d d',
  List.last (x :: L) d = List.last (x :: L) d'.
Proof.
  induction L as [|y L IH]; intros x d d'; [reflexivity|].
  change (List.last (y :: L) d = List.last (y :: L) d'). apply IH.
Qed.

Lemma last_In (L : list Z) : forall x d, In (List.last (x :: L) d) (x :: L).
Proof.
  induction L as [|y L IH]; intros x d; [left; reflexivity|].
  right. apply (IH y d).
Qed.

Lemma last_app_one (L : list Z) (x d : Z) : List.last (L ++ [x]) d = x.
Proof. apply last_last. Qed.

Lemma arc_app h L1 : forall q L2 t,
  arc h q (L1 ++ L2) t <-> arc h q L1 (hd t L2) /\ arc h (List.last L1 q) L2 t.
Proof.
  induction L1 as [|x L1 IH]; intros q L2 t.
  - simpl. tauto.
  - assert (Hl : List.last (x :: L1) q = List.last L1 x).
    { destruct L1 as [|y L1]; [reflexivity|].
      change (List.last (y :: L1) q = List.last (y :: L1) x). apply last_default. }
    assert (Hh : hd t (L1 ++ L2) = hd (hd t L2) L1) by (destruct L1; reflexivity).
    rewrite Hl. change ((x :: L1) ++ L2) with (x :: (L1 ++ L2)).
    cbn [arc]. rewrite Hh. split.
    + intros (m & Hm & Hq & Hn & Hr). apply IH in Hr. destruct Hr as [Hr1 Hr2].
      split; [|exact Hr2]. exists m. repeat split; assumption.
    + intros [(m & Hm & Hq & Hn & Hr1) Hr2]. exists m. repeat split; try assumption.
      apply IH. split; assumption.
Qed.

Lemma arc_set_prev h q q' x L t n :
  ~ In x L -> h !! x = Some n -> arc h q (x :: L) t ->
  arc (<[x := set_prev q' n]> h) q' (x :: L) t.
Proof.
  intros Hx Hn (m & Hm & _ & Hnx & Hr). rewrite Hn in Hm. injection Hm as <-.
  exists (set_prev q' n). rewrite lookup_insert_eq. repeat split; try assumption.
  apply arc_frame; assumption.
Qed.

Lemma arc_set_next h L : forall q t t' n,
  List.NoDup L -> L <> [] -> h !! List.last L nullptr = Some n -> arc h q L t ->
  arc (<[List.last L nullptr := set_next t' n]> h) q L t'.
Proof.
  induction L as [|x L IH]; intros q t t' n Hnd Hne Hn H; [contradiction|].
  destruct H as (m & Hm & Hq & Hnx & Hr).
  apply NoDup_cons_iff in Hnd. destruct Hnd as [Hx Hnd'].
  destruct L as [|y L].
  - simpl in *. rewrite Hn in Hm. injection Hm as <-.
    exists (set_next t' n). rewrite lookup_insert_eq. repeat split; assumption.
  - assert (Hlast : List.last (x :: y :: L) nullptr = List.last (y :: L) nullptr)
      by reflexivity.
    rewrite Hlast in *.
    assert (Hin : In (List.last (y :: L) nullptr) (y :: L)) by apply last_In.
    exists m. split; [|split; [exact Hq|split; [exact Hnx|]]].
    + rewrite lookup_insert_ne; [exact Hm|]. intros <-. contradiction.
    + apply (IH x t t' n); [exact Hnd'|discriminate|exact Hn|exact Hr].
Qed.

Lemma NoDup_snoc (L : list Z) (x : Z) :
  List.NoDup L -> ~ In x L -> List.NoDup (L ++ [x]).
Proof.
  induction L as [|y L IH]; intros Hnd Hx; simpl.
  - constructor; [intros []|constructor].
  - apply NoDup_cons_iff in Hnd. destruct Hnd as [Hy Hnd]. constructor.
    + intros Hin. apply in_app_or in Hin. destruct Hin as [Hin|[<-|[]]]; [contradiction|].
      apply Hx. left. reflexivity.
    + apply IH; [exact Hnd|]. intros Hin. apply Hx. right. exact Hin.
Qed.

Lemma arc_lookup h L : forall q t p, arc h q L t -> In p L -> is_Some (h !! p).
Proof.
  induction L as [|x L IH]; intros q t p H Hin; [contradiction|].
  destruct H as (m & Hm & _ & _ & Hr). destruct Hin as [<-|Hin]; [eauto|].
  exact (IH _ _ _ Hr Hin).
Qed.

Lemma same_but_links_refl n : same_but_links n n.
Proof. reflexivity. Qed.

Lemma same_but_links_set_next v n : same_but_links n (set_next v n).
Proof. reflexivity. Qed.

Lemma same_but_links_set_prev v n : same_but_links n (set_prev v n).
Proof. reflexivity. Qed.

Lemma same_but_links_trans n1 n2 n3 :
  same_but_links n1 n2 -> same_but_links n2 n3 -> same_but_links n1 n3.
Proof. unfold same_but_links. congruence. Qed.

Lemma rethreaded_refl L h : rethreaded L h h.
Proof. intros p. destruct (h !! p); [split; [reflexivity|auto]|exact I]. Qed.

Lemma rethreaded_insert L h h' p n' n'' :
  rethreaded L h h' -> In p L -> h' !! p = Some n' -> same_but_links n' n'' ->
  rethreaded L h (<[p := n'']> h').
Proof.
  intros H Hin Hp Hs q. specialize (H q). destruct (decide (p = q)) as [<-|Hne].
  - rewrite lookup_insert_eq. rewrite Hp in H. destruct (h !! p) as [n0|]; [|contradiction].
    destruct H as [H _]. split; [eapply same_but_links_trans; eassumption|].
    intros Hn. contradiction.
  - rewrite lookup_insert_ne by exact Hne. exact H.
Qed.

(** ** AddWaiter, DequeueWaiter, DequeueSpecificWaiter *)

Lemma AddWaiter_to_ring (w : World) (t : list Event) (L : list Z) (node : Z)
    (n : ObjectWaiter) :
  ring (heap w) (_WaitSet (mon w)) L ->
  node <> nullptr -> ~ In node L -> heap w !! node = Some n ->
  returns (AddWaiter node)
    (fun _ e' =>
       exists w', e' = alone w' t /\
         ring (heap w') (_WaitSet (mon w')) (L ++ [node]) /\
         rethreaded (L ++ [node]) (heap w) (heap w') /\
         same_but_WaitSet w w')
    (alone w t).
Proof.
  intros (Hws & Hnull & Hnd & Harc) Hnode Hfresh Hn.
  unfold AddWaiter.
  destruct L as [|x L].
  - simpl in Hws. repeat run.
    eexists. split; [reflexivity|]. simpl. split; [|split].
    + split; [reflexivity|]. split; [intros [H|[]]; congruence|].
      split; [repeat constructor; intros []|].
      simpl. eexists. rewrite lookup_insert_eq. repeat split; reflexivity.
    + eapply rethreaded_insert;
        [eapply rethreaded_insert; [apply rethreaded_refl|left; reflexivity|exact Hn|]
        |left; reflexivity|apply lookup_insert_eq|];
        reflexivity.
    + reflexivity.
  - simpl in Hws.
    assert (Hx0 : x <> nullptr) by (intros ->; apply Hnull; left; reflexivity).
    assert (Hx0' : (x =? nullptr) = false) by (apply Z.eqb_neq; exact Hx0).
    assert (Htl_in : In (List.last (x :: L) nullptr) (x :: L)) by apply last_In.
    assert (Hlast : List.last (x :: L) node = List.last (x :: L) nullptr)
      by apply last_default.
    remember (List.last (x :: L) nullptr) as tl eqn:Etl.
    change (hd nullptr (x :: L)) with x in Harc.
    pose proof Harc as (hn & Hhn & Hprev & _ & _).
    destruct (arc_lookup _ _ _ _ _ Harc Htl_in) as [tn Htn].
    assert (A1 : arc (<[tl := set_next node tn]> (heap w)) tl (x :: L) node).
    { rewrite Etl in *. apply (arc_set_next _ _ _ x); [exact Hnd|discriminate|exact Htn|exact Harc]. }
    pose proof A1 as (n1 & Hn1 & _ & _ & _).
    apply NoDup_cons_iff in Hnd as Hnd'. destruct Hnd' as [Hx_notin HndL].
    pose proof (arc_set_prev _ _ node _ _ _ _ Hx_notin Hn1 A1) as A2.
    assert (Hnx : node <> x) by (intros ->; apply Hfresh; left; reflexivity).
    assert (Hntl : node <> tl) by (intros ->; apply Hfresh; exact Htl_in).
    pose proof (arc_frame _ _ _ _ node (set_next x n) Hfresh A2) as A3.
    pose proof (arc_frame _ _ _ _ node (set_prev tl (set_next x n)) Hfresh A3) as A4.
    clear Harc A1 A2 A3.
    repeat run.
    eexists. split; [reflexivity|]. simpl. split; [|split].
    + split; [exact Hws|]. split; [|split].
      * intros [H|H]; [congruence|]. apply in_app_or in H. destruct H as [H|[H|[]]].
        -- apply Hnull. right. exact H.
        -- congruence.
      * apply (NoDup_snoc (x :: L)); assumption.
      * change (x :: L ++ [node]) with ((x :: L) ++ [node]).
        rewrite last_app_one. apply arc_app. split; [exact A4|].
        rewrite Hlast. simpl. eexists. rewrite lookup_insert_eq.
        repeat split; reflexivity.
    + assert (Hin_tl : In tl ((x :: L) ++ [node])) by (apply in_or_app; left; exact Htl_in).
      assert (Hin_x : In x ((x :: L) ++ [node])) by (left; reflexivity).
      assert (Hin_n : In node ((x :: L) ++ [node]))
        by (apply in_or_app; right; left; reflexivity).
      pose proof (rethreaded_insert _ _ _ _ _ (set_next node tn)
                    (rethreaded_refl ((x :: L) ++ [node]) (heap w)) Hin_tl Htn
                    (same_but_links_set_next _ _)) as R1.
      pose proof (rethreaded_insert _ _ _ _ _ (set_prev node n1) R1 Hin_x Hn1
                    (same_but_links_set_prev _ _)) as R2.
      assert (Hn2 : <[x:=set_prev node n1]> (<[tl:=set_next node tn]> (heap w)) !! node
                    = Some n) by (rewrite !lookup_insert_ne by congruence; exact Hn).
      pose proof (rethreaded_insert _ _ _ _ _ (set_next x n) R2 Hin_n Hn2
                    (same_but_links_set_next _ _)) as R3.
      exact (rethreaded_insert _ _ _ _ _ (set_prev tl (set_next x n)) R3 Hin_n
               (lookup_insert_eq _ _ _) (same_but_links_set_prev _ _)).
    + reflexivity.
Qed.

(** The ring read from another of its waiters. *)
Lemma arc_rotate h (A B : list Z) :
  arc h (List.last (A ++ B) nullptr) (A ++ B) (hd nullptr (A ++ B)) ->
  arc h (List.last (B ++ A) nullptr) (B ++ A) (hd nullptr (B ++ A)).
Proof.
  destruct A as [|a A]; [rewrite app_nil_r; exact (fun H => H)|].
  destruct B as [|b B]; [rewrite app_nil_r; exact (fun H => H)|].
  intros H.
  assert (E1 : List.last ((a :: A) ++ b :: B) nullptr = List.last (b :: B) nullptr).
  { rewrite (app_removelast_last nullptr (l := b :: B)) at 1 by discriminate.
    rewrite app_assoc. apply last_last. }
  assert (E2 : List.last ((b :: B) ++ a :: A) nullptr = List.last (a :: A) nullptr).
  { rewrite (app_removelast_last nullptr (l := a :: A)) at 1 by discriminate.
    rewrite app_assoc. apply last_last. }
  rewrite E1 in H. rewrite E2.
  change (hd nullptr ((a :: A) ++ b :: B)) with a in H.
  change (hd nullptr ((b :: B) ++ a :: A)) with b.
  apply arc_app in H. destruct H as [H1 H2]. apply arc_app.
  change (hd a (b :: B)) with b in H1. change (hd b (a :: A)) with a.
  rewrite (last_default A a (List.last (b :: B) nullptr) nullptr) in H2.
  rewrite (last_default B b (List.last (a :: A) nullptr) nullptr).
  split; assumption.
Qed.

Lemma DequeueSpecificWaiter_from_ring (w : World) (t : list Event)
    (pre : list Z) (node : Z) (post : list Z) :
  ring (heap w) (_WaitSet (mon w)) (pre ++ node :: post) ->
  returns (DequeueSpecificWaiter node)
    (fun _ e' =>
       exists w', e' = alone w' t /\
         ring (heap w') (_WaitSet (mon w')) (pre ++ post) /\
         rethreaded (pre ++ node :: post) (heap w) (heap w') /\
         same_but_WaitSet w w' /\
         exists nd', heap w' !! node = Some nd' /\
                     _next nd' = nullptr /\ _prev nd' = nullptr)
    (alone w t).
Proof.
  intros (Hws & Hnull & Hnd & Harc).
  apply (arc_rotate _ pre (node :: post)) in Harc.
  change ((node :: post) ++ pre) with (node :: (post ++ pre)) in Harc.
  change (hd nullptr (node :: post ++ pre)) with node in Harc.
  assert (HndR : List.NoDup (node :: post ++ pre)).
  { apply (Permutation.Permutation_NoDup (l := pre ++ node :: post)); [|exact Hnd].
    apply Permutation.Permutation_app_comm. }
  apply NoDup_cons_iff in HndR. destruct HndR as [Hnode_notin HndR].
  unfold DequeueSpecificWaiter.
  destruct (post ++ pre) as [|r R] eqn:ER.
  - apply app_eq_nil in ER. destruct ER as [-> ->]. simpl in *.
    destruct Harc as (nd & Hnode & Hprev & Hnext & _).
    repeat run.
    eexists. split; [reflexivity|]. simpl. split; [|split; [|split]].
    + split; [reflexivity|]. split; [intros []|]. split; [constructor|exact I].
    + pose proof (rethreaded_insert [node] _ _ _ _ (set_next nullptr nd)
                    (rethreaded_refl [node] (heap w)) (or_introl eq_refl) Hnode
                    (same_but_links_set_next _ _)) as R1.
      exact (rethreaded_insert [node] _ _ _ _ (set_prev nullptr (set_next nullptr nd))
               R1 (or_introl eq_refl) (lookup_insert_eq _ _ _)
               (same_but_links_set_prev _ _)).
    + reflexivity.
    + eexists. rewrite lookup_insert_eq. repeat split; reflexivity.
  - assert (Hlast : List.last (node :: r :: R) nullptr = List.last (r :: R) nullptr)
      by reflexivity.
    rewrite Hlast in Harc. clear Hlast.
    assert (Hl_in : In (List.last (r :: R) nullptr) (r :: R)) by apply last_In.
    remember (List.last (r :: R) nullptr) as lastR eqn:El.
    pose proof Harc as (nd & Hnode & Hprev & Hnext & Hrest).
    change (hd node (r :: R)) with r in Hnext.
    pose proof Hrest as (nn & Hnn & _).
    apply NoDup_cons_iff in HndR as HndR'. destruct HndR' as [Hr_notin _].
    pose proof (arc_set_prev _ _ lastR _ _ _ _ Hr_notin Hnn Hrest) as A1.
    destruct (arc_lookup _ _ _ _ _ A1 Hl_in) as [pn Hpn].
    assert (A2 : arc (<[lastR := set_next r pn]> (<[r := set_prev lastR nn]> (heap w)))
                   lastR (r :: R) r).
    { rewrite El in *.
      apply (arc_set_next _ _ _ node); [exact HndR|discriminate|exact Hpn|exact A1]. }
    assert (Hnr : node <> r) by (intros ->; apply Hnode_notin; left; reflexivity).
    assert (Hnl : node <> lastR) by (intros ->; apply Hnode_notin; exact Hl_in).
    assert (Hrn : (r =? node) = false) by (apply Z.eqb_neq; congruence).
    pose proof (arc_frame _ _ _ _ node (set_next nullptr nd) Hnode_notin A2) as A3.
    pose proof (arc_frame _ _ _ _ node (set_prev nullptr (set_next nullptr nd))
                  Hnode_notin A3) as A4.
    assert (Hring : forall h' ws',
              arc h' lastR (r :: R) r -> ws' = hd nullptr (pre ++ post) ->
              ring h' ws' (pre ++ post)).
    { intros h' ws' Ha Hw. split; [exact Hw|]. split; [|split].
      - intros Hin. apply Hnull. apply in_app_or in Hin. apply in_or_app.
        destruct Hin as [Hin|Hin]; [left; exact Hin|right; right; exact Hin].
      - apply NoDup_remove_1 in Hnd. exact Hnd.
      - apply arc_rotate. rewrite ER, <- El. exact Ha. }
    assert (Hre : forall p, In p (node :: r :: R) -> In p (pre ++ node :: post)).
    { intros p [<-|Hin]; [apply in_or_app; right; left; reflexivity|].
      rewrite <- ER in Hin. apply in_app_or in Hin. apply in_or_app.
      destruct Hin as [Hin|Hin]; [right; right; exact Hin|left; exact Hin]. }
    assert (Hin_r : In r (pre ++ node :: post))
      by (apply Hre; right; left; reflexivity).
    assert (Hin_l : In lastR (pre ++ node :: post))
      by (apply Hre; right; exact Hl_in).
    assert (Hin_n : In node (pre ++ node :: post))
      by (apply Hre; left; reflexivity).
    pose proof (rethreaded_insert _ _ _ _ _ (set_prev lastR nn)
                  (rethreaded_refl (pre ++ node :: post) (heap w)) Hin_r Hnn
                  (same_but_links_set_prev _ _)) as R1.
    pose proof (rethreaded_insert _ _ _ _ _ (set_next r pn) R1 Hin_l Hpn
                  (same_but_links_set_next _ _)) as R2.
    assert (Hn2 : <[lastR:=set_next r pn]> (<[r:=set_prev lastR nn]> (heap w)) !! node
                  = Some nd) by (rewrite !lookup_insert_ne by congruence; exact Hnode).
    pose proof (rethreaded_insert _ _ _ _ _ (set_next nullptr nd) R2 Hin_n Hn2
                  (same_but_links_set_next _ _)) as R3.
    pose proof (rethreaded_insert _ _ _ _ _ (set_prev nullptr (set_next nullptr nd))
                  R3 Hin_n (lookup_insert_eq _ _ _) (same_but_links_set_prev _ _)) as R4.
    clear Harc Hrest A1 A2 A3 R1 R2 R3 Hre.
    destruct pre as [|p pre].
    + simpl in Hws. rewrite app_nil_r in ER. subst post.
      repeat run.
      eexists. split; [reflexivity|]. simpl. split; [|split; [|split]].
      * apply Hring; [exact A4|reflexivity].
      * exact R4.
      * reflexivity.
      * eexists. rewrite lookup_insert_eq. repeat split; reflexivity.
    + simpl in Hws.
      assert (Hpn' : (p =? node) = false).
      { apply Z.eqb_neq. intros ->. simpl in Hnd. apply NoDup_cons_iff in Hnd.
        destruct Hnd as [Hnd _]. apply Hnd. apply in_or_app. right. left. reflexivity. }
      repeat run.
      eexists. split; [reflexivity|]. simpl. split; [|split; [|split]].
      * apply Hring; [exact A4|exact Hws].
      * exact R4.
      * reflexivity.
      * eexists. rewrite lookup_insert_eq. repeat split; reflexivity.
Qed.

Lemma DequeueWaiter_from_ring (w : World) (t : list Event) (L : list Z) :
  ring (heap w) (_WaitSet (mon w)) L ->
  returns DequeueWaiter
    (fun x e' =>
       x = hd nullptr L /\
       exists w', e' = alone w' t /\
         ring (heap w') (_WaitSet (mon w')) (tl L) /\
         rethreaded L (heap w) (heap w') /\
         same_but_WaitSet w w' /\
         (L <> [] -> exists nd', heap w' !! x = Some nd' /\
                                 _next nd' = nullptr /\ _prev nd' = nullptr))
    (alone w t).
Proof.
  intros Hring. unfold DequeueWaiter.
  destruct L as [|x L].
  - destruct Hring as (Hws & _). simpl in Hws. repeat run.
    split; [reflexivity|]. exists w. split; [reflexivity|]. split; [|split; [|split]].
    + split; [exact Hws|]. split; [intros []|]. split; [constructor|exact I].
    + apply rethreaded_refl.
    + reflexivity.
    + intros H. contradiction H. reflexivity.
  - pose proof Hring as (Hws & Hnull & _). simpl in Hws.
    assert (Hx : (x =? nullptr) = false).
    { apply Z.eqb_neq. intros ->. apply Hnull. left. reflexivity. }
    run. run. run. cbv beta. apply returns_bind.
    unfold when. rewrite Hx. simpl negb. cbv iota.
    eapply returns_mono.
    { apply (DequeueSpecificWaiter_from_ring w t [] x L). exact Hring. }
    intros [] e' (w' & -> & Hr & Hre & Hsame & Hnd). run.
    split; [reflexivity|]. exists w'. split; [reflexivity|].
    split; [exact Hr|]. split; [exact Hre|]. split; [exact Hsame|].
    intros _. exact Hnd.
Qed.

(** X13: with no other thread around, [AddWaiter] puts a waiter that is not
    in the WaitSet at its end: the ring of the waiters [L] becomes the ring
    of [L] followed by the new one.  Only links of waiters of the ring
    change, and nothing else in the world. *)
Theorem AddWaiter_appends_to_the_WaitSet
    (w : World) (t : list Event) (L : list Z) (node : Z) :
  ring (heap w) (_WaitSet (mon w)) L ->
  node <> nullptr -> ~ In node L -> is_Some (heap w !! node) ->
  exists w',
    AddWaiter node (alone w t) = Done tt (alone w' t) /\
    ring (heap w') (_WaitSet (mon w')) (L ++ [node]) /\
    rethreaded (L ++ [node]) (heap w) (heap w') /\
    same_but_WaitSet w w'.
Proof.
  intros Hring Hnode Hfresh [n Hn].
  destruct (returns_Done _ _ _ (AddWaiter_to_ring w t L node n Hring Hnode Hfresh Hn))
    as ([] & e' & Hrun & w' & -> & H).
  exists w'. split; [exact Hrun|exact H].
Qed.

Lemma ring_two_waiting : ring (heap two_waiting) (_WaitSet (mon two_waiting)) [300; 400].
Proof.
  split; [reflexivity|]. split; [|split].
  - intros [H|[H|[]]]; discriminate H.
  - repeat constructor; simpl; intuition discriminate.
  - simpl. eexists. split; [vm_compute; reflexivity|].
    split; [reflexivity|]. split; [reflexivity|].
    eexists. split; [vm_compute; reflexivity|]. repeat split; reflexivity.
Qed.

Lemma AddWaiter_appends_to_the_WaitSet_witness :
  exists w',
    AddWaiter 500 (alone two_waiting []) = Done tt (alone w' []) /\
    ring (heap w') (_WaitSet (mon w')) ([300; 400] ++ [500]) /\
    rethreaded ([300; 400] ++ [500]) (heap two_waiting) (heap w') /\
    same_but_WaitSet two_waiting w'.
Proof.
  apply (AddWaiter_appends_to_the_WaitSet two_waiting [] [300; 400] 500).
  - exact ring_two_waiting.
  - discriminate.
  - intros [H|[H|[]]]; discriminate H.
  - eexists. vm_compute. reflexivity.
Defined.

(** X14: with no other thread around, [DequeueSpecificWaiter] takes a waiter
    out of the WaitSet wherever it stands: the ring of [pre], the waiter and
    [post] becomes the ring of [pre] and [post], in the same order, an empty
    WaitSet if the waiter was alone.  The waiter is left with null links;
    only links of waiters of the ring change, and nothing else in the
    world. *)
Theorem DequeueSpecificWaiter_unlinks_the_waiter
    (w : World) (t : list Event) (pre : list Z) (node : Z) (post : list Z) :
  ring (heap w) (_WaitSet (mon w)) (pre ++ node :: post) ->
  exists w',
    DequeueSpecificWaiter node (alone w t) = Done tt (alone w' t) /\
    ring (heap w') (_WaitSet (mon w')) (pre ++ post) /\
    rethreaded (pre ++ node :: post) (heap w) (heap w') /\
    same_but_WaitSet w w' /\
    exists nd', heap w' !! node = Some nd' /\
                _next nd' = nullptr /\ _prev nd' = nullptr.
Proof.
  intros Hring.
  destruct (returns_Done _ _ _ (DequeueSpecificWaiter_from_ring w t pre node post Hring))
    as ([] & e' & Hrun & w' & -> & H).
  exists w'. split; [exact Hrun|exact H].
Qed.

Lemma DequeueSpecificWaiter_unlinks_the_waiter_witness :
  exists w',
    DequeueSpecificWaiter 400 (alone two_waiting []) = Done tt (alone w' []) /\
    ring (heap w') (_WaitSet (mon w')) ([300] ++ []) /\
    rethreaded ([300] ++ 400 :: []) (heap two_waiting) (heap w') /\
    same_but_WaitSet two_waiting w' /\
    exists nd', heap w' !! 400 = Some nd' /\
                _next nd' = nullptr /\ _prev nd' = nullptr.
Proof.
  apply (DequeueSpecificWaiter_unlinks_the_waiter two_waiting [] [300] 400 []).
  exact ring_two_waiting.
Defined.

(** X15: with no other thread around, [DequeueWaiter] answers the first
    waiter of the WaitSet, the one that has waited longest, and takes it out
    of the ring, which keeps the others in their order; on an empty WaitSet
    it answers null and changes nothing.  With [AddWaiter] adding at the
    end, waiters leave the WaitSet in the order they entered it. *)
Theorem DequeueWaiter_takes_the_first_waiter
    (w : World) (t : list Event) (L : list Z) :
  ring (heap w) (_WaitSet (mon w)) L ->
  exists w',
    DequeueWaiter (alone w t) = Done (hd nullptr L) (alone w' t) /\
    ring (heap w') (_WaitSet (mon w')) (tl L) /\
    rethreaded L (heap w) (heap w') /\
    same_but_WaitSet w w' /\
    (L = [] -> w' = w) /\
    (L <> [] -> exists nd', heap w' !! hd nullptr L = Some nd' /\
                            _next nd' = nullptr /\ _prev nd' = nullptr).
Proof.
  intros Hring.
  assert (H0 : L = [] -> DequeueWaiter (alone w t) = Done nullptr (alone w t)).
  { intros ->. destruct Hring as (Hws & _). simpl in Hws.
    apply returns_is. unfold DequeueWaiter. repeat run. split; reflexivity. }
  destruct (returns_Done _ _ _ (DequeueWaiter_from_ring w t L Hring))
    as (x & e' & Hrun & -> & w' & -> & Hr & Hre & Hsame & Hnd).
  exists w'. split; [exact Hrun|]. split; [exact Hr|]. split; [exact Hre|].
  split; [exact Hsame|]. split; [|exact Hnd].
  intros HL. specialize (H0 HL). rewrite H0 in Hrun. injection Hrun as _ E.
  symmetry. exact E.
Qed.

Lemma DequeueWaiter_takes_the_first_waiter_witness :
  exists w',
    DequeueWaiter (alone two_waiting []) = Done (hd nullptr [300; 400]) (alone w' []) /\
    ring (heap w') (_WaitSet (mon w')) (tl [300; 400]) /\
    rethreaded [300; 400] (heap two_waiting) (heap w') /\
    same_but_WaitSet two_waiting w' /\
    ([300; 400] = [] -> w' = two_waiting) /\
    ([300; 400] <> [] -> exists nd', heap w' !! hd nullptr [300; 400] = Some nd' /\
                                     _next nd' = nullptr /\ _prev nd' = nullptr).
Proof.
  apply (DequeueWaiter_takes_the_first_waiter two_waiting [] [300; 400]).
  exact ring_two_waiting.
Defined.

(** ** notifyAll: every waiter moves to the queues of the monitor *)

Lemma same_but_links_is n n' :
  same_but_links n n' -> n' = set_next (_next n') (set_prev (_prev n') n).
Proof.
  unfold same_but_links. destruct n, n'. simpl. intros H. injection H as <- <- <- <- <- <- <- <- <- <-.
  reflexivity.
Qed.

Lemma ring_frame h ws L p n :
  ~ In p L -> ring h ws L -> ring (<[p := n]> h) ws L.
Proof.
  intros Hp (Hws & Hnull & Hnd & Harc). repeat split; try assumption.
  apply arc_frame; assumption.
Qed.

Lemma same_but_WaitSet_is (w w' : World) :
  same_but_WaitSet w w' ->
  w' = upd_heap (fun _ => heap w') (upd_mon (set_WaitSet (_WaitSet (mon w'))) w).
Proof.
  unfold same_but_WaitSet. destruct w as [m h s v mk tp], w' as [m' h' s' v' mk' tp'].
  destruct m, m'. unfold upd_heap, upd_mon. simpl. intros H.
  injection H as <- <- <- <- <- <- <- <- <- <- <- <- <- <- <- <- <-. reflexivity.
Qed.

Lemma INotify_from_ring (cfg : Config) (current : Z) (fuel : nat) (w : World) (t : list Event)
    (x : Z) (L : list Z) (nd : ObjectWaiter) :
  (0 < fuel)%nat ->
  _WaitSetLock (mon w) = 0 ->
  ring (heap w) (_WaitSet (mon w)) (x :: L) ->
  heap w !! x = Some nd -> waits nd ->
  returns (INotify cfg fuel current)
    (fun _ e' =>
       exists w' h1 nd',
         e' = alone w' (t ++ (if _EntryList (mon w) =? nullptr then []
                              else [EvCasCxq (_cxq (mon w)) x (_cxq (mon w))])) /\
         same_but_queues w w' /\
         ring (heap w') (_WaitSet (mon w')) L /\
         rethreaded (x :: L) (heap w) h1 /\
         heap w' = <[x := nd']> h1 /\
         notified_by cfg current nd nd' /\
         if _EntryList (mon w) =? nullptr then
           _EntryList (mon w') = x /\ _cxq (mon w') = _cxq (mon w) /\
           TState nd' = TS_ENTER /\ _next nd' = nullptr /\ _prev nd' = nullptr
         else
           _EntryList (mon w') = _EntryList (mon w) /\ _cxq (mon w') = x /\
           TState nd' = TS_CXQ /\ _next nd' = _cxq (mon w))
    (alone w t).
Proof.
  intros Hfuel Hlock Hring Hnd (Hst & Hnt & Hvt).
  destruct fuel as [|k]; [lia|clear Hfuel].
  unfold INotify, SpinAcquire, SpinRelease, wait_reenter_begin.
  run. apply returns_loop_once.
  repeat run.
  eapply returns_mono.
  { apply (DequeueWaiter_from_ring _ t (x :: L)). simpl. exact Hring. }
  intros it e1 (-> & w1 & -> & Hring1 & Hre & Hsame & Hnd1).
  destruct (Hnd1 ltac:(discriminate)) as (nd1 & Hnd1' & Hnx1 & Hpv1). clear Hnd1.
  simpl in Hnd1', Hring1.
  assert (Hnd1_is : nd1 = set_next nullptr (set_prev nullptr nd)).
  { specialize (Hre x). simpl in Hre. rewrite Hnd, Hnd1' in Hre. destruct Hre as [Hs _].
    rewrite (same_but_links_is _ _ Hs), Hnx1, Hpv1. reflexivity. }
  pose proof (same_but_WaitSet_is _ _ Hsame) as Hw1.
  pose proof Hring1 as (Hws1 & _). rewrite Hws1 in Hw1.
  pose proof Hring as (_ & Hnull & _).
  assert (Hx : (x =? nullptr) = false).
  { apply Z.eqb_neq. intros ->. apply Hnull. left. reflexivity. }
  change (hd nullptr (x :: L)) with x.
  remember (heap w1) as h1 eqn:Eh1. rewrite Hw1. clear Hw1.
  subst nd1.
  destruct w as [m h s v mk tp]. simpl in *.
  unfold upd_heap, upd_mon. simpl.
  run. unfold when at 1. rewrite Hx. simpl negb. cbv iota.
  repeat run.
  change (is_vthread (set_next 0 (set_prev 0 nd))) with (is_vthread nd).
  rewrite Hvt. cbv iota. run.
  repeat run.
  pose proof (eq_refl : (_EntryList m =? nullptr) = (_EntryList m =? 0)) as Hel'.
  destruct (_EntryList m =? 0) eqn:Hel.
  - repeat run.
    lazymatch goal with
    | |- context [is_vthread ?n] => change (is_vthread n) with (is_vthread nd)
    end.
    rewrite Hvt. cbn [negb]. repeat run.
    eexists _, h1, _. split; [rewrite Hel', !insert_insert_eq, app_nil_r; reflexivity|].
    simpl. rewrite Hel'. split; [|split; [|split; [|split; [|split]]]].
    + unfold same_but_queues, upd_heap, upd_mon. simpl. destruct m. simpl in *. subst.
      reflexivity.
    + apply ring_frame; [|rewrite <- Hws1; exact Hring1].
      destruct Hring as (_ & _ & Hnd' & _). apply NoDup_cons_iff in Hnd'. tauto.
    + exact Hre.
    + reflexivity.
    + unfold notified_by. destruct nd. reflexivity.
    + repeat split; reflexivity.
  - repeat run.
    lazymatch goal with
    | |- context [is_vthread ?n] => change (is_vthread n) with (is_vthread nd)
    end.
    rewrite Hvt. cbn [negb]. repeat run.
    eexists _, h1, _. split; [rewrite Hel', !insert_insert_eq; reflexivity|].
    simpl. rewrite Hel'. split; [|split; [|split; [|split; [|split]]]].
    + unfold same_but_queues, upd_heap, upd_mon. simpl. destruct m. simpl in *. subst.
      reflexivity.
    + apply ring_frame; [|rewrite <- Hws1; exact Hring1].
      destruct Hring as (_ & _ & Hnd' & _). apply NoDup_cons_iff in Hnd'. tauto.
    + exact Hre.
    + reflexivity.
    + unfold notified_by. destruct nd. reflexivity.
    + repeat split; reflexivity.
Qed.

Lemma rethreaded_out L h h' p : rethreaded L h h' -> ~ In p L -> h' !! p = h !! p.
Proof.
  intros H Hp. specialize (H p).
  destruct (h !! p), (h' !! p); try contradiction; [|reflexivity].
  destruct H as [_ H]. rewrite (H Hp). reflexivity.
Qed.

Lemma rethreaded_in L h h' p n :
  rethreaded L h h' -> h !! p = Some n ->
  exists n', h' !! p = Some n' /\ same_but_links n n'.
Proof.
  intros H Hn. specialize (H p). rewrite Hn in H.
  destruct (h' !! p) as [n'|]; [|contradiction]. exists n'. tauto.
Qed.

Lemma waits_relinked n n' : same_but_links n n' -> waits n -> waits n'.
Proof.
  intros H. rewrite (same_but_links_is _ _ H). unfold waits. destruct n. simpl. tauto.
Qed.

Lemma notified_by_relinked cfg current n n1 n' :
  same_but_links n n1 -> notified_by cfg current n1 n' -> notified_by cfg current n n'.
Proof.
  intros H. rewrite (same_but_links_is _ _ H). unfold notified_by.
  destruct n. simpl. intros E. rewrite E at 1. reflexivity.
Qed.

Lemma stacked_app h st A : forall p q B r,
  stacked h st p A q -> stacked h st q B r -> stacked h st p (A ++ B) r.
Proof.
  induction A as [|x A IH]; intros p q B r HA HB; simpl in *.
  - subst. exact HB.
  - destruct HA as (-> & n & Hn & Hst & HA). split; [reflexivity|].
    exists n. repeat split; try assumption. eapply IH; eassumption.
Qed.

Lemma same_but_queues_refl w : same_but_queues w w.
Proof. unfold same_but_queues. destruct w as [m h s v mk tp]. destruct m. reflexivity. Qed.

Lemma same_but_queues_trans w1 w2 w3 :
  same_but_queues w1 w2 -> same_but_queues w2 w3 -> same_but_queues w1 w3.
Proof.
  unfold same_but_queues. intros H12 H23. rewrite H23 at 1. rewrite H12 at 1.
  destruct w1 as [m h s v mk tp]. destruct m. reflexivity.
Qed.

Lemma same_but_queues_WaitSetLock w w' :
  same_but_queues w w' -> _WaitSetLock (mon w') = _WaitSetLock (mon w).
Proof. unfold same_but_queues. intros ->. reflexivity. Qed.

Lemma same_but_queues_owner w w' :
  same_but_queues w w' -> _owner (mon w') = _owner (mon w).
Proof. unfold same_but_queues. intros ->. reflexivity. Qed.

Section NotifyAll.
Variable cfg : Config.
Variable current : Z.
Variable fuel0 : nat.
Hypothesis Hfuel0 : (0 < fuel0)%nat.

Lemma notifyAll_loop_cxq : forall (L : list Z) (n : nat) (w : World) (t : list Event),
  (length L < n)%nat ->
  _WaitSetLock (mon w) = 0 ->
  _EntryList (mon w) <> nullptr ->
  ring (heap w) (_WaitSet (mon w)) L ->
  (forall p, In p L -> exists nd, heap w !! p = Some nd /\ waits nd) ->
  returns
    (loop n (fun _ : unit =>
       do ws <- load _WaitSet ;
       if ws =? nullptr then ret (inr tt) else
       do _ <- INotify cfg fuel0 current ;
       ret (inl tt)) tt)
    (fun _ e' =>
       exists w' ext,
         e' = alone w' (t ++ ext) /\ Forall pushes ext /\
         same_but_queues w w' /\
         _WaitSet (mon w') = nullptr /\
         _EntryList (mon w') = _EntryList (mon w) /\
         (forall p, ~ In p L -> heap w' !! p = heap w !! p) /\
         (forall p nd, In p L -> heap w !! p = Some nd ->
            exists nd', heap w' !! p = Some nd' /\ notified_by cfg current nd nd') /\
         stacked (heap w') TS_CXQ (_cxq (mon w')) (rev L) (_cxq (mon w)))
    (alone w t).
Proof.
  induction L as [|x L IH]; intros n w t Hn Hlock Hel Hring Hwaits.
  - destruct n as [|n]; [simpl in Hn; lia|].
    destruct Hring as (Hws & _). simpl in Hws.
    apply returns_loop_once. repeat run.
    exists w, []. rewrite app_nil_r. split; [reflexivity|]. split; [constructor|].
    split; [apply same_but_queues_refl|]. split; [exact Hws|]. split; [reflexivity|].
    split; [reflexivity|]. split; [intros p nd []|reflexivity].
  - destruct n as [|n]; [simpl in Hn; lia|].
    pose proof Hring as (Hws & Hnull & Hnd & _). simpl in Hws.
    assert (Hx : (x =? nullptr) = false).
    { apply Z.eqb_neq. intros ->. apply Hnull. left. reflexivity. }
    assert (Hel' : (_EntryList (mon w) =? nullptr) = false) by (apply Z.eqb_neq; exact Hel).
    apply NoDup_cons_iff in Hnd. destruct Hnd as [Hx_notin HndL].
    destruct (Hwaits x (or_introl eq_refl)) as (nd & Hndx & Hw).
    apply returns_loop_once. run. run. run. cbv beta. rewrite Hx. cbv iota.
    apply returns_bind. eapply returns_mono.
    { apply (INotify_from_ring cfg current fuel0 w t x L nd Hfuel0 Hlock Hring Hndx Hw). }
    intros [] e1 (w1 & h1 & nd' & -> & Hsame & Hring1 & Hre & Hheap1 & Hnb & Hq).
    rewrite Hel' in Hq. destruct Hq as (Hel1 & Hcx1 & Hst1 & Hnx1).
    rewrite Hel'. run.
    eapply returns_mono.
    { apply (IH n w1 (t ++ [EvCasCxq (_cxq (mon w)) x (_cxq (mon w))])).
      - simpl in Hn. lia.
      - rewrite (same_but_queues_WaitSetLock _ _ Hsame). exact Hlock.
      - rewrite Hel1. exact Hel.
      - exact Hring1.
      - intros p Hp.
        destruct (Hwaits p (or_intror Hp)) as (n0 & Hn0 & Hw0).
        destruct (rethreaded_in _ _ _ _ _ Hre Hn0) as (n1 & Hn1 & Hs1).
        exists n1. split; [|exact (waits_relinked _ _ Hs1 Hw0)].
        rewrite Hheap1, lookup_insert_ne; [exact Hn1|]. intros ->. contradiction. }
    intros [] e2 (w' & ext & -> & Hext & Hsame' & Hws' & Hel2 & Hout & Hin & Hstack).
    assert (Hx' : heap w' !! x = Some nd').
    { rewrite (Hout x Hx_notin), Hheap1. apply lookup_insert_eq. }
    exists w', (EvCasCxq (_cxq (mon w)) x (_cxq (mon w)) :: ext).
    split; [rewrite <- app_assoc; reflexivity|].
    split; [constructor; [reflexivity|exact Hext]|].
    split; [exact (same_but_queues_trans _ _ _ Hsame Hsame')|].
    split; [exact Hws'|]. split; [rewrite Hel2; exact Hel1|].
    split; [|split].
    + intros p Hp.
      assert (Hp' : ~ In p L) by (intros H; apply Hp; right; exact H).
      assert (Hpx : x <> p) by (intros ->; apply Hp; left; reflexivity).
      rewrite (Hout p Hp'), Hheap1, lookup_insert_ne by exact Hpx.
      apply (rethreaded_out _ _ _ _ Hre Hp).
    + intros p n0 [<-|Hp] Hn0.
      * rewrite Hndx in Hn0. injection Hn0 as <-. exists nd'. split; assumption.
      * destruct (rethreaded_in _ _ _ _ _ Hre Hn0) as (n1 & Hn1 & Hs1).
        assert (Hn1' : heap w1 !! p = Some n1).
        { rewrite Hheap1, lookup_insert_ne; [exact Hn1|]. intros ->. contradiction. }
        destruct (Hin p n1 Hp Hn1') as (n' & Hn' & Hnb').
        exists n'. split; [exact Hn'|]. exact (notified_by_relinked _ _ _ _ _ Hs1 Hnb').
    + simpl rev. rewrite Hcx1 in Hstack. eapply stacked_app; [exact Hstack|].
      simpl. split; [reflexivity|]. exists nd'. repeat split; assumption.
Qed.

End NotifyAll.

Lemma notifyAll_returns (cfg : Config) (fuel : nat) (current : Z) (w : World) (t : list Event)
    (L : list Z) :
  _owner (mon w) = owner_for current ->
  _WaitSetLock (mon w) = 0 ->
  ring (heap w) (_WaitSet (mon w)) L ->
  (forall p, In p L -> exists nd, heap w !! p = Some nd /\ waits nd) ->
  (length L < fuel)%nat ->
  returns (notifyAll cfg fuel current)
    (fun _ e' =>
       exists w' ext,
         e' = alone w' (t ++ ext) /\ Forall pushes ext /\
         same_but_queues w w' /\
         _WaitSet (mon w') = nullptr /\
         (forall p, ~ In p L -> heap w' !! p = heap w !! p) /\
         (forall p nd, In p L -> heap w !! p = Some nd ->
            exists nd', heap w' !! p = Some nd' /\ notified_by cfg current nd nd') /\
         if _EntryList (mon w) =? nullptr then
           _EntryList (mon w') = hd nullptr L /\
           (L <> [] -> exists nd', heap w' !! hd nullptr L = Some nd' /\
                         TState nd' = TS_ENTER /\
                         _next nd' = nullptr /\ _prev nd' = nullptr) /\
           stacked (heap w') TS_CXQ (_cxq (mon w')) (rev (tl L)) (_cxq (mon w))
         else
           _EntryList (mon w') = _EntryList (mon w) /\
           stacked (heap w') TS_CXQ (_cxq (mon w')) (rev L) (_cxq (mon w)))
    (alone w t).
Proof.
  intros Ho Hlock Hring Hwaits Hfuel.
  unfold notifyAll, check_owner.
  destruct L as [|x L].
  - destruct Hring as (Hws & _). simpl in Hws. repeat run.
    exists w, []. rewrite app_nil_r. split; [reflexivity|]. split; [constructor|].
    split; [apply same_but_queues_refl|]. split; [exact Hws|]. split; [reflexivity|].
    split; [intros p nd []|].
    destruct (_EntryList (mon w) =? nullptr) eqn:Hel.
    + split; [apply Z.eqb_eq in Hel; exact Hel|].
      split; [intros H; contradiction H; reflexivity|reflexivity].
    + split; reflexivity.
  - pose proof Hring as (Hws & Hnull & Hnd & _). simpl in Hws.
    assert (Hx0 : x <> nullptr) by (intros ->; apply Hnull; left; reflexivity).
    assert (Hx : (x =? nullptr) = false) by (apply Z.eqb_neq; exact Hx0).
    assert (Hx' : (x =? 0) = false) by exact Hx.
    repeat run.
    destruct (Z.eqb_spec (_EntryList (mon w)) nullptr) as [Hel|Hel].
    + destruct fuel as [|n]; [simpl in Hfuel; lia|].
      apply NoDup_cons_iff in Hnd. destruct Hnd as [Hx_notin HndL].
      destruct (Hwaits x (or_introl eq_refl)) as (nd & Hndx & Hw).
      assert (Hel' : (_EntryList (mon w) =? nullptr) = true) by (apply Z.eqb_eq; exact Hel).
      apply returns_loop_once. repeat run.
      eapply returns_mono.
      { apply (INotify_from_ring cfg current (S n) w t x L nd ltac:(lia) Hlock Hring Hndx Hw). }
      intros [] e1 (w1 & h1 & nd' & -> & Hsame & Hring1 & Hre & Hheap1 & Hnb & Hq).
      rewrite Hel' in Hq. destruct Hq as (Hel1 & Hcx1 & Hst1 & Hnx1 & Hpv1).
      rewrite Hel', app_nil_r. run.
      eapply returns_mono.
      { apply (notifyAll_loop_cxq cfg current (S n) ltac:(lia) L n w1 t).
        - simpl in Hfuel. lia.
        - rewrite (same_but_queues_WaitSetLock _ _ Hsame). exact Hlock.
        - rewrite Hel1. exact Hx0.
        - exact Hring1.
        - intros p Hp.
          destruct (Hwaits p (or_intror Hp)) as (n0 & Hn0 & Hw0).
          destruct (rethreaded_in _ _ _ _ _ Hre Hn0) as (n1 & Hn1 & Hs1).
          exists n1. split; [|exact (waits_relinked _ _ Hs1 Hw0)].
          rewrite Hheap1, lookup_insert_ne; [exact Hn1|]. intros ->. contradiction. }
      intros [] e2 (w' & ext & -> & Hext & Hsame' & Hws' & Hel2 & Hout & Hin & Hstack).
      assert (Hx'' : heap w' !! x = Some nd').
      { rewrite (Hout x Hx_notin), Hheap1. apply lookup_insert_eq. }
      exists w', ext. split; [reflexivity|]. split; [exact Hext|].
      split; [exact (same_but_queues_trans _ _ _ Hsame Hsame')|].
      split; [exact Hws'|]. split; [|split; [|split; [|split]]].
      * intros p Hp.
        assert (Hp' : ~ In p L) by (intros H; apply Hp; right; exact H).
        assert (Hpx : x <> p) by (intros ->; apply Hp; left; reflexivity).
        rewrite (Hout p Hp'), Hheap1, lookup_insert_ne by exact Hpx.
        apply (rethreaded_out _ _ _ _ Hre Hp).
      * intros p n0 [<-|Hp] Hn0.
        -- rewrite Hndx in Hn0. injection Hn0 as <-. exists nd'. split; assumption.
        -- destruct (rethreaded_in _ _ _ _ _ Hre Hn0) as (n1 & Hn1 & Hs1).
           assert (Hn1' : heap w1 !! p = Some n1).
           { rewrite Hheap1, lookup_insert_ne; [exact Hn1|]. intros ->. contradiction. }
           destruct (Hin p n1 Hp Hn1') as (n' & Hn' & Hnb').
           exists n'. split; [exact Hn'|]. exact (notified_by_relinked _ _ _ _ _ Hs1 Hnb').
      * rewrite Hel2. exact Hel1.
      * intros _. exists nd'. repeat split; assumption.
      * simpl tl. rewrite <- Hcx1. exact Hstack.
    + assert (Hel' : (_EntryList (mon w) =? nullptr) = false) by (apply Z.eqb_neq; exact Hel).
      eapply returns_mono.
      { apply (notifyAll_loop_cxq cfg current fuel ltac:(lia) (x :: L) fuel w t);
          assumption. }
      intros [] e2 (w' & ext & -> & Hext & Hsame' & Hws' & Hel2 & Hout & Hin & Hstack).
      exists w', ext. split; [reflexivity|]. split; [exact Hext|].
      split; [exact Hsame'|]. split; [exact Hws'|]. split; [exact Hout|].
      split; [exact Hin|]. split; [exact Hel2|exact Hstack].
Qed.

(** X16: the owner calls [notifyAll] with no other thread around, platform
    threads waiting, none notified yet.  [notifyAll] returns with the
    WaitSet empty and every waiter notified by the caller, [_active] holding
    what the thread service answered for its thread.  If the EntryList
    was empty the waiter that waited longest is now alone on it, in state
    [TS_ENTER] with null links, and the others are on the cxq; otherwise all
    are on the cxq and the EntryList is as it was.  On the cxq they are in
    state [TS_CXQ], the one that waited longest at the bottom, above what
    the cxq held.  Nothing else changes: the monitor is still held, nobody
    is woken, the only events are the compare-and-swaps that push on the
    cxq. *)
Theorem notifyAll_moves_every_waiter
    (cfg : Config) (fuel : nat) (current : Z) (w : World) (t : list Event) (L : list Z) :
  _owner (mon w) = owner_for current ->
  _WaitSetLock (mon w) = 0 ->
  ring (heap w) (_WaitSet (mon w)) L ->
  (forall p, In p L -> exists nd, heap w !! p = Some nd /\ waits nd) ->
  (length L < fuel)%nat ->
  exists w' ext,
    notifyAll cfg fuel current (alone w t) = Done tt (alone w' (t ++ ext)) /\
    Forall pushes ext /\
    same_but_queues w w' /\
    _WaitSet (mon w') = nullptr /\
    (forall p, ~ In p L -> heap w' !! p = heap w !! p) /\
    (forall p nd, In p L -> heap w !! p = Some nd ->
       exists nd', heap w' !! p = Some nd' /\ notified_by cfg current nd nd') /\
    if _EntryList (mon w) =? nullptr then
      _EntryList (mon w') = hd nullptr L /\
      (L <> [] -> exists nd', heap w' !! hd nullptr L = Some nd' /\
                    TState nd' = TS_ENTER /\
                    _next nd' = nullptr /\ _prev nd' = nullptr) /\
      stacked (heap w') TS_CXQ (_cxq (mon w')) (rev (tl L)) (_cxq (mon w))
    else
      _EntryList (mon w') = _EntryList (mon w) /\
      stacked (heap w') TS_CXQ (_cxq (mon w')) (rev L) (_cxq (mon w)).
Proof.
  intros Ho Hlock Hring Hwaits Hfuel.
  destruct (returns_Done _ _ _
              (notifyAll_returns cfg fuel current w t L Ho Hlock Hring Hwaits Hfuel))
    as ([] & e' & Hrun & w' & ext & -> & H).
  exists w', ext. split; [exact Hrun|exact H].
Qed.

Lemma notifyAll_moves_every_waiter_witness :
  exists w' ext,
    notifyAll (config false) 3 1 (alone two_waiting []) = Done tt (alone w' ([] ++ ext)) /\
    Forall pushes ext /\
    same_but_queues two_waiting w' /\
    _WaitSet (mon w') = nullptr /\
    (forall p, ~ In p [300; 400] -> heap w' !! p = heap two_waiting !! p) /\
    (forall p nd, In p [300; 400] -> heap two_waiting !! p = Some nd ->
       exists nd', heap w' !! p = Some nd' /\ notified_by (config false) 1 nd nd') /\
    if _EntryList (mon two_waiting) =? nullptr then
      _EntryList (mon w') = hd nullptr [300; 400] /\
      ([300; 400] <> [] -> exists nd', heap w' !! hd nullptr [300; 400] = Some nd' /\
                    TState nd' = TS_ENTER /\
                    _next nd' = nullptr /\ _prev nd' = nullptr) /\
      stacked (heap w') TS_CXQ (_cxq (mon w')) (rev (tl [300; 400]))
        (_cxq (mon two_waiting))
    else
      _EntryList (mon w') = _EntryList (mon two_waiting) /\
      stacked (heap w') TS_CXQ (_cxq (mon w')) (rev [300; 400]) (_cxq (mon two_waiting)).
Proof.
  apply (notifyAll_moves_every_waiter (config false) 3 1 two_waiting [] [300; 400]).
  - reflexivity.
  - reflexivity.
  - exact ring_two_waiting.
  - intros p [<-|[<-|[]]]; eexists; (split; [vm_compute; reflexivity|]);
      repeat split; reflexivity.
  - simpl. lia.
Defined.

(** ** enter_for *)

Lemma int_add_exact (a b : Z) : in_int (a + b) -> int_add a b = a + b.
Proof.
  unfold in_int, int_add, wrap, INT_MIN, INT_MAX. intros H.
  rewrite Z.mod_small; lia.
Qed.

Lemma enter_for_runs (cfg : Config) (t : Z) (w : World) :
  INT_MIN <= _contentions (mon w) -> _contentions (mon w) + 2 <= INT_MAX ->
  exists tr,
    enter_for cfg t (quiet w) =
    Done (enterable_for t (mon w))
         (alone (if enterable_for t (mon w) then upd_mon (entered_for t) w
                 else turned_away cfg w) tr).
Proof.
  destruct w as [m h s v mk tp].
  destruct m as [hdr obj own ptid rec el cx sc resp sd cnt ws wt wsl].
  unfold enterable_for, entered_for, turned_away, quiet, alone. simpl.
  intros Hlo Hhi.
  unfold enter_for, install_displaced_markword_in_object.
  autounfold with prims. unfold load, store, atomic, bind, ret, interfere, when, guarantee.
  unfold nullptr.
  set (ia := int_add).
  assert (E1 : ia cnt 1 = cnt + 1)
    by (apply int_add_exact; unfold in_int, INT_MIN, INT_MAX in *; lia).
  assert (E2 : ia (cnt + 1) (-1) = cnt)
    by (unfold ia; rewrite int_add_exact; unfold in_int, INT_MIN, INT_MAX in *; lia).
  assert (E3 : ia (cnt + 1) 1 = cnt + 2)
    by (unfold ia; rewrite int_add_exact; unfold in_int, INT_MIN, INT_MAX in *; lia).
  assert (E4 : ia (cnt + 2) (-1) = cnt + 1)
    by (unfold ia; rewrite int_add_exact; unfold in_int, INT_MIN, INT_MAX in *; lia).
  clearbody ia.
  unfold upd_mon, set_mark. simpl. rewrite E1.
  destruct (cnt + 1 <? 0) eqn:Hd; simpl.
  - destruct (obj =? 0) eqn:Ho; [|destruct (mk =? encode_this cfg) eqn:Hm].
    all: repeat first [rewrite E1 | rewrite E2 | rewrite Ho | rewrite Hm | progress simpl].
    all: eexists; reflexivity.
  - destruct own as [|o|a|]; simpl.
    2: unfold owner_for;
       destruct (decide (OwnerThread o = OwnerThread t)) as [E|E];
       [rewrite bool_decide_eq_true_2 by exact E
       |rewrite bool_decide_eq_false_2 by exact E].
    all: repeat first [rewrite E1 | rewrite E2 | rewrite E3 | rewrite E4 | rewrite Hd
                      | progress simpl].
    all: eexists; reflexivity.
Qed.

(** X17: with no other thread around and [_contentions] away from the ends
    of its range, [enter_for] always returns.  It answers true exactly when
    the monitor is not deflated and is free, held by the locking thread
    already, or claimed by a deflater that has not committed; the locking
    thread then owns the monitor, one level deeper if it did already, and
    [_contentions] is as before, or one up if a deflation was cancelled.
    When it answers false the monitor is as before, and the mark word of a
    live object that pointed to a deflated monitor holds the displaced
    header again. *)
Theorem enter_for_alone (cfg : Config) (t : Z) (w : World) :
  INT_MIN <= _contentions (mon w) -> _contentions (mon w) + 2 <= INT_MAX ->
  exists tr,
    enter_for cfg t (quiet w) =
    Done (enterable_for t (mon w))
         (alone (if enterable_for t (mon w) then upd_mon (entered_for t) w
                 else turned_away cfg w) tr).
Proof. exact (enter_for_runs cfg t w). Qed.

Lemma enter_for_alone_witness :
  exists tr,
    enter_for (config false) 3 (quiet (world_of (monitor_of DEFLATER_MARKER) platform_thread)) =
    Done (enterable_for 3 (mon (world_of (monitor_of DEFLATER_MARKER) platform_thread)))
         (alone (if enterable_for 3
                      (mon (world_of (monitor_of DEFLATER_MARKER) platform_thread))
                 then upd_mon (entered_for 3)
                        (world_of (monitor_of DEFLATER_MARKER) platform_thread)
                 else turned_away (config false)
                        (world_of (monitor_of DEFLATER_MARKER) platform_thread)) tr).
Proof.
  apply (enter_for_alone (config false) 3
           (world_of (monitor_of DEFLATER_MARKER) platform_thread));
    vm_compute; discriminate.
Defined.

(** ** deflate_monitor against enter_for *)

Lemma entering_is (cfg : Config) (t : Z) (w : World) :
  INT_MIN <= _contentions (mon w) -> _contentions (mon w) + 2 <= INT_MAX ->
  entering cfg t w =
  if enterable_for t (mon w) then upd_mon (entered_for t) w else turned_away cfg w.
Proof.
  intros Hlo Hhi. unfold entering.
  destruct (enter_for_runs cfg t w Hlo Hhi) as [tr ->]. reflexivity.
Qed.

Lemma entering_free (cfg : Config) (t : Z) (w : World) :
  _owner (mon w) = NoOwner -> _contentions (mon w) = 0 ->
  entering cfg t w = upd_mon (set_owner (owner_for t)) w.
Proof.
  intros Ho Hc. rewrite entering_is by (rewrite Hc; unfold INT_MIN, INT_MAX; lia).
  unfold enterable_for, entered_for. rewrite Ho, Hc. simpl.
  destruct w as [m h s v mk tp]. simpl in *. unfold upd_mon. simpl. rewrite Ho. reflexivity.
Qed.

Lemma entering_claimed (cfg : Config) (t : Z) (w : World) :
  _owner (mon w) = DEFLATER_MARKER -> _contentions (mon w) = 0 ->
  entering cfg t w =
  upd_mon (fun m => set_contentions 1 (set_owner (owner_for t) m)) w.
Proof.
  intros Ho Hc. rewrite entering_is by (rewrite Hc; unfold INT_MIN, INT_MAX; lia).
  unfold enterable_for, entered_for. rewrite Ho, Hc. simpl.
  destruct w as [m h s v mk tp]. simpl in *. unfold upd_mon. simpl. rewrite Ho, Hc.
  reflexivity.
Qed.

Lemma entering_deflated (cfg : Config) (t : Z) (w : World) :
  _contentions (mon w) = INT_MIN ->
  entering cfg t w =
  if negb (_object (mon w) =? 0) && (mark w =? encode_this cfg)
  then set_mark (_header (mon w)) w else w.
Proof.
  intros Hc. rewrite entering_is by (rewrite Hc; unfold INT_MIN, INT_MAX; lia).
  unfold enterable_for, turned_away. rewrite Hc. reflexivity.
Qed.

(** One step of the deflater, thread [t] being entered for meanwhile. *)
Ltac contest :=
  lazymatch goal with
  | |- returns (atomic _ _) _ _ =>
      eapply returns_atomic_at;
      [ unfold interfere; cbn [env world tail];
        first [ rewrite entering_free by reflexivity
              | rewrite entering_claimed by reflexivity
              | rewrite entering_deflated by reflexivity
              | idtac ];
        unfold owner_for; simpl;
        repeat match goal with
               | H : (_ =? _) = _ |- _ => rewrite H; simpl
               end;
        reflexivity
      | cbv beta;
        lazymatch goal with
        | |- returns ?m ?Q ?e =>
            let e' := eval simpl in e in change (returns m Q e')
        | |- _ => idtac
        end ]
  | |- returns (if decide ?P then _ else _) _ _ =>
      let Hd := fresh "Hd" in
      destruct (decide P) as [Hd|Hd];
      [ try (exfalso; first [congruence | apply Hd; congruence])
      | try (exfalso; first [congruence | apply Hd; congruence]) ]
  | |- _ => race
  end.

Ltac contest_case :=
  unfold entered_after, deflate_monitor, is_busy, restore_owner_after_lost_race,
    install_displaced_markword_in_object;
  simpl repeat; simpl app; unfold owner_for;
  repeat contest;
  split; intros Hb;
  first [ discriminate Hb
        | unfold deflate, nullptr; simpl;
          repeat match goal with
                 | H : (_ =? _) = _ |- _ => rewrite H; simpl
                 end;
          repeat match goal with
                 | |- context [if ?b then _ else _] => destruct b
                 end;
          repeat split; reflexivity ].

(** X18: a monitor is idle and its object alive when the deflater starts,
    and the whole of [enter_for] for a thread runs at any one moment of the
    call.  Then [deflate_monitor] returns, and exactly one of the two has
    the monitor: either the deflater answers false and the world is as it
    was but for the thread owning the monitor, [_contentions] back at 0 even
    where the thread had to cancel the deflation; or it answers true and
    leaves the world as a deflation alone would have. *)
Theorem deflate_monitor_against_enter_for (cfg : Config) (t : Z) (w : World) (n : nat) :
  _waiters (mon w) = 0 -> _cxq (mon w) = nullptr -> _EntryList (mon w) = nullptr ->
  _contentions (mon w) = 0 -> _owner (mon w) = NoOwner -> _object (mon w) <> nullptr ->
  exists b e',
    deflate_monitor cfg (entered_after cfg t n w) = Done b e' /\
    (b = false -> world e' = upd_mon (set_owner (owner_for t)) w /\ env e' = []) /\
    (b = true -> world e' = deflate cfg w).
Proof.
  destruct w as [m h s v mk tp].
  destruct m as [hdr obj own ptid rec el cx sc resp sd cnt ws wt wsl]. simpl.
  intros -> -> -> -> -> Hobj.
  assert (Ho : (obj =? 0) = false) by (apply Z.eqb_neq; exact Hobj).
  lazymatch goal with
  | |- exists b e', deflate_monitor cfg (entered_after cfg t n ?w0) = _ /\ _ =>
      cut (returns (deflate_monitor cfg)
             (fun b e' =>
                (b = false ->
                 world e' = upd_mon (set_owner (owner_for t)) w0 /\ env e' = []) /\
                (b = true -> world e' = deflate cfg w0))
             (entered_after cfg t n w0))
  end.
  { intros H. apply returns_Done in H. destruct H as (b & e' & E & H).
    exists b, e'. split; [exact E|exact H]. }
  destruct (mk =? encode_this cfg) eqn:Hm.
  all: do 18 (destruct n as [|n]; [solve [contest_case]|]).
  all: solve [contest_case].
Qed.

Lemma deflate_monitor_against_enter_for_witness :
  exists b e',
    deflate_monitor (config false)
      (entered_after (config false) 3 7
         (world_of (monitor_of NoOwner) platform_thread)) = Done b e' /\
    (b = false ->
     world e' = upd_mon (set_owner (owner_for 3))
                  (world_of (monitor_of NoOwner) platform_thread) /\
     env e' = []) /\
    (b = true ->
     world e' = deflate (config false) (world_of (monitor_of NoOwner) platform_thread)).
Proof.
  apply (deflate_monitor_against_enter_for (config false) 3
           (world_of (monitor_of NoOwner) platform_thread) 7);
    first [reflexivity | discriminate].
Defined.

(** ** complete_exit *)

(** X19: with no other thread around, [complete_exit] by the owner of a
    monitor whose queues are empty, or that has a successor, releases the
    monitor whatever the depth it was held at, where [exit] would only have
    counted the depth down, and answers that depth.  The monitor is left
    with [_recursions] at 0 and the owner slot clear; the legacy
    stack-locking branch plays no part. *)
Theorem complete_exit_releases_at_any_depth
    (cfg : Config) (LM_LEGACY : bool) (is_stack_locker : Z -> M bool)
    (set_owner_from_BasicLock : Z -> M unit)
    (fuel : nat) (current : Z) (w : World) :
  (0 < fuel)%nat ->
  _owner (mon w) = owner_for current ->
  (_EntryList (mon w) = nullptr /\ _cxq (mon w) = nullptr) \/ _succ (mon w) <> nullptr ->
  complete_exit cfg LM_LEGACY is_stack_locker set_owner_from_BasicLock fuel current
    (quiet w) =
  Done (_recursions (mon w))
       (alone (upd_mon (fun m => set_owner NoOwner
                                   (leaving cfg current true (set_recursions 0 m))) w)
              [EvClearOwner]).
Proof.
  intros Hfuel Ho Hq. destruct fuel as [|k]; [lia|clear Hfuel].
  destruct w as [m h s v mk tp]. simpl in *.
  apply returns_is. unfold complete_exit, quiet.
  change {| world := ?w; env := []; trace := [] |} with (alone w []).
  unfold owner_for in *.
  repeat run.
  eapply returns_mono.
  { apply (exit_releases cfg current h s v mk tp k true (set_recursions 0 m) []);
      [exact Ho|reflexivity|exact Hq]. }
  intros [] e' ->. cbv beta.
  repeat run.
  split; reflexivity.
Qed.

Lemma complete_exit_releases_at_any_depth_witness :
  complete_exit (config false) true (fun _ => ret true) (fun _ => ret tt) 1 1
    (quiet (world_of (set_recursions 5 (monitor_of (OwnerThread 1))) platform_thread)) =
  Done (_recursions (mon (world_of (set_recursions 5 (monitor_of (OwnerThread 1)))
                            platform_thread)))
       (alone (upd_mon (fun m => set_owner NoOwner
                                   (leaving (config false) 1 true (set_recursions 0 m)))
                 (world_of (set_recursions 5 (monitor_of (OwnerThread 1))) platform_thread))
              [EvClearOwner]).
Proof.
  apply (complete_exit_releases_at_any_depth (config false) true
           (fun _ => ret true) (fun _ => ret tt) 1 1
           (world_of (set_recursions 5 (monitor_of (OwnerThread 1))) platform_thread)).
  - lia.
  - reflexivity.
  - left. split; reflexivity.
Defined.

Lemma not_entered_for_interfere (current : Z) (e : Exec) :
  env_ok (not_entered_for current) e ->
  _owner (mon (world e)) <> owner_for current ->
  _owner (mon (interfere e)) <> owner_for current.
Proof.
  intros He Ho. unfold interfere, env_ok in *.
  destruct (env e) as [|g gs]; [exact Ho|].
  inversion He as [|? ? Hg _]. apply Hg, Ho.
Qed.

(** X20: outside legacy stack-locking, and as long as no other thread makes
    the caller the owner, [complete_exit] called by a thread that does not
    own the monitor stops the VM on its guarantee, where [exit] just
    returns: it writes nothing before that. *)
Theorem complete_exit_by_a_stranger_stops_the_VM
    (cfg : Config) (is_stack_locker : Z -> M bool)
    (set_owner_from_BasicLock : Z -> M unit)
    (fuel : nat) (current : Z) (e : Exec) :
  env_ok (not_entered_for current) e ->
  _owner (mon (world e)) <> owner_for current ->
  complete_exit cfg false is_stack_locker set_owner_from_BasicLock fuel current e =
  Fatal "complete_exit not owner".
Proof.
  intros He Ho.
  pose proof (not_entered_for_interfere current e He Ho) as H1.
  set (e1 := {| world := interfere e; env := tail (env e); trace := trace e |}).
  assert (He1 : env_ok (not_entered_for current) e1) by (apply env_ok_tail, He).
  pose proof (not_entered_for_interfere current e1 He1 H1) as H2.
  unfold complete_exit, owner_raw, load, bind, atomic, ret, when, guarantee, fatal.
  simpl.
  destruct (decide (owner_for current <> _owner (mon (interfere e)))) as [_|Hn].
  - simpl. fold e1.
    rewrite bool_decide_eq_false_2; [reflexivity|].
    intros E. apply H2. symmetry. exact E.
  - exfalso. apply Hn. intros E. apply H1. symmetry. exact E.
Qed.

Lemma complete_exit_by_a_stranger_stops_the_VM_witness :
  complete_exit (config false) false (fun _ => ret true) (fun _ => ret tt) 1 2
    late_arrival = Fatal "complete_exit not owner".
Proof.
  apply (complete_exit_by_a_stranger_stops_the_VM (config false)
           (fun _ => ret true) (fun _ => ret tt) 1 2 late_arrival).
  - unfold env_ok, late_arrival. simpl.
    repeat (apply List.Forall_cons; [intros w H; exact H|]).
    apply List.Forall_cons; [|apply List.Forall_nil].
    intros w H. unfold arrive. destruct (_ && _); exact H.
  - discriminate.
Defined.

(** ** UnlinkAfterAcquire *)

Lemma linked_arc h t : forall L q,
  linked h q L t <->
  arc h q L t /\ forall p, In p L -> exists n, h !! p = Some n /\ TState n = TS_ENTER.
Proof.
  induction L as [|x L IH]; intros q; simpl.
  - split; [intros _; split; [exact I|intros p []]|intros _; exact I].
  - split.
    + intros (n & Hn & Hs & Hq & Hnx & H). apply IH in H. destruct H as [Ha Hst]. split.
      * exists n. repeat split; assumption.
      * intros p [<-|Hp]; [exists n; split; assumption|apply Hst, Hp].
    + intros [(n & Hn & Hq & Hnx & Ha) Hst].
      destruct (Hst x (or_introl eq_refl)) as (n' & Hn' & Hs).
      rewrite Hn in Hn'. injection Hn' as <-.
      exists n. repeat split; try assumption.
      apply IH. split; [exact Ha|]. intros p Hp. apply Hst. right. exact Hp.
Qed.

Lemma rethreaded_states (L L' : list Z) h h' :
  rethreaded L h h' ->
  (forall p, In p L' -> exists n, h !! p = Some n /\ TState n = TS_ENTER) ->
  forall p, In p L' -> exists n, h' !! p = Some n /\ TState n = TS_ENTER.
Proof.
  intros Hre Hst p Hp. destruct (Hst p Hp) as (n & Hn & Hs).
  specialize (Hre p). rewrite Hn in Hre.
  destruct (h' !! p) as [n'|]; [|contradiction]. destruct Hre as [Hl _].
  exists n'. split; [reflexivity|].
  unfold same_but_links in Hl. destruct n, n'. simpl in *. injection Hl as -> -> -> -> ->.
  congruence.
Qed.

Lemma UnlinkAfterAcquire_from_EntryList (fuel : nat) (current : Z) (w : World)
    (t : list Event) (pre : list Z) (node : Z) (post : list Z) :
  entry_list (heap w) (_EntryList (mon w)) (pre ++ node :: post) ->
  returns (UnlinkAfterAcquire fuel current node)
    (fun _ e' =>
       exists h',
         e' = alone (upd_heap (fun _ => h')
                       (upd_mon (set_EntryList (hd nullptr (pre ++ post))) w)) t /\
         entry_list h' (hd nullptr (pre ++ post)) (pre ++ post) /\
         rethreaded (pre ++ post) (heap w) h')
    (alone w t).
Proof.
  intros (Hel & Hnull & Hnd & Hlinked).
  apply linked_arc in Hlinked. destruct Hlinked as [Harc Hst].
  apply arc_app in Harc. destruct Harc as [Hpre Hrest].
  change (hd nullptr (node :: post)) with node in Hpre.
  destruct (Hst node ltac:(apply in_or_app; right; left; reflexivity)) as (nd & Hnode & Hts).
  pose proof Hrest as (nd0 & Hnode0 & Hprev & Hnext & Hpost).
  rewrite Hnode in Hnode0. injection Hnode0 as <-.
  assert (Hnd_pre : List.NoDup pre) by (apply NoDup_app_remove_r in Hnd; exact Hnd).
  assert (Hnd_post : List.NoDup post).
  { apply NoDup_app_remove_l in Hnd. apply NoDup_cons_iff in Hnd. tauto. }
  assert (Hdisj : forall p, In p pre -> ~ In p (node :: post)).
  { intros p Hp Hq. clear - Hnd Hp Hq. induction pre as [|a pre IH]; [contradiction|].
    simpl in Hnd. apply NoDup_cons_iff in Hnd. destruct Hnd as [Ha Hnd].
    destruct Hp as [<-|Hp]; [apply Ha, in_or_app; right; exact Hq|exact (IH Hnd Hp)]. }
  assert (Hnode_post : ~ In node post).
  { apply NoDup_app_remove_l in Hnd. apply NoDup_cons_iff in Hnd. tauto. }
  assert (Hstates : forall h', rethreaded (pre ++ post) (heap w) h' ->
            forall p, In p (pre ++ post) ->
              exists n, h' !! p = Some n /\ TState n = TS_ENTER).
  { intros h' Hre. apply (rethreaded_states _ _ _ _ Hre).
    intros p Hp. apply Hst. apply in_app_or in Hp. apply in_or_app.
    destruct Hp as [Hp|Hp]; [left; exact Hp|right; right; exact Hp]. }
  assert (Hnull' : ~ In nullptr (pre ++ post)).
  { intros Hp. apply Hnull. apply in_app_or in Hp. apply in_or_app.
    destruct Hp as [Hp|Hp]; [left; exact Hp|right; right; exact Hp]. }
  assert (Hnd' : List.NoDup (pre ++ post)) by (apply NoDup_remove_1 in Hnd; exact Hnd).
  assert (Hfinal : forall h',
            arc h' nullptr pre (hd nullptr post) ->
            arc h' (List.last pre nullptr) post nullptr ->
            rethreaded (pre ++ post) (heap w) h' ->
            entry_list h' (hd nullptr (pre ++ post)) (pre ++ post)).
  { intros h' H1 H2 Hre. split; [reflexivity|]. split; [exact Hnull'|].
    split; [exact Hnd'|]. apply linked_arc. split; [|exact (Hstates h' Hre)].
    apply arc_app. split; assumption. }
  destruct w as [m h s v mk tp].
  destruct m as [hdr obj own ptid rec el cx sc resp sd cnt ws wt wsl].
  simpl in *. subst el.
  unfold UnlinkAfterAcquire, upd_heap, upd_mon. simpl.
  destruct post as [|x post]; destruct pre as [|p0 pre].
  - simpl in *. repeat run. exists h. split; [reflexivity|].
    split; [apply Hfinal; [exact I|exact I|apply rethreaded_refl]|apply rethreaded_refl].
  - assert (Hin : In (List.last (p0 :: pre) nullptr) (p0 :: pre)) by apply last_In.
    remember (List.last (p0 :: pre) nullptr) as prv eqn:Eprv.
    assert (Hprv0 : (prv =? 0) = false).
    { apply Z.eqb_neq. intros ->. apply Hnull. apply in_or_app. left. exact Hin. }
    destruct (arc_lookup _ _ _ _ _ Hpre Hin) as [pn Hpn].
    assert (Hp0 : (node =? p0) = false).
    { apply Z.eqb_neq. intros ->. apply (Hdisj p0); left; reflexivity. }
    simpl in Hnext.
    pose proof (arc_set_next h (p0 :: pre) nullptr node nullptr pn
                  Hnd_pre ltac:(discriminate)) as B1.
    rewrite <- Eprv in B1. specialize (B1 Hpn Hpre).
    clear Eprv.
    repeat run.
    eexists. split; [reflexivity|].
    assert (Hre : rethreaded ((p0 :: pre) ++ []) h (<[prv:=set_next 0 pn]> h)).
    { apply (rethreaded_insert _ _ _ _ pn); [apply rethreaded_refl| |exact Hpn|reflexivity].
      apply in_or_app. left. exact Hin. }
    split; [|exact Hre].
    apply Hfinal; [exact B1|exact I|exact Hre].
  - simpl in *.
    destruct Hpost as (nx & Hnx & _).
    assert (Hx0 : (x =? 0) = false).
    { apply Z.eqb_neq. intros ->. apply Hnull. right. left. reflexivity. }
    apply NoDup_cons_iff in Hnd_post as Hx_post. destruct Hx_post as [Hx_post _].
    repeat run.
    eexists. split; [reflexivity|].
    assert (Hre : rethreaded (x :: post) h (<[x:=set_prev 0 nx]> h)).
    { apply (rethreaded_insert _ _ _ _ nx);
        [apply rethreaded_refl|left; reflexivity|exact Hnx|reflexivity]. }
    split; [|exact Hre].
    apply (Hfinal _ I); [|exact Hre].
    destruct Hrest as (_ & _ & _ & _ & Hpost').
    apply (arc_set_prev _ node); assumption.
  - assert (Hin : In (List.last (p0 :: pre) nullptr) (p0 :: pre)) by apply last_In.
    remember (List.last (p0 :: pre) nullptr) as prv eqn:Eprv.
    assert (Hprv0 : (prv =? 0) = false).
    { apply Z.eqb_neq. intros ->. apply Hnull. apply in_or_app. left. exact Hin. }
    assert (Hx0 : (x =? 0) = false).
    { apply Z.eqb_neq. intros ->. apply Hnull. apply in_or_app. right. right. left.
      reflexivity. }
    assert (Hp0 : (node =? p0) = false).
    { apply Z.eqb_neq. intros ->. apply (Hdisj p0); left; reflexivity. }
    pose proof Hpost as (nx & Hnx & _).
    apply NoDup_cons_iff in Hnd_post as Hx_post. destruct Hx_post as [Hx_post _].
    simpl in Hnext.
    assert (A1 : arc (<[x:=set_prev prv nx]> h) prv (x :: post) nullptr)
      by (apply (arc_set_prev _ node); assumption).
    assert (Hx_pre : ~ In x (p0 :: pre)).
    { intros Hp. apply (Hdisj x Hp). right. left. reflexivity. }
    assert (B0 : arc (<[x:=set_prev prv nx]> h) nullptr (p0 :: pre) node)
      by (apply arc_frame; assumption).
    destruct (arc_lookup _ _ _ _ _ B0 Hin) as [pn Hpn].
    pose proof (arc_set_next (<[x:=set_prev prv nx]> h) (p0 :: pre) nullptr node x pn
                  Hnd_pre ltac:(discriminate)) as B1.
    rewrite <- Eprv in B1. specialize (B1 Hpn B0).
    assert (A2 : arc (<[prv:=set_next x pn]> (<[x:=set_prev prv nx]> h)) prv
                   (x :: post) nullptr).
    { apply arc_frame; [|exact A1]. intros Hp. apply (Hdisj prv Hin). right. exact Hp. }
    assert (Hxprv : x <> prv) by (intros ->; contradiction).
    pose proof Hpn as Hpn0. rewrite lookup_insert_ne in Hpn0 by exact Hxprv.
    clear Eprv.
    repeat run.
    eexists. split; [reflexivity|].
    assert (Hre : rethreaded ((p0 :: pre) ++ x :: post) h
                    (<[prv:=set_next x pn]> (<[x:=set_prev prv nx]> h))).
    { apply (rethreaded_insert _ _ _ _ pn); [| |exact Hpn|reflexivity].
      - apply (rethreaded_insert _ _ _ _ nx);
          [apply rethreaded_refl| |exact Hnx|reflexivity].
        apply in_or_app. right. left. reflexivity.
      - apply in_or_app. left. exact Hin. }
    split; [|exact Hre].
    apply Hfinal; [exact B1|exact A2|exact Hre].
Qed.

Lemma chain_unlink h st node post : forall pre p pn,
  chain h st p (pre ++ node :: post) -> pre <> [] ->
  h !! List.last pre nullptr = Some pn ->
  chain (<[List.last pre nullptr := set_next (hd nullptr post) pn]> h) st p (pre ++ post).
Proof.
  induction pre as [|a pre IH]; intros p pn H Hne Hpn; [contradiction|].
  pose proof (chain_NoDup _ _ _ _ H) as Hnd.
  change ((a :: pre) ++ node :: post) with (a :: (pre ++ node :: post)) in *.
  apply NoDup_cons_iff in Hnd. destruct Hnd as [Ha Hnd].
  simpl in H. destruct H as (-> & Ha0 & n & Hn & Hs & H).
  destruct pre as [|b pre].
  - simpl in *. rewrite Hn in Hpn. injection Hpn as <-.
    destruct H as (Hnx & Hnode0 & nd & Hnd0 & Hsn & Hpost).
    split; [reflexivity|]. split; [exact Ha0|].
    exists (set_next (hd nullptr post) n). rewrite lookup_insert_eq.
    split; [reflexivity|]. split; [exact Hs|]. simpl.
    rewrite <- (chain_head _ _ _ _ Hpost).
    apply chain_insert; [|exact Hpost]. intros Hin. apply Ha. right. exact Hin.
  - assert (Hl : List.last (a :: b :: pre) nullptr = List.last (b :: pre) nullptr)
      by reflexivity.
    rewrite Hl in *.
    assert (Hin : In (List.last (b :: pre) nullptr) (b :: pre)) by apply last_In.
    split; [reflexivity|]. split; [exact Ha0|].
    exists n. split; [|split; [exact Hs|]].
    + rewrite lookup_insert_ne; [exact Hn|]. intros E. apply Ha. rewrite <- E.
      apply in_or_app. left. exact Hin.
    + apply IH; [exact H|discriminate|exact Hpn].
Qed.

Lemma scan_to_node (w : World) (t : list Event) (node : Z) (post : list Z) :
  forall (S : list Z) (p q : Z) (fuel : nat),
  chain (heap w) TS_CXQ p (S ++ node :: post) ->
  (length S < fuel)%nat ->
  returns
    (loop fuel (fun '(p, q) =>
       if negb (p =? nullptr) && negb (p =? node) then
         do nx <- node_load p _next ; ret (inl (nx, p))
       else ret (inr (p, q))) (p, q))
    (fun r e' => r = (node, List.last S q) /\ e' = alone w t)
    (alone w t).
Proof.
  induction S as [|a S IH]; intros p q fuel H Hfuel.
  - destruct fuel as [|k]; [simpl in Hfuel; lia|].
    simpl in H. destruct H as (-> & Hnode & _).
    apply returns_loop_once. rewrite Z.eqb_refl, andb_false_r. cbv iota.
    apply returns_ret. split; reflexivity.
  - destruct fuel as [|k]; [simpl in Hfuel; lia|].
    pose proof (chain_NoDup _ _ _ _ H) as Hnd.
    change ((a :: S) ++ node :: post) with (a :: (S ++ node :: post)) in *.
    apply NoDup_cons_iff in Hnd. destruct Hnd as [Ha _].
    simpl in H. destruct H as (-> & Ha0 & n & Hn & _ & H).
    assert (E0 : (a =? nullptr) = false) by (apply Z.eqb_neq; exact Ha0).
    assert (E1 : (a =? node) = false).
    { apply Z.eqb_neq. intros ->. apply Ha. apply in_or_app. right. left. reflexivity. }
    apply returns_loop_once. rewrite E0, E1. simpl negb. cbv iota beta.
    repeat run. cbv beta iota.
    assert (Hk : (length S < k)%nat) by (simpl in Hfuel; lia).
    refine (returns_mono _ _ _ _ (IH (_next n) a k H Hk) _).
    intros r e' [-> ->]. split; [|reflexivity].
    f_equal. destruct S as [|b S]; [reflexivity|].
    change (List.last (a :: b :: S) q) with (List.last (b :: S) q).
    apply last_default.
Qed.

Lemma chain_member h st x : forall L p,
  chain h st p L -> In x L -> exists n, h !! x = Some n.
Proof.
  induction L as [|a L IH]; intros p H Hin; [destruct Hin|].
  simpl in H. destruct H as (_ & _ & n & Hn & _ & H).
  destruct Hin as [<-|Hin]; [exists n; exact Hn|].
  exact (IH _ H Hin).
Qed.

Lemma UnlinkAfterAcquire_from_cxq (fuel : nat) (current : Z) (w : World)
    (t : list Event) (pre : list Z) (node : Z) (post : list Z) :
  chain (heap w) TS_CXQ (_cxq (mon w)) (pre ++ node :: post) ->
  (length pre < fuel)%nat ->
  returns (UnlinkAfterAcquire fuel current node)
    (fun _ e' =>
       exists h',
         e' = alone (upd_heap (fun _ => h')
                       (upd_mon (set_cxq (hd nullptr (pre ++ post))) w))
                (t ++ match pre with
                      | [] => [EvCasCxq node (hd nullptr post) node]
                      | _ => []
                      end) /\
         chain h' TS_CXQ (hd nullptr (pre ++ post)) (pre ++ post) /\
         rethreaded pre (heap w) h')
    (alone w t).
Proof.
  intros Hchain Hfuel.
  pose proof (chain_NoDup _ _ _ _ Hchain) as Hnd.
  pose proof (chain_from_member _ _ _ _ _ _ Hchain) as Hnode.
  simpl in Hnode. destruct Hnode as (_ & Hnode0 & nd & Hnd0 & Hts & Hpost).
  pose proof (chain_head _ _ _ _ Hpost) as Hnext.
  pose proof (chain_head _ _ _ _ Hchain) as Hcx.
  destruct w as [m h s v mk tp].
  destruct m as [hdr obj own ptid rec el cx sc resp sd cnt ws wt wsl].
  simpl in *. subst cx.
  unfold UnlinkAfterAcquire, upd_heap, upd_mon. simpl.
  destruct pre as [|p0 pre].
  - simpl in *. repeat run.
    exists h. split; [reflexivity|].
    split; [rewrite <- Hnext; exact Hpost|apply rethreaded_refl].
  - assert (Hp0 : (p0 =? node) = false).
    { apply Z.eqb_neq. intros ->. simpl in Hnd. apply NoDup_cons_iff in Hnd.
      destruct Hnd as [Hnd _]. apply Hnd. apply in_or_app. right. left. reflexivity. }
    assert (Hlast : exists pn, h !! List.last (p0 :: pre) nullptr = Some pn).
    { apply (chain_member _ _ _ _ _ Hchain). apply in_or_app. left. apply last_In. }
    destruct Hlast as [pn Hpn].
    assert (Hlastnode : List.last (p0 :: pre) nullptr <> node).
    { intros E. pose proof (last_In pre p0 nullptr) as Hin. rewrite E in Hin.
      change (List.NoDup ((p0 :: pre) ++ node :: post)) in Hnd.
      apply List.NoDup_remove_2 in Hnd.
      apply Hnd. apply in_or_app. left. exact Hin. }
    pose proof (chain_unlink _ _ _ _ _ _ _ Hchain ltac:(discriminate) Hpn) as Hun.
    simpl hd in *.
    repeat run.
    lazymatch goal with
    | |- returns _ _ (alone ?w0 ?t0) =>
        refine (returns_mono _ _ _ _
                  (scan_to_node w0 t0 node post (p0 :: pre) p0 nullptr fuel Hchain Hfuel) _)
    end.
    intros r e' [-> ->]. cbv beta iota.
    pose proof (last_In pre p0 nullptr) as Hin.
    set (lp := List.last (p0 :: pre) nullptr) in *.
    repeat run.
    exists (<[lp := set_next (hd nullptr post) pn]> h).
    split; [unfold upd_heap, record, set_cxq; simpl; rewrite ?app_nil_r; reflexivity|].
    split; [exact Hun|].
    apply (rethreaded_insert _ _ _ _ pn); auto using rethreaded_refl, same_but_links_set_next.
Qed.

(** X21: [UnlinkAfterAcquire] of a waiter that is on the EntryList takes
    exactly that waiter out: the EntryList is afterwards the old one without
    it, in the same order and again doubly linked between two nulls, its
    head moved on when the waiter was the first.  Only the links of the
    waiters that stay are written, nothing else of the monitor changes and
    no event is emitted. *)
Theorem UnlinkAfterAcquire_unlinks_from_the_EntryList
    (fuel : nat) (current : Z) (w : World) (t : list Event)
    (pre : list Z) (node : Z) (post : list Z) :
  entry_list (heap w) (_EntryList (mon w)) (pre ++ node :: post) ->
  exists h',
    UnlinkAfterAcquire fuel current node (alone w t) =
      Done tt (alone (upd_heap (fun _ => h')
                        (upd_mon (set_EntryList (hd nullptr (pre ++ post))) w)) t) /\
    entry_list h' (hd nullptr (pre ++ post)) (pre ++ post) /\
    rethreaded (pre ++ post) (heap w) h'.
Proof.
  intros H.
  destruct (returns_Done _ _ _
              (UnlinkAfterAcquire_from_EntryList fuel current w t pre node post H))
    as ([] & e' & Hrun & h' & -> & H').
  exists h'. split; [exact Hrun|exact H'].
Qed.

Lemma UnlinkAfterAcquire_unlinks_from_the_EntryList_witness :
  exists h',
    UnlinkAfterAcquire 0 4 200 (alone three_entering []) =
      Done tt (alone (upd_heap (fun _ => h')
                        (upd_mon (set_EntryList (hd nullptr ([100] ++ [300])))
                           three_entering)) []) /\
    entry_list h' (hd nullptr ([100] ++ [300])) ([100] ++ [300]) /\
    rethreaded ([100] ++ [300]) (heap three_entering) h'.
Proof.
  apply (UnlinkAfterAcquire_unlinks_from_the_EntryList 0 4 three_entering [] [100] 200 [300]).
  split; [reflexivity|]. split; [|split].
  - intros [H|[H|[H|[]]]]; discriminate H.
  - repeat constructor; simpl; intuition discriminate.
  - simpl. eexists. split; [vm_compute; reflexivity|].
    split; [reflexivity|]. split; [reflexivity|]. split; [reflexivity|].
    eexists. split; [vm_compute; reflexivity|].
    split; [reflexivity|]. split; [reflexivity|]. split; [reflexivity|].
    eexists. split; [vm_compute; reflexivity|]. repeat split; reflexivity.
Defined.

(** X22: [UnlinkAfterAcquire] of a waiter that is still on the cxq takes
    exactly that waiter out: the cxq is afterwards the old one without it, in
    the same order.  When the waiter is the head, one compare-and-swap moves
    [_cxq] to its successor; otherwise the scan from the head finds its
    predecessor, whose [_next] is set to skip it, and [_cxq] stays.  Only
    waiters in front of it are written. *)
Theorem UnlinkAfterAcquire_unlinks_from_the_cxq
    (fuel : nat) (current : Z) (w : World) (t : list Event)
    (pre : list Z) (node : Z) (post : list Z) :
  chain (heap w) TS_CXQ (_cxq (mon w)) (pre ++ node :: post) ->
  (length pre < fuel)%nat ->
  exists h',
    UnlinkAfterAcquire fuel current node (alone w t) =
      Done tt (alone (upd_heap (fun _ => h')
                        (upd_mon (set_cxq (hd nullptr (pre ++ post))) w))
                 (t ++ match pre with
                       | [] => [EvCasCxq node (hd nullptr post) node]
                       | _ => []
                       end)) /\
    chain h' TS_CXQ (hd nullptr (pre ++ post)) (pre ++ post) /\
    rethreaded pre (heap w) h'.
Proof.
  intros H Hfuel.
  destruct (returns_Done _ _ _
              (UnlinkAfterAcquire_from_cxq fuel current w t pre node post H Hfuel))
    as ([] & e' & Hrun & h' & -> & H').
  exists h'. split; [exact Hrun|exact H'].
Qed.

Lemma UnlinkAfterAcquire_unlinks_from_the_cxq_witness :
  exists h',
    UnlinkAfterAcquire 2 3 100 (alone two_on_cxq []) =
      Done tt (alone (upd_heap (fun _ => h')
                        (upd_mon (set_cxq (hd nullptr ([200] ++ []))) two_on_cxq))
                 ([] ++ [])) /\
    chain h' TS_CXQ (hd nullptr ([200] ++ [])) ([200] ++ []) /\
    rethreaded [200] (heap two_on_cxq) h'.
Proof.
  apply (UnlinkAfterAcquire_unlinks_from_the_cxq 2 3 two_on_cxq [] [200] 100 []).
  - simpl. split; [reflexivity|]. split; [discriminate|].
    eexists. split; [vm_compute; reflexivity|]. split; [reflexivity|].
    split; [reflexivity|]. split; [discriminate|].
    eexists. split; [vm_compute; reflexivity|]. repeat split; reflexivity.
  - simpl. lia.
Defined.

(** ** ExitOnSuspend *)

(** X23: [ExitOnSuspend], run once [EnterI] has taken the monitor, gives the
    monitor up again exactly when the thread has been suspended meanwhile.
    With no other thread around and nobody queued, a suspended owner leaves
    the monitor free, with [_recursions] and [_succ] cleared and no previous
    owner recorded for JFR, notes the monitor as pending and answers true;
    a thread that is not suspended keeps the monitor, writes nothing and
    answers false. *)
Theorem ExitOnSuspend_releases_iff_suspended
    (cfg : Config) (fuel : nat) (current : Z) (w : World) :
  (0 < fuel)%nat ->
  _owner (mon w) = owner_for current ->
  _EntryList (mon w) = nullptr -> _cxq (mon w) = nullptr ->
  ExitOnSuspend cfg fuel current (quiet w) =
  if suspended (self w) then
    Done true
      (alone (upd_self (set_current_pending_monitor true)
                (upd_mon (fun m => set_owner NoOwner
                                     (set_Responsible nullptr
                                        (set_succ nullptr (set_recursions 0 m)))) w))
             [EvClearOwner])
  else Done false (quiet w).
Proof.
  intros Hfuel Ho Hel Hcx. destruct fuel as [|k]; [lia|clear Hfuel].
  destruct w as [m h s v mk tp]. simpl in *.
  destruct (suspended s) eqn:Hs.
  - apply returns_is. unfold ExitOnSuspend, quiet.
    change {| world := ?w; env := []; trace := [] |} with (alone w []).
    repeat run.
    eapply returns_mono.
    { apply (exit_releases cfg current h s v mk tp k false
               (set_succ nullptr (set_recursions 0 m)) []);
        [exact Ho|reflexivity|left; split; assumption]. }
    intros [] e' ->. cbv beta.
    repeat run.
    split; [reflexivity|].
    unfold leaving. rewrite andb_false_r. reflexivity.
  - unfold ExitOnSuspend, is_suspended, bind, atomic, ret, quiet. simpl.
    rewrite Hs. reflexivity.
Qed.

Lemma ExitOnSuspend_releases_iff_suspended_witness :
  ExitOnSuspend (config false) 1 1
    (quiet (world_of (set_recursions 2 (monitor_of (OwnerThread 1)))
              suspended_thread)) =
  if suspended (self (world_of (set_recursions 2 (monitor_of (OwnerThread 1)))
                        suspended_thread)) then
    Done true
      (alone (upd_self (set_current_pending_monitor true)
                (upd_mon (fun m => set_owner NoOwner
                                     (set_Responsible nullptr
                                        (set_succ nullptr (set_recursions 0 m))))
                   (world_of (set_recursions 2 (monitor_of (OwnerThread 1)))
                      suspended_thread)))
             [EvClearOwner])
  else Done false
         (quiet (world_of (set_recursions 2 (monitor_of (OwnerThread 1)))
                   suspended_thread)).
Proof.
  apply (ExitOnSuspend_releases_iff_suspended (config false) 1 1
           (world_of (set_recursions 2 (monitor_of (OwnerThread 1)))
              suspended_thread)).
  - lia.
  - reflexivity.
  - reflexivity.
  - reflexivity.
Defined.

(** ** enter: OWNED, RETRY, and the queued virtual thread *)

(** ** enter: what puts the caller in the owner slot *)

Lemma entered_for_interfere (current : Z) (e : Exec) :
  env_ok (not_entered_for current) e ->
  _owner (mon (interfere e)) = owner_for current ->
  _owner (mon (world e)) = owner_for current.
Proof.
  intros He Ho. destruct (decide (_owner (mon (world e)) = owner_for current)) as [E|E];
    [exact E|].
  exfalso. exact (not_entered_for_interfere current e He E Ho).
Qed.

Lemma unowned_unless_taken_atomic (current : Z) (t0 : list Event) {A}
    (f : World -> option (A * World)) (ev : A -> list Event) :
  (forall w a w', f w = Some (a, w') -> _owner (mon w') = owner_for current ->
     _owner (mon w) = owner_for current \/ Exists (takes current) (ev a)) ->
  preserves (unowned_unless_taken current t0) (atomic f ev).
Proof.
  intros Hf e (He & ext & Ht & Hown). apply wp_atomic. intros a w' E.
  split; [apply env_ok_tail, He|]. simpl.
  exists (ext ++ ev a). split; [rewrite record_app, Ht, app_assoc; reflexivity|].
  intros Ho. apply Exists_app.
  destruct (Hf _ _ _ E Ho) as [Hw|Hev]; [left|right; exact Hev].
  apply Hown. apply entered_for_interfere; assumption.
Qed.

Lemma unowned_unless_taken_local (current : Z) (t0 : list Event) {A}
    (f : World -> A * World) (ev : A -> list Event) :
  (forall w a w', f w = (a, w') -> _owner (mon w') = owner_for current ->
     _owner (mon w) = owner_for current \/ Exists (takes current) (ev a)) ->
  preserves (unowned_unless_taken current t0) (local f ev).
Proof.
  intros Hf e (He & ext & Ht & Hown). apply wp_local. intros a w' E.
  split; [exact He|]. simpl.
  exists (ext ++ ev a). split; [rewrite record_app, Ht, app_assoc; reflexivity|].
  intros Ho. apply Exists_app.
  destruct (Hf _ _ _ E Ho) as [Hw|Hev]; [left; apply Hown, Hw|right; exact Hev].
Qed.

(** An access leaves the owner slot as it is, or leaves the event that
    tells it has put [current] there. *)
Ltac slot_kept :=
  let Hf := fresh "Hf" in let Ho := fresh "Ho" in
  intros ? ? ? Hf Ho; inv_step Hf;
  repeat match goal with
         | H : context [if ?b then _ else _] |- _ => destruct b eqn:?
         | |- context [if ?b then _ else _] => destruct b eqn:?
         end;
  simpl in *;
  first [ left; assumption
        | left; congruence
        | discriminate
        | right; repeat constructor; simpl; auto; congruence ].

Create HintDb untaken.

Ltac untaken :=
  repeat first
    [ assumption
    | apply preserves_ret
    | apply preserves_bind; [|intros ?]
    | apply preserves_when
    | apply preserves_guarantee
    | apply preserves_loop; intros ?
    | apply unowned_unless_taken_atomic; slot_kept
    | apply unowned_unless_taken_local; slot_kept
    | solve [eauto with untaken]
    | match goal with
      | |- preserves _ (if ?b then _ else _) => destruct b
      | |- preserves _ (match ?x with _ => _ end) => destruct x
      end
    | progress cbv beta
    | progress autounfold with prims ].

Section Untaken.
Variable cfg : Config.
Variable current : Z.
Variable t0 : list Event.

Lemma TryLock_untaken : preserves (unowned_unless_taken current t0) (TryLock current).
Proof. unfold TryLock. untaken. Qed.
#[local] Hint Resolve TryLock_untaken : untaken.

Lemma short_fixed_spin_loop_untaken adapt n :
  preserves (unowned_unless_taken current t0) (short_fixed_spin_loop cfg current adapt n).
Proof. induction n as [|n IH]; simpl; untaken. Qed.
#[local] Hint Resolve short_fixed_spin_loop_untaken : untaken.

Lemma TrySpin_loop_untaken n : forall ctr prv,
  preserves (unowned_unless_taken current t0) (TrySpin_loop cfg current n ctr prv).
Proof. induction n as [|n IH]; intros ctr prv; simpl; untaken. Qed.
#[local] Hint Resolve TrySpin_loop_untaken : untaken.

Lemma TrySpin_untaken : preserves (unowned_unless_taken current t0) (TrySpin cfg current).
Proof. unfold TrySpin, short_fixed_spin. untaken. Qed.
#[local] Hint Resolve TrySpin_untaken : untaken.

Lemma UnlinkAfterAcquire_untaken fuel node :
  preserves (unowned_unless_taken current t0) (UnlinkAfterAcquire fuel current node).
Proof. unfold UnlinkAfterAcquire. untaken. Qed.
#[local] Hint Resolve UnlinkAfterAcquire_untaken : untaken.

Lemma ExitEpilog_untaken Wakee :
  preserves (unowned_unless_taken current t0) (ExitEpilog current Wakee).
Proof. unfold ExitEpilog. untaken. Qed.
#[local] Hint Resolve ExitEpilog_untaken : untaken.

Lemma exit_untaken fuel not_suspended :
  preserves (unowned_unless_taken current t0) (exit cfg fuel current not_suspended).
Proof. unfold exit. untaken. Qed.
#[local] Hint Resolve exit_untaken : untaken.

Lemma install_displaced_markword_in_object_untaken obj :
  preserves (unowned_unless_taken current t0) (install_displaced_markword_in_object cfg obj).
Proof. unfold install_displaced_markword_in_object. untaken. Qed.
#[local] Hint Resolve install_displaced_markword_in_object_untaken : untaken.

Lemma EnterI_untaken fuel :
  preserves (unowned_unless_taken current t0) (EnterI cfg fuel current).
Proof. unfold EnterI. untaken. Qed.
#[local] Hint Resolve EnterI_untaken : untaken.

Lemma VThreadMonitorEnter_untaken fuel waiter :
  preserves (unowned_unless_taken current t0) (VThreadMonitorEnter fuel current waiter).
Proof. unfold VThreadMonitorEnter. untaken. Qed.
#[local] Hint Resolve VThreadMonitorEnter_untaken : untaken.

Lemma ExitOnSuspend_untaken fuel :
  preserves (unowned_unless_taken current t0) (ExitOnSuspend cfg fuel current).
Proof. unfold ExitOnSuspend. untaken. Qed.
#[local] Hint Resolve ExitOnSuspend_untaken : untaken.

Lemma enter_untaken fuel :
  preserves (unowned_unless_taken current t0) (enter cfg fuel current).
Proof. unfold enter. untaken. Qed.

End Untaken.

(** ** enter: the virtual thread that is queued *)

Lemma wp_conj {A} (m : M A) (Q1 Q2 : A -> Exec -> Prop) (e : Exec) :
  wp m Q1 e -> wp m Q2 e -> wp m (fun a e' => Q1 a e' /\ Q2 a e') e.
Proof. unfold wp. destruct (m e); auto. Qed.

Lemma failed_takes_nothing (current : Z) (ev : Event) :
  failed current ev -> ~ takes current ev.
Proof. destruct ev; simpl; try tauto. intros (-> & _ & Hne) (_ & E). congruence. Qed.

Lemma answers_true_ret : answers_true (ret true).
Proof. intros e r e' H. injection H as <- _. reflexivity. Qed.

Lemma answers_true_bind {A} (m : M A) (k : A -> M bool) :
  (forall a, answers_true (k a)) -> answers_true (bind m k).
Proof.
  intros Hk e r e' H. unfold bind in H. destruct (m e) as [a e1| |]; [|discriminate..].
  exact (Hk a e1 r e' H).
Qed.

Lemma wp_answers_true (m : M bool) (Phi : Exec -> Prop) (e : Exec) :
  answers_true m -> wp m (fun r e' => r = false -> Phi e') e.
Proof.
  intros Hm. unfold wp. destruct (m e) as [r e'| |] eqn:E; [|exact I..].
  rewrite (Hm e r e' E). discriminate.
Qed.

Ltac true_answer :=
  apply wp_answers_true; repeat (apply answers_true_bind; intros ?); apply answers_true_ret.

Section Queued.
Variable cfg : Config.
Variable current : Z.
Variable t0 : list Event.

Lemma tried_record o t evs :
  tried current t0 o t -> Forall (fun ev => ~ takes current ev) evs ->
  tried current t0 o (record t evs).
Proof.
  intros (ext & -> & Hext & Ho) Hevs. exists (ext ++ evs).
  split; [rewrite record_app, app_assoc; reflexivity|].
  split; [apply Forall_app; split; assumption|].
  destruct o as [[node nxt]|]; [apply in_or_app; left; exact Ho|exact I].
Qed.

Lemma tried_atomic {A B} o (f : World -> option (A * World)) (ev : A -> list Event)
    (k : A -> M B) (R : B -> Exec -> Prop) (e : Exec) :
  tried current t0 o (trace e) ->
  (forall a, Forall (fun ev => ~ takes current ev) (ev a)) ->
  (forall a e', tried current t0 o (trace e') -> wp (k a) R e') ->
  wp (bind (atomic f ev) k) R e.
Proof.
  intros H Hev Hk. apply wp_bind, wp_atomic. intros a w' _.
  apply Hk. simpl. apply tried_record; [exact H|apply Hev].
Qed.

Lemma tried_local {A B} o (f : World -> A * World) (ev : A -> list Event)
    (k : A -> M B) (R : B -> Exec -> Prop) (e : Exec) :
  tried current t0 o (trace e) ->
  (forall a, Forall (fun ev => ~ takes current ev) (ev a)) ->
  (forall a e', tried current t0 o (trace e') -> wp (k a) R e') ->
  wp (bind (local f ev) k) R e.
Proof.
  intros H Hev Hk. apply wp_bind, wp_local. intros a w' _.
  apply Hk. simpl. apply tried_record; [exact H|apply Hev].
Qed.

(** An attempt on the owner slot that does not succeed. *)
Lemma TryLock_tried {B} o (k : TryLockResult -> M B) (R : B -> Exec -> Prop) (e : Exec) :
  tried current t0 o (trace e) ->
  (forall e', wp (k Success) R e') ->
  (forall r e', r <> Success -> tried current t0 o (trace e') -> wp (k r) R e') ->
  wp (bind (TryLock current) k) R e.
Proof.
  intros H Hwin Hlose. apply wp_bind. unfold TryLock, owner_raw, load.
  apply (tried_atomic o); [exact H|constructor|]. intros own e1 H1.
  destruct (decide (own <> NoOwner)); [apply wp_ret, Hlose; [discriminate|exact H1]|].
  unfold try_set_owner_from. apply wp_bind, wp_atomic. intros prev w' _.
  destruct (decide (prev = NoOwner)); apply wp_ret; [apply Hwin|].
  apply Hlose; [discriminate|].
  apply (tried_record o (trace e1) [EvTrySetOwner NoOwner (owner_for current) prev]);
    [exact H1|].
  repeat constructor. simpl. intros [_ E]. contradiction.
Qed.

Lemma tried_push t node nxt :
  tried current t0 None t ->
  tried current t0 (Some (node, nxt)) (record t [EvCasCxq nxt node nxt]).
Proof.
  intros (ext & -> & Hext & _). exists (ext ++ [EvCasCxq nxt node nxt]).
  split; [rewrite record_app, app_assoc; reflexivity|].
  split; [apply Forall_app; split; [exact Hext|]; repeat constructor; simpl; tauto|].
  apply in_or_app. right. left. reflexivity.
Qed.

(** [VThreadMonitorEnter] answers false only once it has pushed the waiter
    it keeps in the stack chunk of the virtual thread, and without having
    put [current] in the owner slot. *)
Lemma VThreadMonitorEnter_queues fuel waiter e :
  tried current t0 None (trace e) ->
  wp (VThreadMonitorEnter fuel current waiter)
    (fun r e' => r = false ->
       exists node nxt vth vt,
         tried current t0 (Some (node, nxt)) (trace e') /\
         vthreads (world e') !! vth = Some vt /\ vt_object_waiter vt = node) e.
Proof.
  intros H. unfold VThreadMonitorEnter.
  apply (TryLock_tried None); [exact H| |].
  { intros e'. rewrite decide_True by reflexivity. true_answer. }
  clear e H. intros r e Hr H. rewrite decide_False by exact Hr.
  unfold try_set_owner_from at 1. apply wp_bind, wp_atomic. intros prev w1 _.
  destruct (decide (prev = DEFLATER_MARKER)) as [Hd|Hd]; [apply wp_ret; discriminate|].
  pose proof (tried_record None (trace e)
                [EvTrySetOwner DEFLATER_MARKER (owner_for current) prev] H) as H1.
  lazymatch goal with
  | |- wp _ _ ?e1 =>
      assert (H2 : tried current t0 None (trace e1))
        by (apply H1; repeat constructor; simpl; intros [_ E]; contradiction)
  end.
  clear H H1. unfold self_load.
  apply (tried_local None); [exact H2|constructor|]. clear H2. intros vth e2 H2.
  apply wp_bind.
  apply wp_mono with (Q := fun _ e' => tried current t0 None (trace e')).
  { destruct (negb (waiter =? nullptr)); [apply wp_ret; exact H2|].
    unfold new_node. apply wp_atomic. intros a w' _.
    apply (tried_record None); [exact H2|constructor]. }
  clear e2 H2. intros node e2 H2.
  unfold node_store at 1. apply (tried_atomic None); [exact H2|constructor|].
  clear e2 H2. intros [] e2 H2.
  unfold node_store at 1. apply (tried_atomic None); [exact H2|constructor|].
  clear e2 H2. intros [] e2 H2.
  apply wp_bind.
  apply wp_mono with
    (Q := fun pushed e' =>
            match pushed with
            | Some nxt => tried current t0 (Some (node, nxt)) (trace e')
            | None => True
            end).
  { apply (wp_loop (fun _ e' => tried current t0 None (trace e'))); [|exact H2].
    clear e2 H2. intros [] e2 H2.
    unfold load at 1. apply (tried_atomic None); [exact H2|constructor|].
    clear e2 H2. intros nxt e2 H2.
    unfold node_store at 1. apply (tried_atomic None); [exact H2|constructor|].
    clear e2 H2. intros [] e2 H2.
    unfold cmpxchg_cxq. apply wp_bind, wp_atomic. intros prev' w' _.
    destruct (Z.eqb_spec prev' nxt) as [->|Hne].
    - apply wp_ret. apply tried_push. exact H2.
    - apply (TryLock_tried None).
      + apply (tried_record None (trace e2) [EvCasCxq nxt node prev']); [exact H2|].
        repeat constructor. simpl. tauto.
      + intros e3. rewrite decide_True by reflexivity. apply wp_ret. exact I.
      + intros r3 e3 Hr3 H3. rewrite decide_False by exact Hr3. apply wp_ret. exact H3. }
  clear e2 H2. intros [nxt|] e2 H2; [|true_answer].
  apply (TryLock_tried (Some (node, nxt))); [exact H2| |].
  { intros e'. rewrite decide_True by reflexivity. true_answer. }
  clear e2 H2. intros r2 e2 Hr2 H2. rewrite decide_False by exact Hr2.
  apply wp_bind.
  apply wp_mono with (Q := fun _ e' => tried current t0 (Some (node, nxt)) (trace e')).
  { destruct (nxt =? nullptr); [|apply wp_ret; exact H2].
    unfold load. apply (tried_atomic (Some (node, nxt))); [exact H2|constructor|].
    intros el e3 H3. apply wp_ret. exact H3. }
  clear e2 H2. intros onset e2 H2.
  apply wp_bind.
  apply wp_mono with (Q := fun _ e' => tried current t0 (Some (node, nxt)) (trace e')).
  { apply wp_when; intros _; [|exact H2].
    unfold vt_load. apply (tried_atomic (Some (node, nxt))); [exact H2|constructor|].
    intros tid e3 H3.
    unfold replace_if_null_Responsible.
    apply (tried_atomic (Some (node, nxt))); [exact H3|constructor|].
    intros won e4 H4. apply wp_when; intros _; [|exact H4].
    unfold vt_store. apply wp_atomic. intros a w' _.
    apply (tried_record (Some (node, nxt))); [exact H4|constructor]. }
  clear e2 H2. intros [] e2 H2.
  unfold vt_store at 1. apply (tried_atomic (Some (node, nxt))); [exact H2|constructor|].
  clear e2 H2. intros [] e2 H2.
  unfold vt_store. apply wp_bind, wp_atomic. intros [] w' Hf.
  apply wp_ret. intros _.
  destruct (vthreads (interfere e2) !! vth) as [vt|] eqn:Evt; [|discriminate Hf].
  simpl in Hf. injection Hf as <-.
  exists node, nxt, vth, (set_vt_object_waiter node vt).
  split; [exact H2|]. split; [apply lookup_insert_eq|reflexivity].
Qed.

End Queued.

Section EnterQueued.
Variable cfg : Config.
Variable current : Z.

#[local] Hint Resolve UnlinkAfterAcquire_holding : pres.
#[local] Hint Resolve exit_running : pres.

(** [enter] along its branches: it answers true with the caller as owner,
    or from the frozen branch with the waiter queued, and false from the
    branch that saw [_contentions] negative. *)
Lemma enter_owned_or_queued fuel (e : Exec) :
  env_ok (owner_stable current) e ->
  wp (enter cfg fuel current)
    (fun r e' =>
       (r = true -> owned current e' \/ queued cfg current (trace e) e') /\
       (r = false -> retried (trace e) (trace e'))) e.
Proof.
  intros Henv.
  assert (He : running (owner_stable current) (trace e) e) by (split; [exact Henv|apply continues_refl]).
  assert (Htr : tried current (trace e) None (trace e)).
  { exists []. split; [symmetry; apply app_nil_r|]. split; [constructor|exact I]. }
  remember (trace e) as t0 eqn:Et0. rewrite Et0 in Htr at 2. clear Henv.
  unfold enter. wp_steps.
  1-2: split; [intros _; left; solve_owned|discriminate].
  assert (Htr0 : emits (fun ev => ~ takes current ev) t0 e0).
  { destruct Htr as (ext & Hext & Hall & _). exists (ext ++ [EvTrySetOwner NoOwner (owner_for current) (_owner (mon (interfere e)))]).
    split; [rewrite Ht, record_app, Hext, app_assoc; reflexivity|].
    apply Forall_app. split; [exact Hall|]. repeat constructor. simpl. intros [_ E]. contradiction. }
  eapply wp_mono.
  { apply wp_conj;
      [apply (TrySpin_spec cfg current t0); exact He0
      |apply (TrySpin_took cfg (fun ev => ~ takes current ev) (fun _ => True) current
                (failed_takes_nothing current) t0); exact Htr0]. }
  intros spun e1 [[He1 Ho1] Htook].
  destruct spun; [wp_step; split; [left; apply Ho1; reflexivity|discriminate]|].
  simpl in Htook. clear Ho1. cbv iota.
  pose proof (proj2 He1) as Hspun.
  wp_step. wp_step. wp_step. wp_step. wp_step. wp_step. wp_step. wp_step.
  - (* RETRY *)
    destruct Hspun as [before Hbefore].
    apply Z.ltb_lt in Heqb.
    wp_step. wp_step. wp_step.
    + eapply wp_mono;
        [apply install_displaced_markword_in_object_spec; eassumption|].
      intros [] e5 [He5 (mid & Hmid & Hfor)]. wp_steps.
      split; [discriminate|intros _].
      eexists before, _, mid. split; [|split; [exact Heqb|exact Hfor]].
      trace_back. rewrite <- !app_assoc. reflexivity.
    + wp_steps. split; [discriminate|intros _].
      eexists before, _, []. split; [|split; [exact Heqb|constructor]].
      trace_back. rewrite <- !app_assoc. reflexivity.
  - (* contended entry *)
    wp_step. wp_step. wp_step.
    lazymatch goal with
    | |- wp _ (fun a e' => wp (if a then ret true else ?tail) ?Q e') _ =>
        assert (Htail : forall e', running (owner_stable current) t0 e' -> wp tail Q e')
    end.
    { clear. intros e He. wp_step.
      eapply wp_mono.
      { apply (wp_loop (fun _ e => running (owner_stable current) t0 e) _
                 (fun _ e => holding current t0 e)); [|assumption].
        intros [] e1 He1. wp_step. wp_call (EnterI_spec cfg current t0).
        wp_step.
        eapply wp_mono;
          [wp_pres (holding current t0); assumption|].
        intros [] e2 Hh. wp_step.
        wp_call (ExitOnSuspend_spec cfg current t0).
        wp_step; wp_step; [assumption|know; split; assumption]. }
      intros [] e1 [He1' Ho]. wp_steps.
      split; [intros _; left; solve_owned|discriminate]. }
    repeat first [apply Htail; assumption|wp_step].
    destruct Htook as (ext1 & Hext1 & Hall1).
    assert (Et7 : trace e7 = t0 ++ ext1 ++ [EvAddContentions 1;
                    EvContentions (_contentions (mon (interfere e2)));
                    EvTryPreempt freeze_ok]).
    { trace_back. rewrite e8, <- !app_assoc. reflexivity. }
    assert (Htr7 : tried current t0 None (trace e7)).
    { eexists. split; [exact Et7|]. split; [|exact I].
      apply Forall_app. split; [exact Hall1|]. repeat constructor; simpl; tauto. }
    pose proof (running_restart _ _ _ He7) as Hnow.
    eapply wp_mono.
    { apply wp_conj;
        [apply wp_conj;
           [apply (VThreadMonitorEnter_spec current t0); exact He7
           |apply (VThreadMonitorEnter_spec current (trace e7)); exact Hnow]
        |apply VThreadMonitorEnter_queues; exact Htr7]. }
    intros acquired e9 [[[He9 Ho9] [[_ [x Hx]] _]] Hq].
    destruct acquired.
    + specialize (Ho9 eq_refl). wp_steps.
      all: split; [intros _; left|discriminate].
      all: unfold owned in *.
      all: repeat match goal with H : world _ = _ |- _ => rewrite H; clear H end.
      all: exact Ho9.
    + destruct (Hq eq_refl) as (node & nxt & vth & vt & (ext9 & Hext9 & Hall9 & Hin9) & Hvt & Hnode).
      assert (E9 : ext9 = (ext1 ++ [EvAddContentions 1;
                    EvContentions (_contentions (mon (interfere e2)));
                    EvTryPreempt freeze_ok]) ++ x).
      { apply (app_inv_head t0). rewrite <- Hext9, Hx, Et7, <- !app_assoc. reflexivity. }
      wp_steps.
      all: split; [intros _; right|discriminate].
      all: split; [assumption|]; exists ext9, node, nxt, vth, vt.
      all: split; [trace_back; reflexivity|].
      all: split; [exact Hall9|]; split; [|split; [exact Hin9|]].
      all: try (rewrite E9; apply in_or_app; left; apply in_or_app; right; simpl; tauto).
      all: split; [|exact Hnode].
      all: repeat match goal with H : world _ = _ |- _ => rewrite H; clear H end.
      all: exact Hvt.
Qed.



End EnterQueued.

(** A thread that holds the monitor enters it again without reaching
    [try_preempt]. *)
Lemma enter_again_is_not_queued (cfg : Config) (current : Z) (fuel : nat) (e : Exec) :
  env_ok (owner_stable current) e -> owned current e ->
  wp (enter cfg fuel current) (fun _ e' => ~ queued cfg current (trace e) e') e.
Proof.
  intros Henv Ho.
  assert (He : running (owner_stable current) (trace e) e)
    by (split; [exact Henv|apply continues_refl]).
  pose proof (owned_interfere current (trace e) e He Ho) as Hi.
  unfold enter. wp_step. unfold try_set_owner_from. apply wp_atomic. intros a w' Hstep.
  inversion Hstep; subst a w'; clear Hstep. rewrite Hi. cbn [trace world].
  destruct (decide (owner_for current = NoOwner)) as [E|_]; [discriminate|].
  destruct (decide (owner_for current = owner_for current)) as [_|N]; [|contradiction].
  wp_steps.
  intros (_ & ext & node & nxt & vth & vt & Hext & _ & Hin & _).
  revert Hext. trace_back. rewrite <- ?app_assoc. intros Hext.
  apply app_inv_head in Hext. subst ext.
  simpl in Hin. intuition discriminate.
Qed.



